(* ===== verification/_CoqProject ===== *)
-Q . S2P
Prelude.v
Strconv.v
Json.v
Bitset.v
Model.v
KvModel.v
Linearizability.v
NodeList.v
Checker.v
ListSearch.v
ListSearchProof.v
CheckerProof.v
Operations.v
KvSpec.v
Locality.v
Events.v
Parallel.v
ParallelProof.v
EntryPoints.v
Visualization.v
Html.v
VisualizationPage.v
Labrpc.v
LabrpcSteps.v
LabrpcProof.v
LabrpcCut.v
Labgob.v
NetAdmin.v
Random.v
MapReduce.v
MapReduceProof.v
MrApps.v
MrAppsProof.v
Mr.v
MrWorker.v
Commands.v
Raft.v
RaftServer.v
Kvraft.v
Shardmaster.v
Shardkv.v
KvConfig.v
KvConfigProof.v
KvRestart.v
SmConfig.v
HarnessCalls.v
ShardkvConfig.v
ShardkvConfigProof.v
ShardkvStart.v
RaftConfig.v
RaftConfigProof.v
RaftChecks.v
