(* ===== verification/Prelude.v ===== *)
(** * A verification library for the 6.824 lab code base

    The repository is a working copy of the MIT 6.824 labs in Go: a vendored
    linearizability checker (src/src/porcupine), a simulated network
    (src/src/labrpc), an encoder wrapper (src/src/labgob), MapReduce
    (src/src/mr, src/src/mrapps, src/src/main), the Raft skeleton and the three
    services built on it (src/src/raft, kvraft, shardmaster, shardkv), each with
    the harness that its tests run it under.  This development models these
    parts as executable definitions and proves what they promise.

    ** How the parts interact

    The tests of a service make a harness ([make_config]), which builds a
    network, a server object per replica and the ends between them, and then
    partitions the network, crashes and restarts servers, and records the
    history of the clients' operations.  The checker decides whether a
    recorded history is linearizable with respect to a model of the service.
    The development follows that order: checker, network, encoder, MapReduce,
    peer and services, harnesses.

    ** Conventions

    - A Go function that can panic, exit ([log.Fatalf], [t.Fatalf]) or loop
      forever returns an [outcome]; loops that are not structural take fuel
      or a number of rounds, and a theorem says how much is enough.
    - Integers are [Z]; where the code depends on the width, the value is
      wrapped explicitly ([wrap_int], or [mod] of a power of two).
    - Objects that the code shares by pointer live in heaps ([gmap]s from
      locations): list nodes, persisters, peers, servers.
    - Slices are lists with [slice_get] and [slice_set], which panic out of
      range; maps are [gmap]s, and where the code ranges over a map the order
      is a parameter.
    - What the code does not determine is an argument: the clock, the bytes
      and numbers that crypto/rand and math/rand answer, the file system and
      sockets, [sort.Sort] (class [GoSort], by the laws of sorting), packages
      gob and rpc, [unicode.IsLetter] and [unicode.IsUpper], what a remote call
      answers.  The harnesses take the names that they draw with [randstring]
      as arguments, and [HarnessCalls] supplies them from the random bytes.
    - An end of the network ([ClientEnd]) is its name: its channels are those
      of the network, which the step relation stands for.
    - Goroutines are step relations over explicit states.

    ** Files

    - Prelude: outcomes, slices, tactics, hint databases, list lemmas.
    - Strconv: UTF-8, the order of strings, [Itoa], [ParseInt], [ParseBool].
    - Json: the text that [json.Marshal] writes, and a reader that gets the
      value back from it.  Both are packages of Go that several parts use.

    Checker (src/src/porcupine, src/src/models):
    - Bitset (bitset.go): the methods on 64-bit words; they implement finite
      sets of naturals, and panic exactly out of range.
    - Model (model.go, checker.go): operations, events, entries and their
      order, [makeEntries], [renumber], [convertEntries], [fillDefault].
    - KvModel (models/kv.go), KvSpec, Locality: the key/value model, its
      instance of the interface [ModelSpec], and that partition by key is
      sound and complete.
    - Linearizability: the specification that the checker decides.
    - NodeList, Checker (checker.go): the doubly linked list in a heap with
      [lift] and [unlift], and [checkSingle] on it.
    - ListSearch, ListSearchProof, CheckerProof: the same search on a
      functional list, its correctness, and the simulation of one by the other;
      so [checkSingle] terminates within [search_fuel] iterations, does not
      panic, and decides linearizability.
    - Operations, Events: histories become well-formed entry lists.
    - Parallel, ParallelProof: [checkParallel] as a step relation of the
      goroutines, the timer and the caller; safety, progress, termination, and
      the history without partitions, on which it never returns.
    - EntryPoints (porcupine.go): the six entry points end to end.
    - Visualization, Html, VisualizationPage (visualization.go):
      [computeVisualizationData]; the page, piece by piece; [Visualize], which
      writes the data of what the checker found into the page, from which a
      JSON reader gets them back.

    Network and encoder (src/src/labrpc, src/src/labgob):
    - Labrpc, LabrpcSteps, LabrpcProof, LabrpcCut (labrpc.go): administration,
      servers and dispatch, and every goroutine of an RPC as a step relation;
      what a reply means, counts, progress, deleted servers, reliable
      networks, and calls over an end that stays disabled.
    - Labgob (labgob.go): the walk over types and values, its warnings, and the
      panic of package reflect that a warning may run into.
    - NetAdmin: the lemmas on ends that the harnesses share, with the loops in
      which they make ends.
    - Random: [randstring] over base64, [makeSeed], [nrand] and the clock test
      [checkTimeout], which the harnesses and clerks all repeat; names are
      as different as the random bytes they are made of.

    MapReduce (src/src/mr, src/src/mrapps, src/src/main):
    - MapReduce, MapReduceProof: the sequential program refines a
      specification by grouping; the hash.
    - MrApps, MrAppsProof: the six plugins; word count counts, the indexer
      indexes, crash that does not crash is nocrash.
    - Mr, MrWorker: the draft of the distributed version, function by function:
      the master, the worker's calls to it, its intermediate file, and the
      programs mrworker and mrmaster.  [split] loses the bytes of the file,
      [GetTask] hands out one task repeatedly, no worker gets a task, and
      mrmaster never ends.
    - Commands: diskvd, lockc, lockd, pbc, pbd and viewd (src/src/main): the
      arguments of diskvd are parsed back to what they were made from.

    Peer and services (src/src/raft, kvraft, shardmaster, shardkv):
    - Raft (persister.go, raft.go): persisters in a heap and the skeleton peer.
    - RaftServer: the class of servers that own a peer, against which the
      service harness is written and proved.
    - Kvraft, Shardmaster, Shardkv: servers and clerks; what the retry loops of
      the shardmaster's and of the sharded clerk return.

    Harnesses (config.go of raft, kvraft, shardmaster, shardkv):
    - RaftConfig, RaftConfigProof, RaftChecks: connections follow the books
      through any sequence of operations, a restarted peer is cut off from its
      predecessor, and what each check of the harness establishes.
    - KvConfig, KvConfigProof, KvRestart: the harness of a replicated service:
      shuffling, partitions, restarts ([kinv] is its invariant).
    - SmConfig: the shardmaster's harness as the instance of KvConfig.
    - HarnessCalls: network and harness together: what a partition and a
      restart mean for the calls of the servers under any run of the network.
    - ShardkvConfig, ShardkvConfigProof, ShardkvStart: the harness of the
      sharded service ([sinv] is its invariant).

    ** Bounds and fuel

    [search_fuel] is [(e + 2) ^ (e / 2 + 1)] for a history of [e] entries: the
    stack of the backtracking search holds at most [e / 2] positions, each
    among [e + 2], and the search never returns to a stack that it left.
    [checkType] needs more fuel than there are types.  The reduce loop
    of mrsequential has one unit per pair, and one to stop; [split] one per
    byte.  The loops of the clerks run forever until somebody answers, so they
    take a number of rounds, and the theorems say what holds while they run
    and when they return.

    ** Not modelled

    - What the JavaScript of the checker's page does: it is text here.
    - What the programs print, unless another part reads it.
    - Packages that are not in the repository: gob, rpc, plugin, and the
      services (diskv, lockservice, pbservice, viewservice) that six of the
      programs start; they are arguments.
    - Types without content (the empty [Op]), and [Err] apart from [string].
    - The tests themselves; a Raft protocol or a replicated service, which the
      skeletons do not contain: handlers without a body are modelled without
      one. *)
From stdpp Require Import base gmap sets list strings numbers sorting.

(** ** Outcomes of Go code

    A Go function of the models either returns, or panics at run time (nil
    dereference, index out of range, failed type assertion, call of a nil
    function, [log.Fatalf]), or, for a loop that is not structurally
    recursive, exhausts the fuel of its model.  Theorems about looping code
    state that the fuel is enough, so [NoFuel] is never the answer of a
    proved function. *)
Inductive outcome (A : Type) : Type :=
| Ret (a : A)
| Panic
| NoFuel.
Arguments Ret {A} a.
Arguments Panic {A}.
Arguments NoFuel {A}.

Definition obind {A B : Type} (m : outcome A) (k : A → outcome B) : outcome B :=
  match m with
  | Ret a => k a
  | Panic => Panic
  | NoFuel => NoFuel
  end.

Definition omap_ret {A B : Type} (f : A → B) (m : outcome A) : outcome B :=
  obind m (λ a, Ret (f a)).

(** A partial operation of the language (a slice access, a map access that
    is dereferenced) panics where it is undefined. *)
Definition or_panic {A : Type} (o : option A) : outcome A :=
  match o with
  | Some a => Ret a
  | None => Panic
  end.

Declare Scope go_scope.
Delimit Scope go_scope with go.
Notation "'let!' x := m 'in' k" := (obind m (λ x, k))
  (at level 10, x name, m at level 100, k at level 200) : go_scope.
Notation "'let!' ' p := m 'in' k" := (obind m (λ x, match x with p => k end))
  (at level 10, p pattern, m at level 100, k at level 200) : go_scope.
Notation "m1 ;;; m2" := (obind m1 (λ _, m2))
  (at level 100, m2 at level 200, right associativity) : go_scope.

Definition returns {A : Type} (m : outcome A) : Prop := ∃ a, m = Ret a.

Lemma obind_Ret_inv {A B : Type} (m : outcome A) (k : A → outcome B) b :
  obind m k = Ret b → ∃ a, m = Ret a ∧ k a = Ret b.
Proof. destruct m; simpl; naive_solver. Qed.

Lemma or_panic_Ret {A : Type} (o : option A) a : or_panic o = Ret a ↔ o = Some a.
Proof. destruct o; simpl; naive_solver. Qed.

Lemma obind_Ret {A B : Type} (a : A) (k : A → outcome B) : obind (Ret a) k = k a.
Proof. done. Qed.

Lemma obind_assoc {A B C : Type} (m : outcome A) (f : A → outcome B) (g : B → outcome C) :
  obind (obind m f) g = obind m (λ a, obind (f a) g).
Proof. by destruct m. Qed.

Lemma omap_ret_Ret {A B : Type} (f : A → B) (m : outcome A) b :
  omap_ret f m = Ret b ↔ ∃ a, m = Ret a ∧ b = f a.
Proof. destruct m; unfold omap_ret; simpl; naive_solver. Qed.

(** Splits every bind of a hypothesis that says the whole returned. *)
Ltac inv_ret :=
  repeat match goal with
  | H : obind _ _ = Ret _ |- _ =>
      let a := fresh "v" in let H1 := fresh "Hv" in let H2 := fresh "Hk" in
      apply obind_Ret_inv in H; destruct H as (a & H1 & H2); simpl in H2
  | H : or_panic _ = Ret _ |- _ => apply or_panic_Ret in H
  | H : Ret _ = Ret _ |- _ => injection H as H
  | H : Panic = Ret _ |- _ => discriminate H
  | H : NoFuel = Ret _ |- _ => discriminate H
  end.

(** ** Hint databases

    [go] holds the facts that close the side conditions of the models
    (bounds, well-formedness); [go_rw] the rewriting rules that evaluate the
    operations of a component on well-formed states. *)
Create HintDb go discriminated.
Create HintDb go_rw.

(** Evaluates binds whose first computation is already a value. *)
Ltac go_step := progress (simpl obind in *; simpl or_panic in *).

(** ** Slices indexed by Go integers *)

Abbreviation zlen l := (Z.of_nat (length l)).

(** Go indexes slices by (signed or unsigned) integers; a negative index, or
    one past the end, panics. *)
Definition slice_get {A : Type} (l : list A) (i : Z) : outcome A :=
  if bool_decide (0 ≤ i)%Z then or_panic (l !! Z.to_nat i) else Panic.

Definition slice_set {A : Type} (l : list A) (i : Z) (a : A) : outcome (list A) :=
  if bool_decide (0 ≤ i < zlen l)%Z then Ret (<[Z.to_nat i := a]> l) else Panic.

Lemma slice_get_Ret {A : Type} (l : list A) i a :
  slice_get l i = Ret a ↔ (0 ≤ i)%Z ∧ l !! Z.to_nat i = Some a.
Proof. unfold slice_get. case_bool_decide; rewrite ?or_panic_Ret; naive_solver. Qed.

Lemma slice_set_Ret {A : Type} (l l' : list A) i a :
  slice_set l i a = Ret l' ↔ (0 ≤ i < zlen l)%Z ∧ l' = <[Z.to_nat i := a]> l.
Proof. unfold slice_set. case_bool_decide; naive_solver. Qed.

Lemma slice_get_in_range {A : Type} (l : list A) i :
  (0 ≤ i < zlen l)%Z → ∃ a, slice_get l i = Ret a ∧ l !! Z.to_nat i = Some a.
Proof.
  intros Hi. destruct (lookup_lt_is_Some_2 l (Z.to_nat i)) as [a Ha]; [lia|].
  exists a. rewrite slice_get_Ret. split; [split; [lia|done]|done].
Qed.

(** ** Generic list lemmas *)

Lemma NoDup_app_disjoint {A : Type} (l1 l2 : list A) x :
  NoDup (l1 ++ l2) → x ∈ l1 → x ∈ l2 → False.
Proof. rewrite NoDup_app. naive_solver. Qed.

Lemma head_app_cons {A : Type} (l : list A) (x : A) (k : list A) :
  l ≠ [] → head (l ++ k) = head l.
Proof. by destruct l. Qed.

Lemma last_snoc_inv {A : Type} (l : list A) (x : A) :
  last l = Some x → ∃ l', l = l' ++ [x].
Proof. rewrite last_Some. done. Qed.

Lemma filter_ext_in {A : Type} (P Q : A → Prop) `{∀ x, Decision (P x), ∀ x, Decision (Q x)}
    (l : list A) :
  (∀ x, x ∈ l → P x ↔ Q x) → filter P l = filter Q l.
Proof.
  induction l as [|x l IH]; intros HPQ; [done|]. rewrite !filter_cons.
  rewrite IH by (intros y Hy; apply HPQ; by right).
  pose proof (HPQ x (list_elem_of_here x l)). repeat case_decide; naive_solver.
Qed.

Lemma filter_fmap {A B : Type} (f : A → B) (P : B → Prop) `{∀ x, Decision (P x)} (l : list A) :
  filter P (f <$> l) = f <$> filter (λ x, P (f x)) l.
Proof.
  induction l as [|x l IH]; [done|]. rewrite fmap_cons, !filter_cons.
  case_decide; by rewrite IH.
Qed.

(** A decomposition of a filtered list comes from one of the list. *)
Lemma filter_cons_inv {A : Type} (P : A → Prop) `{∀ x, Decision (P x)} (l l1 l2 : list A) x :
  filter P l = l1 ++ x :: l2 →
  ∃ k1 k2, l = k1 ++ x :: k2 ∧ filter P k1 = l1 ∧ filter P k2 = l2.
Proof.
  revert l1. induction l as [|y l IH]; intros l1 Hl; [by destruct l1|].
  rewrite filter_cons in Hl. case_decide as Hy.
  - destruct l1 as [|z l1]; injection Hl as -> Hl.
    + by exists [], l.
    + destruct (IH l1 Hl) as (k1 & k2 & -> & Hk1 & Hk2).
      exists (z :: k1), k2. by rewrite filter_cons_True, Hk1.
  - destruct (IH l1 Hl) as (k1 & k2 & -> & Hk1 & Hk2).
    exists (y :: k1), k2. by rewrite filter_cons_False, Hk1.
Qed.

(** An element of a duplicate-free list has one position. *)
Lemma NoDup_app_cons_inj {A : Type} (l1 l2 k1 k2 : list A) x :
  NoDup (l1 ++ x :: l2) → l1 ++ x :: l2 = k1 ++ x :: k2 → l1 = k1 ∧ l2 = k2.
Proof.
  revert k1. induction l1 as [|y l1 IH]; intros [|z k1]; simpl; intros Hnd Heq.
  - naive_solver.
  - injection Heq as <- ->. apply NoDup_cons in Hnd as [Hnd _]. set_solver.
  - injection Heq as -> <-. apply NoDup_cons in Hnd as [Hnd _]. set_solver.
  - injection Heq as <- Heq. apply NoDup_cons in Hnd as [_ Hnd].
    destruct (IH _ Hnd Heq) as [-> ->]. done.
Qed.

Lemma StronglySorted_impl_in {A : Type} (R1 R2 : relation A) (l : list A) :
  StronglySorted R1 l → (∀ x y, x ∈ l → y ∈ l → R1 x y → R2 x y) → StronglySorted R2 l.
Proof.
  induction 1 as [|x l Hl IH Hx]; intros HR; constructor.
  - apply IH. intros y z Hy Hz. apply HR; by right.
  - rewrite Forall_forall in *. intros y Hy. apply HR; [left|by right|by apply Hx].
Qed.

Lemma StronglySorted_snoc {A : Type} (R : relation A) (l : list A) x :
  StronglySorted R l → Forall (λ y, R y x) l → StronglySorted R (l ++ [x]).
Proof.
  induction 1 as [|y l Hl IH Hy]; simpl; intros Hx.
  - by repeat constructor.
  - apply Forall_cons in Hx as [Hyx Hx]. constructor; [by apply IH|].
    apply Forall_app. by split; [|constructor].
Qed.

Lemma StronglySorted_Forall2 {A B : Type} (P : A → B → Prop) (R : relation A) (S : relation B) l k :
  Forall2 P l k → (∀ x y a b, P x a → P y b → R x y → S a b) →
  StronglySorted R l → StronglySorted S k.
Proof.
  intros HP HRS. induction HP as [|x a l k Hx Hl IH]; intros Hs; [constructor|].
  apply StronglySorted_cons in Hs as [Hall Hs]. constructor; [by apply IH|].
  clear IH Hs. induction Hl as [|y b l k Hy Hl IH]; [constructor|].
  apply Forall_cons in Hall as [Hxy Hall]. constructor; [by eapply HRS|by apply IH].
Qed.

Lemma sum_list_insert (l : list nat) (i k k' : nat) :
  l !! i = Some k → (sum_list (<[i := k']> l) + k = sum_list l + k')%nat.
Proof.
  revert i. induction l as [|x l IH]; intros [|i] Hi; simplify_eq/=; [unfold id; lia|].
  specialize (IH _ Hi). unfold id in *. lia.
Qed.

Lemma StronglySorted_fmap_iff {A B : Type} (f : A → B) (R : relation B) (l : list A) :
  StronglySorted R (f <$> l) ↔ StronglySorted (λ x y, R (f x) (f y)) l.
Proof.
  split; [|by apply StronglySorted_fmap].
  induction l as [|x l IH]; [constructor|]. rewrite fmap_cons.
  intros [Hx Hl]%StronglySorted_cons. constructor; [by apply IH|by rewrite Forall_fmap in Hx].
Qed.

Lemma filter_all {A : Type} (P : A → Prop) `{∀ x, Decision (P x)} (l : list A) :
  (∀ x, x ∈ l → P x) → filter P l = l.
Proof.
  induction l as [|x l IH]; intros Hl; [done|].
  rewrite filter_cons_True by (apply Hl; left). by rewrite IH by (intros; apply Hl; by right).
Qed.

Lemma filter_none {A : Type} (P : A → Prop) `{∀ x, Decision (P x)} (l : list A) :
  (∀ x, x ∈ l → ¬ P x) → filter P l = [].
Proof.
  induction l as [|x l IH]; intros Hl; [done|].
  rewrite filter_cons_False by (apply Hl; by left). apply IH. intros y Hy. apply Hl. by right.
Qed.

Lemma filter_split {A : Type} (P : A → Prop) `{∀ x, Decision (P x)} (l : list A) :
  filter P l ++ filter (λ x, ¬ P x) l ≡ₚ l.
Proof.
  induction l as [|x l IH]; [done|]. rewrite !filter_cons. destruct (decide (P x)) as [HP|HP].
  - rewrite decide_False by tauto. simpl. by rewrite IH.
  - rewrite decide_True by done. by rewrite <-Permutation_middle, IH.
Qed.

Lemma StronglySorted_filter {A : Type} (R : relation A) (P : A → Prop) `{∀ x, Decision (P x)} (l : list A) :
  StronglySorted R l → StronglySorted R (filter P l).
Proof.
  induction 1 as [|x l Hl IH Hx]; [constructor|]. rewrite filter_cons. case_decide; [|done].
  constructor; [done|]. rewrite Forall_forall in *. intros y [_ Hy]%list_elem_of_filter. by apply Hx.
Qed.

(** A list is the elements of each class, in any order of the classes. *)
Lemma concat_classes {A K : Type} `{EqDecision K} (f : A → K) (keys : list K) (l : list A) :
  NoDup keys → (∀ x, x ∈ l → f x ∈ keys) →
  concat ((λ k, filter (λ x, f x = k) l) <$> keys) ≡ₚ l.
Proof.
  intros Hnd. revert l. induction Hnd as [|k keys Hk Hnd IH]; intros l Hl.
  - destruct l as [|x l]; [done|]. destruct (not_elem_of_nil (f x)). apply Hl. left.
  - etransitivity; [|apply (filter_split (λ x, f x = k))]. simpl. apply Permutation_app_head.
    rewrite <-(IH (filter (λ x, f x ≠ k) l)).
    + apply reflexive_eq. f_equal. apply list_fmap_ext. intros i k' Hk'%list_elem_of_lookup_2.
      rewrite list_filter_filter. apply filter_ext_in. intros x _. naive_solver.
    + intros x [Hx Hin]%list_elem_of_filter. apply Hl, elem_of_cons in Hin as [?|?]; [congruence|done].
Qed.

Lemma Forall_choice {A K : Type} `{Countable K} (Q : K → A → Prop) (keys : list K) :
  Forall (λ k, ∃ a, Q k a) keys → ∃ m : gmap K A, ∀ k, k ∈ keys → ∃ a, m !! k = Some a ∧ Q k a.
Proof.
  induction 1 as [|k keys [a Ha] _ [m Hm]]; [by exists ∅; intros k ?%not_elem_of_nil|].
  exists (<[k := a]> m). intros k' Hk'. destruct (decide (k = k')) as [<-|Hne].
  - exists a. by rewrite lookup_insert_eq.
  - rewrite lookup_insert_ne by done. apply Hm. apply elem_of_cons in Hk' as [->|]; done.
Qed.

Lemma Forall_filter {A : Type} (Q P : A → Prop) `{∀ x, Decision (P x)} (l : list A) :
  Forall Q l → Forall Q (filter P l).
Proof. rewrite !Forall_forall. intros HQ x [_ Hx]%list_elem_of_filter. by apply HQ. Qed.

(** Counting, when one element changes. *)
Lemma length_filter_insert {A : Type} (P : A → Prop) `{∀ x, Decision (P x)} (l : list A) i x y :
  l !! i = Some x →
  (length (filter P (<[i := y]> l)) + (if decide (P x) then 1 else 0) =
   length (filter P l) + (if decide (P y) then 1 else 0))%nat.
Proof.
  revert i. induction l as [|z l IH]; intros [|i] Hi; simplify_eq/=.
  - rewrite !filter_cons. repeat case_decide; simpl; lia.
  - specialize (IH i Hi). rewrite !filter_cons. repeat case_decide; simpl in *; lia.
Qed.
