(* ===== verification/Strconv.v ===== *)
(** * Strings, runes and decimal numbers

    What the code uses of Go's strings and of package strconv: the bytes of a
    string, ranging over its runes, [strconv.Itoa], [ParseInt], [Atoi] and
    [ParseBool]; and that parsing a number gives back what was formatted. *)
From Stdlib Require Import Ascii NArith.
From stdpp Require Import base gmap sets numbers strings pretty list.
From S2P Require Import Prelude.

(** ** Runes

    Ranging over a string decodes UTF-8; a byte that starts no valid sequence
    is U+FFFD and one byte wide. *)
Section utf8.
Local Open Scope Z_scope.

Definition byte_of (c : ascii) : Z := Z.of_N (N_of_ascii c).

(** The number of bytes that follow a first byte, and the range of the first
    of them. *)
Definition utf8_first (b : Z) : option (nat * Z * Z) :=
  if bool_decide (0xC2 ≤ b ≤ 0xDF) then Some (1%nat, 0x80, 0xBF)
  else if bool_decide (b = 0xE0) then Some (2%nat, 0xA0, 0xBF)
  else if bool_decide (b = 0xED) then Some (2%nat, 0x80, 0x9F)
  else if bool_decide (0xE1 ≤ b ≤ 0xEF) then Some (2%nat, 0x80, 0xBF)
  else if bool_decide (b = 0xF0) then Some (3%nat, 0x90, 0xBF)
  else if bool_decide (0xF1 ≤ b ≤ 0xF3) then Some (3%nat, 0x80, 0xBF)
  else if bool_decide (b = 0xF4) then Some (3%nat, 0x80, 0x8F)
  else None.

(** The continuation bytes: 6 bits each. *)
Fixpoint utf8_rest (n : nat) (lo hi : Z) (s : string) (r : Z) : option Z :=
  match n with
  | O => Some r
  | S n' =>
      match s with
      | String c s' =>
          let b := byte_of c in
          if bool_decide (lo ≤ b ≤ hi) then utf8_rest n' 0x80 0xBF s' (Z.lor (Z.shiftl r 6) (Z.land b 0x3F))
          else None
      | EmptyString => None
      end
  end.

Definition RuneError : Z := 0xFFFD.

(** The first rune and how many bytes it takes. *)
Definition decode_rune (c : ascii) (s : string) : Z * nat :=
  let b := byte_of c in
  if bool_decide (b < 0x80) then (b, 1%nat)
  else
    match utf8_first b with
    | Some (n, lo, hi) =>
        let r := Z.land b (match n with 1%nat => 0x1F | 2%nat => 0x0F | _ => 0x07 end) in
        match utf8_rest n lo hi s r with
        | Some r => (r, S n)
        | None => (RuneError, 1%nat)
        end
    | None => (RuneError, 1%nat)
    end.
End utf8.

(** Bits put side by side are digits added. *)
Lemma lor_shiftl (a b n : Z) : (0 ≤ n → 0 ≤ b < 2 ^ n → Z.lor (Z.shiftl a n) b = a * 2 ^ n + b)%Z.
Proof.
  intros Hn Hb. rewrite <-Z.add_nocarry_lor; [by rewrite Z.shiftl_mul_pow2|].
  destruct (decide (b = 0%Z)) as [->|Hb0]; [apply Z.land_0_r|].
  apply Z.bits_inj'. intros i Hi. rewrite Z.land_spec, Z.bits_0, Z.shiftl_spec by done.
  destruct (decide (i < n)%Z) as [Hin|Hin]; [by rewrite Z.testbit_neg_r by lia|].
  rewrite (Z.bits_above_log2 b i), andb_false_r; [done|lia|].
  apply Z.log2_lt_pow2; [lia|]. eapply Z.lt_le_trans; [apply Hb|]. apply Z.pow_le_mono_r; lia.
Qed.

(** ** What a decoded rune is made of *)
Section decode.
Local Open Scope Z_scope.

Definition ascii_of (b : Z) : ascii := ascii_of_N (Z.to_N b).

Lemma ascii_of_byte (c : ascii) : ascii_of (byte_of c) = c.
Proof. unfold ascii_of, byte_of. rewrite N2Z.id. apply ascii_N_embedding. Qed.

Lemma byte_of_range (c : ascii) : 0 ≤ byte_of c < 256.
Proof. unfold byte_of. pose proof (N_ascii_bounded c). lia. Qed.

(** The first [n] bytes are continuation bytes. *)
Fixpoint continues (n : nat) (s : string) : Prop :=
  match n with
  | O => True
  | S n' => match s with String c s' => 0x80 ≤ byte_of c ≤ 0xBF ∧ continues n' s' | EmptyString => False end
  end.

Lemma utf8_rest_step n lo hi c s r r' :
  0x80 ≤ lo → hi ≤ 0xBF → utf8_rest (S n) lo hi (String c s) r = Some r' →
  lo ≤ byte_of c ≤ hi ∧ utf8_rest n 0x80 0xBF s (r * 64 + (byte_of c - 0x80)) = Some r'.
Proof.
  intros Hlo Hhi. cbn [utf8_rest]. case_bool_decide as Hb; [|done]. intros <-. split; [done|].
  rewrite lor_shiftl by (rewrite ?(Z.land_ones _ 6) by lia; lia || apply Z.mod_pos_bound; lia).
  do 2 f_equal. change (2 ^ 6) with 64. rewrite (Z.land_ones _ 6) by lia. change (2 ^ 6) with 64.
  rewrite (Zmod_eq (byte_of c) 64) by lia.
  assert (byte_of c / 64 = 2) as -> by (symmetry; apply (Z.div_unique _ _ 2 (byte_of c - 128)); lia). lia.
Qed.

Lemma utf8_rest_continues n lo hi s r r' :
  0x80 ≤ lo → hi ≤ 0xBF → utf8_rest n lo hi s r = Some r' → continues n s.
Proof.
  revert lo hi s r. induction n as [|n IH]; intros lo hi s r Hlo Hhi; [done|].
  destruct s as [|c s]; [done|]. intros [Hc Hr]%utf8_rest_step; [|done..].
  split; [lia|]. by apply IH in Hr.
Qed.

Lemma utf8_first_bounds b n lo hi :
  utf8_first b = Some (n, lo, hi) →
  0x80 ≤ lo ∧ hi ≤ 0xBF ∧
  ((n = 1%nat ∧ 0xC2 ≤ b ≤ 0xDF) ∨ (n = 2%nat ∧ 0xE0 ≤ b ≤ 0xEF) ∨
   (n = 3%nat ∧ (b = 0xF0 ∧ 0x90 ≤ lo ∨ 0xF1 ≤ b ≤ 0xF4))).
Proof. unfold utf8_first. repeat case_bool_decide; intros [= <- <- <-]; lia. Qed.

(** The bytes after the first one of a rune. *)
Lemma decode_rune_continues c s r w : decode_rune c s = (r, w) → continues (w - 1) s.
Proof.
  unfold decode_rune. case_bool_decide; [by intros [= _ <-]|].
  destruct (utf8_first _) as [[[n lo] hi]|] eqn:Hf; [|by intros [= _ <-]].
  apply utf8_first_bounds in Hf as (Hlo & Hhi & _).
  destruct (utf8_rest _ _ _ _ _) as [r'|] eqn:Hr; intros [= <- <-]; [|done].
  simpl. rewrite Nat.sub_0_r. by eapply utf8_rest_continues.
Qed.

(** The separators U+2028 and U+2029 have one encoding. *)
Lemma decode_rune_separator c s r w :
  0x80 ≤ byte_of c → decode_rune c s = (r, w) → r = 0x2028 ∨ r = 0x2029 →
  w = 3%nat ∧ ∃ s', String c s = String (ascii_of 0xE2) (String (ascii_of 0x80) (String (ascii_of (0xA8 + (r - 0x2028))) s')).
Proof.
  intros Hc. unfold decode_rune. rewrite bool_decide_eq_false_2 by lia.
  destruct (utf8_first _) as [[[n lo] hi]|] eqn:Hf; [|intros [= <- <-]; unfold RuneError; lia].
  apply utf8_first_bounds in Hf as (Hlo & Hhi & Hn).
  destruct (utf8_rest _ _ _ _ _) as [r'|] eqn:Hr; intros [= <- <-] Hsep; [|unfold RuneError in Hsep; lia].
  destruct Hn as [[-> Hb]|[[-> Hb]|[-> Hb]]].
  - exfalso. destruct s as [|c1 s]; [done|]. apply utf8_rest_step in Hr as [Hc1 Hr]; [|done..].
    injection Hr as Hr. rewrite (Z.land_ones _ 5) in Hr by lia.
    pose proof (Z.mod_pos_bound (byte_of c) (2 ^ 5) ltac:(lia)). lia.
  - split; [done|]. destruct s as [|c1 s]; [done|]. apply utf8_rest_step in Hr as [Hc1 Hr]; [|done..].
    destruct s as [|c2 s]; [done|]. apply utf8_rest_step in Hr as [Hc2 Hr]; [|done..]. injection Hr as Hr.
    rewrite (Z.land_ones _ 4) in Hr by lia. change (2 ^ 4) with 16 in Hr.
    rewrite (Zmod_eq (byte_of c) 16) in Hr by lia.
    assert (byte_of c / 16 = 14) as Hd by (symmetry; apply (Z.div_unique _ _ 14 (byte_of c - 224)); lia).
    rewrite Hd in Hr.
    assert (byte_of c = 0xE2) as H0 by lia. assert (byte_of c1 = 0x80) as H1 by lia.
    assert (byte_of c2 = 0xA8 + (r' - 0x2028)) as H2 by lia.
    exists s. by rewrite <-H0, <-H1, <-H2, !ascii_of_byte.
  - exfalso. destruct s as [|c1 s]; [done|]. apply utf8_rest_step in Hr as [Hc1 Hr]; [|done..].
    destruct s as [|c2 s]; [done|]. apply utf8_rest_step in Hr as [Hc2 Hr]; [|done..].
    destruct s as [|c3 s]; [done|]. apply utf8_rest_step in Hr as [Hc3 Hr]; [|done..]. injection Hr as Hr.
    rewrite (Z.land_ones _ 3) in Hr by lia. change (2 ^ 3) with 8 in Hr.
    rewrite (Zmod_eq (byte_of c) 8) in Hr by lia.
    assert (byte_of c / 8 = 30) as Hd by (symmetry; apply (Z.div_unique _ _ 30 (byte_of c - 240)); lia).
    rewrite Hd in Hr. lia.
Qed.
End decode.

(** ** Concatenation *)
Lemma append_empty (y : string) : "" +:+ y = y.
Proof. done. Qed.
Lemma append_cons (c : ascii) (s y : string) : String c s +:+ y = String c (s +:+ y).
Proof. done. Qed.
#[export] Hint Rewrite append_empty append_cons : go_rw.

Lemma append_assoc (x y z : string) : (x +:+ y) +:+ z = x +:+ y +:+ z.
Proof. induction x as [|c x IH]; [done|]. by rewrite !append_cons, IH. Qed.

Lemma append_nil (x : string) : x +:+ "" = x.
Proof. induction x as [|c x IH]; [done|]. by rewrite append_cons, IH. Qed.

Lemma length_append (x y : string) : String.length (x +:+ y) = (String.length x + String.length y)%nat.
Proof. induction x as [|c x IH]; [done|]. rewrite append_cons. simpl. by rewrite IH. Qed.

(** Every character of a string satisfies [P]. *)
Fixpoint all_chars (P : ascii → bool) (s : string) : bool :=
  match s with
  | EmptyString => true
  | String c s' => P c && all_chars P s'
  end.

Lemma all_chars_app P x y : all_chars P (x +:+ y) = all_chars P x && all_chars P y.
Proof. induction x as [|c x IH]; [done|]. rewrite append_cons. simpl. by rewrite IH, andb_assoc. Qed.

(** ** Order: Go compares strings byte by byte *)
Definition str_lt (s1 s2 : string) : bool := String.ltb s1 s2.

Lemma str_lt_false s1 s2 : str_lt s1 s2 = false ↔ String.le s2 s1.
Proof.
  unfold str_lt, String.le, String.leb, String.ltb. rewrite (String.compare_antisym s2 s1).
  destruct (s1 ?= s2)%string; simpl; naive_solver.
Qed.

(** ** Decimal numbers *)
Section decimal.
Local Open Scope Z_scope.

(** [strconv.Itoa] and the verb [%d]. *)
Definition Itoa (z : Z) : string := pretty z.

(** The string of a list of digits, and its value. *)
Fixpoint digits_string (ds : list N) : string :=
  match ds with
  | [] => ""
  | d :: ds' => String (pretty_N_char d) (digits_string ds')
  end.

Definition digits_value (acc : Z) (ds : list N) : Z := foldl (λ a d, a * 10 + Z.of_N d) acc ds.

Definition is_digit (d : N) : Prop := (d < 10)%N.

Lemma digits_string_app ds ds' : digits_string (ds ++ ds') = digits_string ds +:+ digits_string ds'.
Proof. induction ds as [|d ds IH]; [done|]. simpl. by rewrite append_cons, IH. Qed.

Lemma byte_of_digit (d : N) : is_digit d → byte_of (pretty_N_char d) = 48 + Z.of_N d.
Proof.
  unfold is_digit. intros Hd.
  assert (d = 0 ∨ d = 1 ∨ d = 2 ∨ d = 3 ∨ d = 4 ∨ d = 5 ∨ d = 6 ∨ d = 7 ∨ d = 8 ∨ d = 9)%N as Hc by lia.
  by repeat destruct Hc as [->|Hc]; [..|rewrite Hc].
Qed.

Lemma digits_value_bounds acc ds : 0 ≤ acc → acc ≤ digits_value acc ds.
Proof.
  revert acc. induction ds as [|d ds IH]; intros acc Hacc; simpl; [lia|].
  etransitivity; [|apply IH; lia]. lia.
Qed.

Lemma pretty_go_digits (x : N) (s : string) :
  ∃ ds, pretty_N_go x s = digits_string ds +:+ s ∧ Forall is_digit ds ∧ digits_value 0 ds = Z.of_N x ∧
    (x ≠ 0 → ds ≠ [])%N.
Proof.
  revert s. induction (N.lt_wf_0 x) as [x _ IH]; intros s.
  destruct (decide (x = 0)%N) as [->|Hx]; [by exists []|].
  rewrite pretty_N_go_step by lia.
  destruct (IH (x `div` 10)%N ltac:(apply N.div_lt; lia) (String (pretty_N_char (x `mod` 10)) s)) as (ds & -> & Hds & Hv & _).
  exists (ds ++ [x `mod` 10]%N). rewrite digits_string_app, append_assoc. split_and!; [done| | |by destruct ds].
  - apply Forall_app. split; [done|]. apply Forall_singleton, N.mod_lt. lia.
  - unfold digits_value in *. rewrite foldl_app. simpl. rewrite Hv. pose proof (N.div_mod x 10 ltac:(done)) as Hx'. lia.
Qed.

Lemma pretty_N_digits (x : N) :
  ∃ ds, pretty x = digits_string ds ∧ Forall is_digit ds ∧ digits_value 0 ds = Z.of_N x ∧ ds ≠ [].
Proof.
  unfold pretty, pretty_N. case_decide as Hx.
  - subst. exists [0%N]. split_and!; [done| |done|done]. by apply Forall_singleton.
  - destruct (pretty_go_digits x "") as (ds & -> & Hds & Hv & Hne). exists ds. rewrite append_nil. auto.
Qed.

(** A number is formatted as digits, after a dash when it is negative. *)
Lemma Itoa_digits (z : Z) :
  ∃ ds, Forall is_digit ds ∧ ds ≠ [] ∧
    ((0 ≤ z ∧ Itoa z = digits_string ds ∧ digits_value 0 ds = z) ∨
     (z < 0 ∧ Itoa z = String "-" (digits_string ds) ∧ digits_value 0 ds = - z)).
Proof.
  unfold Itoa, pretty, pretty_Z. destruct z as [|p|p].
  - exists [0%N]. split_and!; [by apply Forall_singleton|done|by left].
  - destruct (pretty_N_digits (Npos p)) as (ds & Hp & Hds & Hv & Hne). exists ds. split_and!; [done..|]. left. by split_and!.
  - destruct (pretty_N_digits (Npos p)) as (ds & Hp & Hds & Hv & Hne). exists ds. split_and!; [done..|]. right.
    split; [done|]. split; [|done]. unfold pretty, pretty_positive. by rewrite Hp.
Qed.
End decimal.

(** ** Parsing numbers and booleans

    The parsers return a value with the error: on a syntax error the value is
    zero, on an overflow it is the nearest bound. *)
Inductive num_error := ErrSyntax | ErrRange.

Section parsing.
Local Open Scope Z_scope.

Definition maxUint64 : Z := 2 ^ 64 - 1.

(** [strconv.ParseUint(s, 10, 64)]: its loop, and its test of the empty
    string. *)
Fixpoint ParseUint_loop (n : Z) (s : string) : Z * option num_error :=
  match s with
  | EmptyString => (n, None)
  | String c s' =>
      let d := byte_of c - 48 in
      if negb (bool_decide (0 ≤ d ≤ 9)) then (0, Some ErrSyntax)
      else if bool_decide (n >= maxUint64 / 10 + 1) then (maxUint64, Some ErrRange)
      else
        let n1 := (n * 10 + d) mod 2 ^ 64 in
        if bool_decide (n1 < n * 10) then (maxUint64, Some ErrRange)
        else ParseUint_loop n1 s'
  end.

Definition ParseUint (s : string) : Z * option num_error :=
  match s with
  | EmptyString => (0, Some ErrSyntax)
  | _ => ParseUint_loop 0 s
  end.

(** [strconv.ParseInt(s, 10, 64)]: after the sign. *)
Definition ParseInt_signed (neg : bool) (s : string) : Z * option num_error :=
  let cutoff := 2 ^ 63 in
  match ParseUint s with
  | (_, Some ErrSyntax) => (0, Some ErrSyntax)
  | (un, _) =>
      if negb neg && bool_decide (un >= cutoff) then (cutoff - 1, Some ErrRange)
      else if neg && bool_decide (un > cutoff) then (- cutoff, Some ErrRange)
      else (if neg then - un else un, None)
  end.

Definition ParseInt (s : string) : Z * option num_error :=
  match s with
  | String c s' =>
      if bool_decide (c = "+"%char) then ParseInt_signed false s'
      else if bool_decide (c = "-"%char) then ParseInt_signed true s'
      else ParseInt_signed false s
  | EmptyString => (0, Some ErrSyntax)
  end.

(** [strconv.Atoi], at [int] of 64 bits. *)
Definition Atoi : string → Z * option num_error := ParseInt.

(** [strconv.ParseBool]. *)
Definition ParseBool (s : string) : bool * option num_error :=
  if bool_decide (s ∈ ["1"; "t"; "T"; "true"; "TRUE"; "True"]) then (true, None)
  else if bool_decide (s ∈ ["0"; "f"; "F"; "false"; "FALSE"; "False"]) then (false, None)
  else (false, Some ErrSyntax).

Lemma ParseUint_loop_digits ds n :
  Forall is_digit ds → 0 ≤ n → digits_value n ds ≤ maxUint64 →
  ParseUint_loop n (digits_string ds) = (digits_value n ds, None).
Proof.
  intros Hds. revert n. induction Hds as [|d ds Hd _ IH]; intros n Hn Hv; [done|].
  simpl digits_string. cbn [ParseUint_loop]. rewrite byte_of_digit by done. unfold is_digit in Hd.
  change (digits_value n (d :: ds)) with (digits_value (n * 10 + Z.of_N d) ds) in *.
  pose proof (digits_value_bounds (n * 10 + Z.of_N d) ds ltac:(lia)) as Hb.
  rewrite (bool_decide_eq_true_2 (0 ≤ _ ≤ 9)) by lia. simpl negb. cbv iota.
  change (maxUint64 / 10 + 1) with 1844674407370955162. change maxUint64 with 18446744073709551615 in Hv |- * at 1.
  rewrite (bool_decide_eq_false_2 (n >= _)) by lia.
  replace (n * 10 + (48 + Z.of_N d - 48)) with (n * 10 + Z.of_N d) by lia.
  rewrite Z.mod_small by lia. rewrite bool_decide_eq_false_2 by lia. apply IH; [lia|done].
Qed.

Lemma ParseUint_digits ds :
  Forall is_digit ds → ds ≠ [] → digits_value 0 ds ≤ maxUint64 →
  ParseUint (digits_string ds) = (digits_value 0 ds, None).
Proof.
  intros Hds Hne Hv. rewrite <-(ParseUint_loop_digits ds 0) by done. by destruct ds.
Qed.

Lemma digit_not_sign (d : N) : is_digit d → pretty_N_char d ≠ "+"%char ∧ pretty_N_char d ≠ "-"%char.
Proof.
  intros Hd. pose proof (byte_of_digit d Hd) as Hb.
  split; intros Heq; rewrite Heq in Hb; vm_compute byte_of in Hb; lia.
Qed.

(** Parsing gives back every 64-bit number that was formatted. *)
Lemma ParseInt_Itoa (z : Z) : - 2 ^ 63 ≤ z < 2 ^ 63 → ParseInt (Itoa z) = (z, None).
Proof.
  intros Hz. destruct (Itoa_digits z) as (ds & Hds & Hne & [(Hpos & -> & Hv)|(Hneg & -> & Hv)]).
  - assert (ParseInt (digits_string ds) = ParseInt_signed false (digits_string ds)) as ->.
    { destruct Hds as [|d ds Hd _]; [done|]. destruct (digit_not_sign d Hd). simpl.
      by rewrite !bool_decide_eq_false_2 by done. }
    unfold ParseInt_signed, maxUint64. rewrite ParseUint_digits by (done || unfold maxUint64; lia). rewrite Hv. simpl andb.
    by rewrite bool_decide_eq_false_2 by lia.
  - unfold ParseInt. rewrite (bool_decide_eq_false_2 (_ = "+"%char)) by done. rewrite bool_decide_eq_true_2 by done.
    unfold ParseInt_signed. rewrite ParseUint_digits by (done || unfold maxUint64; lia). rewrite Hv. simpl andb.
    rewrite bool_decide_eq_false_2 by lia. f_equal. lia.
Qed.

(** The value on a syntax error is zero. *)
Lemma ParseInt_syntax (s : string) z : ParseInt s = (z, Some ErrSyntax) → z = 0.
Proof.
  assert (∀ neg s, ParseInt_signed neg s = (z, Some ErrSyntax) → z = 0) as Hsg.
  { intros neg s'. unfold ParseInt_signed. repeat case_match; congruence. }
  unfold ParseInt. destruct s as [|c s]; [congruence|]. repeat case_match; eauto.
Qed.
End parsing.
