(* ===== verification/Json.v ===== *)
(** * JSON text, as encoding/json writes it

    [Marshal] for the values that the code encodes: integers, strings, arrays
    (slices) and objects (structs, and maps with integer keys).  Strings are
    escaped the way [json.Marshal] does it by default, safe inside HTML.
    [parse] reads such texts; here: it reads back what was written, except
    that bytes which are no UTF-8 come back as U+FFFD, and a text has no
    character that HTML could take for markup. *)
From Stdlib Require Import Ascii NArith.
From stdpp Require Import base gmap sets numbers strings pretty sorting list.
From S2P Require Import Prelude Strconv.

Inductive json :=
| JInt (z : Z)
| JStr (s : string)
| JArr (l : list json)
| JObj (fields : list (string * json)).

(** The induction principle through the lists. *)
Section json_ind.
Context (P : json → Prop).
Context (HInt : ∀ z, P (JInt z)) (HStr : ∀ s, P (JStr s)).
Context (HArr : ∀ l, Forall P l → P (JArr l)).
Context (HObj : ∀ fields, Forall (λ kv, P (snd kv)) fields → P (JObj fields)).

Fixpoint json_nested_ind (j : json) : P j :=
  match j with
  | JInt z => HInt z
  | JStr s => HStr s
  | JArr l => HArr l ((fix go l : Forall P l :=
      match l with [] => Forall_nil_2 P | j :: l' => Forall_cons_2 P j l' (json_nested_ind j) (go l') end) l)
  | JObj fields => HObj fields ((fix go l : Forall (λ kv, P (snd kv)) l :=
      match l with
      | [] => Forall_nil_2 _
      | kv :: l' => Forall_cons_2 _ kv l' (json_nested_ind (snd kv)) (go l')
      end) fields)
  end.
End json_ind.

(** ** Characters *)
Definition quote_char : ascii := Ascii.ascii_of_nat 34.
Definition backslash : ascii := Ascii.ascii_of_nat 92.
Definition newline_char : ascii := Ascii.ascii_of_nat 10.

(** [hex], the digits of an escape. *)
Definition hex (d : Z) : ascii :=
  default "0"%char (String.get (Z.to_nat d) "0123456789abcdef").

Definition hex4 (z : Z) (s : string) : string :=
  String (hex (z / 4096)) (String (hex ((z / 256) mod 16)) (String (hex ((z / 16) mod 16)) (String (hex (z mod 16)) s))).

(** A backslash, [u] and four digits, before [s]. *)
Definition escape_u (z : Z) (s : string) : string := String backslash (String "u" (hex4 z s)).
Definition escape_with (c : ascii) (s : string) : string := String backslash (String c s).

(** One byte below 128: quotes and backslashes are escaped, tab, newline and
    return by their letters, other control characters and the markup of HTML
    by number. *)
Definition escape_ascii (c : ascii) (s : string) : string :=
  if bool_decide (c = quote_char ∨ c = backslash) then escape_with c s
  else if bool_decide (byte_of c = 10)%Z then escape_with "n" s
  else if bool_decide (byte_of c = 13)%Z then escape_with "r" s
  else if bool_decide (byte_of c = 9)%Z then escape_with "t" s
  else if bool_decide (byte_of c < 32)%Z || bool_decide (c ∈ ["<"; ">"; "&"]%char) then escape_u (byte_of c) s
  else String c s.

(** The string, rune by rune; [skip] bytes still belong to the last rune, and
    are copied when [keep].  U+2028 and U+2029, which end a line in
    JavaScript, are escaped, and bytes that are no UTF-8 replaced. *)
Fixpoint escape (skip : nat) (keep : bool) (s : string) : string :=
  match s with
  | EmptyString => ""
  | String c s' =>
      match skip with
      | S skip' => if keep then String c (escape skip' keep s') else escape skip' keep s'
      | O =>
          if bool_decide (byte_of c < 0x80)%Z then escape_ascii c (escape 0 true s')
          else
            let '(r, w) := decode_rune c s' in
            if bool_decide (r = RuneError ∧ w = 1%nat) then escape_u 0xFFFD (escape 0 true s')
            else if bool_decide (r = 0x2028 ∨ r = 0x2029)%Z then escape_u r (escape (w - 1) false s')
            else String c (escape (w - 1) true s')
      end
  end.

Definition marshal_string (s : string) : string :=
  String quote_char (escape 0 true s +:+ String quote_char "").

(** Elements, with commas between them. *)
Fixpoint join_commas (l : list string) : string :=
  match l with
  | [] => ""
  | [s] => s
  | s :: l' => s +:+ "," +:+ join_commas l'
  end.

Fixpoint Marshal (j : json) : string :=
  match j with
  | JInt z => Itoa z
  | JStr s => marshal_string s
  | JArr l => "[" +:+ join_commas (Marshal <$> l) +:+ "]"
  | JObj fields => "{" +:+ join_commas ((λ kv, marshal_string (fst kv) +:+ ":" +:+ Marshal (snd kv)) <$> fields) +:+ "}"
  end.

(** ** The types that marshal *)
Class ToJson (A : Type) := to_json : A → json.
#[export] Hint Mode ToJson ! : typeclass_instances.

#[export] Instance Z_ToJson : ToJson Z := JInt.
#[export] Instance string_ToJson : ToJson string := JStr.
#[export] Instance list_ToJson {A : Type} `{ToJson A} : ToJson (list A) := λ l, JArr (to_json <$> l).

Example Marshal_demo :
  Marshal (JObj [("a<", JInt (-5)); ("b", JArr [JInt 1; JStr "x"; JArr []])]) =
  let q := String quote_char "" in
  "{" +:+ q +:+ "a\u003c" +:+ q +:+ ":-5," +:+ q +:+ "b" +:+ q +:+ ":[1," +:+ q +:+ "x" +:+ q +:+ ",[]]}".
Proof. vm_compute. reflexivity. Qed.

(** ** Reading *)
Definition hex_value (c : ascii) : option Z :=
  let b := byte_of c in
  if bool_decide (48 ≤ b ≤ 57)%Z then Some (b - 48)%Z
  else if bool_decide (97 ≤ b ≤ 102)%Z then Some (b - 87)%Z
  else None.

(** The UTF-8 of a code point below 2^16, before [s]. *)
Definition encode_rune (z : Z) (s : string) : string :=
  if bool_decide (z < 0x80)%Z then String (ascii_of z) s
  else if bool_decide (z < 0x800)%Z then String (ascii_of (0xC0 + z / 64)) (String (ascii_of (0x80 + z mod 64)) s)
  else String (ascii_of (0xE0 + z / 4096)) (String (ascii_of (0x80 + (z / 64) mod 64)) (String (ascii_of (0x80 + z mod 64)) s)).

Definition hex4_value (a b c d : ascii) : option Z :=
  a ← hex_value a; b ← hex_value b; c ← hex_value c; d ← hex_value d;
  Some (4096 * a + 256 * b + 16 * c + d)%Z.

Definition unescape (c : ascii) : option ascii :=
  if bool_decide (c = quote_char ∨ c = backslash) then Some c
  else if bool_decide (c = "n"%char) then Some newline_char
  else if bool_decide (c = "r"%char) then Some (ascii_of 13)
  else if bool_decide (c = "t"%char) then Some (ascii_of 9)
  else None.

(** Up to the closing quote. *)
Fixpoint parse_chars (s : string) : option (string * string) :=
  match s with
  | EmptyString => None
  | String c s' =>
      if bool_decide (c = quote_char) then Some ("", s')
      else if bool_decide (c = backslash) then
        match s' with
        | EmptyString => None
        | String e s2 =>
            if bool_decide (e = "u"%char) then
              match s2 with
              | String h1 (String h2 (String h3 (String h4 s3))) =>
                  z ← hex4_value h1 h2 h3 h4; p ← parse_chars s3;
                  Some (encode_rune z (fst p), snd p)
              | _ => None
              end
            else u ← unescape e; p ← parse_chars s2; Some (String u (fst p), snd p)
        end
      else p ← parse_chars s'; Some (String c (fst p), snd p)
  end.

Definition parse_string (s : string) : option (string * string) :=
  match s with
  | String c s' => if bool_decide (c = quote_char) then parse_chars s' else None
  | EmptyString => None
  end.

(** The digits at the beginning. *)
Fixpoint parse_digits (acc : Z) (s : string) : Z * string :=
  match s with
  | String c s' =>
      let d := (byte_of c - 48)%Z in
      if bool_decide (0 ≤ d ≤ 9)%Z then parse_digits (acc * 10 + d) s' else (acc, s)
  | EmptyString => (acc, s)
  end.

Definition expect (c : ascii) (s : string) : option string :=
  match s with
  | String c' s' => if bool_decide (c' = c) then Some s' else None
  | EmptyString => None
  end.

(** Values; the fuel bounds the nesting and the lengths together.  After a
    value, its closing bracket or a comma. *)
Fixpoint parse (fuel : nat) (s : string) : option (json * string) :=
  match fuel with
  | O => None
  | S fuel =>
      match s with
      | EmptyString => None
      | String c s' =>
          if bool_decide (c = quote_char) then p ← parse_chars s'; Some (JStr (fst p), snd p)
          else if bool_decide (c = "["%char) then
            match expect "]" s' with
            | Some rest => Some (JArr [], rest)
            | None => p ← parse_elements fuel s'; Some (JArr (fst p), snd p)
            end
          else if bool_decide (c = "{"%char) then
            match expect "}" s' with
            | Some rest => Some (JObj [], rest)
            | None => p ← parse_fields fuel s'; Some (JObj (fst p), snd p)
            end
          else if bool_decide (c = "-"%char) then let '(z, rest) := parse_digits 0 s' in Some (JInt (- z), rest)
          else let '(z, rest) := parse_digits 0 s in Some (JInt z, rest)
      end
  end
with parse_elements (fuel : nat) (s : string) : option (list json * string) :=
  match fuel with
  | O => None
  | S fuel =>
      p ← parse fuel s;
      match expect "]" (snd p) with
      | Some rest => Some ([fst p], rest)
      | None => s' ← expect "," (snd p); q ← parse_elements fuel s'; Some (fst p :: fst q, snd q)
      end
  end
with parse_fields (fuel : nat) (s : string) : option (list (string * json) * string) :=
  match fuel with
  | O => None
  | S fuel =>
      k ← parse_string s; s1 ← expect ":" (snd k); p ← parse fuel s1;
      match expect "}" (snd p) with
      | Some rest => Some ([(fst k, fst p)], rest)
      | None => s' ← expect "," (snd p); q ← parse_fields fuel s'; Some ((fst k, fst p) :: fst q, snd q)
      end
  end.

(** ** Strings are read back *)

(** Bytes that are no UTF-8 become U+FFFD. *)
Fixpoint valid_utf8 (skip : nat) (s : string) : string :=
  match s with
  | EmptyString => ""
  | String c s' =>
      match skip with
      | S skip' => String c (valid_utf8 skip' s')
      | O =>
          if bool_decide (byte_of c < 0x80)%Z then String c (valid_utf8 0 s')
          else
            let '(r, w) := decode_rune c s' in
            if bool_decide (r = RuneError ∧ w = 1%nat) then encode_rune 0xFFFD (valid_utf8 0 s')
            else String c (valid_utf8 (w - 1) s')
      end
  end.

Definition coerced (s : string) : string := valid_utf8 0 s.

Lemma escape_ascii_app c x y : escape_ascii c x +:+ y = escape_ascii c (x +:+ y).
Proof. unfold escape_ascii. repeat case_match; done. Qed.

Lemma hex4_value_hex (z : Z) :
  (0 ≤ z < 65536)%Z →
  hex4_value (hex (z / 4096)) (hex ((z / 256) mod 16)) (hex ((z / 16) mod 16)) (hex (z mod 16)) = Some z.
Proof.
  assert (∀ d, (0 ≤ d < 16)%Z → hex_value (hex d) = Some d) as Hd.
  { intros d Hd. assert (bool_decide (Forall (λ n : nat, hex_value (hex (Z.of_nat n)) = Some (Z.of_nat n)) (seq 0 16)) = true) as H
      by (vm_compute; reflexivity).
    apply bool_decide_eq_true in H. rewrite Forall_seq in H. specialize (H (Z.to_nat d) ltac:(lia)).
    by rewrite Z2Nat.id in H by lia. }
  intros Hz. unfold hex4_value. rewrite !Hd by (Z.to_euclidean_division_equations; lia). simpl. f_equal.
  Z.to_euclidean_division_equations. lia.
Qed.

Lemma parse_escape_u (z : Z) s p :
  (0 ≤ z < 65536)%Z → parse_chars s = Some p →
  parse_chars (escape_u z s) = Some (encode_rune z (fst p), snd p).
Proof.
  intros Hz Hp. unfold escape_u, hex4. cbn [parse_chars]. 
  rewrite (bool_decide_eq_false_2 (backslash = quote_char)) by done. rewrite bool_decide_eq_true_2 by done.
  rewrite bool_decide_eq_true_2 by done. by rewrite hex4_value_hex, Hp by done.
Qed.

Lemma parse_escape_with (e u : ascii) s p :
  e ≠ "u"%char → unescape e = Some u → parse_chars s = Some p →
  parse_chars (escape_with e s) = Some (String u (fst p), snd p).
Proof.
  intros He Hu Hp. unfold escape_with. cbn [parse_chars].
  rewrite (bool_decide_eq_false_2 (backslash = quote_char)), bool_decide_eq_true_2, bool_decide_eq_false_2 by done.
  by rewrite Hu, Hp.
Qed.

Lemma byte_of_is (c : ascii) (b : Z) : byte_of c = b → c = ascii_of b.
Proof. intros <-. by rewrite ascii_of_byte. Qed.

Lemma parse_escape_ascii c s p :
  (byte_of c < 0x80)%Z → parse_chars s = Some p →
  parse_chars (escape_ascii c s) = Some (String c (fst p), snd p).
Proof.
  intros Hc Hp. unfold escape_ascii. case_bool_decide as Hq.
  { apply parse_escape_with; [by destruct Hq as [-> | ->]| |done]. unfold unescape. by rewrite bool_decide_eq_true_2. }
  case_bool_decide as Hn; [by apply parse_escape_with; [|rewrite (byte_of_is _ _ Hn)|]|].
  case_bool_decide as Hr; [by apply parse_escape_with; [|rewrite (byte_of_is _ _ Hr)|]|].
  case_bool_decide as Ht; [by apply parse_escape_with; [|rewrite (byte_of_is _ _ Ht)|]|].
  pose proof (byte_of_range c). destruct (_ || _).
  - rewrite (parse_escape_u _ _ p) by (done || lia). unfold encode_rune.
    by rewrite bool_decide_eq_true_2, ascii_of_byte.
  - cbn [parse_chars]. rewrite !bool_decide_eq_false_2 by tauto. by rewrite Hp.
Qed.

(** A byte above 127 is copied. *)
Lemma parse_chars_high c s p :
  (0x80 ≤ byte_of c)%Z → parse_chars s = Some p → parse_chars (String c s) = Some (String c (fst p), snd p).
Proof.
  intros Hc Hp. cbn [parse_chars]. rewrite !bool_decide_eq_false_2; [by rewrite Hp|..];
    intros ->; vm_compute in Hc; congruence.
Qed.

(** The dropped bytes of a separator. *)
Lemma escape_drop c1 c2 s : escape 2 false (String c1 (String c2 s)) = escape 0 true s.
Proof. simpl. by destruct s. Qed.

Lemma encode_separator (r : Z) s :
  (r = 0x2028 ∨ r = 0x2029)%Z →
  encode_rune r s = String (ascii_of 0xE2) (String (ascii_of 0x80) (String (ascii_of (0xA8 + (r - 0x2028))) s)).
Proof. by intros [-> | ->]. Qed.

Lemma valid_utf8_separator (r : Z) s :
  (r = 0x2028 ∨ r = 0x2029)%Z →
  valid_utf8 0 (encode_rune r s) = encode_rune r (valid_utf8 0 s).
Proof. intros Hr. rewrite !encode_separator by done. by destruct Hr as [-> | ->]. Qed.

Lemma parse_chars_escape (s : string) (rest : string) :
  ∀ skip, continues skip s →
  parse_chars (escape skip true s +:+ String quote_char rest) = Some (valid_utf8 skip s, rest).
Proof.
  remember (String.length s) as n eqn:Hn. revert s Hn. induction (lt_wf n) as [n _ IH]. intros [|c s] -> skip Hk.
  { by destruct skip. }
  simpl String.length in IH.
  assert (∀ s' skip', (String.length s' < S (String.length s))%nat → continues skip' s' →
    parse_chars (escape skip' true s' +:+ String quote_char rest) = Some (valid_utf8 skip' s', rest)) as IH'
    by (intros; by eapply IH).
  clear IH. destruct skip as [|skip].
  2: { destruct Hk as [Hc Hk]. cbn [escape valid_utf8]. rewrite append_cons.
       by rewrite (parse_chars_high c _ (valid_utf8 skip s, rest)) by (lia || (apply IH'; [lia|done])). }
  cbn [escape valid_utf8]. case_bool_decide as Hc.
  { rewrite escape_ascii_app. by rewrite (parse_escape_ascii c _ (valid_utf8 0 s, rest)) by (done || (apply IH'; [lia|done])). }
  destruct (decode_rune c s) as [r w] eqn:Hd. case_bool_decide as He.
  { change (escape_u ?z ?x +:+ ?y) with (escape_u z (x +:+ y)).
    by rewrite (parse_escape_u _ _ (valid_utf8 0 s, rest)) by (done || (apply IH'; [lia|done])). }
  case_bool_decide as Hsep.
  - destruct (decode_rune_separator c s r w ltac:(lia) Hd Hsep) as (-> & s' & Hs). 
    injection Hs as Hc' Hs. subst s.
    change (escape_u ?z ?x +:+ ?y) with (escape_u z (x +:+ y)). rewrite escape_drop.
    rewrite (parse_escape_u _ _ (valid_utf8 0 s', rest)) by (lia || (apply IH'; [simpl; lia|done])).
    rewrite encode_separator, <-Hc' by done. done.
  - rewrite append_cons. rewrite (parse_chars_high c _ (valid_utf8 (w - 1) s, rest)); [done|lia|].
    apply IH'; [lia|]. by eapply decode_rune_continues.
Qed.

Lemma parse_marshal_string s rest :
  parse_string (marshal_string s +:+ rest) = Some (coerced s, rest).
Proof.
  unfold marshal_string, parse_string. rewrite append_cons, bool_decide_eq_true_2 by done.
  rewrite append_assoc, append_cons. by apply parse_chars_escape.
Qed.

(** ** Values are read back *)
Fixpoint coerced_json (j : json) : json :=
  match j with
  | JInt z => JInt z
  | JStr s => JStr (coerced s)
  | JArr l => JArr (coerced_json <$> l)
  | JObj fields => JObj ((λ kv, (coerced (fst kv), coerced_json (snd kv))) <$> fields)
  end.

(** How much fuel a value needs. *)
Fixpoint json_size (j : json) : nat :=
  match j with
  | JInt _ | JStr _ => 1
  | JArr l => S (sum_list ((λ j, S (json_size j)) <$> l))
  | JObj fields => S (sum_list ((λ kv, S (json_size (snd kv))) <$> fields))
  end.

Definition digit_char (c : ascii) : bool := bool_decide (0 ≤ byte_of c - 48 ≤ 9)%Z.

(** Text that does not go on with a digit. *)
Definition delimited (s : string) : Prop :=
  match s with String c _ => digit_char c = false | EmptyString => True end.

Lemma digit_char_digit (d : N) : is_digit d → digit_char (pretty_N_char d) = true.
Proof. intros Hd. apply bool_decide_eq_true. rewrite byte_of_digit by done. unfold is_digit in Hd. lia. Qed.

Lemma digit_char_ne (c c' : ascii) : digit_char c = true → digit_char c' = false → c ≠ c'.
Proof. intros H1 H2 ->. congruence. Qed.

Lemma parse_digits_digits ds acc rest :
  Forall is_digit ds → delimited rest →
  parse_digits acc (digits_string ds +:+ rest) = (digits_value acc ds, rest).
Proof.
  intros Hds Hrest. revert acc. induction Hds as [|d ds Hd _ IH]; intros acc.
  - rewrite append_empty. destruct rest as [|c rest]; [done|]. cbn [parse_digits].
    unfold delimited, digit_char in Hrest. by rewrite Hrest.
  - cbn [digits_string]. rewrite append_cons. cbn [parse_digits].
    pose proof (digit_char_digit d Hd) as Hc. unfold digit_char in Hc. rewrite Hc, IH.
    rewrite byte_of_digit by done. unfold digits_value. simpl. by rewrite Z.add_simpl_l.
Qed.

Lemma parse_Itoa (fuel : nat) (z : Z) rest :
  delimited rest → parse (S fuel) (Itoa z +:+ rest) = Some (JInt z, rest).
Proof.
  intros Hrest. destruct (Itoa_digits z) as (ds & Hds & Hne & [(Hpos & -> & Hv)|(Hneg & -> & Hv)]).
  - pose proof (parse_digits_digits ds 0 rest Hds Hrest) as Hp. rewrite Hv in Hp. clear Hv.
    destruct Hds as [|d ds Hd Hds]; [done|]. cbn [digits_string] in *. rewrite append_cons in *. cbn [parse].
    pose proof (digit_char_digit d Hd) as Hc.
    rewrite !bool_decide_eq_false_2 by (by apply digit_char_ne). by rewrite Hp.
  - rewrite append_cons. cbn [parse]. rewrite !(bool_decide_eq_false_2 ("-"%char = _)) by done.
    rewrite bool_decide_eq_true_2 by done. rewrite parse_digits_digits, Hv by done. by rewrite Z.opp_involutive.
Qed.

Lemma join_commas_cons (x y : string) (l : list string) rest :
  join_commas (x :: y :: l) +:+ rest = x +:+ "," +:+ (join_commas (y :: l) +:+ rest).
Proof. simpl. by rewrite !append_assoc. Qed.

(** The first character of a value closes nothing. *)
Lemma Marshal_first (j : json) rest :
  ∃ c s, Marshal j +:+ rest = String c s ∧ c ≠ "]"%char.
Proof.
  destruct j as [z|s|l|fields].
  - destruct (Itoa_digits z) as ([|d ds] & Hds & ? & [(_ & Hz & _)|(_ & Hz & _)]); simpl; rewrite Hz; try done.
    + apply Forall_cons in Hds as [Hd _]. simpl. rewrite append_cons. eexists _, _. split; [done|].
      by apply (digit_char_ne _ _ (digit_char_digit d Hd)).
    + by eexists _, _.
  - by eexists _, _.
  - by eexists _, _.
  - by eexists _, _.
Qed.

Lemma expect_not (c c' : ascii) s : c' ≠ c → expect c (String c' s) = None.
Proof. intros Hne. simpl. by rewrite bool_decide_eq_false_2. Qed.

Lemma expect_first (c : ascii) s : expect c (String c s) = Some s.
Proof. simpl. by rewrite bool_decide_eq_true_2. Qed.

Lemma bind_Some {A B : Type} (a : A) (f : A → option B) : Some a ≫= f = f a.
Proof. done. Qed.

Lemma sum_list_fmap_cons {A : Type} (f : A → nat) (x : A) (l : list A) :
  sum_list (f <$> x :: l) = f x + sum_list (f <$> l).
Proof. done. Qed.

Definition reads_back (j : json) : Prop :=
  ∀ fuel rest, json_size j ≤ fuel → delimited rest → parse fuel (Marshal j +:+ rest) = Some (coerced_json j, rest).

Lemma parse_elements_join (fuel : nat) (l : list json) rest :
  Forall reads_back l → l ≠ [] → sum_list ((λ j, S (json_size j)) <$> l) ≤ fuel →
  parse_elements fuel (join_commas (Marshal <$> l) +:+ "]" +:+ rest) = Some (coerced_json <$> l, rest).
Proof.
  intros Hl. revert fuel. induction Hl as [|j l Hj Hl IH]; intros fuel Hne Hfuel; [done|]. clear Hne.
  rewrite sum_list_fmap_cons in Hfuel. destruct fuel as [|fuel]; [lia|]. cbn [parse_elements].
  destruct l as [|j' l].
  - csimpl. by rewrite Hj by (done || lia).
  - rewrite !(fmap_cons Marshal), join_commas_cons, Hj, bind_Some by (done || lia). cbn [fst snd].
    rewrite !append_cons, !append_empty, expect_not, expect_first by done.
    rewrite bind_Some, <-(fmap_cons Marshal). by rewrite IH by (done || lia).
Qed.

Lemma marshal_string_first s rest : ∃ t, marshal_string s +:+ rest = String quote_char t.
Proof. by eexists. Qed.

Lemma parse_fields_join (fuel : nat) (fields : list (string * json)) rest :
  Forall (λ kv, reads_back (snd kv)) fields → fields ≠ [] →
  sum_list ((λ kv, S (json_size (snd kv))) <$> fields) ≤ fuel →
  parse_fields fuel
    (join_commas ((λ kv, marshal_string (fst kv) +:+ ":" +:+ Marshal (snd kv)) <$> fields) +:+ "}" +:+ rest) =
  Some ((λ kv, (coerced (fst kv), coerced_json (snd kv))) <$> fields, rest).
Proof.
  set (text kv := marshal_string (fst kv) +:+ ":" +:+ Marshal (snd kv)).
  intros Hl. revert fuel. induction Hl as [|[k j] l Hj Hl IH]; intros fuel Hne Hfuel; [done|]. clear Hne.
  rewrite sum_list_fmap_cons in Hfuel. destruct fuel as [|fuel]; [lia|]. cbn [parse_fields].
  assert (∀ rest', delimited rest' → ∃ s1, parse_string (text (k, j) +:+ rest') = Some (coerced k, s1) ∧
    expect ":" s1 = Some (Marshal j +:+ rest') ∧ parse fuel (Marshal j +:+ rest') = Some (coerced_json j, rest')) as Hkv.
  { intros rest' Hr. unfold text. cbn [fst snd]. rewrite !append_assoc, parse_marshal_string. eexists. split; [done|].
    rewrite append_cons, append_empty, expect_first. split; [done|]. apply Hj; [lia|done]. }
  destruct l as [|kv l].
  - change (join_commas (text <$> [(k, j)])) with (text (k, j)). destruct (Hkv ("}" +:+ rest) eq_refl) as (s1 & -> & H1 & H2).
    rewrite bind_Some. cbn [fst snd]. rewrite H1, bind_Some, H2, bind_Some. cbn [fst snd].
    by rewrite append_cons, append_empty, expect_first.
  - rewrite !(fmap_cons text), join_commas_cons.
    destruct (Hkv ("," +:+ (join_commas (text <$> kv :: l) +:+ "}" +:+ rest)) eq_refl) as (s1 & Hs & H1 & H2).
    rewrite !(fmap_cons text) in *. rewrite Hs, bind_Some. cbn [fst snd]. rewrite H1, bind_Some, H2, bind_Some. cbn [fst snd].
    rewrite !append_cons, !append_empty, expect_not, expect_first, bind_Some by done.
    rewrite <-(fmap_cons text). by rewrite IH by (done || lia).
Qed.

(** What [Marshal] wrote is read back, whatever follows it, with the bytes
    that are no UTF-8 replaced. *)
Lemma parse_Marshal (j : json) : reads_back j.
Proof.
  induction j as [z|s|l IH|fields IH] using json_nested_ind; intros [|fuel] rest Hfuel Hrest; simpl in Hfuel; try lia.
  - by apply parse_Itoa.
  - pose proof (parse_marshal_string s rest) as Hp. cbn [Marshal]. unfold marshal_string in *. rewrite append_cons in *.
    cbn [parse]. unfold parse_string in Hp. rewrite bool_decide_eq_true_2 in * by done. by rewrite Hp.
  - cbn [Marshal]. rewrite !append_assoc, append_cons, append_empty. cbn [parse].
    rewrite !(bool_decide_eq_false_2 ("["%char = _)), bool_decide_eq_true_2 by done.
    destruct l as [|j l]; [done|].
    destruct (Marshal_first j (match l with [] => "]" +:+ rest | _ => "," +:+ (join_commas (Marshal <$> l) +:+ "]" +:+ rest) end))
      as (c & s & Hs & Hc).
    assert (join_commas (Marshal <$> j :: l) +:+ "]" +:+ rest = String c s) as Heq.
    { rewrite <-Hs. destruct l; [done|]. by rewrite !(fmap_cons Marshal), join_commas_cons. }
    rewrite Heq, expect_not, <-Heq, parse_elements_join by (done || lia). done.
  - cbn [Marshal]. rewrite !append_assoc, append_cons, append_empty. cbn [parse].
    rewrite !(bool_decide_eq_false_2 ("{"%char = _)), bool_decide_eq_true_2 by done.
    destruct fields as [|[k j] l]; [done|].
    pose proof (parse_fields_join fuel ((k, j) :: l) rest IH ltac:(done) ltac:(lia)) as Hp.
    rewrite Hp. destruct l; done.
Qed.

(** ** No markup *)

(** No control character, and nothing that begins or ends a tag or an
    entity. *)
Definition html_safe (c : ascii) : bool :=
  bool_decide (32 ≤ byte_of c)%Z && bool_decide (c ∉ ["<"; ">"; "&"]%char).

Lemma markup_bytes c : c ∈ ["<"; ">"; "&"]%char → byte_of c = 60%Z ∨ byte_of c = 62%Z ∨ byte_of c = 38%Z.
Proof. intros [->|[->|[->|[]%not_elem_of_nil]%elem_of_cons]%elem_of_cons]%elem_of_cons; auto. Qed.

Lemma safe_bytes c :
  (32 ≤ byte_of c)%Z → byte_of c ≠ 60%Z → byte_of c ≠ 62%Z → byte_of c ≠ 38%Z → html_safe c = true.
Proof.
  intros H0 H1 H2 H3. unfold html_safe. rewrite bool_decide_eq_true_2 by lia. apply bool_decide_eq_true.
  intros Hin%markup_bytes. lia.
Qed.

Lemma high_safe c : (0x80 ≤ byte_of c)%Z → html_safe c = true.
Proof. intros Hc. apply safe_bytes; lia. Qed.

Lemma hex_safe (d : Z) : html_safe (hex d) = true.
Proof.
  unfold hex. destruct (decide (Z.to_nat d < 16)) as [Hd|Hd].
  - assert (bool_decide (Forall (λ n, html_safe (default "0"%char (String.get n "0123456789abcdef")) = true) (seq 0 16)) = true)
      as H by (vm_compute; reflexivity).
    apply bool_decide_eq_true in H. rewrite Forall_seq in H. apply H. lia.
  - assert (∀ s n, String.length s ≤ n → String.get n s = None) as Hnone; [|by rewrite Hnone by (simpl; lia)].
    induction s as [|c s IH]; intros [|n] Hn; cbn [String.length String.get] in *; try done; [lia|]. apply IH. lia.
Qed.

Lemma escape_u_safe (z : Z) s : all_chars html_safe (escape_u z s) = all_chars html_safe s.
Proof. unfold escape_u, hex4. cbn [all_chars]. by rewrite !hex_safe. Qed.

Lemma escape_ascii_safe c s :
  all_chars html_safe (escape_ascii c s) = all_chars html_safe s.
Proof.
  unfold escape_ascii. case_bool_decide as Hq; [by destruct Hq as [-> | ->]|].
  repeat (case_bool_decide; [done|]). destruct (_ || _) eqn:Hc; [apply escape_u_safe|].
  apply orb_false_iff in Hc as [Hlow Hin]. apply bool_decide_eq_false in Hlow, Hin.
  cbn [all_chars]. unfold html_safe at 1. by rewrite !bool_decide_eq_true_2 by (done || lia).
Qed.

Lemma escape_safe (s : string) : ∀ skip keep, continues skip s → all_chars html_safe (escape skip keep s) = true.
Proof.
  induction s as [|c s IH]; intros skip keep Hk; [done|]. destruct skip as [|skip].
  - cbn [escape]. case_bool_decide; [by rewrite escape_ascii_safe, IH|].
    destruct (decode_rune c s) as [r w] eqn:Hd. apply decode_rune_continues in Hd.
    repeat case_bool_decide; [by rewrite escape_u_safe, IH|by rewrite escape_u_safe, IH|].
    cbn [all_chars]. by rewrite high_safe, IH by (done || lia).
  - destruct Hk as [Hc Hk]. cbn [escape]. destruct keep; [|by apply IH].
    cbn [all_chars]. by rewrite high_safe, IH by (done || lia).
Qed.

Lemma marshal_string_safe s : all_chars html_safe (marshal_string s) = true.
Proof. unfold marshal_string. cbn [all_chars]. by rewrite all_chars_app, escape_safe. Qed.

Lemma digits_string_safe ds : Forall is_digit ds → all_chars html_safe (digits_string ds) = true.
Proof.
  induction 1 as [|d ds Hd _ IH]; [done|]. cbn [digits_string all_chars]. rewrite IH, andb_true_r.
  assert (digit_char (pretty_N_char d) = true) as Hc%bool_decide_eq_true by (by apply digit_char_digit).
  apply safe_bytes; lia.
Qed.
Lemma Itoa_safe z : all_chars html_safe (Itoa z) = true.
Proof.
  destruct (Itoa_digits z) as (ds & Hds & _ & [(_ & -> & _)|(_ & -> & _)]); simpl; by rewrite ?digits_string_safe.
Qed.

Lemma join_commas_safe (l : list string) :
  Forall (λ s, all_chars html_safe s = true) l → all_chars html_safe (join_commas l) = true.
Proof.
  induction 1 as [|s [|s' l] Hs Hl IH]; [done|done|].
  change (join_commas (s :: s' :: l)) with (s +:+ "," +:+ join_commas (s' :: l)). by rewrite !all_chars_app, Hs, IH.
Qed.

Lemma Marshal_safe (j : json) : all_chars html_safe (Marshal j) = true.
Proof.
  induction j as [z|s|l IH|fields IH] using json_nested_ind; cbn [Marshal].
  - apply Itoa_safe.
  - apply marshal_string_safe.
  - rewrite !all_chars_app, join_commas_safe; [done|]. by rewrite Forall_fmap.
  - rewrite !all_chars_app, join_commas_safe; [done|]. rewrite Forall_fmap. eapply Forall_impl; [exact IH|].
    intros [k j]. cbn. intros Hj. by rewrite !all_chars_app, marshal_string_safe, Hj.
Qed.
