(* ===== verification/Bitset.v ===== *)
(** * The bitset of the linearizability checker (porcupine/bitset.go)

    A bitset is a slice of 64-bit words.  Words are kept as integers of [Z];
    [bitset.wf] says that each is a [uint64].  The methods that assign through
    the slice return the new slice; an index outside the slice panics, as the
    Go slice access does.  [bitset.repr n b X] is the abstraction: [b] is a
    bitset for positions below [n] that holds exactly the positions of [X]. *)
From stdpp Require Import base gmap sets numbers list.
From S2P Require Import Prelude.
Local Open Scope Z_scope.
Local Open Scope go_scope.

(** [math/bits.OnesCount64] of the standard library: the number of one bits. *)
Fixpoint pos_ones (p : positive) : Z :=
  match p with
  | xH => 1
  | xO q => pos_ones q
  | xI q => 1 + pos_ones q
  end.

Definition OnesCount64 (w : Z) : Z :=
  match w with
  | Zpos p => pos_ones p
  | _ => 0
  end.

Module bitset.

Abbreviation t := (list Z).

Definition newBitset (bits : Z) : t :=
  let extra := if bool_decide (bits mod 64 = 0) then 0 else 1 in
  let chunks := bits / 64 + extra in
  replicate (Z.to_nat chunks) 0.

(** A copy: a slice of the model is a value, so the copy shares nothing. *)
Definition clone (b : t) : t := b.

Definition bitsetIndex (pos : Z) : Z * Z := (pos / 64, pos mod 64).

Definition set (b : t) (pos : Z) : outcome t :=
  let '(major, minor) := bitsetIndex pos in
  let! w := slice_get b major in
  slice_set b major (Z.lor w (Z.shiftl 1 minor)).

Definition clear (b : t) (pos : Z) : outcome t :=
  let '(major, minor) := bitsetIndex pos in
  let! w := slice_get b major in
  slice_set b major (Z.ldiff w (Z.shiftl 1 minor)).

Definition get (b : t) (pos : Z) : outcome bool :=
  let '(major, minor) := bitsetIndex pos in
  let! w := slice_get b major in
  Ret (negb (bool_decide (Z.land w (Z.shiftl 1 minor) = 0))).

Definition popcnt (b : t) : Z := foldl (λ total v, total + OnesCount64 v) 0 b.

Definition hash (b : t) : Z := foldl (λ h v, Z.lxor h v) (popcnt b) b.

(** The loop of [equals] over the index of both slices. *)
Fixpoint equals_loop (b b2 : t) : bool :=
  match b, b2 with
  | w :: b', w2 :: b2' => if bool_decide (w = w2) then equals_loop b' b2' else false
  | _, _ => true
  end.

Definition equals (b b2 : t) : bool :=
  if bool_decide (length b = length b2) then equals_loop b b2 else false.

(** ** Abstraction *)

Definition wf (b : t) : Prop := Forall (λ w, 0 ≤ w < 2 ^ 64) b.

(** Bit [pos] of the slice; false outside. *)
Definition bit (b : t) (pos : Z) : bool :=
  if bool_decide (0 ≤ pos) then
    match b !! Z.to_nat (pos / 64) with
    | Some w => Z.testbit w (pos mod 64)
    | None => false
    end
  else false.

Record repr (n : Z) (b : t) (X : gset Z) : Prop := {
  repr_wf : wf b;
  repr_len : length b = length (newBitset n);
  repr_bit : ∀ pos, bit b pos = true ↔ pos ∈ X;
  repr_range : ∀ pos, pos ∈ X → 0 ≤ pos < n;
}.

End bitset.

(** ** Words *)

(** A word is determined below bit 64; [word_bits] is how the bounds of the
    bit operations are proved. *)
Lemma word_high w i : 0 ≤ w < 2 ^ 64 → 64 ≤ i → Z.testbit w i = false.
Proof. intros Hw Hi. apply (Z.bounded_iff_bits_nonneg 64 w); lia. Qed.

Lemma word_bits w :
  0 ≤ w → (∀ i, 64 ≤ i → Z.testbit w i = false) → 0 ≤ w < 2 ^ 64.
Proof. intros Hw Hi. split; [done|]. apply Z.bounded_iff_bits_nonneg; [lia|done|done]. Qed.

Lemma testbit_one_shift m i : 0 ≤ m → Z.testbit (Z.shiftl 1 m) i = bool_decide (i = m).
Proof.
  intros Hm. destruct (decide (0 ≤ i)) as [Hi|Hi].
  - rewrite Z.shiftl_spec by lia. case_bool_decide as He.
    + subst. by rewrite Z.sub_diag.
    + destruct (decide (i - m < 0)); [by rewrite Z.testbit_neg_r by lia|].
      apply Z.bits_above_log2; simpl; lia.
  - rewrite Z.testbit_neg_r by lia. rewrite bool_decide_eq_false_2; [done|lia].
Qed.

Lemma word_lor_bound w m : 0 ≤ w < 2 ^ 64 → 0 ≤ m < 64 → 0 ≤ Z.lor w (Z.shiftl 1 m) < 2 ^ 64.
Proof.
  intros Hw Hm. apply word_bits.
  - apply Z.lor_nonneg; split; [lia|]. apply Z.shiftl_nonneg; lia.
  - intros i Hi. rewrite Z.lor_spec, word_high, testbit_one_shift by lia.
    rewrite bool_decide_eq_false_2; [done|lia].
Qed.

Lemma word_ldiff_bound w m : 0 ≤ w < 2 ^ 64 → 0 ≤ Z.ldiff w m < 2 ^ 64.
Proof.
  intros Hw. apply word_bits; [apply Z.ldiff_nonneg; lia|].
  intros i Hi. by rewrite Z.ldiff_spec, word_high.
Qed.

Lemma word_lxor_bound v w : 0 ≤ v < 2 ^ 64 → 0 ≤ w < 2 ^ 64 → 0 ≤ Z.lxor v w < 2 ^ 64.
Proof.
  intros Hv Hw. apply word_bits; [apply Z.lxor_nonneg; lia|].
  intros i Hi. by rewrite Z.lxor_spec, !word_high.
Qed.

Lemma land_one_shift w m : 0 ≤ m →
  negb (bool_decide (Z.land w (Z.shiftl 1 m) = 0)) = Z.testbit w m.
Proof.
  intros Hm. destruct (Z.testbit w m) eqn:Hb.
  - rewrite bool_decide_eq_false_2; [done|]. intros H0.
    apply (f_equal (λ z, Z.testbit z m)) in H0.
    rewrite Z.land_spec, testbit_one_shift, bool_decide_eq_true_2, Hb, Z.bits_0 in H0 by done.
    done.
  - rewrite bool_decide_eq_true_2; [done|]. apply Z.bits_inj'. intros i Hi.
    rewrite Z.land_spec, testbit_one_shift, Z.bits_0 by done.
    case_bool_decide; subst; [by rewrite Hb|by rewrite andb_false_r].
Qed.

(** ** The methods of the bitset *)

Section bitset_lemmas.
Import bitset.
Implicit Types (b : bitset.t) (X : gset Z).

Lemma length_newBitset n : 0 ≤ n → zlen (newBitset n) = (n + 63) / 64.
Proof.
  intros Hn. unfold newBitset. rewrite length_replicate.
  case_bool_decide as Hm; rewrite Z2Nat.id;
    pose proof (Z.div_mod n 64 ltac:(lia)); pose proof (Z.mod_pos_bound n 64 ltac:(lia)).
  - rewrite Hm in *. apply Z.div_unique with (r := 63); lia.
  - pose proof (Z.div_pos n 64). lia.
  - apply Z.div_unique with (r := n mod 64 - 1); lia.
  - pose proof (Z.div_pos n 64). lia.
Qed.

Lemma newBitset_index n pos : 0 ≤ pos < n → 0 ≤ pos / 64 < zlen (newBitset n).
Proof.
  intros Hp. rewrite length_newBitset by lia. split; [apply Z.div_pos; lia|].
  pose proof (Z.div_mod pos 64). pose proof (Z.mod_pos_bound pos 64).
  apply Z.lt_le_trans with (pos / 64 + 1); [lia|].
  rewrite <-Z.div_add by lia. apply Z.div_le_mono; lia.
Qed.

Lemma bit_update b p q w :
  0 ≤ p → p / 64 < zlen b →
  bit (<[Z.to_nat (p / 64) := w]> b) q =
  if bool_decide (0 ≤ q ∧ q / 64 = p / 64) then Z.testbit w (q mod 64) else bit b q.
Proof.
  intros Hp Hlen. unfold bit.
  case_bool_decide as Hq; [|by rewrite bool_decide_eq_false_2 by naive_solver].
  assert (0 ≤ p / 64) by (apply Z.div_pos; lia).
  assert (0 ≤ q / 64) by (apply Z.div_pos; lia).
  case_bool_decide as Hd.
  - destruct Hd as [_ ->]. rewrite list_lookup_insert_eq by lia. done.
  - rewrite list_lookup_insert_ne; [done|]. intros He. apply Hd. split; [done|].
    apply Z2Nat.inj; lia.
Qed.

Lemma same_word p q :
  q / 64 = p / 64 → (bool_decide (q mod 64 = p mod 64) = bool_decide (q = p)).
Proof.
  intros H. apply bool_decide_ext. split; [|by intros ->].
  intros Hm. rewrite (Z.div_mod q 64), (Z.div_mod p 64) by lia. lia.
Qed.

Lemma word_at b p :
  0 ≤ p → p / 64 < zlen b →
  ∃ w, slice_get b (p / 64) = Ret w ∧ b !! Z.to_nat (p / 64) = Some w.
Proof. intros. apply slice_get_in_range. split; [apply Z.div_pos; lia|done]. Qed.

Lemma bit_at b p w :
  0 ≤ p → b !! Z.to_nat (p / 64) = Some w → bit b p = Z.testbit w (p mod 64).
Proof. intros Hp Hw. unfold bit. by rewrite bool_decide_eq_true_2, Hw. Qed.

Lemma wf_word b i w : wf b → b !! i = Some w → 0 ≤ w < 2 ^ 64.
Proof. intros Hwf Hw. exact (Forall_lookup_1 _ _ _ _ Hwf Hw). Qed.

Lemma bit_nonneg b p : bit b p = true → 0 ≤ p.
Proof. unfold bit. case_bool_decide; [done|discriminate]. Qed.

Lemma mod64_bound p : 0 ≤ p mod 64 < 64.
Proof. apply Z.mod_pos_bound. lia. Qed.
#[local] Hint Resolve mod64_bound : core.

(** A positional update of the slice: what [set] and [clear] share. *)
Lemma update_word (b : bitset.t) p (f : Z → Z) (g : bool → bool) :
  wf b → 0 ≤ p → p / 64 < zlen b →
  (∀ w, 0 ≤ w < 2 ^ 64 → 0 ≤ f w < 2 ^ 64) →
  (∀ w i, 0 ≤ i → Z.testbit (f w) i = if bool_decide (i = p mod 64) then g (Z.testbit w i) else Z.testbit w i) →
  ∃ b', (let! w := slice_get b (p / 64) in slice_set b (p / 64) (f w)) = Ret b' ∧
    wf b' ∧ length b' = length b ∧
    ∀ q, bit b' q = if bool_decide (q = p) then g (bit b q) else bit b q.
Proof.
  intros Hwf Hp Hlen Hf Hg. destruct (word_at b p Hp Hlen) as (w & Hget & Hw).
  assert (0 ≤ p / 64) by (apply Z.div_pos; lia).
  exists (<[Z.to_nat (p / 64) := f w]> b). rewrite Hget. simpl.
  split; [by apply slice_set_Ret|]. split.
  { apply Forall_insert; [done|]. apply Hf. by eapply wf_word. }
  split; [apply length_insert|]. intros q. rewrite bit_update by done.
  case_bool_decide as Hd.
  - destruct Hd as [Hq Hd]. rewrite Hg by (apply Z.mod_pos_bound; lia).
    rewrite same_word by done. rewrite <-Hd in Hw. by rewrite (bit_at b q w).
  - case_bool_decide as Heq; [|done]. subst q. naive_solver.
Qed.

Lemma set_spec b p :
  wf b → 0 ≤ p → p / 64 < zlen b →
  ∃ b', set b p = Ret b' ∧ wf b' ∧ length b' = length b ∧
    ∀ q, bit b' q = bool_decide (q = p) || bit b q.
Proof.
  intros Hwf Hp Hlen. destruct (mod64_bound p).
  destruct (update_word b p (λ w, Z.lor w (Z.shiftl 1 (p mod 64))) (λ _, true))
    as (b' & Hb' & Hwf' & Hlen' & Hbit); try done.
  { intros w Hw. by apply word_lor_bound. }
  { intros w i Hi. rewrite Z.lor_spec, testbit_one_shift by done.
    case_bool_decide; by rewrite ?orb_true_r, ?orb_false_r. }
  exists b'. split_and!; [done..|]. intros q. rewrite Hbit. by case_bool_decide.
Qed.

Lemma clear_spec b p :
  wf b → 0 ≤ p → p / 64 < zlen b →
  ∃ b', clear b p = Ret b' ∧ wf b' ∧ length b' = length b ∧
    ∀ q, bit b' q = negb (bool_decide (q = p)) && bit b q.
Proof.
  intros Hwf Hp Hlen. destruct (mod64_bound p).
  destruct (update_word b p (λ w, Z.ldiff w (Z.shiftl 1 (p mod 64))) (λ _, false))
    as (b' & Hb' & Hwf' & Hlen' & Hbit); try done.
  { intros w Hw. by apply word_ldiff_bound. }
  { intros w i Hi. rewrite Z.ldiff_spec, testbit_one_shift by done.
    case_bool_decide; by rewrite ?andb_false_r, ?andb_true_r. }
  exists b'. split_and!; [done..|]. intros q. rewrite Hbit. by case_bool_decide.
Qed.

Lemma get_bit b p : 0 ≤ p → p / 64 < zlen b → get b p = Ret (bit b p).
Proof.
  intros Hp Hlen. destruct (word_at b p Hp Hlen) as (w & Hget & Hw).
  unfold get, bitsetIndex. rewrite Hget. simpl.
  rewrite land_one_shift by apply mod64_bound. by rewrite (bit_at b p w).
Qed.

Lemma newBitset_bit n q : bit (newBitset n) q = false.
Proof.
  unfold bit, newBitset. case_bool_decide; [|done].
  destruct (_ !! _) as [w|] eqn:Hw; [|done].
  apply lookup_replicate in Hw as [-> _]. apply Z.bits_0.
Qed.

Lemma newBitset_wf n : wf (newBitset n).
Proof. unfold wf, newBitset. apply Forall_replicate. lia. Qed.

(** ** Equality and extensionality *)

Lemma equals_loop_eq b b2 : length b = length b2 → equals_loop b b2 = true ↔ b = b2.
Proof.
  revert b2. induction b as [|w b IH]; intros [|w2 b2]; simpl; try done.
  intros [= Hlen]. case_bool_decide as Hw; [rewrite IH by done|]; naive_solver.
Qed.

Lemma equals_eq b b2 : equals b b2 = true ↔ b = b2.
Proof.
  unfold equals. case_bool_decide as Hl; [by apply equals_loop_eq|].
  split; [discriminate|]. intros ->. done.
Qed.

Lemma wf_word_ext (v w : Z) :
  0 ≤ v < 2 ^ 64 → 0 ≤ w < 2 ^ 64 →
  (∀ i, 0 ≤ i < 64 → Z.testbit v i = Z.testbit w i) → v = w.
Proof.
  intros Hv Hw H. apply Z.bits_inj'. intros i Hi.
  destruct (decide (i < 64)); [by apply H|]. by rewrite !word_high by lia.
Qed.

Lemma bit_ext b b2 :
  wf b → wf b2 → length b = length b2 → (∀ p, 0 ≤ p → bit b p = bit b2 p) → b = b2.
Proof.
  intros Hwf Hwf2 Hlen Hbit. apply (list_eq_same_length b b2 (length b2)); [done|done|].
  intros i v w Hi Hv Hw.
  apply wf_word_ext; [exact (wf_word _ _ _ Hwf Hv)|exact (wf_word _ _ _ Hwf2 Hw)|].
  intros j Hj. specialize (Hbit (64 * Z.of_nat i + j) ltac:(lia)).
  assert ((64 * Z.of_nat i + j) / 64 = Z.of_nat i) as Hdiv.
  { symmetry. apply Z.div_unique with (r := j); lia. }
  assert ((64 * Z.of_nat i + j) mod 64 = j) as Hmod.
  { symmetry. apply Z.mod_unique with (q := Z.of_nat i); lia. }
  rewrite (bit_at b _ v), (bit_at b2 _ w), Hmod in Hbit;
    rewrite ?Hdiv, ?Nat2Z.id; done || lia.
Qed.

(** ** Population count *)

(** The positions of [lo, lo + n) where a predicate holds, counted. *)
Definition count_bits (P : Z → bool) (lo n : Z) : Z :=
  zlen (filter (λ i, P i = true) (seqZ lo n)).

Lemma count_bits_ext P Q lo n :
  (∀ i, lo ≤ i < lo + n → P i = Q i) → count_bits P lo n = count_bits Q lo n.
Proof.
  intros H. unfold count_bits. do 2 f_equal. apply filter_ext_in.
  intros i Hi%elem_of_seqZ. by rewrite H.
Qed.

Lemma count_bits_app P lo n m :
  0 ≤ n → 0 ≤ m → count_bits P lo (n + m) = count_bits P lo n + count_bits P (lo + n) m.
Proof. intros. unfold count_bits. rewrite seqZ_app, filter_app, length_app by done. lia. Qed.

Lemma count_bits_shift P lo d n : count_bits P (d + lo) n = count_bits (λ i, P (d + i)) lo n.
Proof.
  unfold count_bits. by rewrite <-fmap_add_seqZ, filter_fmap, length_fmap.
Qed.

Lemma OnesCount64_double w (c : bool) :
  0 ≤ w → OnesCount64 (2 * w + Z.b2z c) = OnesCount64 w + Z.b2z c.
Proof.
  intros Hw. destruct w as [|p|p]; [by destruct c| |lia].
  destruct c; [change (1 + pos_ones p = pos_ones p + 1)|change (pos_ones p = pos_ones p + 0)]; lia.
Qed.

Lemma OnesCount64_count (k : nat) w :
  0 ≤ w < 2 ^ Z.of_nat k → OnesCount64 w = count_bits (Z.testbit w) 0 (Z.of_nat k).
Proof.
  revert w. induction k as [|k IH]; intros w Hw.
  - assert (w = 0) as -> by (simpl in Hw; lia). done.
  - rewrite Nat2Z.inj_succ, <-Z.add_1_l, count_bits_app by lia.
    rewrite (count_bits_shift _ 0 1).
    rewrite Nat2Z.inj_succ, Z.pow_succ_r in Hw by lia.
    pose proof (Z.div2_odd w) as Hodd.
    assert (0 ≤ Z.div2 w) by (apply Z.div2_nonneg; lia).
    rewrite Hodd at 1. rewrite OnesCount64_double by done.
    rewrite (IH (Z.div2 w)) by (destruct (Z.odd w); simpl in *; lia).
    rewrite Z.add_comm. f_equal.
    + unfold count_bits. change (seqZ 0 1) with [0]. rewrite filter_cons, Z.bit0_odd.
      by destruct (Z.odd w).
    + apply count_bits_ext. intros i Hi. rewrite Z.add_1_l.
      rewrite Z.div2_spec, Z.shiftr_spec by lia. by rewrite Z.add_1_r.
Qed.

Lemma popcnt_snoc b w : popcnt (b ++ [w]) = popcnt b + OnesCount64 w.
Proof. unfold popcnt. by rewrite foldl_app. Qed.

Lemma popcnt_count b : wf b → popcnt b = count_bits (bit b) 0 (64 * zlen b).
Proof.
  induction b as [|w b IH] using rev_ind; intros Hwf; [done|].
  apply Forall_app in Hwf as [Hb Hw]. rewrite Forall_singleton in Hw.
  rewrite popcnt_snoc, (OnesCount64_count 64 w Hw), IH by done.
  rewrite length_app, Nat2Z.inj_add, Z.mul_add_distr_l, count_bits_app by lia.
  f_equal.
  - apply count_bits_ext. intros i Hi. unfold bit.
    rewrite lookup_app_l; [done|]. apply Nat2Z.inj_lt.
    rewrite Z2Nat.id by (apply Z.div_pos; lia). apply Z.div_lt_upper_bound; lia.
  - change (Z.of_nat (length [w])) with 1. rewrite Z.add_comm, count_bits_shift.
    change (64 * 1) with 64. apply count_bits_ext. intros i Hi.
    rewrite (bit_at _ _ w); [| lia |].
    + f_equal. apply Z.mod_unique with (q := zlen b); lia.
    + replace ((64 * zlen b + i) / 64) with (zlen b)
        by (apply Z.div_unique with (r := i); lia).
      by rewrite Nat2Z.id, lookup_app_r, Nat.sub_diag.
Qed.

Lemma size_filter_bits b n X :
  repr n b X → Z.of_nat (size X) = count_bits (bit b) 0 (64 * zlen b).
Proof.
  intros [Hwf Hlen Hbit Hrange].
  assert (X = list_to_set (filter (λ i, bit b i = true) (seqZ 0 (64 * zlen b)))) as ->.
  { apply set_eq. intros p. rewrite elem_of_list_to_set, list_elem_of_filter, elem_of_seqZ.
    rewrite <-Hbit. split; [|naive_solver]. intros Hp. split; [done|].
    assert (0 ≤ p < n) as Hp' by (by apply Hrange, Hbit).
    pose proof (newBitset_index n p Hp'). rewrite <-Hlen in *.
    pose proof (Z.div_mod p 64). pose proof (mod64_bound p). lia. }
  rewrite size_list_to_set; [done|]. apply NoDup_filter, NoDup_seqZ.
Qed.

(** ** Hash *)

Lemma hash_bound b : wf b → zlen b ≤ 2 ^ 57 → 0 ≤ hash b < 2 ^ 64.
Proof.
  intros Hwf Hlen. unfold hash.
  assert (0 ≤ popcnt b < 2 ^ 64) as Hpop.
  { rewrite popcnt_count by done. unfold count_bits.
    pose proof (length_filter (λ i, bit b i = true) (seqZ 0 (64 * zlen b))) as Hf.
    rewrite length_seqZ in Hf. lia. }
  revert Hpop. generalize (popcnt b). clear Hlen.
  induction Hwf as [|w b Hw Hb IH]; intros h Hh; [done|]. simpl.
  apply IH. by apply word_lxor_bound.
Qed.

End bitset_lemmas.

(** ** Refinement: a bitset is a finite set of positions *)

Section bitset_refinement.
Import bitset.
Implicit Types (b : bitset.t) (X : gset Z).

Lemma repr_index n b X p : repr n b X → 0 ≤ p < n → 0 ≤ p ∧ p / 64 < zlen b.
Proof.
  intros [_ Hlen _ _] Hp. rewrite Hlen. pose proof (newBitset_index n p Hp). lia.
Qed.

Lemma repr_newBitset n : repr n (newBitset n) ∅.
Proof.
  split; [apply newBitset_wf|done| |set_solver].
  intros pos. rewrite newBitset_bit. set_solver.
Qed.

Lemma repr_set n b X p :
  repr n b X → 0 ≤ p < n → ∃ b', set b p = Ret b' ∧ repr n b' ({[p]} ∪ X).
Proof.
  intros HX Hp. destruct (repr_index _ _ _ _ HX Hp) as [Hp0 Hi].
  destruct (set_spec b p (repr_wf _ _ _ HX) Hp0 Hi) as (b' & Hs & Hwf & Hlen & Hbit).
  exists b'. split; [done|]. destruct HX as [_ Hlen0 Hbit0 Hrange]. split; [done|congruence|..].
  - intros q. rewrite Hbit, orb_true_iff, bool_decide_eq_true, Hbit0. set_solver.
  - intros q [->%elem_of_singleton|Hq]%elem_of_union; [done|by apply Hrange].
Qed.

Lemma repr_clear n b X p :
  repr n b X → 0 ≤ p < n → ∃ b', clear b p = Ret b' ∧ repr n b' (X ∖ {[p]}).
Proof.
  intros HX Hp. destruct (repr_index _ _ _ _ HX Hp) as [Hp0 Hi].
  destruct (clear_spec b p (repr_wf _ _ _ HX) Hp0 Hi) as (b' & Hs & Hwf & Hlen & Hbit).
  exists b'. split; [done|]. destruct HX as [_ Hlen0 Hbit0 Hrange]. split; [done|congruence|..].
  - intros q. rewrite Hbit, andb_true_iff, negb_true_iff, bool_decide_eq_false, Hbit0. set_solver.
  - intros q [Hq _]%elem_of_difference. by apply Hrange.
Qed.

Lemma repr_get n b X p :
  repr n b X → 0 ≤ p < n → get b p = Ret (bool_decide (p ∈ X)).
Proof.
  intros HX Hp. destruct (repr_index _ _ _ _ HX Hp) as [Hp0 Hi].
  rewrite get_bit by done. f_equal. apply eq_bool_prop_intro.
  rewrite Is_true_true, (repr_bit _ _ _ HX), bool_decide_spec. done.
Qed.

Lemma repr_inj n b b2 X : repr n b X → repr n b2 X → b = b2.
Proof.
  intros [Hwf Hlen Hbit _] [Hwf2 Hlen2 Hbit2 _]. apply bit_ext; [done|done|congruence|].
  intros p _. apply eq_bool_prop_intro. by rewrite !Is_true_true, Hbit, Hbit2.
Qed.

Lemma repr_fun n b X X2 : repr n b X → repr n b X2 → X = X2.
Proof. intros HX HX2. apply set_eq. intros p. by rewrite <-(repr_bit _ _ _ HX), <-(repr_bit _ _ _ HX2). Qed.

Lemma repr_equals n b b2 X X2 :
  repr n b X → repr n b2 X2 → equals b b2 = true ↔ X = X2.
Proof.
  intros HX HX2. rewrite equals_eq. split.
  - intros ->. by eapply repr_fun.
  - intros ->. by eapply repr_inj.
Qed.

(** C12: the methods of the bitset implement a finite set of positions below
    [n]: a new bitset is empty, [set], [clear] and [get] are insertion,
    deletion and membership (and never panic there), [popcnt] is the
    cardinality and [equals] decides equality of the sets. *)
Theorem bitset_refines_gset n b X p b2 X2 :
  repr n b X → repr n b2 X2 → 0 ≤ p < n →
  repr n (newBitset n) ∅ ∧
  (∃ b', set b p = Ret b' ∧ repr n b' ({[p]} ∪ X)) ∧
  (∃ b', clear b p = Ret b' ∧ repr n b' (X ∖ {[p]})) ∧
  get b p = Ret (bool_decide (p ∈ X)) ∧
  popcnt b = Z.of_nat (size X) ∧
  (equals b b2 = true ↔ X = X2).
Proof.
  intros HX HX2 Hp. split_and!.
  - apply repr_newBitset.
  - by eapply repr_set.
  - by eapply repr_clear.
  - by eapply repr_get.
  - rewrite popcnt_count by exact (repr_wf _ _ _ HX). symmetry. by eapply size_filter_bits.
  - by eapply repr_equals.
Qed.

(** An index past the words of the slice panics in every method, and the
    methods panic only there. *)
Theorem bitset_panics_out_of_range b p :
  0 ≤ p →
  (get b p = Panic ↔ zlen b ≤ p / 64) ∧
  (set b p = Panic ↔ zlen b ≤ p / 64) ∧
  (clear b p = Panic ↔ zlen b ≤ p / 64).
Proof.
  intros Hp. assert (0 ≤ p / 64) by (apply Z.div_pos; lia).
  unfold get, set, clear, bitsetIndex, slice_get, slice_set.
  rewrite bool_decide_eq_true_2 by done.
  destruct (b !! Z.to_nat (p / 64)) as [w|] eqn:Hw; simpl.
  - apply lookup_lt_Some in Hw.
    rewrite (bool_decide_eq_true_2 (0 ≤ p / 64 < zlen b)) by lia.
    split_and!; split; (discriminate || (intros; exfalso; lia)).
  - apply lookup_ge_None in Hw. split_and!; split; intros; (done || lia || (exfalso; lia)).
Qed.

(** The hash is a function of the set alone, and stays a 64-bit word. *)
Theorem bitset_hash_of_set n b b2 X :
  repr n b X → repr n b2 X → zlen b ≤ 2 ^ 57 → hash b = hash b2 ∧ 0 ≤ hash b < 2 ^ 64.
Proof.
  intros HX HX2 Hlen. rewrite (repr_inj _ _ _ _ HX HX2). split; [done|].
  apply hash_bound; [exact (repr_wf _ _ _ HX2)|]. by rewrite <-(repr_inj _ _ _ _ HX HX2).
Qed.

Lemma bitset_refines_gset_witness :
  ∃ b, set (newBitset 70) 65 = Ret b ∧ get b 65 = Ret true ∧ popcnt b = 1.
Proof.
  destruct (repr_set 70 _ ∅ 65 (repr_newBitset 70) ltac:(lia)) as (b & Hb & HX).
  destruct (bitset_refines_gset 70 b ({[65]} ∪ ∅) 65 b _ HX HX ltac:(lia))
    as (_ & _ & _ & Hget & Hpop & _).
  exists b. split; [exact Hb|]. split; [exact Hget|exact Hpop].
Defined.

Lemma bitset_panics_out_of_range_witness : get (newBitset 70) 128 = Panic.
Proof.
  destruct (bitset_panics_out_of_range (newBitset 70) 128 ltac:(lia)) as [[_ H] _].
  apply H. vm_compute. discriminate.
Defined.

Lemma bitset_hash_of_set_witness : hash (newBitset 70) = hash (newBitset 70) ∧ 0 ≤ hash (newBitset 70) < 2 ^ 64.
Proof.
  apply (bitset_hash_of_set 70 (newBitset 70) (newBitset 70) ∅);
    [apply repr_newBitset|apply repr_newBitset|vm_compute; discriminate].
Defined.

End bitset_refinement.
