(* ===== verification/Model.v ===== *)
(** * Models, histories and linearizability (porcupine/model.go, checker.go)

    The data of the checker: operations with their invocation and response
    times, events, the [entry] lists that both are turned into, and the model
    of the system under test.  [interface{}] values are a type [V] of the
    development, states a type [St]; the callbacks of a model may panic (a
    failed type assertion), hence their outcomes.

    The second half defines what the checker decides: [linearizable]. *)
From stdpp Require Import base gmap sets numbers strings sorting list.
From S2P Require Import Prelude.
Local Open Scope Z_scope.
Local Open Scope go_scope.

Record Operation (V : Type) := MkOperation {
  op_ClientId : Z;
  op_Input : V;
  op_Call : Z;
  op_Output : V;
  op_Return : Z;
}.
Arguments MkOperation {V} _ _ _ _ _.
Arguments op_ClientId {V} _.
Arguments op_Input {V} _.
Arguments op_Call {V} _.
Arguments op_Output {V} _.
Arguments op_Return {V} _.

Inductive EventKind := CallEvent | ReturnEvent.

Record Event (V : Type) := MkEvent {
  ev_ClientId : Z;
  ev_Kind : EventKind;
  ev_Value : V;
  ev_Id : Z;
}.
Arguments MkEvent {V} _ _ _ _.
Arguments ev_ClientId {V} _.
Arguments ev_Kind {V} _.
Arguments ev_Value {V} _.
Arguments ev_Id {V} _.

Inductive entryKind := callEntry | returnEntry.

Record entry (V : Type) := MkEntry {
  e_kind : entryKind;
  e_value : V;
  e_id : Z;
  e_time : Z;
  e_clientId : Z;
}.
Arguments MkEntry {V} _ _ _ _ _.
Arguments e_kind {V} _.
Arguments e_value {V} _.
Arguments e_id {V} _.
Arguments e_time {V} _.
Arguments e_clientId {V} _.

#[export] Instance EventKind_eq_dec : EqDecision EventKind.
Proof. solve_decision. Defined.
#[export] Instance entryKind_eq_dec : EqDecision entryKind.
Proof. solve_decision. Defined.

(** [type CheckResult string] with its three constants. *)
Inductive CheckResult := Unknown | Ok | Illegal.

#[export] Instance CheckResult_eq_dec : EqDecision CheckResult.
Proof. solve_decision. Defined.

(** ** Models of the system under test

    The function fields that [fillDefault] fills may be nil, hence the
    options.  [FullModel] is what [fillDefault] returns: the same struct, with
    no nil among them. *)
Record Model (V St : Type) := MkModel {
  m_Partition : option (list (Operation V) → outcome (list (list (Operation V))));
  m_PartitionEvent : option (list (Event V) → outcome (list (list (Event V))));
  m_Init : St;
  m_Step : St → V → V → outcome (bool * St);
  m_Equal : option (St → St → outcome bool);
  m_DescribeOperation : option (V → V → outcome string);
  m_DescribeState : option (St → outcome string);
}.
Arguments MkModel {V St} _ _ _ _ _ _ _.
Arguments m_Partition {V St} _.
Arguments m_PartitionEvent {V St} _.
Arguments m_Init {V St} _.
Arguments m_Step {V St} _ _ _ _.
Arguments m_Equal {V St} _.
Arguments m_DescribeOperation {V St} _.
Arguments m_DescribeState {V St} _.

Record FullModel (V St : Type) := MkFullModel {
  Partition : list (Operation V) → outcome (list (list (Operation V)));
  PartitionEvent : list (Event V) → outcome (list (list (Event V)));
  Init : St;
  Step : St → V → V → outcome (bool * St);
  Equal : St → St → outcome bool;
  DescribeOperation : V → V → outcome string;
  DescribeState : St → outcome string;
}.
Arguments MkFullModel {V St} _ _ _ _ _ _ _.
Arguments Partition {V St} _ _.
Arguments PartitionEvent {V St} _ _.
Arguments Init {V St} _.
Arguments Step {V St} _ _ _ _.
Arguments Equal {V St} _ _ _.
Arguments DescribeOperation {V St} _ _ _.
Arguments DescribeState {V St} _ _.

Definition NoPartition {V : Type} (history : list (Operation V)) : outcome (list (list (Operation V))) :=
  Ret [history].

Definition NoPartitionEvent {V : Type} (history : list (Event V)) : outcome (list (list (Event V))) :=
  Ret [history].

(** [state1 == state2], for states of a comparable type. *)
Definition ShallowEqual {St : Type} `{EqDecision St} (state1 state2 : St) : outcome bool :=
  Ret (bool_decide (state1 = state2)).

(** The [%v] verb of package fmt on interface values. *)
Class FmtV (A : Type) := fmt_v : A → string.

Definition DefaultDescribeOperation {V : Type} `{FmtV V} (input output : V) : outcome string :=
  Ret (fmt_v input +:+ " -> " +:+ fmt_v output)%string.

Definition DefaultDescribeState {St : Type} `{FmtV St} (state : St) : outcome string :=
  Ret (fmt_v state).

Definition fillDefault {V St : Type} `{EqDecision St, FmtV V, FmtV St} (model : Model V St) : FullModel V St :=
  {| Partition := match m_Partition model with None => NoPartition | Some f => f end;
     PartitionEvent := match m_PartitionEvent model with None => NoPartitionEvent | Some f => f end;
     Init := m_Init model;
     Step := m_Step model;
     Equal := match m_Equal model with None => ShallowEqual | Some f => f end;
     DescribeOperation :=
       match m_DescribeOperation model with None => DefaultDescribeOperation | Some f => f end;
     DescribeState := match m_DescribeState model with None => DefaultDescribeState | Some f => f end |}.

(** ** Sorting

    Package sort documents that [sort.Sort] rearranges the data (it permutes
    it) into ascending order of [Less] and that it is not stable.  The
    development is parametric in the sort and uses these two facts only. *)
Class GoSort := {
  sort_Sort : ∀ {A : Type}, (A → A → bool) → list A → list A;
  sort_Sort_perm : ∀ {A : Type} (less : A → A → bool) (l : list A), sort_Sort less l ≡ₚ l;
  sort_Sort_sorted : ∀ {A : Type} (less : A → A → bool) (l : list A),
    (∀ x y z, less y x = false → less z y = false → less z x = false) →
    (∀ x y, less y x = false ∨ less x y = false) →
    StronglySorted (λ x y, less y x = false) (sort_Sort less l);
}.

(** ** From operations and events to entries *)
Section entries.
Context {V : Type}.

(** The order of [byTime], as a comparison of the two elements. *)
Definition byTime_Less (a b : entry V) : bool := bool_decide (e_time a < e_time b).

Fixpoint makeEntries_loop (history : list (Operation V)) (id : Z) : list (entry V) :=
  match history with
  | [] => []
  | elem :: history' =>
      MkEntry callEntry (op_Input elem) id (op_Call elem) (op_ClientId elem) ::
      MkEntry returnEntry (op_Output elem) id (op_Return elem) (op_ClientId elem) ::
      makeEntries_loop history' (id + 1)
  end.

Definition makeEntries `{GoSort} (history : list (Operation V)) : list (entry V) :=
  sort_Sort byTime_Less (makeEntries_loop history 0).

Fixpoint renumber_loop (events : list (Event V)) (m : gmap Z Z) (id : Z) : list (Event V) :=
  match events with
  | [] => []
  | v :: events' =>
      match m !! ev_Id v with
      | Some r => MkEvent (ev_ClientId v) (ev_Kind v) (ev_Value v) r :: renumber_loop events' m id
      | None =>
          MkEvent (ev_ClientId v) (ev_Kind v) (ev_Value v) id ::
          renumber_loop events' (<[ev_Id v := id]> m) (id + 1)
      end
  end.

Definition renumber (events : list (Event V)) : list (Event V) := renumber_loop events ∅ 0.

Definition convertEntries (events : list (Event V)) : list (entry V) :=
  imap (λ i elem,
    let kind := match ev_Kind elem with ReturnEvent => returnEntry | CallEvent => callEntry end in
    MkEntry kind (ev_Value elem) (ev_Id elem) (Z.of_nat i) (ev_ClientId elem)) events.

End entries.

(** ** A sort

    Insertion by merging, as an instance on which the definitions compute. *)
Section merge_sort_GoSort.
Context {A : Type} (less : A → A → bool).

Definition not_after (x y : A) : Prop := less y x = false.

#[local] Instance not_after_dec : RelDecision not_after.
Proof. intros x y. unfold not_after. apply _. Defined.

Definition merge_sort_less (l : list A) : list A := merge_sort not_after l.

Lemma merge_sort_less_perm l : merge_sort_less l ≡ₚ l.
Proof. apply merge_sort_Permutation. Qed.

Lemma merge_sort_less_sorted l :
  (∀ x y z, less y x = false → less z y = false → less z x = false) →
  (∀ x y, less y x = false ∨ less x y = false) →
  StronglySorted (λ x y, less y x = false) (merge_sort_less l).
Proof.
  intros Htrans Htotal. assert (Transitive not_after) by (intros x y z; apply Htrans).
  assert (Total not_after) by (intros x y; apply Htotal).
  apply (StronglySorted_merge_sort not_after).
Qed.
End merge_sort_GoSort.

Definition merge_sort_GoSort : GoSort := {|
  sort_Sort := @merge_sort_less;
  sort_Sort_perm := @merge_sort_less_perm;
  sort_Sort_sorted := @merge_sort_less_sorted;
|}.
