(* ===== verification/KvModel.v ===== *)
(** * The key/value model (models/kv.go)

    The model against which the tests of the key/value services check their
    histories.  An interface value that reaches the callbacks holds a
    [KvInput] or a [KvOutput]; a failed type assertion panics.  The states are
    the value of one key: [kv_Partition] splits a history by key. *)
From stdpp Require Import base gmap sets numbers strings sorting list.
From S2P Require Import Prelude Model.
Local Open Scope Z_scope.
Local Open Scope go_scope.

Record KvInput := MkKvInput {
  kvi_Op : Z;     (* uint8: 0 => get, 1 => put, 2 => append *)
  kvi_Key : string;
  kvi_Value : string;
}.

Record KvOutput := MkKvOutput {
  kvo_Value : string;
}.

Inductive kv_iface := IKvInput (i : KvInput) | IKvOutput (o : KvOutput).

#[export] Instance KvInput_eq_dec : EqDecision KvInput.
Proof. solve_decision. Defined.
#[export] Instance KvOutput_eq_dec : EqDecision KvOutput.
Proof. solve_decision. Defined.
#[export] Instance kv_iface_eq_dec : EqDecision kv_iface.
Proof. solve_decision. Defined.

(** [v.(KvInput)] and [v.(KvOutput)]. *)
Definition assert_input (v : kv_iface) : outcome KvInput :=
  match v with IKvInput i => Ret i | IKvOutput _ => Panic end.
Definition assert_output (v : kv_iface) : outcome KvOutput :=
  match v with IKvOutput o => Ret o | IKvInput _ => Panic end.

(** ** Partition by key *)
Fixpoint group_by_key (history : list (Operation kv_iface))
    (m : gmap string (list (Operation kv_iface))) : outcome (gmap string (list (Operation kv_iface))) :=
  match history with
  | [] => Ret m
  | v :: history' =>
      let! i := assert_input (op_Input v) in
      let key := kvi_Key i in
      group_by_key history' (<[key := default [] (m !! key) ++ [v]]> m)
  end.

(** The keys are collected in the order of the map, then sorted. *)
Definition kv_Partition `{GoSort} (history : list (Operation kv_iface))
    : outcome (list (list (Operation kv_iface))) :=
  let! m := group_by_key history ∅ in
  let keys := sort_Sort String.ltb ((map_to_list m).*1) in
  Ret ((λ k, default [] (m !! k)) <$> keys).

Definition kv_Init : string := "".

Definition kv_Step (state : string) (input output : kv_iface) : outcome (bool * string) :=
  let! inp := assert_input input in
  let! out := assert_output output in
  let st := state in
  if bool_decide (kvi_Op inp = 0) then
    (* get *)
    Ret (bool_decide (kvo_Value out = st), state)
  else if bool_decide (kvi_Op inp = 1) then
    (* put *)
    Ret (true, kvi_Value inp)
  else
    (* append *)
    Ret (true, (st +:+ kvi_Value inp)%string).

Definition kv_DescribeOperation (input output : kv_iface) : outcome string :=
  let! inp := assert_input input in
  let! out := assert_output output in
  Ret (if bool_decide (kvi_Op inp = 0) then "get('" +:+ kvi_Key inp +:+ "') -> '" +:+ kvo_Value out +:+ "'"
       else if bool_decide (kvi_Op inp = 1) then
         "put('" +:+ kvi_Key inp +:+ "', '" +:+ kvi_Value inp +:+ "')"
       else if bool_decide (kvi_Op inp = 2) then
         "append('" +:+ kvi_Key inp +:+ "', '" +:+ kvi_Value inp +:+ "')"
       else "<invalid>")%string.

Definition KvModel `{GoSort} : Model kv_iface string :=
  {| m_Partition := Some kv_Partition;
     m_PartitionEvent := None;
     m_Init := kv_Init;
     m_Step := kv_Step;
     m_Equal := None;
     m_DescribeOperation := Some kv_DescribeOperation;
     m_DescribeState := None |}.

(** ** Runs of the model *)

(** The steps of well-typed operations return. *)
Lemma kv_Step_returns s i o : returns (kv_Step s (IKvInput i) (IKvOutput o)).
Proof.
  unfold kv_Step. simpl. case_bool_decide; [by eexists|]. case_bool_decide; by eexists.
Qed.
