(* ===== verification/Linearizability.v ===== *)
(** * Linearizability of an entry list

    What the checker of porcupine/checker.go decides, as a specification.  A
    history is a list of call and return entries in time order.  An operation
    [i] precedes [j] when the return of [i] stands before the call of [j]; a
    linearization is an order of all the operations that keeps this precedence
    and along which the model takes every step.

    [search] is the same notion in the shape in which the checker explores it:
    take an operation whose call stands before every return, step the model,
    remove the operation.  [search_linearization] proves the two equal. *)
From stdpp Require Import base gmap sets numbers sorting list.
From S2P Require Import Prelude Model.
Local Open Scope Z_scope.

Section linearizability.
Context {V St : Type}.
Implicit Types (h rem : list (entry V)) (e c r : entry V) (i j : Z) (σ : list Z) (s : St).

Definition is_call e : Prop := e_kind e = callEntry.
Definition is_ret e : Prop := e_kind e = returnEntry.
#[global] Instance is_call_dec e : Decision (is_call e) := decide (e_kind e = callEntry).
#[global] Instance is_ret_dec e : Decision (is_ret e) := decide (e_kind e = returnEntry).
Definition key e : entryKind * Z := (e_kind e, e_id e).

(** Every return follows the call of its operation, every call has a return,
    and no operation has two of either. *)
Record wf_entries h : Prop := {
  wf_nodup : NoDup (key <$> h);
  wf_call_before : ∀ l1 r l2, h = l1 ++ r :: l2 → is_ret r →
    ∃ c, c ∈ l1 ∧ is_call c ∧ e_id c = e_id r;
  wf_has_ret : ∀ c, c ∈ h → is_call c → ∃ r, r ∈ h ∧ is_ret r ∧ e_id r = e_id c;
}.

Definition op_ids h : list Z := e_id <$> filter is_call h.

Definition find_entry (k : entryKind) h i : option (entry V) :=
  head (filter (λ e, key e = (k, i)) h).

Definition remove_op i h : list (entry V) := filter (λ e, e_id e ≠ i) h.

Definition precedes h i j : Prop :=
  ∃ l1 r l2 c l3, h = l1 ++ r :: l2 ++ c :: l3 ∧
    is_ret r ∧ e_id r = i ∧ is_call c ∧ e_id c = j.

(** The model takes the operations of [σ] one after the other from [s]. *)
Fixpoint legal (step : St → V → V → outcome (bool * St)) h s σ : Prop :=
  match σ with
  | [] => True
  | i :: σ' =>
      ∃ c r s', find_entry callEntry h i = Some c ∧ find_entry returnEntry h i = Some r ∧
        step s (e_value c) (e_value r) = Ret (true, s') ∧ legal step h s' σ'
  end.

Definition linearization (step : St → V → V → outcome (bool * St)) h s σ : Prop :=
  σ ≡ₚ op_ids h ∧ StronglySorted (λ i j, ¬ precedes h j i) σ ∧ legal step h s σ.

Definition linearizable (step : St → V → V → outcome (bool * St)) h s : Prop :=
  ∃ σ, linearization step h s σ.

(** As [legal], with the state after the last operation. *)
Fixpoint reaches (step : St → V → V → outcome (bool * St)) h s σ (s' : St) : Prop :=
  match σ with
  | [] => s = s'
  | i :: σ' =>
      ∃ c r t, find_entry callEntry h i = Some c ∧ find_entry returnEntry h i = Some r ∧
        step s (e_value c) (e_value r) = Ret (true, t) ∧ reaches step h t σ' s'
  end.

(** A linearization of some of the operations, closed under precedence. *)
Record partial_linearization (step : St → V → V → outcome (bool * St)) h s σ : Prop := {
  pl_nodup : NoDup σ;
  pl_ids : ∀ i, i ∈ σ → i ∈ op_ids h;
  pl_sorted : StronglySorted (λ i j, ¬ precedes h j i) σ;
  pl_closed : ∀ i j, i ∈ σ → precedes h j i → j ∈ σ;
  pl_legal : legal step h s σ;
}.

Inductive search (step : St → V → V → outcome (bool * St)) : list (entry V) → St → Prop :=
| search_done s : search step [] s
| search_take l1 c l2 r s s' :
    Forall is_call l1 → is_call c →
    find_entry returnEntry (l1 ++ c :: l2) (e_id c) = Some r →
    step s (e_value c) (e_value r) = Ret (true, s') →
    search step (remove_op (e_id c) (l1 ++ c :: l2)) s' →
    search step (l1 ++ c :: l2) s.

End linearizability.

(** ** Lemmas on entry lists *)
Section entry_lemmas.
Context {V : Type}.
Implicit Types (h : list (entry V)) (e c r : entry V) (i j : Z).

Lemma kind_cases e : is_call e ∨ is_ret e.
Proof. unfold is_call, is_ret. destruct (e_kind e); auto. Qed.

Lemma call_not_ret e : is_call e → is_ret e → False.
Proof. unfold is_call, is_ret. congruence. Qed.

Lemma key_call c i : key c = (callEntry, i) ↔ is_call c ∧ e_id c = i.
Proof. unfold key, is_call. split; [by intros [= -> ->]|by intros [-> ->]]. Qed.

Lemma key_ret r i : key r = (returnEntry, i) ↔ is_ret r ∧ e_id r = i.
Proof. unfold key, is_ret. split; [by intros [= -> ->]|by intros [-> ->]]. Qed.

Lemma key_inj_in h e1 e2 : NoDup (key <$> h) → e1 ∈ h → e2 ∈ h → key e1 = key e2 → e1 = e2.
Proof.
  intros Hnd (p1 & H1)%list_elem_of_lookup (p2 & H2)%list_elem_of_lookup Hk.
  assert (p1 = p2) as ->; [|congruence].
  eapply NoDup_lookup; [done|rewrite list_lookup_fmap, H1; done|].
  by rewrite list_lookup_fmap, H2, Hk.
Qed.

Lemma find_entry_Some k h i e : find_entry k h i = Some e → e ∈ h ∧ key e = (k, i).
Proof.
  intros He. unfold find_entry in He. apply head_Some_elem_of in He.
  apply list_elem_of_filter in He. naive_solver.
Qed.

Lemma find_entry_in k h i e :
  NoDup (key <$> h) → e ∈ h → key e = (k, i) → find_entry k h i = Some e.
Proof.
  intros Hnd He Hk. unfold find_entry. destruct (filter _ h) as [|e' l] eqn:Hf.
  - assert (e ∈ filter (λ e, key e = (k, i)) h) as Hin by (by apply list_elem_of_filter).
    rewrite Hf in Hin. by apply not_elem_of_nil in Hin.
  - simpl. f_equal. assert (e' ∈ filter (λ e, key e = (k, i)) h) as Hin by (rewrite Hf; left).
    apply list_elem_of_filter in Hin as [Hk' Hin]. eapply key_inj_in; [done..|congruence].
Qed.

Lemma find_entry_remove_op k h i j :
  i ≠ j → find_entry k (remove_op j h) i = find_entry k h i.
Proof.
  intros Hij. unfold find_entry, remove_op. f_equal. rewrite list_filter_filter.
  apply filter_ext_in. intros e _. unfold key. split; [naive_solver|].
  intros [= Hk <-]. naive_solver.
Qed.

Lemma elem_of_remove_op i h e : e ∈ remove_op i h ↔ e ∈ h ∧ e_id e ≠ i.
Proof. unfold remove_op. rewrite list_elem_of_filter. naive_solver. Qed.

Lemma remove_op_app i h1 h2 : remove_op i (h1 ++ h2) = remove_op i h1 ++ remove_op i h2.
Proof. apply filter_app. Qed.

Lemma remove_op_none i h : (∀ e, e ∈ h → e_id e ≠ i) → remove_op i h = h.
Proof.
  intros H. unfold remove_op. induction h as [|e h IH]; [done|].
  rewrite filter_cons_True by (apply H; left). f_equal. apply IH. intros e' He'. apply H. by right.
Qed.

Lemma op_ids_remove_op i h : op_ids (remove_op i h) = filter (λ j, j ≠ i) (op_ids h).
Proof.
  unfold op_ids, remove_op. rewrite filter_fmap, !list_filter_filter. f_equal.
  apply filter_ext_in. naive_solver.
Qed.

Lemma elem_of_op_ids i h : i ∈ op_ids h ↔ ∃ c, c ∈ h ∧ is_call c ∧ e_id c = i.
Proof.
  unfold op_ids. rewrite list_elem_of_fmap.
  setoid_rewrite list_elem_of_filter. naive_solver.
Qed.

Lemma NoDup_op_ids h : NoDup (key <$> h) → NoDup (op_ids h).
Proof.
  unfold op_ids. induction h as [|e h IH]; [intros; constructor|].
  rewrite fmap_cons, NoDup_cons. intros [Hn Hnd]. rewrite filter_cons.
  case_decide as Hc; [|by apply IH]. rewrite fmap_cons. apply NoDup_cons.
  split; [|by apply IH]. intros (e' & He & [Hc' Hin]%list_elem_of_filter)%list_elem_of_fmap.
  apply Hn, list_elem_of_fmap. exists e'. split; [|done]. unfold key, is_call in *. congruence.
Qed.
End entry_lemmas.

(** ** Removing an operation *)
Section remove_lemmas.
Context {V : Type}.
Implicit Types (h : list (entry V)) (e c r : entry V) (i j k : Z).

Lemma wf_remove_op h k : wf_entries h → wf_entries (remove_op k h).
Proof.
  intros [Hnd Hbef Hret]. split.
  - unfold remove_op. eapply sublist_NoDup; [exact Hnd|]. apply fmap_sublist, sublist_filter.
  - intros l1 r l2 Heq Hr. pose proof Heq as Heq'.
    apply filter_cons_inv in Heq as (h1 & h2 & Hh & <- & <-).
    destruct (Hbef _ _ _ Hh Hr) as (c & Hc & Hcall & Hid).
    exists c. split; [|done]. apply list_elem_of_filter. split; [|done].
    assert (r ∈ remove_op k h) as Hin by (rewrite Heq'; set_solver).
    apply elem_of_remove_op in Hin as [_ Hin]. by rewrite Hid.
  - intros c [Hc Hk]%elem_of_remove_op Hcall.
    destruct (Hret _ Hc Hcall) as (r & Hr & Hrr & Hid).
    exists r. rewrite elem_of_remove_op. naive_solver.
Qed.

Lemma precedes_remove_op h i j k :
  precedes (remove_op k h) i j ↔ precedes h i j ∧ i ≠ k ∧ j ≠ k.
Proof.
  split.
  - intros (l1 & r & l2 & c & l3 & Heq & Hr & Hi & Hc & Hj).
    assert (r ∈ remove_op k h ∧ c ∈ remove_op k h) as [Hr' Hc'] by (rewrite Heq; set_solver).
    apply elem_of_remove_op in Hr' as [_ Hr'], Hc' as [_ Hc']. split; [|naive_solver].
    apply filter_cons_inv in Heq as (h1 & h2 & -> & _ & Heq).
    apply filter_cons_inv in Heq as (h3 & h4 & -> & _ & _).
    by exists h1, r, h3, c, h4.
  - intros [(l1 & r & l2 & c & l3 & -> & Hr & Hi & Hc & Hj) [Hik Hjk]].
    exists (remove_op k l1), r, (remove_op k l2), c, (remove_op k l3). split; [|done].
    unfold remove_op. rewrite filter_app, filter_cons_True by congruence.
    by rewrite filter_app, filter_cons_True by congruence.
Qed.

Lemma legal_remove_op {St : Type} (step : St → V → V → outcome (bool * St)) h k s σ :
  k ∉ σ → legal step (remove_op k h) s σ ↔ legal step h s σ.
Proof.
  revert s. induction σ as [|i σ IH]; intros s Hk; simpl; [done|].
  apply not_elem_of_cons in Hk as [Hki Hk].
  rewrite !find_entry_remove_op by done. by setoid_rewrite IH.
Qed.

Lemma reaches_legal {St : Type} (step : St → V → V → outcome (bool * St)) h s σ s' :
  reaches step h s σ s' → legal step h s σ.
Proof.
  revert s. induction σ as [|i σ IH]; intros s; simpl; [done|].
  intros (c & r & t & ? & ? & ? & ?). exists c, r, t. eauto.
Qed.

Lemma reaches_snoc {St : Type} (step : St → V → V → outcome (bool * St)) h s σ i c r t t' :
  reaches step h s σ t → find_entry callEntry h i = Some c → find_entry returnEntry h i = Some r →
  step t (e_value c) (e_value r) = Ret (true, t') → reaches step h s (σ ++ [i]) t'.
Proof.
  revert s. induction σ as [|j σ IH]; intros s; simpl.
  - intros ->. intros. by exists c, r, t'.
  - intros (c' & r' & u & ? & ? & ? & ?) Hc Hr Hs. exists c', r', u. split_and!; eauto.
Qed.

(** A partial linearization of all the operations is a linearization. *)
Lemma partial_linearization_all {St : Type} (step : St → V → V → outcome (bool * St)) h s σ :
  wf_entries h → partial_linearization step h s σ → (∀ i, i ∈ op_ids h → i ∈ σ) →
  linearization step h s σ.
Proof.
  intros Hwf [Hnd Hids Hsort _ Hleg] Hall. split_and!; [|done|done].
  apply NoDup_Permutation; [done|apply NoDup_op_ids, Hwf|]. naive_solver.
Qed.

(** The return of the first call that stands before every return. *)
Lemma find_ret_of_call h c :
  wf_entries h → c ∈ h → is_call c → ∃ r, find_entry returnEntry h (e_id c) = Some r.
Proof.
  intros [Hnd _ Hret] Hc Hcall. destruct (Hret _ Hc Hcall) as (r & Hr & Hrr & Hid).
  exists r. apply find_entry_in; [done..|]. by apply key_ret.
Qed.

Lemma op_ids_take h l1 c l2 :
  wf_entries h → h = l1 ++ c :: l2 → is_call c →
  op_ids h ≡ₚ e_id c :: op_ids (remove_op (e_id c) h).
Proof.
  intros Hwf -> Hc. apply NoDup_Permutation.
  - apply NoDup_op_ids, Hwf.
  - apply NoDup_cons. split; [|apply NoDup_op_ids, wf_remove_op, Hwf].
    rewrite op_ids_remove_op, list_elem_of_filter. naive_solver.
  - intros i. rewrite elem_of_cons, op_ids_remove_op, list_elem_of_filter.
    split; [|intros [->|[_ ?]]; [|done]].
    + destruct (decide (i = e_id c)); naive_solver.
    + apply elem_of_op_ids. exists c. set_solver.
Qed.

Lemma wf_nil : wf_entries (V:=V) [].
Proof. split; [constructor|by intros []|]. by intros c ?%not_elem_of_nil. Qed.

Lemma wf_no_calls_nil h : wf_entries h → op_ids h = [] → h = [].
Proof.
  intros Hwf Hids. destruct h as [|e h]; [done|]. exfalso.
  destruct (kind_cases e) as [Hc|Hr].
  - assert (e_id e ∈ op_ids (e :: h)) as Hin by (apply elem_of_op_ids; exists e; set_solver).
    rewrite Hids in Hin. by apply not_elem_of_nil in Hin.
  - destruct (wf_call_before _ Hwf [] e h eq_refl Hr) as (c & Hc & _).
    by apply not_elem_of_nil in Hc.
Qed.
End remove_lemmas.

(** ** The search decides linearizability *)
Section search_correct.
Context {V St : Type} (step : St → V → V → outcome (bool * St)).
Implicit Types (h : list (entry V)) (e c r : entry V) (i j k : Z) (s : St) (σ : list Z).

Lemma not_precedes_minimal h l1 c l2 i :
  wf_entries h → h = l1 ++ c :: l2 → Forall is_call l1 → is_call c →
  ¬ precedes h i (e_id c).
Proof.
  intros Hwf Hh Hl1 Hc (k1 & r & k2 & c' & k3 & Hk & Hr & Hi & Hc' & Hid).
  assert (c' = c) as ->.
  { apply (key_inj_in h); [apply Hwf|rewrite Hk; set_solver|rewrite Hh; set_solver|].
    unfold key, is_call in *. congruence. }
  assert (r ∈ l1) as Hin.
  { assert (NoDup h) as Hnd by (eapply NoDup_fmap_1, Hwf).
    rewrite Hh in Hk, Hnd.
    change (r :: k2 ++ c :: k3) with ((r :: k2) ++ c :: k3) in Hk. rewrite app_assoc in Hk.
    destruct (NoDup_app_cons_inj _ _ _ _ _ Hnd Hk) as [-> _]. set_solver. }
  rewrite Forall_forall in Hl1. by eapply call_not_ret; [apply Hl1|].
Qed.

Theorem search_sound h s : search step h s → wf_entries h → linearizable step h s.
Proof.
  induction 1 as [s|l1 c l2 r s s' Hl1 Hc Hr Hstep _ IH]; intros Hwf.
  - exists []. split_and!; [done|constructor|done].
  - destruct (IH (wf_remove_op _ _ Hwf)) as (σ & Hperm & Hsort & Hleg).
    set (h := l1 ++ c :: l2) in *.
    assert (e_id c ∉ σ) as Hnin.
    { rewrite Hperm, op_ids_remove_op, list_elem_of_filter. naive_solver. }
    exists (e_id c :: σ). split_and!.
    + by rewrite (op_ids_take h l1 c l2), Hperm.
    + constructor.
      * eapply StronglySorted_impl_in; [exact Hsort|]. simpl. intros i j Hi Hj Hn Hp.
        apply Hn, precedes_remove_op. split; [done|]. split; intros ->; done.
      * apply Forall_forall. intros i _. by eapply not_precedes_minimal.
    + simpl. exists c, r, s'. split_and!; [|done|done|by apply legal_remove_op in Hleg].
      apply find_entry_in; [apply Hwf|set_solver|by apply key_call].
Qed.

Theorem search_complete h s σ :
  wf_entries h → linearization step h s σ → search step h s.
Proof.
  revert h s. induction σ as [|i σ IH]; intros h s Hwf (Hperm & Hsort & Hleg).
  - symmetry in Hperm. apply Permutation_nil_r in Hperm.
    rewrite (wf_no_calls_nil h) by done. constructor.
  - destruct Hleg as (c & r & s' & Hc & Hr & Hstep & Hleg).
    apply find_entry_Some in Hc as [Hin [Hcall Hid]%key_call]. subst i.
    apply list_elem_of_split in Hin as (l1 & l2 & Hh).
    apply StronglySorted_cons in Hsort as [Hhd Hsort].
    assert (σ ≡ₚ op_ids (remove_op (e_id c) h)) as Hperm'.
    { eapply (Permutation_cons_inv (a:=e_id c)). by rewrite Hperm, op_ids_take. }
    assert (e_id c ∉ σ) as Hnin.
    { rewrite Hperm', op_ids_remove_op, list_elem_of_filter. naive_solver. }
    subst h. eapply search_take; [|done..|].
    + apply Forall_forall. intros e He. destruct (kind_cases e) as [|Hret]; [done|]. exfalso.
      apply list_elem_of_split in He as (k1 & k2 & ->).
      rewrite <-app_assoc in *. simpl in *.
      destruct (wf_call_before _ Hwf k1 e _ eq_refl Hret) as (c' & Hc' & Hcall' & Hid').
      assert (e_id e ∈ e_id c :: σ) as [He|He]%elem_of_cons.
      { rewrite Hperm. apply elem_of_op_ids. exists c'. set_solver. }
      * assert (c' = c) as ->.
        { apply (key_inj_in (k1 ++ e :: k2 ++ c :: l2)); [apply Hwf|set_solver..|].
          unfold key, is_call in *. congruence. }
        pose proof (NoDup_fmap_1 _ _ (wf_nodup _ Hwf)) as Hnd.
        by apply (NoDup_app_disjoint _ _ c Hnd); [|set_solver].
      * rewrite Forall_forall in Hhd. apply (Hhd _ He).
        by exists k1, e, k2, c, l2.
    + apply IH; [by apply wf_remove_op|]. split_and!; [done| |by apply legal_remove_op].
      eapply StronglySorted_impl_in; [exact Hsort|]. simpl. intros i j _ _ Hn Hp.
      by apply Hn, (precedes_remove_op _ _ _ (e_id c)).
Qed.

Corollary search_linearizable h s : wf_entries h → search step h s ↔ linearizable step h s.
Proof.
  intros Hwf. split.
  - intros Hs. by apply search_sound.
  - intros [σ Hσ]. by eapply search_complete.
Qed.
End search_correct.
