(* ===== verification/NodeList.v ===== *)
(** * The doubly linked entry list (porcupine/checker.go, [node])

    The nodes live in a heap of cells, pointers are locations and nil is
    [None], so that the aliasing between the list and the removed nodes, on
    which [lift] and [unlift] rely, is that of the program.  Every field access
    through a nil or dangling pointer panics. *)
From stdpp Require Import base gmap sets numbers list.
From S2P Require Import Prelude Model.
Local Open Scope go_scope.

Abbreviation loc := nat.

Record node (V : Type) := MkNode {
  n_value : option V;      (* None: the nil interface *)
  n_match : option loc;    (* the return entry of a call; nil for a return *)
  n_id : Z;
  n_next : option loc;
  n_prev : option loc;
}.
Arguments MkNode {V} _ _ _ _ _.
Arguments n_value {V} _.
Arguments n_match {V} _.
Arguments n_id {V} _.
Arguments n_next {V} _.
Arguments n_prev {V} _.

Section node_list.
Context {V : Type}.
Abbreviation heap := (gmap loc (node V)).
Implicit Types (H : gmap loc (node V)) (l : loc).

(** ** Cells *)
Definition with_next (v : option loc) (nd : node V) : node V :=
  MkNode (n_value nd) (n_match nd) (n_id nd) v (n_prev nd).
Definition with_prev (v : option loc) (nd : node V) : node V :=
  MkNode (n_value nd) (n_match nd) (n_id nd) (n_next nd) v.

Definition load H (p : option loc) : outcome (node V) :=
  let! l := or_panic p in or_panic (H !! l).

(** [p.next = v] and [p.prev = v]. *)
Definition set_next H (p : option loc) (v : option loc) : outcome heap :=
  let! l := or_panic p in
  let! _ := or_panic (H !! l) in Ret (alter (with_next v) l H).
Definition set_prev H (p : option loc) (v : option loc) : outcome heap :=
  let! l := or_panic p in
  let! _ := or_panic (H !! l) in Ret (alter (with_prev v) l H).

(** [&node{...}]: nothing is ever freed, so the next location is the number
    of cells allocated so far. *)
Definition alloc H (nd : node V) : heap * loc := (<[size H := nd]> H, size H).

(** ** The operations of the list *)
Definition insertBefore H (n : option loc) (mark : option loc) : outcome heap :=
  match mark with
  | Some _ =>
      let! mk := load H mark in
      let beforeMark := n_prev mk in
      let! H := set_prev H mark n in
      let! H := set_next H n mark in
      match beforeMark with
      | Some _ =>
          let! H := set_prev H n beforeMark in
          set_next H beforeMark n
      | None => Ret H
      end
  | None => Ret H
  end.

Fixpoint length_loop (fuel : nat) H (n : option loc) (l : Z) : outcome Z :=
  match fuel with
  | O => NoFuel
  | S fuel =>
      match n with
      | Some _ => let! nd := load H n in length_loop fuel H (n_next nd) (l + 1)%Z
      | None => Ret l
      end
  end.

(** The list visits every cell at most once. *)
Definition length_nodes H (n : option loc) : outcome Z := length_loop (S (size H)) H n 0%Z.

(** [makeLinkedEntries] walks the entries from the last to the first: the
    recursion runs the loop body for the tail before that of the head. *)
Record linked := MkLinked {
  lk_heap : heap;
  lk_root : option loc;
  lk_match : gmap Z loc;
}.

Fixpoint makeLinkedEntries_loop (entries : list (entry V)) : outcome linked :=
  match entries with
  | [] => Ret (MkLinked ∅ None ∅)
  | elem :: entries' =>
      let! lk := makeLinkedEntries_loop entries' in
      match e_kind elem with
      | returnEntry =>
          let '(H, p) := alloc (lk_heap lk) (MkNode (Some (e_value elem)) None (e_id elem) None None) in
          let m := <[e_id elem := p]> (lk_match lk) in
          let! H := insertBefore H (Some p) (lk_root lk) in
          Ret (MkLinked H (Some p) m)
      | callEntry =>
          let '(H, p) := alloc (lk_heap lk)
            (MkNode (Some (e_value elem)) (lk_match lk !! e_id elem) (e_id elem) None None) in
          let! H := insertBefore H (Some p) (lk_root lk) in
          Ret (MkLinked H (Some p) (lk_match lk))
      end
  end.

Definition makeLinkedEntries (entries : list (entry V)) : outcome (heap * option loc) :=
  let! lk := makeLinkedEntries_loop entries in Ret (lk_heap lk, lk_root lk).

Definition lift H (entry : option loc) : outcome heap :=
  let! e := load H entry in
  let! H := set_next H (n_prev e) (n_next e) in
  let! e := load H entry in
  let! H := set_prev H (n_next e) (n_prev e) in
  let! e := load H entry in
  let match_ := n_match e in
  let! m := load H match_ in
  let! H := set_next H (n_prev m) (n_next m) in
  let! m := load H match_ in
  match n_next m with
  | Some _ => set_prev H (n_next m) (n_prev m)
  | None => Ret H
  end.

Definition unlift H (entry : option loc) : outcome heap :=
  let! e := load H entry in
  let match_ := n_match e in
  let! m := load H match_ in
  let! H := set_next H (n_prev m) match_ in
  let! m := load H match_ in
  let! H := match n_next m with
            | Some _ => set_prev H (n_next m) match_
            | None => Ret H
            end in
  let! e := load H entry in
  let! H := set_next H (n_prev e) entry in
  let! e := load H entry in
  set_prev H (n_next e) entry.

End node_list.
Arguments MkLinked {V} _ _ _.

(** ** Doubly linked segments

    [dseg H p ls q]: the cells at [ls] form a doubly linked segment whose
    first cell points back to [p] and whose last one points on to [q]. *)
Section segments.
Context {V : Type}.
Implicit Types (H : gmap loc (node V)) (l x a : loc) (ls : list loc) (nd : node V).

Definition hd_or (q : option loc) ls : option loc := match ls with [] => q | l :: _ => Some l end.

Fixpoint dseg H (p : option loc) ls (q : option loc) : Prop :=
  match ls with
  | [] => True
  | l :: ls' =>
      (∃ nd, H !! l = Some nd ∧ n_prev nd = p ∧ n_next nd = hd_or q ls') ∧ dseg H (Some l) ls' q
  end.

Definition last_or (p : option loc) ls : option loc := match last ls with None => p | Some l => Some l end.

Lemma last_or_cons p l ls : last_or p (l :: ls) = last_or (Some l) ls.
Proof. unfold last_or. rewrite last_cons. by destruct (last ls). Qed.

Lemma dseg_app H p ls1 ls2 q :
  dseg H p (ls1 ++ ls2) q ↔ dseg H p ls1 (hd_or q ls2) ∧ dseg H (last_or p ls1) ls2 q.
Proof.
  revert p. induction ls1 as [|l ls1 IH]; intros p; simpl; [naive_solver|].
  rewrite IH, last_or_cons. destruct ls1; simpl; naive_solver.
Qed.

Lemma dseg_frame H H' p ls q :
  (∀ l, l ∈ ls → H' !! l = H !! l) → dseg H p ls q → dseg H' p ls q.
Proof.
  revert p. induction ls as [|l ls IH]; intros p Hf; simpl; [done|].
  intros [(nd & Hl & Hp & Hn) Hs]. split; [|apply IH; [|done]].
  - exists nd. rewrite Hf by left. done.
  - intros l' Hl'. apply Hf. by right.
Qed.

Lemma dseg_in_heap H p ls q l : dseg H p ls q → l ∈ ls → is_Some (H !! l).
Proof.
  revert p. induction ls as [|l' ls IH]; intros p; simpl; [by intros _ ?%not_elem_of_nil|].
  intros [(nd & Hl & _) Hs] [->|Hin]%elem_of_cons; [by eexists|by eapply IH].
Qed.

(** The part of a cell that the list operations leave alone. *)
Definition erase nd : node V := with_next None (with_prev None nd).

Definition same_static H H' : Prop := erase <$> H = erase <$> H'.

#[export] Instance same_static_equiv : Equivalence same_static.
Proof. unfold same_static. split; [done|by intros ? ? ->|by intros ? ? ? -> ->]. Qed.

Lemma same_static_lookup H H' l nd :
  same_static H H' → H !! l = Some nd →
  ∃ nd', H' !! l = Some nd' ∧ n_value nd' = n_value nd ∧ n_match nd' = n_match nd ∧ n_id nd' = n_id nd.
Proof.
  intros Hs Hl. apply (f_equal (λ m, m !! l)) in Hs. rewrite !lookup_fmap, Hl in Hs.
  destruct (H' !! l) as [nd'|]; simpl in Hs; [|done]. exists nd'.
  destruct nd, nd'. unfold erase, with_next, with_prev in Hs. simpl in *. naive_solver.
Qed.

Lemma same_static_alter_next H v l : same_static (alter (with_next v) l H) H.
Proof.
  apply map_eq. intros l'. rewrite !lookup_fmap, lookup_alter.
  case_decide; [subst|done]. by destruct (H !! l').
Qed.

Lemma same_static_alter_prev H v l : same_static (alter (with_prev v) l H) H.
Proof.
  apply map_eq. intros l'. rewrite !lookup_fmap, lookup_alter.
  case_decide; [subst|done]. by destruct (H !! l').
Qed.

(** ** Taking one cell out and putting it back *)
Definition unlink_pure (p : loc) (q : option loc) H :=
  match q with
  | Some q' => alter (with_prev (Some p)) q' (alter (with_next q) p H)
  | None => alter (with_next q) p H
  end.

Definition relink_pure (p : loc) (q : option loc) (x : loc) H :=
  match q with
  | Some q' => alter (with_prev (Some x)) q' (alter (with_next (Some x)) p H)
  | None => alter (with_next (Some x)) p H
  end.

Lemma unlink_static (p : loc) q H : same_static (unlink_pure p q H) H.
Proof.
  unfold unlink_pure. destruct q; [rewrite same_static_alter_prev|]; apply same_static_alter_next.
Qed.

Lemma unlink_lookup_ne (p : loc) q H l :
  l ≠ p → q ≠ Some l → unlink_pure p q H !! l = H !! l.
Proof.
  intros Hp Hq. unfold unlink_pure.
  destruct q; rewrite ?lookup_alter_ne by congruence; done.
Qed.

Lemma relink_unlink (p : loc) q x H ndp :
  H !! p = Some ndp → n_next ndp = Some x →
  (∀ q', q = Some q' → q' ≠ p ∧ ∃ ndq, H !! q' = Some ndq ∧ n_prev ndq = Some x) →
  relink_pure p q x (unlink_pure p q H) = H.
Proof.
  intros Hp Hnext Hq. apply map_eq. intros l. unfold relink_pure, unlink_pure.
  destruct q as [q'|].
  - destruct (Hq q' eq_refl) as (Hne & ndq & Hq' & Hprev).
    destruct (decide (l = p)) as [->|Hlp]; [|destruct (decide (l = q')) as [->|Hlq]].
    + rewrite lookup_alter_ne by done. rewrite lookup_alter_eq.
      rewrite lookup_alter_ne by done. rewrite lookup_alter_eq, Hp. simpl. f_equal.
      destruct ndp; simpl in *. by subst.
    + rewrite lookup_alter_eq. rewrite lookup_alter_ne by done. rewrite lookup_alter_eq.
      rewrite lookup_alter_ne by done. rewrite Hq'. simpl. f_equal.
      destruct ndq; simpl in *. by subst.
    + by rewrite !lookup_alter_ne by done.
  - destruct (decide (l = p)) as [->|Hlp].
    + rewrite !lookup_alter_eq, Hp. simpl. f_equal. destruct ndp; simpl in *. by subst.
    + by rewrite !lookup_alter_ne by done.
Qed.

Lemma unlink_dseg H ls1 a x ls2 :
  NoDup (ls1 ++ a :: x :: ls2) →
  dseg H None (ls1 ++ a :: x :: ls2) None →
  ∃ nda ndx, H !! a = Some nda ∧ n_next nda = Some x ∧
    H !! x = Some ndx ∧ n_prev ndx = Some a ∧ n_next ndx = hd_or None ls2 ∧
    dseg (unlink_pure a (hd_or None ls2) H) None (ls1 ++ a :: ls2) None ∧
    relink_pure a (hd_or None ls2) x (unlink_pure a (hd_or None ls2) H) = H.
Proof.
  intros Hnd Hs. pose proof Hs as Hs0. rewrite dseg_app in Hs. simpl in Hs.
  destruct Hs as (Hs1 & (nda & Ha & Hap & Han) & (ndx & Hx & Hxp & Hxn) & Hs2).
  exists nda, ndx. split_and!; try done.
  - apply NoDup_app in Hnd as (Hnd1 & Hdisj & Hnd).
    apply NoDup_cons in Hnd as [Hax Hnd]. apply NoDup_cons in Hnd as [Hxl Hnd].
    apply dseg_app. split.
    + eapply dseg_frame; [|exact Hs1]. intros l Hl. apply unlink_lookup_ne.
      * intros ->. apply (Hdisj a Hl). left.
      * destruct ls2 as [|l2 ls2]; [done|]. intros [= ->]. apply (Hdisj l Hl). set_solver.
    + simpl. destruct ls2 as [|l2 ls2]; simpl in *.
      * split; [|done]. rewrite lookup_alter_eq, Ha. simpl. eexists. by split_and!.
      * destruct Hs2 as [(nd2 & Hl2 & Hp2 & Hn2) Hs2]. split_and!.
        -- exists (with_next (Some l2) nda). rewrite lookup_alter_ne by set_solver.
           rewrite lookup_alter_eq, Ha. done.
        -- exists (with_prev (Some a) nd2). rewrite lookup_alter_eq.
           rewrite lookup_alter_ne by set_solver. by rewrite Hl2.
        -- apply NoDup_cons in Hnd as [Hl2n Hnd]. eapply dseg_frame; [|exact Hs2].
           intros l Hl. rewrite !lookup_alter_ne; set_solver.
  - eapply relink_unlink; [done..|]. intros q' Hq. destruct ls2 as [|l2 ls2]; [done|].
    injection Hq as <-. destruct Hs2 as [(nd2 & Hl2 & Hp2 & Hn2) Hs2]. split; [|by eexists].
    intros ->. apply NoDup_app in Hnd as (_ & _ & Hnd). apply NoDup_cons in Hnd as [Hn _].
    set_solver.
Qed.

End segments.

(** ** [lift] and [unlift] *)
Section lift.
Context {V : Type}.
Implicit Types (H : gmap loc (node V)) (l x a e m : loc) (ls mid : list loc) (nd : node V).

Lemma load_Some H l nd : H !! l = Some nd → load H (Some l) = Ret nd.
Proof. intros Hl. unfold load. simpl. by rewrite Hl. Qed.

Lemma set_next_Some H l v : is_Some (H !! l) → set_next H (Some l) v = Ret (alter (with_next v) l H).
Proof. intros [nd Hl]. unfold set_next. simpl. by rewrite Hl. Qed.

Lemma set_prev_Some H l v : is_Some (H !! l) → set_prev H (Some l) v = Ret (alter (with_prev v) l H).
Proof. intros [nd Hl]. unfold set_prev. simpl. by rewrite Hl. Qed.

(** The two halves of [lift] and of [unlift]: one for the call, one for the
    matching return. *)
Definition unlink H x : outcome (gmap loc (node V)) :=
  let! m := load H (Some x) in
  let! H := set_next H (n_prev m) (n_next m) in
  let! m := load H (Some x) in
  match n_next m with
  | Some _ => set_prev H (n_next m) (n_prev m)
  | None => Ret H
  end.

Definition relink H x : outcome (gmap loc (node V)) :=
  let! m := load H (Some x) in
  let! H := set_next H (n_prev m) (Some x) in
  let! m := load H (Some x) in
  match n_next m with
  | Some _ => set_prev H (n_next m) (Some x)
  | None => Ret H
  end.

Lemma unlink_run H x a (q : option loc) nda nd :
  H !! x = Some nd → n_prev nd = Some a → n_next nd = q → H !! a = Some nda → a ≠ x →
  (∀ q', q = Some q' → q' ≠ x ∧ is_Some (H !! q')) →
  unlink H x = Ret (unlink_pure a q H).
Proof.
  intros Hx Hp Hn Ha Hax Hq. unfold unlink.
  rewrite (load_Some H x nd) by done. simpl. rewrite Hp, Hn.
  rewrite set_next_Some by eauto. simpl.
  rewrite (load_Some _ x nd) by (by rewrite lookup_alter_ne). simpl. rewrite Hn, Hp.
  destruct q as [q'|]; [|done]. destruct (Hq q' eq_refl) as [Hne [ndq Hlq]].
  rewrite set_prev_Some; [done|]. apply lookup_alter_is_Some. by eexists.
Qed.

Lemma relink_run H x a (q : option loc) nd :
  H !! x = Some nd → n_prev nd = Some a → n_next nd = q → is_Some (H !! a) → a ≠ x →
  (∀ q', q = Some q' → q' ≠ x ∧ is_Some (H !! q')) →
  relink H x = Ret (relink_pure a q x H).
Proof.
  intros Hx Hp Hn Ha Hax Hq. unfold relink.
  rewrite (load_Some H x nd) by done. simpl. rewrite Hp.
  rewrite set_next_Some by eauto. simpl.
  rewrite (load_Some _ x nd) by (by rewrite lookup_alter_ne). simpl. rewrite Hn.
  destruct q as [q'|]; [|done]. destruct (Hq q' eq_refl) as [Hne [ndq Hlq]].
  rewrite set_prev_Some; [done|]. apply lookup_alter_is_Some. by eexists.
Qed.

(** One cell out of a well-formed list and back in. *)
Lemma unlink_relink H ls1 a x ls2 :
  NoDup (ls1 ++ a :: x :: ls2) → dseg H None (ls1 ++ a :: x :: ls2) None →
  ∃ H', unlink H x = Ret H' ∧ dseg H' None (ls1 ++ a :: ls2) None ∧ same_static H' H ∧
    H' !! x = H !! x ∧ relink H' x = Ret H.
Proof.
  intros Hnd Hs.
  destruct (unlink_dseg H ls1 a x ls2 Hnd Hs) as (nda & ndx & Ha & Han & Hx & Hxp & Hxn & Hs' & Hre).
  assert (a ≠ x) as Hax by (apply NoDup_app in Hnd as (_ & _ & Hnd%NoDup_cons); set_solver).
  assert (∀ q', hd_or None ls2 = Some q' → q' ≠ x ∧ is_Some (H !! q')) as Hq.
  { intros q' Hq'. destruct ls2 as [|l2 ls2]; [done|]. injection Hq' as <-. split.
    - apply NoDup_app in Hnd as (_ & _ & [_ Hnd%NoDup_cons]%NoDup_cons). set_solver.
    - eapply dseg_in_heap; [exact Hs|]. set_solver. }
  assert (unlink_pure a (hd_or None ls2) H !! x = H !! x) as Hx'.
  { apply unlink_lookup_ne; [done|]. intros Hq'. by destruct (Hq _ Hq'). }
  exists (unlink_pure a (hd_or None ls2) H). split_and!; try done.
  - by eapply unlink_run.
  - apply unlink_static.
  - rewrite <-Hre at 2. eapply relink_run; [by rewrite Hx'|done|done| |done|].
    + eapply dseg_in_heap; [exact Hs'|]. set_solver.
    + intros q' Hq'. split; [by apply Hq|]. eapply dseg_in_heap; [exact Hs'|].
      destruct ls2; [done|]. injection Hq' as <-. set_solver.
Qed.

Lemma lift_unlink H e m a y nd :
  H !! e = Some nd → n_prev nd = Some a → n_next nd = Some y → n_match nd = Some m →
  is_Some (H !! a) → is_Some (H !! y) → a ≠ e → y ≠ e →
  lift H (Some e) = (let! H := unlink H e in unlink H m).
Proof.
  intros He Hp Hn Hm Ha Hy Hae Hye. unfold lift, unlink at 1.
  rewrite (load_Some H e nd) by done. simpl. rewrite Hp, Hn.
  rewrite set_next_Some by done. simpl.
  rewrite (load_Some _ e nd) by (by rewrite lookup_alter_ne). simpl. rewrite Hn, Hp.
  rewrite set_prev_Some by (by apply lookup_alter_is_Some).
  simpl. rewrite (load_Some _ e nd) by (by rewrite !lookup_alter_ne). simpl. by rewrite Hm.
Qed.

Lemma unlift_relink H H1 e m y nd nd1 :
  H !! e = Some nd → n_match nd = Some m → relink H m = Ret H1 →
  H1 !! e = Some nd1 → n_prev nd1 ≠ Some e → n_next nd1 = Some y →
  unlift H (Some e) = relink H1 e.
Proof.
  intros He Hm Hrel He1 Hp1 Hn1. unfold unlift. rewrite (load_Some H e nd) by done. simpl.
  rewrite Hm. unfold relink in Hrel. destruct (load H (Some m)) as [ndm| |]; simpl in *; try done.
  destruct (set_next H (n_prev ndm) (Some m)) as [Ha| |]; simpl in *; try done.
  destruct (load Ha (Some m)) as [ndm1| |]; simpl in *; try done.
  rewrite Hrel. simpl. unfold relink. rewrite (load_Some H1 e nd1) by done. simpl.
  destruct (n_prev nd1) as [p|]; [|done].
  destruct (set_next H1 (Some p) (Some e)) as [Hb| |] eqn:Hb'; simpl; try done.
  unfold set_next in Hb'. simpl in Hb'. destruct (H1 !! p); simpl in Hb'; [|done].
  injection Hb' as <-.
  rewrite (load_Some _ e nd1) by (rewrite lookup_alter_ne; congruence). simpl. by rewrite Hn1.
Qed.

Lemma NoDup_remove_mid (ls1 ls2 : list loc) (x : loc) : NoDup (ls1 ++ x :: ls2) → NoDup (ls1 ++ ls2).
Proof. rewrite <-Permutation_middle. by intros [_ ?]%NoDup_cons. Qed.

(** [lift] takes an entry and its match out of the list; [unlift] restores
    the very heap that [lift] was given. *)
Lemma lift_unlift H ls1 a e mid m ls2 nd :
  NoDup (ls1 ++ a :: e :: mid ++ m :: ls2) →
  dseg H None (ls1 ++ a :: e :: mid ++ m :: ls2) None →
  H !! e = Some nd → n_match nd = Some m →
  ∃ H', lift H (Some e) = Ret H' ∧ dseg H' None (ls1 ++ a :: mid ++ ls2) None ∧
    same_static H' H ∧ unlift H' (Some e) = Ret H.
Proof.
  intros Hnd Hs He Hm.
  destruct (unlink_relink _ _ _ _ _ Hnd Hs) as (H1 & Hu1 & Hs1 & Hst1 & He1 & Hr1).
  destruct (unlink_dseg _ _ _ _ _ Hnd Hs) as (nda & nd' & Ha & _ & He' & Hp & Hn & _ & _).
  assert (nd' = nd) as -> by congruence. clear He'.
  assert (NoDup (ls1 ++ a :: mid ++ m :: ls2)) as Hnd1.
  { replace (ls1 ++ a :: e :: mid ++ m :: ls2) with ((ls1 ++ [a]) ++ e :: mid ++ m :: ls2) in Hnd
      by (by rewrite <-app_assoc).
    apply NoDup_remove_mid in Hnd. by rewrite <-app_assoc in Hnd. }
  destruct (exists_last (l:=a :: mid) ltac:(done)) as (mid' & a' & Hmid).
  assert (∀ k, ls1 ++ a :: mid ++ k = (ls1 ++ mid') ++ a' :: k) as Hre.
  { intros k. change (a :: mid ++ k) with ((a :: mid) ++ k). rewrite Hmid. by rewrite <-!app_assoc. }
  rewrite Hre in Hs1, Hnd1.
  destruct (unlink_relink _ _ _ _ _ Hnd1 Hs1) as (H2 & Hu2 & Hs2 & Hst2 & Hm2 & Hr2).
  assert (e ∉ ls1 ++ a :: mid ++ ls2) as Hnotin.
  { replace (ls1 ++ a :: e :: mid ++ m :: ls2) with ((ls1 ++ [a]) ++ e :: mid ++ m :: ls2) in Hnd
      by (by rewrite <-app_assoc).
    rewrite <-Permutation_middle in Hnd. apply NoDup_cons in Hnd as [Hn' _]. set_solver. }
  assert (∃ y, hd_or None (mid ++ m :: ls2) = Some y ∧ y ∈ mid ++ m :: ls2) as (y & Hy & Hyin).
  { destruct mid; simpl; eexists; (split; [done|set_solver]). }
  rewrite Hy in Hn.
  assert (y ≠ e ∧ a ≠ e) as [Hye Hae].
  { apply NoDup_app in Hnd as (_ & _ & [Hn1 [Hn2 _]%NoDup_cons]%NoDup_cons). set_solver. }
  exists H2. split_and!.
  - erewrite lift_unlink; [|done..| |done|done].
    + rewrite Hu1. simpl. done.
    + eapply dseg_in_heap; [exact Hs|]. set_solver.
  - by rewrite Hre.
  - by rewrite Hst2.
  - destruct (same_static_lookup H H2 e nd) as (nd2 & He2 & _ & Hm2' & _); [by rewrite Hst2|done|].
    rewrite (unlift_relink H2 H1 e m y nd2 nd); try done; congruence.
Qed.

End lift.

(** ** Building the list *)
Section build.
Context {V : Type}.
Implicit Types (H : gmap loc (node V)) (l x p : loc) (ls : list loc) (nd : node V)
  (h : list (entry V)) (e : entry V).

Lemma insertBefore_front H p nd ls :
  H !! p = None → n_next nd = None → n_prev nd = None →
  NoDup ls → dseg H None ls None →
  ∃ H', insertBefore (<[p := nd]> H) (Some p) (hd_or None ls) = Ret H' ∧
    dseg H' None (p :: ls) None ∧ same_static H' (<[p := nd]> H).
Proof.
  intros Hp Hn Hpr Hnd Hs.
  assert (∀ l, l ∈ ls → l ≠ p) as Hne.
  { intros l Hl ->. destruct (dseg_in_heap _ _ _ _ _ Hs Hl). congruence. }
  destruct ls as [|r ls]; simpl.
  - exists (<[p := nd]> H). split_and!; [done| |done|done].
    exists nd. by rewrite lookup_insert_eq.
  - destruct Hs as [(ndr & Hr & Hrp & Hrn) Hs]. pose proof (Hne r ltac:(left)) as Hrp'.
    rewrite (load_Some _ r ndr) by (by rewrite lookup_insert_ne). simpl. rewrite Hrp.
    rewrite set_prev_Some by (rewrite lookup_insert_ne by done; by eexists). simpl.
    rewrite set_next_Some by (apply lookup_alter_is_Some; rewrite lookup_insert_eq; by eexists).
    simpl. eexists. split_and!; [done|..].
    + exists (with_next (Some r) nd). rewrite lookup_alter_eq, lookup_alter_ne by done.
      by rewrite lookup_insert_eq.
    + exists (with_prev (Some p) ndr). rewrite lookup_alter_ne by done.
      rewrite lookup_alter_eq, lookup_insert_ne by done. by rewrite Hr.
    + apply NoDup_cons in Hnd as [Hnr _]. eapply dseg_frame; [|exact Hs]. intros l Hl.
      rewrite !lookup_alter_ne by set_solver. rewrite lookup_insert_ne; [done|].
      intros <-. by apply (Hne p); [right|].
    + by rewrite same_static_alter_next, same_static_alter_prev.
Qed.

(** Where [makeLinkedEntries] puts the entries: the last one at 0. *)
Fixpoint node_locs h : list loc :=
  match h with
  | [] => []
  | _ :: h' => length h' :: node_locs h'
  end.

Fixpoint loc_of (k : entryKind) (i : Z) h : option loc :=
  match h with
  | [] => None
  | e :: h' => if bool_decide (e_kind e = k ∧ e_id e = i) then Some (length h') else loc_of k i h'
  end.

Record built h H : Prop := {
  built_dseg : dseg H None (node_locs h) None;
  built_size : size H = length h;
  built_dom : ∀ l, is_Some (H !! l) → (l < length h)%nat;
  built_node : ∀ (l1 : list (entry V)) e (l2 : list (entry V)), h = l1 ++ e :: l2 →
    ∃ nd, H !! length l2 = Some nd ∧ n_value nd = Some (e_value e) ∧ n_id nd = e_id e ∧
      n_match nd = match e_kind e with
                   | returnEntry => None
                   | callEntry => loc_of returnEntry (e_id e) l2
                   end;
}.

Lemma node_locs_lt h l : l ∈ node_locs h → (l < length h)%nat.
Proof.
  induction h as [|e h IH]; simpl; [by intros ?%not_elem_of_nil|].
  intros [->|Hl]%elem_of_cons; [lia|]. apply IH in Hl. lia.
Qed.

Lemma node_locs_NoDup h : NoDup (node_locs h).
Proof.
  induction h as [|e h IH]; simpl; constructor; [|done].
  intros Hl%node_locs_lt. lia.
Qed.

Lemma length_node_locs h : length (node_locs h) = length h.
Proof. induction h; simpl; congruence. Qed.

Lemma built_fresh h H : built h H → H !! length h = None.
Proof.
  intros Hb. apply eq_None_not_Some. intros Hs. apply (built_dom _ _ Hb) in Hs. lia.
Qed.

Lemma built_nil : built [] ∅.
Proof.
  split; [done|done| |].
  - intros l [nd Hl]. by rewrite lookup_empty in Hl.
  - intros l1 e l2 Hl. by destruct l1.
Qed.

(** One iteration of the loop of [makeLinkedEntries]. *)
Lemma built_cons h H e :
  built h H →
  let nd := MkNode (Some (e_value e))
    match e_kind e with returnEntry => None | callEntry => loc_of returnEntry (e_id e) h end
    (e_id e) None None in
  ∃ H', insertBefore (<[length h := nd]> H) (Some (length h)) (hd_or None (node_locs h)) = Ret H' ∧
    built (e :: h) H'.
Proof.
  intros Hb nd.
  destruct (insertBefore_front H (length h) nd (node_locs h)) as (H' & Hins & Hs & Hst);
    [by apply built_fresh|done|done|apply node_locs_NoDup|by apply built_dseg|].
  exists H'. split; [done|].
  assert (size H' = size (<[length h := nd]> H)) as Hsize.
  { unfold same_static in Hst. apply (f_equal size) in Hst. by rewrite !map_size_fmap in Hst. }
  split; [done| | |].
  - by rewrite Hsize, map_size_insert_None, (built_size _ _ Hb) by (by apply built_fresh).
  - intros l [nd' Hl].
    destruct (same_static_lookup _ _ _ _ Hst Hl) as (nd2 & Hl2 & _). simpl.
    apply lookup_insert_Some in Hl2 as [[<- _]|[_ Hl2]]; [lia|].
    pose proof (built_dom _ _ Hb l (ex_intro _ _ Hl2)). lia.
  - symmetry in Hst. intros [|e1 l1] e' l2 Heq; injection Heq as <- Heq; subst.
    + destruct (same_static_lookup _ _ (length l2) nd Hst) as (nd' & Hl & Hv & Hm & Hi);
        [by rewrite lookup_insert_eq|]. by exists nd'.
    + destruct (built_node _ _ Hb _ _ _ eq_refl) as (nd1 & Hl1 & Hv1 & Hi1 & Hm1).
      assert (length l2 ≠ length (l1 ++ e' :: l2)) by (rewrite length_app; simpl; lia).
      destruct (same_static_lookup _ _ (length l2) nd1 Hst) as (nd' & Hl & Hv & Hm & Hi);
        [by rewrite lookup_insert_ne|]. exists nd'. split_and!; congruence.
Qed.

Lemma makeLinkedEntries_loop_built h :
  ∃ H m, makeLinkedEntries_loop h = Ret (MkLinked H (hd_or None (node_locs h)) m) ∧
    built h H ∧ ∀ i, m !! i = loc_of returnEntry i h.
Proof.
  induction h as [|e h IH]; simpl.
  - exists ∅, ∅. split_and!; [done|apply built_nil|]. intros i. apply lookup_empty.
  - destruct IH as (H & m & -> & Hb & Hm). simpl.
    destruct (built_cons h H e Hb) as (H' & Hins & Hb').
    rewrite (built_size _ _ Hb), Hm. unfold alloc. simpl.
    destruct (e_kind e) eqn:Hk; rewrite Hins; simpl.
    + exists H', m. split_and!; [done|done|]. intros i.
      by rewrite Hm.
    + exists H', (<[e_id e := length h]> m). split_and!; [done|done|]. intros i.
      rewrite lookup_insert, Hm.
      repeat first [case_decide|case_bool_decide]; naive_solver.
Qed.

Lemma makeLinkedEntries_built h :
  ∃ H, makeLinkedEntries h = Ret (H, hd_or None (node_locs h)) ∧ built h H.
Proof.
  destruct (makeLinkedEntries_loop_built h) as (H & m & Heq & Hb & _).
  exists H. unfold makeLinkedEntries. by rewrite Heq.
Qed.

Lemma length_loop_dseg fuel H (p : option loc) ls z :
  dseg H p ls None → (length ls < fuel)%nat →
  length_loop fuel H (hd_or None ls) z = Ret (z + zlen ls)%Z.
Proof.
  revert fuel p z. induction ls as [|l ls IH]; intros [|fuel] p z; simpl; intros Hs Hf; try lia.
  - f_equal. lia.
  - destruct Hs as [(nd & Hl & _ & Hn) Hs]. rewrite (load_Some _ _ _ Hl). simpl. rewrite Hn.
    rewrite (IH _ _ _ Hs) by lia. f_equal. lia.
Qed.

Lemma length_nodes_built h H :
  built h H → length_nodes H (hd_or None (node_locs h)) = Ret (zlen h).
Proof.
  intros Hb. unfold length_nodes. erewrite length_loop_dseg by first [apply Hb|
    rewrite length_node_locs, (built_size _ _ Hb); lia].
  by rewrite length_node_locs.
Qed.

End build.
