(* ===== verification/Checker.v ===== *)
(** * The search of the checker (porcupine/checker.go, [checkSingle])

    [checkSingle] is a depth-first search over the entry list with a cache of
    the configurations seen.  Its local variables are the record [search_st];
    [checkSingle_body] is one iteration of its loop, [checkSingle_loop] the
    loop with fuel.  The flag [kill], which another goroutine may set at any
    time, is read once per iteration: the model takes what each read returns.

    [longest] is a slice of pointers to slices of ids.  The slices live in
    [pt_seqs] and a pointer is an index into it, since [checkParallel] later
    counts distinct pointers. *)
From stdpp Require Import base gmap sets numbers list.
From S2P Require Import Prelude Bitset Model NodeList.
Local Open Scope Z_scope.
Local Open Scope go_scope.

Record cacheEntry (St : Type) := MkCacheEntry {
  ce_linearized : bitset.t;
  ce_state : St;
}.
Arguments MkCacheEntry {St} _ _.
Arguments ce_linearized {St} _.
Arguments ce_state {St} _.

Record callsEntry (St : Type) := MkCallsEntry {
  ca_entry : option loc;
  ca_state : St;
}.
Arguments MkCallsEntry {St} _ _.
Arguments ca_entry {St} _.
Arguments ca_state {St} _.

Record partials := MkPartials {
  pt_longest : list (option nat);
  pt_seqs : list (list Z);
}.

Section checker.
Context {V St : Type} (model : FullModel V St).
Abbreviation heap := (gmap loc (node V)).
Abbreviation cache := (gmap Z (list (cacheEntry St))).

(** ** The cache *)
Definition cache_bucket (cache : cache) (hash : Z) : list (cacheEntry St) := default [] (cache !! hash).

Fixpoint cacheContains_loop (elems : list (cacheEntry St)) (entry : cacheEntry St) : outcome bool :=
  match elems with
  | [] => Ret false
  | elem :: elems' =>
      let! eq := (if bitset.equals (ce_linearized entry) (ce_linearized elem)
                  then Equal model (ce_state entry) (ce_state elem) else Ret false) in
      if eq then Ret true else cacheContains_loop elems' entry
  end.

Definition cacheContains (cache : cache) (entry : cacheEntry St) : outcome bool :=
  cacheContains_loop (cache_bucket cache (bitset.hash (ce_linearized entry))) entry.

(** [cache[hash] = append(cache[hash], entry)]. *)
Definition cache_add (cache : cache) (entry : cacheEntry St) : gmap Z (list (cacheEntry St)) :=
  let hash := bitset.hash (ce_linearized entry) in
  <[hash := cache_bucket cache hash ++ [entry]]> cache.

(** ** The partial linearizations *)

(** The ids of the calls on the stack: [v.entry.id] for each [v]. *)
Fixpoint call_ids (H : heap) (calls : list (callsEntry St)) : outcome (list Z) :=
  match calls with
  | [] => Ret []
  | v :: calls' =>
      let! nd := load H (ca_entry v) in
      let! ids := call_ids H calls' in
      Ret (n_id nd :: ids)
  end.

(** The loop over [calls] when [computePartial] is set: [ids] are the ids of
    all calls, [vs] those still to be visited, [seq] the lazily made slice. *)
Fixpoint longest_loop (ids vs : list Z) (seq : option nat) (pt : partials) : outcome partials :=
  match vs with
  | [] => Ret pt
  | id :: vs' =>
      let! cur := slice_get (pt_longest pt) id in
      let! longer := match cur with
                     | None => Ret true
                     | Some q => let! old := or_panic (pt_seqs pt !! q) in
                                 Ret (bool_decide (length old < length ids)%nat)
                     end in
      if longer then
        let '(q, seqs) := match seq with
                          | None => (length (pt_seqs pt), pt_seqs pt ++ [ids])
                          | Some q => (q, pt_seqs pt)
                          end in
        let! longest := slice_set (pt_longest pt) id (Some q) in
        longest_loop ids vs' (Some q) (MkPartials longest seqs)
      else longest_loop ids vs' seq pt
  end.

Definition record_partial (ids : list Z) (pt : partials) : outcome partials :=
  longest_loop ids ids None pt.

(** The end of a successful search: every element points to the complete
    linearization. *)
Definition record_complete (ids : list Z) (pt : partials) : partials :=
  MkPartials (replicate (length (pt_longest pt)) (Some (length (pt_seqs pt)))) (pt_seqs pt ++ [ids]).

(** ** The search loop *)
Record search_st := MkSearch {
  s_heap : heap;
  s_entry : option loc;
  s_state : St;
  s_linearized : bitset.t;
  s_cache : cache;
  s_calls : list (callsEntry St);
  s_partials : partials;
}.

(** One iteration: [inl] the next state, [inr] a return. *)
Definition checkSingle_body (computePartial : bool) (headEntry : option loc) (killed : bool) (s : search_st)
    : outcome (search_st + bool * partials) :=
  let '(MkSearch H entry state linearized cache calls pt) := s in
  if killed then Ret (inr (false, pt)) else
  let! e := load H entry in
  match n_match e with
  | Some _ =>
      let! matching := load H (n_match e) in (* the return entry *)
      let! v := or_panic (n_value e) in
      let! o := or_panic (n_value matching) in
      let! ' (ok, newState) := Step model state v o in
      if (ok : bool) then
        let! newLinearized := bitset.set (bitset.clone linearized) (n_id e) in
        let newCacheEntry := MkCacheEntry newLinearized newState in
        let! hit := cacheContains cache newCacheEntry in
        if negb hit then
          let cache := cache_add cache newCacheEntry in
          let calls := calls ++ [MkCallsEntry entry state] in
          let! linearized := bitset.set linearized (n_id e) in
          let! H := lift H entry in
          let! hd := load H headEntry in
          Ret (inl (MkSearch H (n_next hd) newState linearized cache calls pt))
        else Ret (inl (MkSearch H (n_next e) state linearized cache calls pt))
      else Ret (inl (MkSearch H (n_next e) state linearized cache calls pt))
  | None =>
      match last calls with
      | None => Ret (inr (false, pt))
      | Some callsTop =>
          let! pt := if computePartial then
                       let! ids := call_ids H calls in record_partial ids pt
                     else Ret pt in
          let entry := ca_entry callsTop in
          let state := ca_state callsTop in
          let! e := load H entry in
          let! linearized := bitset.clear linearized (n_id e) in
          let calls := take (length calls - 1) calls in
          let! H := unlift H entry in
          let! e := load H entry in
          Ret (inl (MkSearch H (n_next e) state linearized cache calls pt))
      end
  end.

(** The test of the loop, then its body; after the loop, the return. *)
Definition checkSingle_iter (computePartial : bool) (headEntry : option loc) (killed : bool) (s : search_st)
    : outcome (search_st + bool * partials) :=
  let! hd := load (s_heap s) headEntry in
  match n_next hd with
  | Some _ => checkSingle_body computePartial headEntry killed s
  | None =>
      (* longest linearization is the complete linearization, which is calls *)
      let! ids := call_ids (s_heap s) (s_calls s) in
      Ret (inr (true, record_complete ids (s_partials s)))
  end.

Fixpoint checkSingle_loop (fuel : nat) (computePartial : bool) (headEntry : option loc)
    (kill : nat → bool) (s : search_st) : outcome (bool * partials) :=
  match fuel with
  | O => NoFuel
  | S fuel =>
      let! r := checkSingle_iter computePartial headEntry (kill O) s in
      match r with
      | inl s => checkSingle_loop fuel computePartial headEntry (λ k, kill (S k)) s
      | inr res => Ret res
      end
  end.

(** The declarations before the loop: the head entry and the local variables. *)
Definition checkSingle_init (history : list (entry V)) : outcome (option loc * search_st) :=
  let! ' (H, entry) := makeLinkedEntries history in
  let! len := length_nodes H entry in
  let n := len / 2 in
  let linearized := bitset.newBitset n in
  let longest := replicate (Z.to_nat n) None in
  let '(H, headEntry) := alloc H (MkNode None None (-1) None None) in
  let! H := insertBefore H (Some headEntry) entry in
  Ret (Some headEntry, MkSearch H entry (Init model) linearized ∅ [] (MkPartials longest [])).

Definition checkSingle (fuel : nat) (history : list (entry V)) (computePartial : bool) (kill : nat → bool)
    : outcome (bool * partials) :=
  let! ' (headEntry, s) := checkSingle_init history in
  checkSingle_loop fuel computePartial headEntry kill s.

End checker.
Arguments MkSearch {V St} _ _ _ _ _ _ _.
Arguments s_heap {V St} _.
Arguments s_entry {V St} _.
Arguments s_state {V St} _.
Arguments s_linearized {V St} _.
Arguments s_cache {V St} _.
Arguments s_calls {V St} _.
Arguments s_partials {V St} _.
