(* ===== verification/ListSearch.v ===== *)
(** * The search without pointers

    The same search as [checkSingle], on a functional list with a position in
    it: the entries before the position ([z_left]), those from the position on
    ([z_right]), and a stack of the suspended positions.  ListSearch.v proves
    this search correct with respect to [linearizable]; CheckerProof.v proves
    that the pointer program of Checker.v runs in lock step with it. *)
From stdpp Require Import base gmap sets numbers sorting list.
From S2P Require Import Prelude Bitset Model Linearizability NodeList Checker.
Local Open Scope Z_scope.
Local Open Scope go_scope.

Record zframe (V St : Type) := MkFrame {
  f_left : list (entry V);
  f_entry : entry V;
  f_right : list (entry V);
  f_state : St;
}.
Arguments MkFrame {V St} _ _ _ _.
Arguments f_left {V St} _.
Arguments f_entry {V St} _.
Arguments f_right {V St} _.
Arguments f_state {V St} _.

Record zstate (V St : Type) := MkZ {
  z_left : list (entry V);
  z_right : list (entry V);
  z_state : St;
  z_linearized : bitset.t;
  z_cache : gmap Z (list (cacheEntry St));
  z_stack : list (zframe V St);
  z_partials : partials;
}.
Arguments MkZ {V St} _ _ _ _ _ _ _.
Arguments z_left {V St} _.
Arguments z_right {V St} _.
Arguments z_state {V St} _.
Arguments z_linearized {V St} _.
Arguments z_cache {V St} _.
Arguments z_stack {V St} _.
Arguments z_partials {V St} _.

Section list_search.
Context {V St : Type} (model : FullModel V St).
Implicit Types (z : zstate V St) (f : zframe V St) (stk : list (zframe V St)) (e r : entry V).

(** The calls of the stack from the first made to the last. *)
Definition stack_ids stk : list Z := reverse ((λ f, e_id (f_entry f)) <$> stk).

Definition zbody (computePartial : bool) (killed : bool) z : outcome (zstate V St + bool * partials) :=
  let '(MkZ before rest state linearized cache stk pt) := z in
  if killed then Ret (inr (false, pt)) else
  match rest with
  | [] => Panic
  | e :: rest' =>
      match e_kind e with
      | callEntry =>
          let! r := or_panic (find_entry returnEntry (before ++ rest) (e_id e)) in
          let! ' (ok, newState) := Step model state (e_value e) (e_value r) in
          if (ok : bool) then
            let! newLinearized := bitset.set linearized (e_id e) in
            let newCacheEntry := MkCacheEntry newLinearized newState in
            let! hit := cacheContains model cache newCacheEntry in
            if negb hit then
              Ret (inl (MkZ [] (remove_op (e_id e) (before ++ rest)) newState newLinearized
                          (cache_add cache newCacheEntry) (MkFrame before e rest' state :: stk) pt))
            else Ret (inl (MkZ (before ++ [e]) rest' state linearized cache stk pt))
          else Ret (inl (MkZ (before ++ [e]) rest' state linearized cache stk pt))
      | returnEntry =>
          match stk with
          | [] => Ret (inr (false, pt))
          | MkFrame before0 e0 rest0 state0 :: stk' =>
              let! pt := (if computePartial then record_partial (stack_ids stk) pt else Ret pt) in
              let! linearized := bitset.clear linearized (e_id e0) in
              Ret (inl (MkZ (before0 ++ [e0]) rest0 state0 linearized cache stk' pt))
          end
      end
  end.

Fixpoint zloop (fuel : nat) (computePartial : bool) (kill : nat → bool) z : outcome (bool * partials) :=
  match fuel with
  | O => NoFuel
  | S fuel =>
      match z_left z ++ z_right z with
      | [] => Ret (true, record_complete (stack_ids (z_stack z)) (z_partials z))
      | _ :: _ =>
          let! r := zbody computePartial (kill O) z in
          match r with
          | inl z => zloop fuel computePartial (λ k, kill (S k)) z
          | inr res => Ret res
          end
      end
  end.

Definition zinit (h : list (entry V)) : zstate V St :=
  let n := zlen h / 2 in
  MkZ [] h (Init model) (bitset.newBitset n) ∅ [] (MkPartials (replicate (Z.to_nat n) None) []).

End list_search.

(** What the search needs to know of a model: an equivalence of states that
    [Step] respects and that [Equal] implies, and that [Equal] returns. *)
Class ModelSpec {V St : Type} (model : FullModel V St) (equiv : relation St) : Prop := {
  spec_equiv :: Equivalence equiv;
  spec_step : ∀ s1 s2 v o s1', equiv s1 s2 → Step model s1 v o = Ret (true, s1') →
    ∃ s2', Step model s2 v o = Ret (true, s2') ∧ equiv s1' s2';
  spec_equal : ∀ s1 s2, Equal model s1 s2 = Ret true → equiv s1 s2;
  spec_equal_returns : ∀ s1 s2, returns (Equal model s1 s2);
}.

(** A history of [n] operations numbered from 0, on which [Step] returns. *)
Record history_ok {V St : Type} (model : FullModel V St) (h : list (entry V)) : Prop := {
  ho_wf : wf_entries h;
  ho_ids : op_ids h ≡ₚ seqZ 0 (zlen h / 2);
  ho_step : ∀ s c r, c ∈ h → r ∈ h → is_call c → is_ret r → e_id c = e_id r →
    returns (Step model s (e_value c) (e_value r));
}.
