(* ===== verification/ListSearchProof.v ===== *)
(** * Correctness of the list search

    The invariant of [zloop], and from it: the search terminates within
    [search_fuel] iterations, never panics, and answers [true] exactly on the
    linearizable histories. *)
From stdpp Require Import base gmap sets numbers sorting list.
From S2P Require Import Prelude Bitset Model Linearizability NodeList Checker ListSearch.
Local Open Scope Z_scope.
Local Open Scope go_scope.

(** ** The cache functions *)
Section cache_lemmas.
Context {V St : Type} (model : FullModel V St).
Implicit Types (cache : gmap Z (list (cacheEntry St))) (ce : cacheEntry St).

Lemma cacheContains_loop_returns (equiv : relation St) `{!ModelSpec model equiv} elems ce :
  ∃ b, cacheContains_loop model elems ce = Ret b ∧
    (b = true → ∃ ce', ce' ∈ elems ∧ ce_linearized ce' = ce_linearized ce ∧
      equiv (ce_state ce) (ce_state ce')).
Proof.
  induction elems as [|ce' elems IH]; simpl; [by exists false|].
  destruct IH as (b & Hb & HIH).
  assert (∀ b, (b = true → ∃ ce0, ce0 ∈ elems ∧ ce_linearized ce0 = ce_linearized ce ∧
      equiv (ce_state ce) (ce_state ce0)) →
    b = true → ∃ ce0, ce0 ∈ ce' :: elems ∧ ce_linearized ce0 = ce_linearized ce ∧
      equiv (ce_state ce) (ce_state ce0)) as Hweak.
  { intros b' Hb' Ht. destruct (Hb' Ht) as (ce0 & Hin & ?). exists ce0. set_solver. }
  destruct (bitset.equals _ _) eqn:Heq; simpl.
  - apply equals_eq in Heq. destruct (spec_equal_returns (ce_state ce) (ce_state ce')) as [[] He];
      rewrite He; simpl.
    + exists true. split; [done|]. intros _. exists ce'. split_and!; [left|done|].
      by apply spec_equal.
    + exists b. eauto.
  - exists b. eauto.
Qed.

Lemma cacheContains_returns (equiv : relation St) `{!ModelSpec model equiv} cache ce :
  ∃ b, cacheContains model cache ce = Ret b ∧
    (b = true → ∃ k ce', ce' ∈ cache_bucket cache k ∧ ce_linearized ce' = ce_linearized ce ∧
      equiv (ce_state ce) (ce_state ce')).
Proof.
  unfold cacheContains.
  destruct (cacheContains_loop_returns equiv (cache_bucket cache (bitset.hash (ce_linearized ce))) ce)
    as (b & Hb & Hspec).
  exists b. split; [done|]. intros Ht. destruct (Hspec Ht) as (ce' & Hin & ?). eauto.
Qed.

Lemma cache_add_bucket cache ce k ce' :
  ce' ∈ cache_bucket (cache_add cache ce) k → ce' ∈ cache_bucket cache k ∨ ce' = ce.
Proof.
  unfold cache_bucket, cache_add. rewrite lookup_insert. case_decide; [subst|by left].
  simpl. set_solver.
Qed.

Lemma cache_bucket_empty k : cache_bucket (St:=St) ∅ k = [].
Proof. unfold cache_bucket. by rewrite lookup_empty. Qed.
End cache_lemmas.

(** ** The partial linearizations stay well-formed *)
Record partials_ok (n : Z) (P : list Z → Prop) (pt : partials) : Prop := {
  pto_len : zlen (pt_longest pt) = n;
  pto_ptr : ∀ i q, pt_longest pt !! i = Some (Some q) →
    ∃ ids, pt_seqs pt !! q = Some ids ∧ Z.of_nat i ∈ ids;
  pto_seqs : Forall P (pt_seqs pt);
}.

Section partials_lemmas.
Context (n : Z) (P : list Z → Prop).

Lemma partials_ok_init : 0 ≤ n → partials_ok n P (MkPartials (replicate (Z.to_nat n) None) []).
Proof.
  intros Hn. split; simpl; [rewrite length_replicate; lia| |constructor].
  intros i q Hi. by apply lookup_replicate in Hi as [? _].
Qed.

Lemma longest_loop_ok ids vs seq pt :
  (∀ i, i ∈ vs → 0 ≤ i < n ∧ i ∈ ids) → P ids → partials_ok n P pt →
  (∀ q, seq = Some q → pt_seqs pt !! q = Some ids) →
  ∃ pt', longest_loop ids vs seq pt = Ret pt' ∧ partials_ok n P pt'.
Proof.
  intros Hvs HP. revert seq pt. induction vs as [|i vs IH]; intros seq pt Hpt Hseq; simpl.
  { by exists pt. }
  destruct (Hvs i ltac:(left)) as [Hi Hin].
  assert (∀ i, i ∈ vs → 0 ≤ i < n ∧ i ∈ ids) as Hvs' by (intros; apply Hvs; by right).
  destruct (slice_get_in_range (pt_longest pt) i) as (cur & -> & Hcur);
    [by rewrite (pto_len _ _ _ Hpt)|]. simpl.
  assert (∃ b, match cur with
     | None => Ret true
     | Some q => let! old := or_panic (pt_seqs pt !! q) in Ret (bool_decide (length old < length ids)%nat)
     end = Ret b) as [b ->].
  { destruct cur as [q|]; [|by eexists].
    destruct (pto_ptr _ _ _ Hpt _ _ Hcur) as (old & -> & _). by eexists. }
  simpl. destruct b; [|by apply IH].
  assert (∃ q seqs, (match seq with
     | None => (length (pt_seqs pt), pt_seqs pt ++ [ids])
     | Some q => (q, pt_seqs pt) end) = (q, seqs) ∧ seqs !! q = Some ids ∧ Forall P seqs ∧
     ∀ q' s, pt_seqs pt !! q' = Some s → seqs !! q' = Some s) as (q & seqs & -> & Hq & HPs & Hext).
  { destruct seq as [q|].
    - exists q, (pt_seqs pt). split_and!; [done|by apply Hseq|apply Hpt|done].
    - exists (length (pt_seqs pt)), (pt_seqs pt ++ [ids]). split_and!; [done| | |].
      + by rewrite lookup_app_r, Nat.sub_diag.
      + apply Forall_app. split; [apply Hpt|by constructor].
      + intros q' s Hs. by apply lookup_app_l_Some. }
  unfold slice_set. rewrite bool_decide_eq_true_2 by (by rewrite (pto_len _ _ _ Hpt)). simpl.
  apply IH; [done|split|by intros ? [= <-]]; simpl; [|intros j q' Hj|done].
  - by rewrite length_insert, (pto_len _ _ _ Hpt).
  - destruct (decide (Z.to_nat i = j)) as [<-|Hne].
    + rewrite list_lookup_insert_eq in Hj by (apply lookup_lt_Some in Hcur; lia).
      injection Hj as <-. exists ids. split; [done|]. by rewrite Z2Nat.id by lia.
    + rewrite list_lookup_insert_ne in Hj by done.
      destruct (pto_ptr _ _ _ Hpt _ _ Hj) as (s & Hs & Hin'). eauto.
Qed.

Lemma record_partial_ok ids pt :
  (∀ i, i ∈ ids → 0 ≤ i < n) → P ids → partials_ok n P pt →
  ∃ pt', record_partial ids pt = Ret pt' ∧ partials_ok n P pt'.
Proof. intros Hids HP Hpt. apply longest_loop_ok; naive_solver. Qed.

Lemma record_complete_ok ids pt :
  (∀ i, 0 ≤ i < n → i ∈ ids) → P ids → partials_ok n P pt → partials_ok n P (record_complete ids pt).
Proof.
  intros Hids HP Hpt. pose proof (pto_len _ _ _ Hpt) as Hlen. split; simpl.
  - by rewrite length_replicate.
  - intros i q Hi. apply lookup_replicate in Hi as [[= ->] Hi]. exists ids. split.
    + by rewrite lookup_app_r, Nat.sub_diag.
    + apply Hids. lia.
  - apply Forall_app. split; [apply Hpt|by constructor].
Qed.
End partials_lemmas.

(** ** The invariant *)
Section search_invariant.
Context {V St : Type} (model : FullModel V St) (equiv : relation St) `{!ModelSpec model equiv}.
Context (h : list (entry V)) (Hok : history_ok model h).
Implicit Types (X Y : gset Z) (e r c : entry V) (s t : St) (stk : list (zframe V St)) (z : zstate V St).
Abbreviation n := (zlen h / 2).
Abbreviation step := (Step model).

Definition rem_of X : list (entry V) := filter (λ e, e_id e ∉ X) h.

Definition stack_set stk : gset Z := list_to_set ((λ f, e_id (f_entry f)) <$> stk).

Definition dead Y t : Prop := ¬ search step (rem_of Y) t.

Definition tried X s e : Prop := ∀ r s',
  find_entry returnEntry (rem_of X) (e_id e) = Some r →
  step s (e_value e) (e_value r) = Ret (true, s') → dead ({[e_id e]} ∪ X) s'.

Fixpoint path stk s : Prop :=
  match stk with
  | [] => s = Init model
  | f :: stk' =>
      path stk' (f_state f) ∧
      rem_of (stack_set stk') = f_left f ++ f_entry f :: f_right f ∧
      Forall is_call (f_left f) ∧ is_call (f_entry f) ∧
      (∃ r, find_entry returnEntry (rem_of (stack_set stk')) (e_id (f_entry f)) = Some r ∧
        step (f_state f) (e_value (f_entry f)) (e_value r) = Ret (true, s)) ∧
      ∀ e, e ∈ f_left f → tried (stack_set stk') (f_state f) e
  end.

(** The configurations that the stack is still exploring. *)
Fixpoint open_at stk s Y t : Prop :=
  match stk with
  | [] => False
  | f :: stk' => (Y = stack_set stk ∧ t = s) ∨ open_at stk' (f_state f) Y t
  end.

Record zinv z : Prop := {
  zi_path : path (z_stack z) (z_state z);
  zi_rem : rem_of (stack_set (z_stack z)) = z_left z ++ z_right z;
  zi_left : Forall is_call (z_left z);
  zi_tried : ∀ e, e ∈ z_left z → tried (stack_set (z_stack z)) (z_state z) e;
  zi_lin : bitset.repr n (z_linearized z) (stack_set (z_stack z));
  zi_cache : ∀ k ce, ce ∈ cache_bucket (z_cache z) k → ∃ Y, bitset.repr n (ce_linearized ce) Y ∧
    (dead Y (ce_state ce) ∨ open_at (z_stack z) (z_state z) Y (ce_state ce));
  zi_partials : partials_ok n (partial_linearization step h (Init model)) (z_partials z);
}.

(** ** Remaining entries *)
Lemma rem_of_empty : rem_of ∅ = h.
Proof.
  unfold rem_of. clear Hok. induction h as [|e l IH]; [done|].
  rewrite filter_cons_True by apply not_elem_of_empty. by f_equal.
Qed.

Lemma rem_of_union i X : rem_of ({[i]} ∪ X) = remove_op i (rem_of X).
Proof.
  unfold rem_of, remove_op. rewrite list_filter_filter. apply filter_ext_in. set_solver.
Qed.

Lemma wf_rem_of X : wf_entries (rem_of X).
Proof.
  induction X as [|i X Hi IH] using set_ind_L.
  - rewrite rem_of_empty. apply Hok.
  - rewrite rem_of_union. by apply wf_remove_op.
Qed.

Lemma elem_of_rem_of e X : e ∈ rem_of X ↔ e ∈ h ∧ e_id e ∉ X.
Proof. unfold rem_of. rewrite list_elem_of_filter. naive_solver. Qed.

Lemma find_entry_rem_of k i X : i ∉ X → find_entry k (rem_of X) i = find_entry k h i.
Proof.
  induction X as [|j X Hj IH] using set_ind_L; intros Hi.
  - by rewrite rem_of_empty.
  - rewrite rem_of_union, find_entry_remove_op by set_solver. apply IH. set_solver.
Qed.

Lemma precedes_rem_of i j X : precedes (rem_of X) i j ↔ precedes h i j ∧ i ∉ X ∧ j ∉ X.
Proof.
  induction X as [|k X Hk IH] using set_ind_L.
  - rewrite rem_of_empty. set_solver.
  - rewrite rem_of_union, precedes_remove_op, IH. set_solver.
Qed.

Lemma id_range e : e ∈ h → is_call e → 0 ≤ e_id e < n.
Proof.
  intros He Hc. assert (e_id e ∈ op_ids h) as Hin by (apply elem_of_op_ids; eauto).
  rewrite (ho_ids _ _ Hok), elem_of_seqZ in Hin. lia.
Qed.

Lemma stack_set_cons f stk : stack_set (f :: stk) = {[e_id (f_entry f)]} ∪ stack_set stk.
Proof. done. Qed.

Lemma search_equiv rem s s' : search step rem s → equiv s s' → search step rem s'.
Proof.
  intros Hs. revert s'. induction Hs as [s|l1 c l2 r s t Hl1 Hc Hr Hst _ IH]; intros s' He.
  - constructor.
  - destruct (spec_step _ _ _ _ _ He Hst) as (t' & Hst' & He').
    econstructor; [done..|]. by apply IH.
Qed.

Lemma dead_equiv Y s s' : dead Y s → equiv s s' → dead Y s'.
Proof. intros Hd He Hs. apply Hd. eapply search_equiv; [done|]. by symmetry. Qed.

(** ** The path *)
Lemma path_call f stk s : path (f :: stk) s →
  f_entry f ∈ h ∧ is_call (f_entry f) ∧ e_id (f_entry f) ∉ stack_set stk.
Proof.
  intros (_ & Hrem & _ & Hc & _). assert (f_entry f ∈ rem_of (stack_set stk)) as Hin.
  { rewrite Hrem. set_solver. }
  apply elem_of_rem_of in Hin as [? ?]. done.
Qed.

Lemma open_at_subset stk s Y t : open_at stk s Y t → Y ⊆ stack_set stk.
Proof.
  revert s. induction stk as [|f stk IH]; intros s; [done|]. intros [[-> _]|Ho]; [done|].
  rewrite stack_set_cons. apply IH in Ho. set_solver.
Qed.

Lemma path_search stk s : path stk s → search step (rem_of (stack_set stk)) s → search step h (Init model).
Proof.
  revert s. induction stk as [|f stk IH]; intros s.
  - intros ->. change (stack_set []) with (∅ : gset Z). by rewrite rem_of_empty.
  - intros (Hp & Hrem & Hl & Hc & (r & Hr & Hst) & _) Hs. apply (IH _ Hp).
    rewrite stack_set_cons, rem_of_union in Hs. rewrite Hrem in *.
    by eapply search_take.
Qed.

Lemma stack_ids_cons f stk : stack_ids (f :: stk) = stack_ids stk ++ [e_id (f_entry f)].
Proof. unfold stack_ids. by rewrite fmap_cons, reverse_cons. Qed.

Lemma elem_of_stack_ids i stk : i ∈ stack_ids stk ↔ i ∈ stack_set stk.
Proof. unfold stack_ids, stack_set. by rewrite elem_of_list_to_set, elem_of_reverse. Qed.

Lemma path_partial stk s : path stk s →
  partial_linearization step h (Init model) (stack_ids stk) ∧ reaches step h (Init model) (stack_ids stk) s.
Proof.
  revert s. induction stk as [|f stk IH]; intros s Hp.
  - simpl in Hp. subst s. split; [|done]. split; try by constructor.
    + by intros i ?%not_elem_of_nil.
    + by intros i j ?%not_elem_of_nil.
  - destruct (path_call _ _ _ Hp) as (Hin & Hc & Hni).
    destruct Hp as (Hp & Hrem & Hl & _ & (r & Hr & Hst) & _).
    destruct (IH _ Hp) as [[Hnd Hids Hsort Hcl _] Hreach].
    rewrite find_entry_rem_of in Hr by done.
    assert (find_entry callEntry h (e_id (f_entry f)) = Some (f_entry f)) as Hfc.
    { apply find_entry_in; [apply Hok|done|by apply key_call]. }
    assert (∀ j, precedes h j (e_id (f_entry f)) → j ∈ stack_ids stk) as Hmin.
    { intros j Hj. destruct (decide (j ∈ stack_set stk)) as [|Hnj]; [by apply elem_of_stack_ids|].
      exfalso. eapply (not_precedes_minimal (rem_of (stack_set stk))); [apply wf_rem_of|done..|].
      by apply precedes_rem_of. }
    rewrite stack_ids_cons.
    assert (reaches step h (Init model) (stack_ids stk ++ [e_id (f_entry f)]) s) as Hreach'.
    { by eapply reaches_snoc. }
    split; [|done]. split.
    + apply NoDup_app. split_and!; [done| |apply NoDup_singleton].
      intros i Hi ->%list_elem_of_singleton. by apply Hni, elem_of_stack_ids.
    + intros i [Hi| ->%list_elem_of_singleton]%elem_of_app; [by apply Hids|].
      apply elem_of_op_ids. eauto.
    + apply StronglySorted_snoc; [done|]. apply Forall_forall. intros i Hi Hpr.
      apply Hni, elem_of_stack_ids. by eapply Hcl.
    + intros i j [Hi| ->%list_elem_of_singleton]%elem_of_app Hpr; apply elem_of_app; left; eauto.
    + by eapply reaches_legal.
Qed.

(** ** One iteration *)

Lemma remaining_has_ret z :
  zinv z → z_left z ++ z_right z ≠ [] → ∃ e rest, z_right z = e :: rest.
Proof.
  intros Hz Hne. destruct (z_right z) as [|e rest] eqn:Hr; [|by eauto]. exfalso.
  rewrite app_nil_r in Hne. pose proof (zi_rem _ Hz) as Hrem. rewrite Hr, app_nil_r in Hrem.
  pose proof (zi_left _ Hz) as Hl. destruct (z_left z) as [|c left]; [done|].
  apply Forall_cons in Hl as [Hc Hl].
  pose proof (wf_rem_of (stack_set (z_stack z))) as Hwf. rewrite Hrem in Hwf.
  destruct (wf_has_ret _ Hwf c ltac:(left) Hc) as (r & Hin & Hret & _).
  apply elem_of_cons in Hin as [->|Hin]; [by eapply call_not_ret|].
  rewrite Forall_forall in Hl. by eapply call_not_ret; [apply Hl|].
Qed.

(** At a return entry every candidate has been tried. *)
Lemma dead_at_return z r rest :
  zinv z → z_right z = r :: rest → is_ret r → dead (stack_set (z_stack z)) (z_state z).
Proof.
  intros Hz Hrt Hret Hs. pose proof (zi_rem _ Hz) as Hrem. rewrite Hrt in Hrem.
  inversion Hs as [s Hnil|l1 c l2 r' s s' Hl1 Hc Hr Hst Hs' Heq]; subst.
  { rewrite Hrem in Hnil. by destruct (z_left z). }
  assert (c ∈ z_left z) as Hin.
  { rewrite Hrem in Heq. clear -Heq Hl1 Hret Hc.
    revert Heq. generalize (z_left z). intros left. revert l1 Hl1.
    induction left as [|e left IH]; intros [|e1 l1] Hl1; simpl; intros Heq; simplify_eq.
    - by destruct (call_not_ret r).
    - apply Forall_cons in Hl1 as [Hl1 _]. by destruct (call_not_ret r).
    - left.
    - right. apply Forall_cons in Hl1 as [_ Hl1]. by eapply IH. }
  rewrite Heq in *. rewrite <-rem_of_union in Hs'.
  by apply (zi_tried _ Hz c Hin r' s').
Qed.

(** The candidate at the position, in the remaining entries. *)
Lemma position_call z e rest :
  zinv z → z_right z = e :: rest → is_call e →
  e ∈ h ∧ e_id e ∉ stack_set (z_stack z) ∧ 0 ≤ e_id e < n ∧
  ∃ r, find_entry returnEntry (z_left z ++ z_right z) (e_id e) = Some r ∧
    returns (step (z_state z) (e_value e) (e_value r)).
Proof.
  intros Hz Hrt Hc.
  assert (e ∈ rem_of (stack_set (z_stack z))) as Hin by (rewrite (zi_rem _ Hz), Hrt; set_solver).
  pose proof Hin as [Heh Hni]%elem_of_rem_of. split_and!; try done; try by apply id_range.
  destruct (find_ret_of_call _ e (wf_rem_of (stack_set (z_stack z))) Hin Hc) as [r Hr].
  exists r. rewrite <-(zi_rem _ Hz). split; [done|].
  apply find_entry_Some in Hr as [[Hrh _]%elem_of_rem_of [Hret Hid]%key_ret].
  by apply (ho_step _ _ Hok).
Qed.

(** Moving the position past a candidate that leads nowhere. *)
Lemma zinv_skip z e rest :
  zinv z → z_right z = e :: rest → is_call e →
  tried (stack_set (z_stack z)) (z_state z) e →
  zinv (MkZ (z_left z ++ [e]) rest (z_state z) (z_linearized z) (z_cache z) (z_stack z) (z_partials z)).
Proof.
  intros Hz Hrt Hc Ht. destruct Hz as [Hp Hrem Hl Htr Hlin Hca Hpt]. split; simpl; try done.
  - rewrite Hrem, Hrt. by rewrite <-app_assoc.
  - apply Forall_app. by split; [|constructor].
  - intros e' [He'|He'%list_elem_of_singleton]%elem_of_app; [by apply Htr|by subst].
Qed.

(** Taking the candidate at the position. *)
Lemma zinv_push z e rest r s' newlin :
  zinv z → z_right z = e :: rest → is_call e →
  find_entry returnEntry (z_left z ++ z_right z) (e_id e) = Some r →
  step (z_state z) (e_value e) (e_value r) = Ret (true, s') →
  bitset.repr n newlin ({[e_id e]} ∪ stack_set (z_stack z)) →
  zinv (MkZ [] (remove_op (e_id e) (z_left z ++ z_right z)) s' newlin
    (cache_add (z_cache z) (MkCacheEntry newlin s'))
    (MkFrame (z_left z) e rest (z_state z) :: z_stack z) (z_partials z)).
Proof.
  intros Hz Hrt Hc Hr Hst Hnl. destruct Hz as [Hp Hrem Hl Htr Hlin Hca Hpt].
  split; simpl; try done.
  - rewrite Hrem, Hrt in *. split_and!; try done. by exists r.
  - by rewrite stack_set_cons, rem_of_union, Hrem.
  - by intros e' ?%not_elem_of_nil.
  - intros k ce [Hin| ->]%cache_add_bucket.
    + destruct (Hca k ce Hin) as (Y & HY & [Hd|Ho]); exists Y; auto.
    + simpl. exists ({[e_id e]} ∪ stack_set (z_stack z)). auto.
Qed.

(** Giving up the last call. *)
Lemma zinv_pop z r rest before0 e0 rest0 state0 stk newlin pt :
  zinv z → z_right z = r :: rest → is_ret r →
  z_stack z = MkFrame before0 e0 rest0 state0 :: stk →
  bitset.repr n newlin (stack_set (z_stack z) ∖ {[e_id e0]}) →
  partials_ok n (partial_linearization step h (Init model)) pt →
  zinv (MkZ (before0 ++ [e0]) rest0 state0 newlin (z_cache z) stk pt).
Proof.
  intros Hz Hrt Hret Hstk Hnl Hpt. pose proof (dead_at_return _ _ _ Hz Hrt Hret) as Hdead.
  destruct Hz as [Hp Hrem Hl Htr Hlin Hca _]. rewrite Hstk in *.
  pose proof (path_call _ _ _ Hp) as (_ & _ & Hni). simpl in Hni.
  destruct Hp as (Hp & Hrem0 & Hl0 & Hc0 & (r0 & Hr0 & Hst0) & Htr0). simpl in *.
  split; simpl; try done.
  - rewrite Hrem0. by rewrite <-app_assoc.
  - apply Forall_app. by split; [|constructor].
  - intros e [He|He%list_elem_of_singleton]%elem_of_app; [by apply Htr0|subst e].
    intros r1 s1 Hr1 Hst1. simplify_eq.
    by assert (s1 = z_state z) as -> by congruence.
  - replace (stack_set stk) with (stack_set (MkFrame before0 e0 rest0 state0 :: stk) ∖ {[e_id e0]});
      [done|]. rewrite stack_set_cons. simpl. set_solver.
  - intros k ce Hin. destruct (Hca k ce Hin) as (Y & HY & [Hd|[[-> Heq]|Ho]]); exists Y || eexists;
      (split; [done|]); auto. left. by rewrite Heq.
Qed.

(** The search never takes a configuration twice: one that is found in the
    cache is not on the stack, so it has been given up. *)
Lemma cached_dead z e r s' k ce :
  zinv z → ce ∈ cache_bucket (z_cache z) k → e_id e ∉ stack_set (z_stack z) →
  bitset.repr n (ce_linearized ce) ({[e_id e]} ∪ stack_set (z_stack z)) →
  equiv s' (ce_state ce) →
  find_entry returnEntry (rem_of (stack_set (z_stack z))) (e_id e) = Some r →
  step (z_state z) (e_value e) (e_value r) = Ret (true, s') →
  tried (stack_set (z_stack z)) (z_state z) e.
Proof.
  intros Hz Hin Hni HX He Hr Hst. destruct (zi_cache _ Hz k ce Hin) as (Y & HY & Hd).
  rewrite <-(repr_fun _ _ _ _ HX HY) in Hd. intros r1 s1 Hr1 Hst1. simplify_eq.
  assert (s1 = s') as -> by congruence. destruct Hd as [Hd|Ho].
  - eapply dead_equiv; [done|]. by symmetry.
  - apply open_at_subset in Ho. set_solver.
Qed.

(** ** Termination: the positions of the stack, read as the digits of a
    number, only grow *)
Abbreviation base := (zlen h + 2).

Fixpoint num stk : Z :=
  match stk with
  | [] => 0
  | f :: stk' => num stk' * base + (zlen (f_left f) + 1)
  end.

Definition progress z : Z :=
  (num (z_stack z) * base + (zlen (z_left z) + 1)) * base ^ (n - zlen (z_stack z)).

Lemma path_length stk s : path stk s → zlen stk ≤ n.
Proof.
  intros Hp. destruct (path_partial _ _ Hp) as [[Hnd Hids _ _ _] _].
  assert (length (stack_ids stk) ≤ length (seqZ 0 n))%nat as Hle.
  { apply submseteq_length, NoDup_submseteq; [done|]. intros i Hi.
    rewrite <-(ho_ids _ _ Hok). by apply Hids. }
  unfold stack_ids in Hle. rewrite length_reverse, length_fmap, length_seqZ in Hle.
  assert (0 ≤ n) by (apply Z.div_pos; lia). lia.
Qed.

Lemma rem_of_left_length X left rest : rem_of X = left ++ rest → zlen left ≤ zlen h.
Proof.
  intros Hrem. pose proof (length_filter (λ e, e_id e ∉ X) h) as Hle. unfold rem_of in Hrem.
  rewrite Hrem, length_app in Hle. lia.
Qed.

Lemma num_bound stk s : path stk s → 0 ≤ num stk < base ^ zlen stk.
Proof.
  revert s. induction stk as [|f stk IH]; intros s; [intros; simpl; lia|].
  intros (Hp & Hrem & _). apply IH in Hp. apply rem_of_left_length in Hrem.
  cbn [num length]. rewrite Nat2Z.inj_succ, Z.pow_succ_r by lia. nia.
Qed.

Lemma progress_bound z : zinv z → 0 < progress z < base ^ (n + 1).
Proof.
  intros Hz. pose proof (path_length _ _ (zi_path _ Hz)) as Hlen.
  pose proof (num_bound _ _ (zi_path _ Hz)) as Hnum.
  pose proof (rem_of_left_length _ _ _ (zi_rem _ Hz)) as Hleft. unfold progress.
  assert (0 < base ^ (n - zlen (z_stack z))) by (apply Z.pow_pos_nonneg; lia).
  assert (base ^ (n + 1) = base ^ zlen (z_stack z) * base * base ^ (n - zlen (z_stack z))) as Hpow.
  { replace (n + 1) with (zlen (z_stack z) + Z.succ (n - zlen (z_stack z))) by lia.
    rewrite Z.pow_add_r, Z.pow_succ_r by lia. ring. }
  rewrite Hpow. split; [nia|]. apply Z.mul_lt_mono_pos_r; [done|]. nia.
Qed.

Lemma progress_skip z e rest st lin ca pt :
  zlen (z_stack z) ≤ n →
  progress z < progress (MkZ (z_left z ++ [e]) rest st lin ca (z_stack z) pt).
Proof.
  intros Hlen. unfold progress. simpl. rewrite length_app. simpl.
  apply Z.mul_lt_mono_pos_r; [apply Z.pow_pos_nonneg; lia|lia].
Qed.

Lemma progress_push z e rest rem st st' lin ca pt :
  zlen (z_stack z) < n →
  progress z < progress (MkZ [] rem st lin ca (MkFrame (z_left z) e rest st' :: z_stack z) pt).
Proof.
  intros Hlen. unfold progress. simpl. rewrite Nat2Z.inj_succ.
  replace (n - zlen (z_stack z)) with (Z.succ (n - Z.succ (zlen (z_stack z)))) by lia.
  rewrite Z.pow_succ_r by lia.
  assert (0 < base ^ (n - Z.succ (zlen (z_stack z)))) by (apply Z.pow_pos_nonneg; lia). nia.
Qed.

Lemma progress_pop z f stk rest st lin ca pt :
  z_stack z = f :: stk → zlen (z_stack z) ≤ n → zlen (z_left z) ≤ zlen h →
  progress z < progress (MkZ (f_left f ++ [f_entry f]) rest st lin ca stk pt).
Proof.
  intros Hstk Hlen Hleft. unfold progress. rewrite Hstk in *. simpl in *.
  rewrite length_app, Nat2Z.inj_succ in *. simpl.
  replace (n - zlen stk) with (Z.succ (n - Z.succ (zlen stk))) by lia.
  rewrite Z.pow_succ_r by lia.
  assert (0 < base ^ (n - Z.succ (zlen stk))) by (apply Z.pow_pos_nonneg; lia). nia.
Qed.

(** ** The loop *)

(** What an iteration may do from a state of the invariant. *)
Definition iteration_ok z (r : zstate V St + bool * partials) : Prop :=
  match r with
  | inl z' => zinv z' ∧ progress z < progress z'
  | inr (b, pt) => b = false ∧ ¬ search step h (Init model) ∧
      partials_ok n (partial_linearization step h (Init model)) pt
  end.

Lemma zbody_call z e rest cp :
  zinv z → z_right z = e :: rest → is_call e →
  ∃ res, zbody model cp false z = Ret res ∧ iteration_ok z res.
Proof.
  intros Hz Hrt Hc.
  destruct (position_call _ _ _ Hz Hrt Hc) as (Heh & Hni & Hid & r & Hr & [ok s'] & Hst).
  pose proof (path_length _ _ (zi_path _ Hz)) as Hlen.
  assert (tried (stack_set (z_stack z)) (z_state z) e → iteration_ok z
    (inl (MkZ (z_left z ++ [e]) rest (z_state z) (z_linearized z) (z_cache z) (z_stack z) (z_partials z))))
    as Hskip.
  { intros Ht. split; [by eapply zinv_skip|by apply progress_skip]. }
  destruct (repr_set _ _ _ _ (zi_lin _ Hz) Hid) as (newlin & Hset & Hnl).
  pose proof Hr as Hr'. rewrite <-(zi_rem _ Hz) in Hr'.
  destruct z as [left right state lin ca stk pt]. simpl in *. subst right.
  rewrite Hc, Hr. simpl. rewrite Hst. simpl. destruct ok.
  - rewrite Hset. simpl.
    destruct (cacheContains_returns model equiv ca (MkCacheEntry newlin s')) as (hit & -> & Hhit).
    simpl. destruct hit; simpl.
    + eexists. split; [done|]. apply Hskip.
      destruct (Hhit eq_refl) as (k & ce & Hin & Heql & Heqv). simpl in *.
      refine (cached_dead _ e r s' k ce Hz Hin Hni _ Heqv Hr' Hst). by rewrite Heql.
    + eexists. split; [done|]. split.
      * by apply (zinv_push _ _ _ _ _ _ Hz eq_refl Hc Hr Hst Hnl).
      * assert (zinv (MkZ [] (remove_op (e_id e) (left ++ e :: rest)) s' newlin
          (cache_add ca (MkCacheEntry newlin s')) (MkFrame left e rest state :: stk) pt)) as Hz'.
        { by apply (zinv_push _ _ _ _ _ _ Hz eq_refl Hc Hr Hst Hnl). }
        pose proof (path_length _ _ (zi_path _ Hz')) as Hlen'. simpl in Hlen'.
        apply (progress_push (MkZ left (e :: rest) state lin ca stk pt)). simpl. lia.
  - eexists. split; [done|]. apply Hskip. intros r1 s1 Hr1 Hst1. simplify_eq. congruence.
Qed.

Lemma zbody_return z e rest cp :
  zinv z → z_right z = e :: rest → is_ret e →
  ∃ res, zbody model cp false z = Ret res ∧ iteration_ok z res.
Proof.
  intros Hz Hrt Hret.
  pose proof (dead_at_return _ _ _ Hz Hrt Hret) as Hdead.
  pose proof (path_length _ _ (zi_path _ Hz)) as Hlen.
  pose proof (rem_of_left_length _ _ _ (zi_rem _ Hz)) as Hleft.
  pose proof (zi_lin _ Hz) as Hlin.
  destruct (z_stack z) as [|[before0 e0 rest0 state0] stk] eqn:Hstk.
  - exists (inr (false, z_partials z)). destruct z as [left right state lin ca stk' pt].
    simpl in *. subst. rewrite Hret. split; [done|]. split_and!; [done| |apply Hz].
    pose proof (zi_path _ Hz) as Hp. simpl in Hp. subst.
    unfold dead in Hdead. change (stack_set []) with (∅ : gset Z) in Hdead.
    by rewrite rem_of_empty in Hdead.
  - pose proof (zi_path _ Hz) as Hp. rewrite Hstk in Hp.
    pose proof (path_call _ _ _ Hp) as (H0h & H0c & _).
    pose proof (path_partial _ _ Hp) as [Hpl _].
    destruct (repr_clear _ _ _ (e_id e0) Hlin (id_range e0 H0h H0c)) as (newlin & Hcl & Hnl).
    assert (∃ pt', (if cp then record_partial (stack_ids (z_stack z)) (z_partials z)
        else Ret (z_partials z)) = Ret pt' ∧
      partials_ok n (partial_linearization step h (Init model)) pt') as (pt' & Hrec & Hpt').
    { destruct cp; [|exists (z_partials z); split; [done|apply Hz]].
      apply record_partial_ok; [|by rewrite Hstk|apply Hz].
      intros i Hi. rewrite Hstk in Hi. apply (pl_ids _ _ _ _ Hpl) in Hi.
      rewrite (ho_ids _ _ Hok), elem_of_seqZ in Hi. lia. }
    exists (inl (MkZ (before0 ++ [e0]) rest0 state0 newlin (z_cache z) stk pt')). split.
    + destruct z as [left right state lin ca stk' pt]. simpl in *. subst.
      rewrite Hret, Hrec. simpl. by rewrite Hcl.
    + split.
      * eapply zinv_pop; [done..|by rewrite Hstk|done].
      * apply (progress_pop z (MkFrame before0 e0 rest0 state0)); [done|by rewrite Hstk|done].
Qed.

Lemma zbody_ok z cp :
  zinv z → z_left z ++ z_right z ≠ [] →
  ∃ res, zbody model cp false z = Ret res ∧ iteration_ok z res.
Proof.
  intros Hz Hne. destruct (remaining_has_ret z Hz Hne) as (e & rest & Hrt).
  destruct (kind_cases e); [by eapply zbody_call|by eapply zbody_return].
Qed.

Lemma zbody_killed z cp : zbody model cp true z = Ret (inr (false, z_partials z)).
Proof. by destruct z. Qed.

(** Nothing remains: the calls made are a complete linearization. *)
Lemma finished z :
  zinv z → z_left z ++ z_right z = [] →
  search step h (Init model) ∧
  partials_ok n (partial_linearization step h (Init model))
    (record_complete (stack_ids (z_stack z)) (z_partials z)).
Proof.
  intros Hz Hnil. pose proof (zi_rem _ Hz) as Hrem. rewrite Hnil in Hrem. split.
  - apply (path_search _ _ (zi_path _ Hz)). rewrite Hrem. constructor.
  - apply record_complete_ok; [|apply (path_partial _ _ (zi_path _ Hz))|apply Hz].
    intros i Hi. apply elem_of_stack_ids.
    assert (i ∈ op_ids h) as (c & Hc & _ & Hid)%elem_of_op_ids.
    { rewrite (ho_ids _ _ Hok), elem_of_seqZ. lia. }
    destruct (decide (i ∈ stack_set (z_stack z))) as [|Hni]; [done|].
    assert (c ∈ rem_of (stack_set (z_stack z))) as Hin by (apply elem_of_rem_of; by subst).
    rewrite Hrem in Hin. by apply not_elem_of_nil in Hin.
Qed.

Lemma zloop_ok fuel cp kill z :
  zinv z → base ^ (n + 1) - progress z ≤ Z.of_nat fuel →
  ∃ b pt, zloop model fuel cp kill z = Ret (b, pt) ∧
    (b = true → search step h (Init model)) ∧
    (b = false → (∃ k, kill k = true) ∨ ¬ search step h (Init model)) ∧
    partials_ok n (partial_linearization step h (Init model)) pt.
Proof.
  revert kill z. induction fuel as [|fuel IH]; intros kill z Hz Hfuel.
  { pose proof (progress_bound _ Hz). lia. }
  cbn [zloop]. destruct (z_left z ++ z_right z) as [|e0 rem] eqn:Hrem.
  - destruct (finished z Hz Hrem) as [Hs Hpt].
    exists true, (record_complete (stack_ids (z_stack z)) (z_partials z)). by split_and!.
  - destruct (kill O) eqn:Hk.
    { rewrite zbody_killed. exists false, (z_partials z). split_and!; [done..|by eauto|apply Hz]. }
    destruct (zbody_ok z cp Hz) as (r & -> & Hr); [by rewrite Hrem|]. simpl.
    destruct r as [z'|[b pt]].
    + destruct Hr as [Hz' Hprog].
      destruct (IH (λ k, kill (S k)) z' Hz') as (b & pt & Heq & Ht & Hf & Hpt); [lia|].
      exists b, pt. split_and!; [done|done| |done]. intros Hb.
      destruct (Hf Hb) as [[k Hk']|]; [left; by exists (S k)|by right].
    + destruct Hr as (-> & Hns & Hpt). exists false, pt. split_and!; [done..|by right|done].
Qed.

Lemma zinv_init : zinv (zinit model h).
Proof.
  assert (0 ≤ n) by (apply Z.div_pos; lia).
  split; simpl; try done.
  - apply rem_of_empty.
  - by intros e ?%not_elem_of_nil.
  - apply repr_newBitset.
  - intros k ce. rewrite cache_bucket_empty. by intros ?%not_elem_of_nil.
  - by apply partials_ok_init.
Qed.

End search_invariant.

(** Iterations that are always enough for a history. *)
Definition search_fuel {V : Type} (h : list (entry V)) : nat :=
  Z.to_nat ((zlen h + 2) ^ (zlen h / 2 + 1)).

Theorem list_search_ok {V St : Type} (model : FullModel V St) (equiv : relation St)
    `{!ModelSpec model equiv} h fuel cp kill :
  history_ok model h → (search_fuel h ≤ fuel)%nat →
  ∃ b pt, zloop model fuel cp kill (zinit model h) = Ret (b, pt) ∧
    (b = true → linearizable (Step model) h (Init model)) ∧
    (b = false → (∃ k, kill k = true) ∨ ¬ linearizable (Step model) h (Init model)) ∧
    partials_ok (zlen h / 2) (partial_linearization (Step model) h (Init model)) pt.
Proof.
  intros Hok Hfuel.
  destruct (zloop_ok model equiv h Hok fuel cp kill (zinit model h)) as (b & pt & Hz & Ht & Hf & Hpt).
  - apply zinv_init.
  - assert (zinv model h (zinit model h)) as Hinit by apply zinv_init.
    pose proof (progress_bound model equiv h Hok _ Hinit).
    unfold search_fuel in Hfuel. lia.
  - rewrite (search_linearizable _ _ _ (ho_wf _ _ Hok)) in Ht, Hf. by exists b, pt.
Qed.
