(* ===== verification/CheckerProof.v ===== *)
(** * The pointer search refines the list search

    [checkSingle] keeps its entries in a doubly linked list from which [lift]
    takes entries out and to which [unlift] returns them.  This file relates
    its states to those of [zloop] ([rel]), proves that both take the same
    steps, and concludes: [checkSingle] decides linearizability. *)
From stdpp Require Import base gmap sets numbers sorting list.
From S2P Require Import Prelude Bitset Model Linearizability NodeList Checker ListSearch ListSearchProof.
Local Open Scope Z_scope.
Local Open Scope go_scope.

(** ** Where the entries of a well-formed history are *)
Section locations.
Context {V : Type} (h : list (entry V)) (Hwf : wf_entries h).
Implicit Types (e r c : entry V).

Definition eloc e : loc := default O (loc_of (e_kind e) (e_id e) h).

Lemma loc_of_split (l1 l2 : list (entry V)) e :
  NoDup (key <$> (l1 ++ e :: l2)) → loc_of (e_kind e) (e_id e) (l1 ++ e :: l2) = Some (length l2).
Proof.
  induction l1 as [|e1 l1 IH]; simpl; intros Hnd.
  - by rewrite bool_decide_eq_true_2.
  - apply NoDup_cons in Hnd as [Hni Hnd]. rewrite bool_decide_eq_false_2; [by apply IH|].
    intros [Hk Hi]. apply Hni, list_elem_of_fmap. exists e. split; [|set_solver].
    unfold key. congruence.
Qed.

Lemma eloc_split (l1 l2 : list (entry V)) e : h = l1 ++ e :: l2 → eloc e = length l2.
Proof.
  intros Hh. pose proof (wf_nodup _ Hwf) as Hnd. unfold eloc. rewrite Hh in Hnd |- *.
  by rewrite loc_of_split.
Qed.

Lemma node_locs_eloc : node_locs h = eloc <$> h.
Proof.
  assert (∀ l1 l2, h = l1 ++ l2 → node_locs l2 = eloc <$> l2) as Hsuf; [|by apply (Hsuf [])].
  intros l1 l2. revert l1. induction l2 as [|e l2 IH]; intros l1 Hh; simpl; [done|].
  f_equal; [by rewrite (eloc_split _ _ _ Hh)|].
  apply (IH (l1 ++ [e])). by rewrite <-app_assoc.
Qed.

Lemma eloc_lt e : e ∈ h → (eloc e < length h)%nat.
Proof.
  intros He. apply node_locs_lt. rewrite node_locs_eloc. by apply list_elem_of_fmap_2.
Qed.

Lemma eloc_NoDup : NoDup (eloc <$> h).
Proof. rewrite <-node_locs_eloc. apply node_locs_NoDup. Qed.

(** The static part of a cell: what the search reads of an entry. *)
Definition statics (H : gmap loc (node V)) : Prop :=
  ∀ e, e ∈ h → ∃ nd, H !! eloc e = Some nd ∧ n_value nd = Some (e_value e) ∧ n_id nd = e_id e ∧
    n_match nd = match e_kind e with
                 | returnEntry => None
                 | callEntry => eloc <$> find_entry returnEntry h (e_id e)
                 end.

Lemma statics_same H H' : same_static H H' → statics H → statics H'.
Proof.
  intros Hs Hst e He. destruct (Hst e He) as (nd & Hl & Hv & Hi & Hm).
  destruct (same_static_lookup _ _ _ _ Hs Hl) as (nd' & Hl' & Hv' & Hm' & Hi').
  exists nd'. split_and!; congruence.
Qed.

Lemma statics_built H : built h H → statics H.
Proof.
  intros Hb e He. apply list_elem_of_split in He as (l1 & l2 & Hh).
  destruct (built_node _ _ Hb _ _ _ Hh) as (nd & Hl & Hv & Hi & Hm).
  exists nd. rewrite (eloc_split _ _ _ Hh). split_and!; try done. rewrite Hm.
  destruct (e_kind e) eqn:Hk; [|done].
  destruct (find_ret_of_call h e Hwf) as [r Hr]; [rewrite Hh; set_solver|done|]. rewrite Hr. simpl.
  apply find_entry_Some in Hr as [Hin [Hret Hid]%key_ret].
  assert (r ∈ l2) as Hr2.
  { apply list_elem_of_split in Hin as (k1 & k2 & Hk').
    destruct (wf_call_before _ Hwf _ _ _ Hk' Hret) as (c & Hc & Hcall & Hcid).
    assert (c = e) as ->.
    { apply (key_inj_in h); [apply Hwf|rewrite Hk'; set_solver|rewrite Hh; set_solver|].
      unfold key, is_call in *. congruence. }
    apply list_elem_of_split in Hc as (k3 & k4 & ->).
    pose proof (NoDup_fmap_1 _ _ (wf_nodup _ Hwf)) as Hnd. rewrite Hh in Hnd, Hk'.
    rewrite <-app_assoc in Hk'. simpl in Hk'.
    destruct (NoDup_app_cons_inj _ _ _ _ _ Hnd Hk') as [_ ->]. set_solver. }
  apply list_elem_of_split in Hr2 as (k1 & k2 & ->).
  assert (h = (l1 ++ e :: k1) ++ r :: k2) as Hh' by (by rewrite Hh, <-app_assoc).
  rewrite (eloc_split _ _ _ Hh'). rewrite <-Hid, <-Hret. apply loc_of_split.
  pose proof (wf_nodup _ Hwf) as Hnd. rewrite Hh in Hnd.
  rewrite fmap_app in Hnd. apply NoDup_app in Hnd as (_ & _ & Hnd). 
  by apply NoDup_cons in Hnd as [_ Hnd].
Qed.

End locations.

(** ** The simulation relation *)
Section simulation.
Context {V St : Type} (model : FullModel V St) (equiv : relation St) `{!ModelSpec model equiv}.
Context (h : list (entry V)) (Hok : history_ok model h).
Implicit Types (e r c : entry V) (s : @search_st V St) (z : zstate V St) (H : gmap loc (node V))
  (stk : list (zframe V St)).
Abbreviation eloc := (eloc h).
Abbreviation headEntry := (length h).

(** A heap whose list, after the head node, holds exactly [rem]. *)
Record holds H (rem : list (entry V)) : Prop := {
  holds_dseg : dseg H None (headEntry :: (eloc <$> rem)) None;
  holds_statics : statics h H;
}.

(** Undoing the lifts of the stack one after the other gives heaps that hold
    the suspended lists. *)
Fixpoint stack_rel H stk : Prop :=
  match stk with
  | [] => True
  | f :: stk' =>
      ∃ H', unlift H (Some (eloc (f_entry f))) = Ret H' ∧
        holds H' (f_left f ++ f_entry f :: f_right f) ∧ stack_rel H' stk'
  end.

Definition frame_call (f : zframe V St) : callsEntry St :=
  MkCallsEntry (Some (eloc (f_entry f))) (f_state f).

Record rel s z : Prop := {
  rel_entry : s_entry s = hd_or None (eloc <$> z_right z);
  rel_state : s_state s = z_state z;
  rel_lin : s_linearized s = z_linearized z;
  rel_cache : s_cache s = z_cache z;
  rel_partials : s_partials s = z_partials z;
  rel_calls : s_calls s = reverse (frame_call <$> z_stack z);
  rel_holds : holds (s_heap s) (z_left z ++ z_right z);
  rel_stack : stack_rel (s_heap s) (z_stack z);
}.

(** ** Facts on remaining entries *)
Lemma rem_sublist X : sublist (rem_of h X) h.
Proof. apply sublist_filter. Qed.

Lemma eloc_rem_NoDup X : NoDup (headEntry :: (eloc <$> rem_of h X)).
Proof.
  apply NoDup_cons. split.
  - intros (e & He & Hin)%list_elem_of_fmap. apply elem_of_rem_of in Hin as [Hin _].
    pose proof (eloc_lt h (ho_wf _ _ Hok) e Hin). lia.
  - eapply sublist_NoDup; [apply (eloc_NoDup h), Hok|]. apply fmap_sublist, rem_sublist.
Qed.

(** Removing an operation takes out its call and its return. *)
Lemma remove_op_split (l1 mid l2 : list (entry V)) e r :
  NoDup (key <$> (l1 ++ e :: mid ++ r :: l2)) → is_call e → is_ret r → e_id r = e_id e →
  remove_op (e_id e) (l1 ++ e :: mid ++ r :: l2) = l1 ++ mid ++ l2.
Proof.
  intros Hnd Hc Hr Hid. set (k := l1 ++ e :: mid ++ r :: l2) in *.
  assert (∀ e', e' ∈ k → e_id e' = e_id e → e' = e ∨ e' = r) as Honly.
  { intros e' He' Hid'. destruct (kind_cases e') as [Hc'|Hr']; [left|right];
      (apply (key_inj_in k); [done|done|unfold k; set_solver|]);
      unfold key, is_call, is_ret in *; congruence. }
  pose proof (NoDup_fmap_1 _ _ Hnd) as Hnd'. unfold k in Hnd', Honly |- *.
  rewrite !remove_op_app. unfold remove_op at 2. rewrite filter_cons_False by naive_solver.
  fold (remove_op (e_id e) (mid ++ r :: l2)). rewrite remove_op_app.
  unfold remove_op at 3. rewrite filter_cons_False by naive_solver.
  fold (remove_op (e_id e) l2).
  assert (∀ e', e' ∈ l1 ++ mid ++ l2 → e_id e' ≠ e_id e) as Hout.
  { intros e' He' Hid'. destruct (Honly e' ltac:(set_solver) Hid') as [->| ->].
    - rewrite <-Permutation_middle in Hnd'. apply NoDup_cons in Hnd' as [Hni _]. set_solver.
    - replace (l1 ++ e :: mid ++ r :: l2) with ((l1 ++ e :: mid) ++ r :: l2) in Hnd'
        by (by rewrite <-app_assoc).
      rewrite <-Permutation_middle in Hnd'. apply NoDup_cons in Hnd' as [Hni _]. set_solver. }
  rewrite !remove_op_none; [done|set_solver..].
Qed.

(** The return matched with a call that stands before every return. *)
Lemma match_split X (left rest : list (entry V)) e :
  rem_of h X = left ++ e :: rest → Forall is_call left → is_call e →
  ∃ r mid l2, find_entry returnEntry (rem_of h X) (e_id e) = Some r ∧
    find_entry returnEntry h (e_id e) = Some r ∧ rest = mid ++ r :: l2 ∧
    remove_op (e_id e) (rem_of h X) = left ++ mid ++ l2.
Proof.
  intros Hrem Hl Hc. pose proof (wf_rem_of model equiv h Hok X) as Hwf.
  assert (e ∈ rem_of h X) as Hin by (rewrite Hrem; set_solver).
  destruct (find_ret_of_call _ e Hwf Hin Hc) as [r Hr].
  pose proof Hr as [Hrin [Hret Hid]%key_ret]%find_entry_Some.
  pose proof Hin as [_ Hni]%elem_of_rem_of.
  assert (r ∈ rest) as Hrr.
  { rewrite Hrem in Hrin. apply elem_of_app in Hrin as [Hrl|[->|]%elem_of_cons]; [|by exfalso; eapply call_not_ret|done].
    rewrite Forall_forall in Hl. exfalso. by eapply call_not_ret; [apply Hl|]. }
  apply list_elem_of_split in Hrr as (mid & l2 & ->).
  exists r, mid, l2. split_and!; try done.
  - by rewrite <-(find_entry_rem_of model equiv h Hok _ _ X).
  - rewrite Hrem. apply remove_op_split; try done. rewrite <-Hrem. apply Hwf.
Qed.

Lemma holds_load H rem e : holds H rem → e ∈ h →
  ∃ nd, load H (Some (eloc e)) = Ret nd ∧ n_value nd = Some (e_value e) ∧ n_id nd = e_id e ∧
    n_match nd = match e_kind e with
                 | returnEntry => None
                 | callEntry => eloc <$> find_entry returnEntry h (e_id e)
                 end.
Proof.
  intros Hh He. destruct (holds_statics _ _ Hh e He) as (nd & Hl & ?). exists nd.
  by rewrite (load_Some _ _ _ Hl).
Qed.

(** The next pointers along the list. *)
Lemma holds_next H (l1 l2 : list (entry V)) e nd :
  holds H (l1 ++ e :: l2) → load H (Some (eloc e)) = Ret nd → n_next nd = hd_or None (eloc <$> l2).
Proof.
  intros [Hs _] Hl. rewrite fmap_app, app_comm_cons, dseg_app in Hs. destruct Hs as [_ Hs].
  simpl in Hs. destruct Hs as [(nd' & Hl' & _ & Hn) _].
  rewrite (load_Some _ _ _ Hl') in Hl. by simplify_eq.
Qed.

Lemma holds_head H rem : holds H rem →
  ∃ nd, load H (Some headEntry) = Ret nd ∧ n_next nd = hd_or None (eloc <$> rem).
Proof.
  intros [Hs _]. destruct Hs as [(nd & Hl & _ & Hn) _]. exists nd.
  by rewrite (load_Some _ _ _ Hl).
Qed.

(** ** [lift] and [unlift] on the lists held *)
Lemma holds_lift H X (left rest : list (entry V)) e :
  rem_of h X = left ++ e :: rest → Forall is_call left → is_call e → holds H (left ++ e :: rest) →
  ∃ H', lift H (Some (eloc e)) = Ret H' ∧
    holds H' (remove_op (e_id e) (left ++ e :: rest)) ∧ unlift H' (Some (eloc e)) = Ret H.
Proof.
  intros Hrem Hl Hc Hh.
  destruct (match_split X left rest e Hrem Hl Hc) as (r & mid & l2 & _ & Hrh & -> & Hremove).
  assert (e ∈ h) as Heh.
  { eapply sublist_subseteq; [apply (rem_sublist X)|]. rewrite Hrem. set_solver. }
  destruct (holds_statics _ _ Hh e Heh) as (nd & Hlk & Hv & Hi & Hm).
  unfold is_call in Hc. rewrite Hc, Hrh in Hm. simpl in Hm.
  pose proof (eloc_rem_NoDup X) as Hnd. rewrite Hrem in Hnd.
  destruct (exists_last (l:=headEntry :: (eloc <$> left)) ltac:(done)) as (ls1 & a & Hls).
  assert (∀ k, headEntry :: (eloc <$> left ++ k) = ls1 ++ a :: (eloc <$> k)) as Hsplit.
  { intros k. rewrite fmap_app, app_comm_cons, Hls. by rewrite <-app_assoc. }
  destruct Hh as [Hs Hst]. rewrite Hsplit in Hs, Hnd. simpl in Hs, Hnd.
  rewrite fmap_app in Hs, Hnd. simpl in Hs, Hnd.
  destruct (lift_unlift _ _ _ _ _ _ _ _ Hnd Hs Hlk Hm) as (H' & Hlift & Hs' & Hsame & Hun).
  exists H'. split_and!; [done| |done]. rewrite <-Hrem, Hremove. split.
  - by rewrite Hsplit, fmap_app.
  - eapply statics_same; [|done]. by symmetry.
Qed.

Lemma call_ids_stack H rem stk :
  holds H rem → (∀ f, f ∈ stk → f_entry f ∈ h) →
  call_ids H (reverse (frame_call <$> stk)) = Ret (stack_ids stk).
Proof.
  intros Hh. unfold stack_ids. rewrite <-!fmap_reverse. intros Hin.
  assert (∀ f, f ∈ reverse stk → f_entry f ∈ h) as Hin' by (intros f; rewrite elem_of_reverse; apply Hin).
  clear Hin. induction (reverse stk) as [|f k IH]; [done|]. rewrite !fmap_cons. cbn [call_ids frame_call ca_entry].
  destruct (holds_load H rem (f_entry f) Hh) as (nd & Hl & _ & Hi & _); [apply Hin'; left|].
  rewrite Hl. cbn [obind]. rewrite IH; [cbn [obind]; by rewrite Hi|]. intros f' Hf'. apply Hin'. by right.
Qed.

Lemma path_entries stk st : path model h stk st → ∀ f, f ∈ stk → f_entry f ∈ h.
Proof.
  revert st. induction stk as [|f stk IH]; intros st Hp f' Hf'; [by apply not_elem_of_nil in Hf'|].
  pose proof (path_call model equiv h Hok _ _ _ Hp) as (Hin & _). destruct Hp as (Hp & _).
  apply elem_of_cons in Hf' as [->|Hf']; [done|by eapply IH].
Qed.

(** ** Lock step *)

(** The pointer moves on without a change of the list. *)
Lemma rel_skip s left rest e state lin ca stk pt nd :
  rel s (MkZ left (e :: rest) state lin ca stk pt) →
  load (s_heap s) (s_entry s) = Ret nd →
  rel (MkSearch (s_heap s) (n_next nd) (s_state s) (s_linearized s) (s_cache s) (s_calls s) (s_partials s))
    (MkZ (left ++ [e]) rest state lin ca stk pt).
Proof.
  intros [He Hs Hl Hc Hp Hca Hh Hst] Hnd. simpl in *. rewrite He in Hnd. simpl in Hnd.
  split; simpl; try done.
  - by eapply holds_next.
  - by rewrite <-app_assoc.
Qed.

Lemma sim_call cp s z e rest res :
  zinv model h z → rel s z → z_right z = e :: rest → is_call e →
  zbody model cp false z = Ret res →
  ∃ z' s', res = inl z' ∧ checkSingle_body model cp (Some headEntry) false s = Ret (inl s') ∧ rel s' z'.
Proof.
  intros Hz Hrel Hrt Hc Hbody.
  pose proof (zi_rem _ _ _ Hz) as Hrem. rewrite Hrt in Hrem.
  destruct (match_split _ _ _ _ Hrem (zi_left _ _ _ Hz) Hc) as (r & mid & l2 & Hr & Hrh & Hrest & Hremove).
  destruct (position_call model equiv h Hok _ _ _ Hz Hrt Hc) as (Heh & _).
  pose proof (find_entry_Some _ _ _ _ Hrh) as [Hrin [Hret Hrid]%key_ret].
  pose proof (rel_holds _ _ Hrel) as Hh.
  destruct (holds_load _ _ e Hh Heh) as (nd & Hnd & Hv & Hi & Hm).
  destruct (holds_load _ _ r Hh Hrin) as (ndr & Hndr & Hvr & _).
  rewrite Hc, Hrh in Hm. simpl in Hm.
  pose proof (zi_left _ _ _ Hz) as Hleft.
  pose proof Hrel as [Re Rs Rl Rc Rp Rca _ Rst]. rewrite Hrt in Re, Hh. simpl in Re.
  destruct z as [left right state lin ca stk pt]. simpl in *. subst right.
  assert (∃ s', Ret (inl (MkSearch (s_heap s) (n_next nd) (s_state s) (s_linearized s) (s_cache s)
      (s_calls s) (s_partials s))) = Ret (inl (A:=@search_st V St) (B:=bool * partials) s') ∧
    rel s' (MkZ (left ++ [e]) rest state lin ca stk pt)) as (sk & Hsk & Hskip).
  { eexists. split; [done|]. eapply rel_skip; [done|]. by rewrite Re. }
  injection Hsk as Hsk.
  destruct s as [H entry st lin' ca' calls pt']. simpl in *. subst.
  rewrite Hnd. simpl. rewrite Hm. simpl. rewrite Hndr. simpl. rewrite Hv, Hvr. simpl.
  rewrite Hc, <-Hrem, Hr in Hbody. simpl in Hbody.
  destruct (Step model state (e_value e) (e_value r)) as [[ok s']| |]; simpl in *; try done.
  destruct ok; [|injection Hbody as <-; by eauto].
  unfold bitset.clone. rewrite Hi.
  destruct (bitset.set lin (e_id e)) as [newlin| |]; simpl in *; try done.
  destruct (cacheContains model ca (MkCacheEntry newlin s')) as [hit| |]; simpl in *; try done.
  destruct hit; simpl in *; [injection Hbody as <-; by eauto|].
  destruct (holds_lift _ _ _ _ _ Hrem Hleft Hc Hh) as (H' & -> & Hh' & Hun). simpl.
  destruct (holds_head _ _ Hh') as (hd & -> & Hhd). simpl.
  injection Hbody as <-. eexists _, _. split_and!; [done|done|].
  split; simpl; try done.
  - by rewrite Hhd, Hrem.
  - rewrite <-reverse_cons. done.
  - by rewrite Hrem.
  - exists H. by split_and!.
Qed.

Lemma sim_return cp s z e rest res :
  zinv model h z → rel s z → z_right z = e :: rest → is_ret e →
  zbody model cp false z = Ret res →
  match res with
  | inl z' => ∃ s', checkSingle_body model cp (Some headEntry) false s = Ret (inl s') ∧ rel s' z'
  | inr x => checkSingle_body model cp (Some headEntry) false s = Ret (inr x)
  end.
Proof.
  intros Hz Hrel Hrt Hret Hbody.
  assert (e ∈ h) as Heh.
  { eapply sublist_subseteq; [apply (rem_sublist (stack_set (z_stack z)))|].
    rewrite (zi_rem _ _ _ Hz), Hrt. set_solver. }
  pose proof (rel_holds _ _ Hrel) as Hh.
  destruct (holds_load _ _ e Hh Heh) as (nd & Hnd & _ & _ & Hm).
  rewrite Hret in Hm. pose proof (path_entries _ _ (zi_path _ _ _ Hz)) as Hentries.
  pose proof Hrel as [Re Rs Rl Rc Rp Rca _ Rst]. rewrite Hrt in Re. simpl in Re.
  destruct z as [left right state lin ca stk pt]. simpl in *. subst right.
  destruct s as [H entry st lin' ca' calls pt']. simpl in *. subst.
  rewrite Hnd. simpl. rewrite Hm. rewrite Hret in Hbody.
  destruct stk as [|[before0 e0 rest0 state0] stk]; [by injection Hbody as <-|].
  pose proof (call_ids_stack _ _ _ Hh Hentries) as Hids.
  destruct Rst as (H' & Hun & Hh' & Rst'). simpl in Hun.
  rewrite fmap_cons, reverse_cons, last_snoc in *. cbn [frame_call f_entry f_state ca_entry ca_state].
  rewrite Hids. cbn [obind].
  destruct (if cp then record_partial (stack_ids (MkFrame before0 e0 rest0 state0 :: stk)) pt else Ret pt)
    as [pt1| |]; simpl in *; try done.
  assert (e0 ∈ h) as H0h by (apply (Hentries (MkFrame before0 e0 rest0 state0)); left).
  destruct (holds_load _ _ e0 Hh H0h) as (nd0 & Hnd0 & _ & Hi0 & _). rewrite Hnd0. simpl. rewrite Hi0.
  destruct (bitset.clear lin (e_id e0)) as [newlin| |]; simpl in *; try done.
  rewrite Hun. simpl.
  destruct (holds_load _ _ e0 Hh' H0h) as (nd1 & Hnd1 & _). rewrite Hnd1. simpl.
  injection Hbody as <-. eexists. split; [done|].
  split; simpl; try done.
  - by eapply holds_next.
  - rewrite length_app. simpl. replace (_ + 1 - 1)%nat with (length (reverse (frame_call <$> stk))) by lia.
    by rewrite take_app_length.
  - by rewrite <-app_assoc.
Qed.

Lemma sim_loop fuel cp kill s z res :
  zinv model h z → rel s z → zloop model fuel cp kill z = Ret res →
  checkSingle_loop model fuel cp (Some headEntry) kill s = Ret res.
Proof.
  revert kill s z. induction fuel as [|fuel IH]; intros kill s z Hz Hrel; [done|].
  cbn [zloop checkSingle_loop]. unfold checkSingle_iter.
  destruct (holds_head _ _ (rel_holds _ _ Hrel)) as (hd & -> & Hhd).
  cbn [obind]. rewrite Hhd. destruct (z_left z ++ z_right z) as [|e0 rem] eqn:Hrem; simpl.
  - intros Hres. rewrite (rel_calls _ _ Hrel), (rel_partials _ _ Hrel).
    rewrite (call_ids_stack _ _ _ (rel_holds _ _ Hrel)); [done|].
    exact (path_entries _ _ (zi_path _ _ _ Hz)).
  - destruct (kill O) eqn:Hk.
    { rewrite zbody_killed. simpl. destruct s; simpl. pose proof (rel_partials _ _ Hrel) as Hpt.
      simpl in Hpt. by rewrite Hpt. }
    destruct (remaining_has_ret model equiv h Hok z Hz) as (e & rest & Hrt); [by rewrite Hrem|].
    destruct (zbody_ok model equiv h Hok z cp Hz) as (r & Hb & Hr); [by rewrite Hrem|].
    rewrite Hb. cbn [obind]. intros Hres. destruct (kind_cases e) as [Hc|Hret].
    + destruct (sim_call _ _ _ _ _ _ Hz Hrel Hrt Hc Hb) as (z' & s' & -> & Hs' & Hrel').
      rewrite Hs'. cbn [obind]. destruct Hr as [Hz' _]. by eapply IH.
    + pose proof (sim_return _ _ _ _ _ _ Hz Hrel Hrt Hret Hb) as Hsim. destruct r as [z'|x].
      * destruct Hsim as (s' & Hs' & Hrel'). rewrite Hs'. cbn [obind].
        destruct Hr as [Hz' _]. by eapply IH.
      * rewrite Hsim. done.
Qed.

End simulation.

(** ** [checkSingle] *)
Section check_single.
Context {V St : Type} (model : FullModel V St) (equiv : relation St) `{!ModelSpec model equiv}.
Context (h : list (entry V)) (Hok : history_ok model h).

(** The state in which [checkSingle] enters its loop. *)
Lemma checkSingle_start :
  ∃ s, rel h s (zinit model h) ∧ checkSingle_init model h = Ret (Some (length h), s).
Proof.
  destruct (makeLinkedEntries_built h) as (H & Hmk & Hb).
  destruct (insertBefore_front H (length h) (MkNode None None (-1) None None) (node_locs h))
    as (H' & Hins & Hs & Hsame);
    [by apply built_fresh|done|done|apply node_locs_NoDup|by apply built_dseg|].
  exists (MkSearch H' (hd_or None (node_locs h)) (Init model) (bitset.newBitset (zlen h / 2)) ∅ []
    (MkPartials (replicate (Z.to_nat (zlen h / 2)) None) [])). split.
  - split; simpl; try done.
    + by rewrite (node_locs_eloc h) by apply Hok.
    + split.
      * by rewrite (node_locs_eloc h) in Hs by apply Hok.
      * eapply statics_same; [symmetry; exact Hsame|].
        intros e He. destruct (statics_built h (ho_wf _ _ Hok) H Hb e He) as (nd & Hl & Hrest).
        exists nd. split; [|done]. rewrite lookup_insert_ne; [done|].
        pose proof (eloc_lt h (ho_wf _ _ Hok) e He). lia.
  - unfold checkSingle_init. rewrite Hmk. cbn [obind]. rewrite (length_nodes_built h H Hb). cbn [obind].
    unfold alloc. rewrite (built_size _ _ Hb). by rewrite Hins.
Qed.

(** The pointer program answers what the list search answers. *)
Lemma checkSingle_simulates fuel cp kill res :
  zloop model fuel cp kill (zinit model h) = Ret res →
  checkSingle model fuel h cp kill = Ret res.
Proof.
  intros Hz. destruct checkSingle_start as (s & Hrel & Hinit).
  unfold checkSingle. rewrite Hinit. simpl.
  eapply (sim_loop model equiv h Hok); [|done..]. apply zinv_init.
Qed.

Lemma checkSingle_result fuel cp kill :
  (search_fuel h ≤ fuel)%nat →
  ∃ b pt, checkSingle model fuel h cp kill = Ret (b, pt) ∧
    (b = true → linearizable (Step model) h (Init model)) ∧
    (b = false → (∃ k, kill k = true) ∨ ¬ linearizable (Step model) h (Init model)) ∧
    partials_ok (zlen h / 2) (partial_linearization (Step model) h (Init model)) pt.
Proof.
  intros Hfuel.
  destruct (list_search_ok model equiv h fuel cp kill Hok Hfuel) as (b & pt & Hz & ?).
  exists b, pt. split; [|done]. by apply checkSingle_simulates.
Qed.

End check_single.

(** C3: on a well-formed history of complete operations, with the kill flag
    never set, [checkSingle] terminates within [search_fuel] iterations without
    a panic and returns [true] exactly when the history is linearizable. *)
Theorem checkSingle_decides {V St : Type} (model : FullModel V St) (equiv : relation St)
    `{!ModelSpec model equiv} (h : list (entry V)) (fuel : nat) (computePartial : bool) :
  history_ok model h → (search_fuel h ≤ fuel)%nat →
  ∃ b pt, checkSingle model fuel h computePartial (λ _, false) = Ret (b, pt) ∧
    (b = true ↔ linearizable (Step model) h (Init model)).
Proof.
  intros Hok Hfuel.
  destruct (checkSingle_result model equiv h Hok fuel computePartial (λ _, false) Hfuel)
    as (b & pt & Hb & Ht & Hf & _).
  exists b, pt. split; [done|]. split; [done|]. intros Hl. destruct b; [done|].
  destruct (Hf eq_refl) as [[k Hk]|]; done.
Qed.

(** whenever the kill flag is set, [checkSingle] still returns, an answer
    [true] still means that the history is linearizable, and [false] means
    that it is not or that the flag was seen. *)
Theorem checkSingle_killed_sound {V St : Type} (model : FullModel V St) (equiv : relation St)
    `{!ModelSpec model equiv} (h : list (entry V)) (fuel : nat) (computePartial : bool)
    (kill : nat → bool) :
  history_ok model h → (search_fuel h ≤ fuel)%nat →
  ∃ b pt, checkSingle model fuel h computePartial kill = Ret (b, pt) ∧
    (b = true → linearizable (Step model) h (Init model)) ∧
    (b = false → (∃ k, kill k = true) ∨ ¬ linearizable (Step model) h (Init model)).
Proof.
  intros Hok Hfuel.
  destruct (checkSingle_result model equiv h Hok fuel computePartial kill Hfuel)
    as (b & pt & Hb & Ht & Hf & _).
  by exists b, pt.
Qed.

(** C9: the partial linearizations that [checkSingle] reports are what their
    comment says: each slice is a linearization of some operations, closed
    under real-time precedence and legal for the model, and the one that an
    element of [longest] points to includes that element. *)
Theorem checkSingle_partials_legal {V St : Type} (model : FullModel V St) (equiv : relation St)
    `{!ModelSpec model equiv} (h : list (entry V)) (fuel : nat) (computePartial : bool)
    (kill : nat → bool) :
  history_ok model h → (search_fuel h ≤ fuel)%nat →
  ∃ b pt, checkSingle model fuel h computePartial kill = Ret (b, pt) ∧
    zlen (pt_longest pt) = zlen h / 2 ∧
    (∀ i q, pt_longest pt !! i = Some (Some q) →
      ∃ ids, pt_seqs pt !! q = Some ids ∧ Z.of_nat i ∈ ids ∧
        partial_linearization (Step model) h (Init model) ids).
Proof.
  intros Hok Hfuel.
  destruct (checkSingle_result model equiv h Hok fuel computePartial kill Hfuel)
    as (b & pt & Hb & _ & _ & Hpt).
  exists b, pt. split_and!; [done|apply Hpt|]. intros i q Hi.
  destruct (pto_ptr _ _ _ Hpt i q Hi) as (ids & Hids & Hin). exists ids. split_and!; [done|done|].
  exact (Forall_lookup_1 _ _ _ _ (pto_seqs _ _ _ Hpt) Hids).
Qed.
