(* ===== verification/Operations.v ===== *)
(** * Histories of operations (porcupine/checker.go, [makeEntries])

    A history given as operations with invocation and response times becomes
    an entry list by [makeEntries].  Here: the entry list is well-formed, and
    linearizability of the entries is linearizability of the operations. *)
From stdpp Require Import base gmap sets numbers strings sorting list.
From S2P Require Import Prelude Bitset Model Linearizability ListSearch.
Local Open Scope Z_scope.

Section operations.
Context {V St : Type} `{GoSort}.
Implicit Types (ops : list (Operation V)) (a b o : Operation V) (e c r : entry V) (k i j : Z).

(** Operation [a] has returned before [b] was called. *)
Definition op_before a b : Prop := op_Return a < op_Call b.

Fixpoint legal_ops (step : St → V → V → outcome (bool * St)) (s : St) ops : Prop :=
  match ops with
  | [] => True
  | o :: ops' =>
      ∃ s', step s (op_Input o) (op_Output o) = Ret (true, s') ∧ legal_ops step s' ops'
  end.

(** An order of the operations that keeps the real-time order and along which
    the model takes every step. *)
Definition linearizable_ops (step : St → V → V → outcome (bool * St)) (s : St) ops : Prop :=
  ∃ τ, τ ≡ₚ ops ∧ StronglySorted (λ a b, ¬ op_before b a) τ ∧ legal_ops step s τ.

(** Every operation takes time. *)
Definition timed ops : Prop := Forall (λ o, op_Call o < op_Return o) ops.

Definition steps_return (step : St → V → V → outcome (bool * St)) ops : Prop :=
  ∀ s o, o ∈ ops → returns (step s (op_Input o) (op_Output o)).

(** No operation is called at the very time at which another returns. *)
Definition distinct_times ops : Prop := ∀ a b, a ∈ ops → b ∈ ops → op_Return a ≠ op_Call b.

Definition call_of i o : entry V := MkEntry callEntry (op_Input o) i (op_Call o) (op_ClientId o).
Definition ret_of i o : entry V := MkEntry returnEntry (op_Output o) i (op_Return o) (op_ClientId o).

(** ** The entries before sorting *)
Lemma elem_of_loop ops k e :
  e ∈ makeEntries_loop ops k ↔
  ∃ p o, ops !! p = Some o ∧ (e = call_of (k + Z.of_nat p) o ∨ e = ret_of (k + Z.of_nat p) o).
Proof.
  revert k. induction ops as [|o ops IH]; intros k; simpl.
  - split; [by intros ?%not_elem_of_nil|]. by intros (p & o & Hp & _).
  - rewrite !elem_of_cons, IH. split.
    + intros [->|[->|(p & o' & Hp & He)]].
      * exists O, o. rewrite Z.add_0_r. auto.
      * exists O, o. rewrite Z.add_0_r. auto.
      * exists (S p), o'. split; [done|]. rewrite Nat2Z.inj_succ.
        by replace (k + Z.succ (Z.of_nat p)) with (k + 1 + Z.of_nat p) by lia.
    + intros ([|p] & o' & Hp & He); simpl in Hp.
      * injection Hp as <-. rewrite Z.add_0_r in He. tauto.
      * right; right. exists p, o'. split; [done|]. rewrite Nat2Z.inj_succ in He.
        by replace (k + 1 + Z.of_nat p) with (k + Z.succ (Z.of_nat p)) by lia.
Qed.

Lemma loop_ids_ge ops k e : e ∈ makeEntries_loop ops k → k ≤ e_id e.
Proof. intros (p & o & _ & [->| ->])%elem_of_loop; simpl; lia. Qed.

Lemma loop_NoDup ops k : NoDup (key <$> makeEntries_loop ops k).
Proof.
  revert k. induction ops as [|o ops IH]; intros k; simpl; [constructor|].
  assert (∀ x, (x, k) ∉ key <$> makeEntries_loop ops (k + 1)) as Hni.
  { intros x (e & [= _ Hid] & He%loop_ids_ge)%list_elem_of_fmap. lia. }
  apply NoDup_cons. split; [|apply NoDup_cons; split; [apply Hni|apply IH]].
  unfold key at 1. simpl. intros [[=]|Hin]%elem_of_cons. by eapply Hni.
Qed.

Lemma loop_op_ids ops k : op_ids (makeEntries_loop ops k) = seqZ k (zlen ops).
Proof.
  revert k. induction ops as [|o ops IH]; intros k; [done|].
  cbn [makeEntries_loop length]. rewrite Nat2Z.inj_succ, seqZ_cons by lia.
  unfold op_ids in *. rewrite filter_cons_True, filter_cons_False by done.
  rewrite fmap_cons, IH. simpl. do 2 f_equal; lia.
Qed.

Lemma length_loop ops k : length (makeEntries_loop ops k) = (2 * length ops)%nat.
Proof. revert k. induction ops as [|o ops IH]; intros k; simpl; [done|]. rewrite IH. lia. Qed.

(** ** The entries *)
Lemma makeEntries_perm ops : makeEntries ops ≡ₚ makeEntries_loop ops 0.
Proof. apply sort_Sort_perm. Qed.

Lemma elem_of_makeEntries ops e :
  e ∈ makeEntries ops ↔
  ∃ p o, ops !! p = Some o ∧ (e = call_of (Z.of_nat p) o ∨ e = ret_of (Z.of_nat p) o).
Proof. by rewrite makeEntries_perm, elem_of_loop. Qed.

Lemma makeEntries_sorted ops :
  StronglySorted (λ x y, byTime_Less y x = false) (makeEntries ops).
Proof.
  apply sort_Sort_sorted; unfold byTime_Less.
  - intros x y z. rewrite !bool_decide_eq_false. lia.
  - intros x y. rewrite !bool_decide_eq_false. lia.
Qed.

Lemma makeEntries_order ops (l1 l2 : list (entry V)) e1 e2 :
  makeEntries ops = l1 ++ e1 :: l2 → e2 ∈ l2 → e_time e1 ≤ e_time e2.
Proof.
  intros Heq Hin. pose proof (makeEntries_sorted ops) as Hs. rewrite Heq in Hs.
  apply StronglySorted_app in Hs as (_ & _ & Hs). apply StronglySorted_cons in Hs as [Hall _].
  rewrite Forall_forall in Hall. specialize (Hall _ Hin). unfold byTime_Less in Hall.
  rewrite bool_decide_eq_false in Hall. lia.
Qed.

Lemma length_makeEntries ops : zlen (makeEntries ops) / 2 = zlen ops.
Proof.
  rewrite (Permutation_length (makeEntries_perm ops)), length_loop.
  symmetry. apply Z.div_unique with (r := 0); lia.
Qed.

Lemma makeEntries_NoDup ops : NoDup (key <$> makeEntries ops).
Proof. rewrite makeEntries_perm. apply loop_NoDup. Qed.

Lemma makeEntries_wf ops : timed ops → wf_entries (makeEntries ops).
Proof.
  intros Ht. split; [apply makeEntries_NoDup| |].
  - intros l1 r l2 Heq Hr.
    assert (r ∈ makeEntries ops) as Hin by (rewrite Heq; set_solver).
    apply elem_of_makeEntries in Hin as (p & o & Hp & [->| ->]); [done|].
    exists (call_of (Z.of_nat p) o). split; [|done].
    assert (call_of (Z.of_nat p) o ∈ makeEntries ops) as Hc by (apply elem_of_makeEntries; eauto).
    rewrite Heq in Hc. apply elem_of_app in Hc as [|[?|Hc]%elem_of_cons]; [done|done|].
    pose proof (makeEntries_order _ _ _ _ _ Heq Hc) as Hle. simpl in Hle.
    pose proof (Forall_lookup_1 _ _ _ _ Ht Hp) as Hlt. simpl in Hlt. lia.
  - intros c Hin Hc. apply elem_of_makeEntries in Hin as (p & o & Hp & [->| ->]); [|done].
    exists (ret_of (Z.of_nat p) o). split; [|done]. apply elem_of_makeEntries. eauto.
Qed.

Lemma makeEntries_op_ids ops : op_ids (makeEntries ops) ≡ₚ seqZ 0 (zlen ops).
Proof. unfold op_ids. rewrite makeEntries_perm. fold (op_ids (makeEntries_loop ops 0)). by rewrite loop_op_ids. Qed.

Lemma makeEntries_find ops p o :
  ops !! p = Some o →
  find_entry callEntry (makeEntries ops) (Z.of_nat p) = Some (call_of (Z.of_nat p) o) ∧
  find_entry returnEntry (makeEntries ops) (Z.of_nat p) = Some (ret_of (Z.of_nat p) o).
Proof.
  intros Hp. split; apply find_entry_in; try done; try apply makeEntries_NoDup;
    apply elem_of_makeEntries; eauto.
Qed.

(** The precedence of the entries is the real-time order, up to ties. *)
Lemma makeEntries_precedes ops p q a b :
  ops !! p = Some a → ops !! q = Some b →
  (op_before a b → precedes (makeEntries ops) (Z.of_nat p) (Z.of_nat q)) ∧
  (precedes (makeEntries ops) (Z.of_nat p) (Z.of_nat q) → op_Return a ≤ op_Call b).
Proof.
  intros Hp Hq. split.
  - intros Hlt. unfold op_before in Hlt.
    assert (ret_of (Z.of_nat p) a ∈ makeEntries ops) as Hr by (apply elem_of_makeEntries; eauto).
    assert (call_of (Z.of_nat q) b ∈ makeEntries ops) as Hc by (apply elem_of_makeEntries; eauto).
    apply list_elem_of_split in Hr as (l1 & l2 & Heq). rewrite Heq in Hc.
    apply elem_of_app in Hc as [Hc|[?|Hc]%elem_of_cons]; [|done|].
    + apply list_elem_of_split in Hc as (k1 & k2 & ->).
      rewrite <-app_assoc in Heq. simpl in Heq.
      assert (ret_of (Z.of_nat p) a ∈ k2 ++ ret_of (Z.of_nat p) a :: l2) as Hin by set_solver.
      pose proof (makeEntries_order _ _ _ _ _ Heq Hin) as Hle. simpl in Hle. lia.
    + apply list_elem_of_split in Hc as (k1 & k2 & ->). by exists l1, (ret_of (Z.of_nat p) a), k1, (call_of (Z.of_nat q) b), k2.
  - intros (l1 & r & l2 & c & l3 & Heq & Hr & Hri & Hc & Hci).
    assert (r ∈ makeEntries ops) as Hrin by (rewrite Heq; set_solver).
    assert (c ∈ makeEntries ops) as Hcin by (rewrite Heq; set_solver).
    assert (c ∈ l2 ++ c :: l3) as Hafter by set_solver.
    pose proof (makeEntries_order _ _ _ _ _ Heq Hafter) as Hle.
    apply elem_of_makeEntries in Hrin as (p' & a' & Hp' & [->| ->]); [done|].
    apply elem_of_makeEntries in Hcin as (q' & b' & Hq' & [->| ->]); [|done].
    simpl in *. apply Nat2Z.inj in Hri, Hci. subst. by simplify_eq.
Qed.

(** ** Linearizability of the entries and of the operations *)

(** The operations of [τ] are those that the ids of [σ] number. *)
Definition picks ops (σ : list Z) τ : Prop :=
  Forall2 (λ i o, (0 ≤ i ∧ ops !! Z.to_nat i = Some o)) σ τ.

Lemma picks_fmap ops (σ : list Z) τ :
  Forall (λ i, 0 ≤ i) σ → (λ i, ops !! Z.to_nat i) <$> σ = Some <$> τ → picks ops σ τ.
Proof.
  intros Hpos. revert τ. induction Hpos as [|i σ Hi Hσ IH]; intros [|o τ] Heq;
    simplify_eq/=; constructor; [done|by apply IH].
Qed.

Lemma seq_picks ops : (λ i, ops !! Z.to_nat i) <$> seqZ 0 (zlen ops) = Some <$> ops.
Proof.
  unfold seqZ. rewrite <-list_fmap_compose. apply list_eq. intros i.
  rewrite !list_lookup_fmap. destruct (decide (i < length ops)%nat) as [Hi|Hi].
  - rewrite lookup_seq_lt by lia. simpl. rewrite Z.add_0_r, Nat2Z.id.
    destruct (lookup_lt_is_Some_2 ops i Hi) as [o ->]. done.
  - rewrite lookup_seq_ge by lia. rewrite lookup_ge_None_2 by lia. done.
Qed.

(** Orders of the ids and orders of the operations correspond. *)
Lemma picks_ids_ops ops (σ : list Z) :
  σ ≡ₚ seqZ 0 (zlen ops) → ∃ τ, picks ops σ τ ∧ τ ≡ₚ ops.
Proof.
  intros Hσ.
  assert ((λ i, ops !! Z.to_nat i) <$> σ ≡ₚ Some <$> ops) as Hp by (by rewrite Hσ, seq_picks).
  destruct (Permutation_map_inv _ _ Hp) as (τ & Heq & Hτ).
  exists τ. split; [|by symmetry]. apply picks_fmap; [|done].
  apply Forall_forall. intros i Hi. rewrite Hσ, elem_of_seqZ in Hi. lia.
Qed.

Lemma picks_ops_ids ops τ :
  τ ≡ₚ ops → ∃ σ, picks ops σ τ ∧ σ ≡ₚ seqZ 0 (zlen ops).
Proof.
  intros Hτ.
  assert (Some <$> τ ≡ₚ (λ i, ops !! Z.to_nat i) <$> seqZ 0 (zlen ops)) as Hp
    by (by rewrite seq_picks, Hτ).
  destruct (Permutation_map_inv _ _ Hp) as (σ & Heq & Hσ).
  exists σ. split; [|by symmetry]. apply picks_fmap; [|done].
  apply Forall_forall. intros i Hi. rewrite <-Hσ, elem_of_seqZ in Hi. lia.
Qed.

Lemma picks_legal ops (σ : list Z) τ (step : St → V → V → outcome (bool * St)) s :
  picks ops σ τ → legal step (makeEntries ops) s σ ↔ legal_ops step s τ.
Proof.
  intros Hp. revert s. induction Hp as [|i o σ τ [Hi Ho] Hp IH]; intros s; simpl; [done|].
  destruct (makeEntries_find ops _ _ Ho) as [Hc Hr]. rewrite Z2Nat.id in Hc, Hr by done.
  setoid_rewrite <-IH. split.
  - intros (c & r & s' & Hc' & Hr' & ? & ?). rewrite Hc in Hc'. rewrite Hr in Hr'.
    simplify_eq. by exists s'.
  - intros (s' & ? & ?). by exists (call_of i o), (ret_of i o), s'.
Qed.

Lemma picks_sorted ops (σ : list Z) τ :
  picks ops σ τ →
  (StronglySorted (λ i j, ¬ precedes (makeEntries ops) j i) σ →
   StronglySorted (λ a b, ¬ op_before b a) τ) ∧
  (distinct_times ops → StronglySorted (λ a b, ¬ op_before b a) τ →
   StronglySorted (λ i j, ¬ precedes (makeEntries ops) j i) σ).
Proof.
  intros Hp. split.
  - apply (StronglySorted_Forall2 _ _ _ _ _ Hp). intros i j a b [Hi Ha] [Hj Hb] Hn Hba. apply Hn.
    destruct (makeEntries_precedes ops _ _ _ _ Hb Ha) as [H1 _].
    rewrite !Z2Nat.id in H1 by done. by apply H1.
  - intros Hd. apply Forall2_flip in Hp.
    apply (StronglySorted_Forall2 _ _ _ _ _ Hp). intros a b i j [Hi Ha] [Hj Hb] Hn Hji. apply Hn.
    destruct (makeEntries_precedes ops _ _ _ _ Hb Ha) as [_ H2].
    rewrite !Z2Nat.id in H2 by done. specialize (H2 Hji).
    assert (op_Return b ≠ op_Call a) by (apply Hd; by eapply list_elem_of_lookup_2).
    unfold op_before. lia.
Qed.

Lemma linearizable_entries_ops (step : St → V → V → outcome (bool * St)) s ops :
  linearizable step (makeEntries ops) s → linearizable_ops step s ops.
Proof.
  intros (σ & Hσ & Hs & Hl). rewrite makeEntries_op_ids in Hσ.
  destruct (picks_ids_ops _ _ Hσ) as (τ & Hp & Hτ). exists τ. split_and!; [done| |].
  - by eapply picks_sorted.
  - by eapply picks_legal.
Qed.

Lemma linearizable_ops_entries (step : St → V → V → outcome (bool * St)) s ops :
  distinct_times ops → linearizable_ops step s ops → linearizable step (makeEntries ops) s.
Proof.
  intros Hd (τ & Hτ & Hs & Hl).
  destruct (picks_ops_ids _ _ Hτ) as (σ & Hp & Hσ). exists σ. split_and!.
  - by rewrite makeEntries_op_ids.
  - by eapply picks_sorted.
  - by eapply picks_legal.
Qed.

Lemma makeEntries_ok (model : FullModel V St) ops :
  timed ops → steps_return (Step model) ops → history_ok model (makeEntries ops).
Proof.
  intros Ht Hret. split.
  - by apply makeEntries_wf.
  - by rewrite length_makeEntries, makeEntries_op_ids.
  - intros s c r Hc Hr Hcall Hrr Hid.
    apply elem_of_makeEntries in Hc as (p & o & Hp & [->| ->]); [|done].
    apply elem_of_makeEntries in Hr as (q & o' & Hq & [->| ->]); [done|].
    simpl in Hid. apply Nat2Z.inj in Hid as ->. simplify_eq. apply Hret.
    by eapply list_elem_of_lookup_2.
Qed.

End operations.
