(* ===== verification/KvSpec.v ===== *)
(** * The key/value model meets the checker's interface; sample histories

    The instance by which the theorems on the checker apply to [KvModel], and
    two small histories of one key, on which the theorems are instantiated. *)
From stdpp Require Import base gmap sets numbers strings sorting pretty list.
From S2P Require Import Prelude Bitset Model KvModel Linearizability NodeList Checker ListSearch.
From S2P Require Import ListSearchProof CheckerProof Operations.
Local Open Scope Z_scope.
Local Open Scope go_scope.

(** [%v] prints a struct as its fields in braces, a string as itself. *)
#[export] Instance fmt_kv_iface : FmtV kv_iface := λ v,
  match v with
  | IKvInput i => "{" +:+ pretty (kvi_Op i) +:+ " " +:+ kvi_Key i +:+ " " +:+ kvi_Value i +:+ "}"
  | IKvOutput o => "{" +:+ kvo_Value o +:+ "}"
  end%string.
#[export] Instance fmt_string : FmtV string := λ s, s.

Abbreviation kv_full := (fillDefault (St := string) KvModel).

#[export] Instance kv_spec `{GoSort} : ModelSpec kv_full eq.
Proof.
  split.
  - apply _.
  - intros s1 s2 v o s1' <- Hs. by exists s1'.
  - intros s1 s2 He. simpl in He. unfold ShallowEqual in He. simplify_eq.
    by apply bool_decide_eq_true in He.
  - intros s1 s2. by eexists.
Qed.

(** Operations that carry a [KvInput] and a [KvOutput]. *)
Definition kv_typed (ops : list (Operation kv_iface)) : Prop :=
  Forall (λ o, match op_Input o, op_Output o with
               | IKvInput _, IKvOutput _ => True
               | _, _ => False
               end) ops.

Lemma kv_typed_steps `{GoSort} ops : kv_typed ops → steps_return (Step kv_full) ops.
Proof.
  intros Ht s o Ho. unfold kv_typed in Ht. rewrite Forall_forall in Ht. specialize (Ht o Ho).
  destruct (op_Input o), (op_Output o); try done. apply kv_Step_returns.
Qed.

(** ** Sample histories *)
Section samples.
#[local] Existing Instance merge_sort_GoSort.

Definition sample_put : Operation kv_iface :=
  MkOperation 0 (IKvInput (MkKvInput 1 "x" "1")) 0 (IKvOutput (MkKvOutput "")) 3.
Definition sample_get (v : string) (call ret : Z) : Operation kv_iface :=
  MkOperation 1 (IKvInput (MkKvInput 0 "x" "")) call (IKvOutput (MkKvOutput v)) ret.

(** A put and an overlapping get that reads it. *)
Definition sample_ok : list (Operation kv_iface) := [sample_put; sample_get "1" 1 4].
(** A get that misses a put that has returned. *)
Definition sample_stale : list (Operation kv_iface) := [sample_put; sample_get "" 4 5].

Lemma sample_ok_timed : timed sample_ok.
Proof. repeat constructor. Defined.
Lemma sample_ok_typed : kv_typed sample_ok.
Proof. repeat constructor. Defined.
Lemma sample_stale_timed : timed sample_stale.
Proof. repeat constructor. Defined.
Lemma sample_stale_typed : kv_typed sample_stale.
Proof. repeat constructor. Defined.

Lemma sample_ok_history : history_ok kv_full (makeEntries sample_ok).
Proof. apply makeEntries_ok; [apply sample_ok_timed|apply kv_typed_steps, sample_ok_typed]. Qed.
Lemma sample_stale_history : history_ok kv_full (makeEntries sample_stale).
Proof. apply makeEntries_ok; [apply sample_stale_timed|apply kv_typed_steps, sample_stale_typed]. Qed.

(** The checker run on the two histories. *)
Definition sample_run (ops : list (Operation kv_iface)) : outcome (bool * partials) :=
  checkSingle kv_full (search_fuel (makeEntries ops)) (makeEntries ops) true (λ _, false).

Lemma sample_ok_linearizable : linearizable (Step kv_full) (makeEntries sample_ok) (Init kv_full).
Proof.
  destruct (checkSingle_result kv_full eq _ sample_ok_history _ true (λ _, false) (le_n _))
    as (b & pt & Hrun & Ht & _). apply Ht.
  assert (omap_ret fst (sample_run sample_ok) = Ret true) as Hval by (vm_compute; reflexivity).
  unfold sample_run in Hval. rewrite Hrun in Hval. by injection Hval.
Qed.

Lemma sample_stale_not_linearizable :
  ¬ linearizable (Step kv_full) (makeEntries sample_stale) (Init kv_full).
Proof.
  destruct (checkSingle_result kv_full eq _ sample_stale_history _ true (λ _, false) (le_n _))
    as (b & pt & Hrun & _ & Hf & _).
  assert (omap_ret fst (sample_run sample_stale) = Ret false) as Hval by (vm_compute; reflexivity).
  unfold sample_run in Hval. rewrite Hrun in Hval. injection Hval as ->.
  by destruct (Hf eq_refl) as [[? ?]|].
Qed.

(** ** The theorems on [checkSingle], instantiated *)

Lemma checkSingle_decides_witness :
  ∃ b pt, checkSingle kv_full (search_fuel (makeEntries sample_stale)) (makeEntries sample_stale)
      false (λ _, false) = Ret (b, pt) ∧ b = false.
Proof.
  destruct (checkSingle_decides kv_full eq (makeEntries sample_stale) _ false
    sample_stale_history (le_n _)) as (b & pt & Hrun & Hiff).
  exists b, pt. split; [exact Hrun|]. destruct b; [|reflexivity].
  destruct sample_stale_not_linearizable. by apply Hiff.
Defined.

Lemma checkSingle_killed_sound_witness :
  ∃ b pt, checkSingle kv_full (search_fuel (makeEntries sample_ok)) (makeEntries sample_ok)
      false (λ k, bool_decide (3 ≤ k)%nat) = Ret (b, pt) ∧
    (b = true → linearizable (Step kv_full) (makeEntries sample_ok) (Init kv_full)).
Proof.
  destruct (checkSingle_killed_sound kv_full eq (makeEntries sample_ok) _ false
    (λ k, bool_decide (3 ≤ k)%nat) sample_ok_history (le_n _)) as (b & pt & Hrun & Ht & _).
  exists b, pt. split; [exact Hrun|exact Ht].
Defined.

Lemma checkSingle_partials_legal_witness :
  ∃ b pt, checkSingle kv_full (search_fuel (makeEntries sample_stale)) (makeEntries sample_stale)
      true (λ _, false) = Ret (b, pt) ∧ length (pt_longest pt) = 2%nat.
Proof.
  destruct (checkSingle_partials_legal kv_full eq (makeEntries sample_stale) _ true
    (λ _, false) sample_stale_history (le_n _)) as (b & pt & Hrun & Hlen & _).
  exists b, pt. split; [exact Hrun|]. apply Nat2Z.inj. rewrite Hlen. vm_compute. reflexivity.
Defined.

End samples.
