(* ===== verification/Locality.v ===== *)
(** * Partition by key is sound and complete (models/kv.go)

    The comment on [Model.Partition] asks for a partition such that a history
    is linearizable if and only if each partition is.  Here the system under
    test is the whole key/value store, a map from keys to values, and
    [kv_Partition] is proved to meet that contract ([kv_Partition_local]).

    From the orders of the single keys to an order of all operations: give each
    operation the latest invocation time of its predecessors as a point in
    time ([points]), and merge the lists by these points. *)
From stdpp Require Import base gmap sets numbers strings sorting list.
From S2P Require Import Prelude Bitset Model KvModel Linearizability ListSearch Operations KvSpec.
Local Open Scope Z_scope.
Local Open Scope go_scope.

Section locality.
Implicit Types (ops τ : list (Operation kv_iface)) (o a b : Operation kv_iface) (k : string).

(** The key of an operation, when its input is a [KvInput]. *)
Definition op_key o : string :=
  match op_Input o with IKvInput i => kvi_Key i | IKvOutput _ => "" end.

(** One step of the store: the step of the model on the value of the key. *)
Definition kv_store_Step (store : gmap string string) (input output : kv_iface)
    : outcome (bool * gmap string string) :=
  let! inp := assert_input input in
  let! ' (ok, st) := kv_Step (default kv_Init (store !! kvi_Key inp)) input output in
  Ret (ok, <[kvi_Key inp := st]> store).

Definition with_key k ops : list (Operation kv_iface) := filter (λ o, op_key o = k) ops.

Definition typed_op o : Prop :=
  match op_Input o, op_Output o with IKvInput _, IKvOutput _ => True | _, _ => False end.

Lemma typed_input o : typed_op o → ∃ i, op_Input o = IKvInput i ∧ kvi_Key i = op_key o.
Proof. unfold typed_op, op_key. destruct (op_Input o), (op_Output o); try done. by eexists. Qed.

(** ** What [kv_Partition] computes *)

Lemma group_by_key_spec ops m :
  kv_typed ops →
  ∃ m', group_by_key ops m = Ret m' ∧
    (∀ k, default [] (m' !! k) = default [] (m !! k) ++ with_key k ops) ∧
    (∀ k, k ∈ dom m' ↔ k ∈ dom m ∨ ∃ o, o ∈ ops ∧ op_key o = k).
Proof.
  revert m. induction ops as [|o ops IH]; intros m Ht.
  - exists m. split_and!; [done| |].
    + intros k. by rewrite app_nil_r.
    + intros k. split; [by left|]. intros [?|(o & ?%not_elem_of_nil & _)]; done.
  - apply Forall_cons in Ht as [Ho Ht].
    destruct (typed_input o Ho) as (i & Hi & Hk). cbn [group_by_key]. rewrite Hi. simpl. rewrite Hk.
    destruct (IH (<[op_key o := default [] (m !! op_key o) ++ [o]]> m) Ht) as (m' & -> & Hl & Hd).
    exists m'. split_and!; [done| |].
    + intros k. rewrite Hl. unfold with_key. destruct (decide (op_key o = k)) as [<-|Hne].
      * rewrite lookup_insert_eq, filter_cons_True by done. simpl. by rewrite <-app_assoc.
      * by rewrite lookup_insert_ne, filter_cons_False by done.
    + intros k. rewrite Hd, dom_insert_L, elem_of_union, elem_of_singleton.
      setoid_rewrite elem_of_cons. naive_solver.
Qed.

(** The partitions are the operations of each key, in the order of the history. *)
Lemma kv_Partition_spec `{GoSort} ops :
  kv_typed ops →
  ∃ keys, kv_Partition ops = Ret ((λ k, with_key k ops) <$> keys) ∧ NoDup keys ∧
    (∀ k, k ∈ keys ↔ ∃ o, o ∈ ops ∧ op_key o = k).
Proof.
  intros Ht. destruct (group_by_key_spec ops ∅ Ht) as (m & Hm & Hl & Hd).
  set (keys := sort_Sort String.ltb ((map_to_list m).*1)).
  assert (keys ≡ₚ (map_to_list m).*1) as Hp by apply sort_Sort_perm.
  exists keys. split_and!.
  - unfold kv_Partition. rewrite Hm. simpl. f_equal. apply list_fmap_ext. intros _ k _.
    by rewrite Hl, lookup_empty.
  - rewrite Hp. apply NoDup_fst_map_to_list.
  - intros k. rewrite Hp. transitivity (k ∈ dom m).
    + rewrite elem_of_dom, list_elem_of_fmap. split.
      * intros ([k' v] & -> & Hin). apply elem_of_map_to_list in Hin. by eexists.
      * intros [v Hv]. exists (k, v). split; [done|]. by apply elem_of_map_to_list.
    + rewrite Hd, dom_empty_L. set_solver.
Qed.

(** ** Legality, key by key *)

Lemma store_step_key store o ok store' :
  typed_op o → kv_store_Step store (op_Input o) (op_Output o) = Ret (ok, store') →
  ∃ st, kv_Step (default kv_Init (store !! op_key o)) (op_Input o) (op_Output o) = Ret (ok, st) ∧
    store' = <[op_key o := st]> store.
Proof.
  intros Ht Hs. destruct (typed_input o Ht) as (i & Hi & Hk). unfold kv_store_Step in Hs.
  rewrite Hi in *. simpl in Hs. rewrite Hk in Hs. inv_ret. destruct v as [ok' st].
  injection Hk0 as -> <-. by exists st.
Qed.

Lemma store_step_from_key store o ok st :
  typed_op o → kv_Step (default kv_Init (store !! op_key o)) (op_Input o) (op_Output o) = Ret (ok, st) →
  kv_store_Step store (op_Input o) (op_Output o) = Ret (ok, <[op_key o := st]> store).
Proof.
  intros Ht Hs. destruct (typed_input o Ht) as (i & Hi & Hk). unfold kv_store_Step.
  rewrite Hi in *. simpl. by rewrite Hk, Hs.
Qed.

Lemma legal_store_iff τ store :
  Forall typed_op τ →
  legal_ops kv_store_Step store τ ↔
  ∀ k, legal_ops kv_Step (default kv_Init (store !! k)) (with_key k τ).
Proof.
  intros Ht. revert store. induction Ht as [|o τ Ho Ht IH]; intros store; [done|].
  cbn [legal_ops]. unfold with_key in *. split.
  - intros (store' & Hs & Hl) k. apply store_step_key in Hs as (st & Hs & ->); [|done].
    rewrite IH in Hl. specialize (Hl k). destruct (decide (op_key o = k)) as [<-|Hne].
    + rewrite filter_cons_True by done. rewrite lookup_insert_eq in Hl. by exists st.
    + rewrite filter_cons_False by done. by rewrite lookup_insert_ne in Hl.
  - intros Hl. pose proof (Hl (op_key o)) as Hk. rewrite filter_cons_True in Hk by done.
    destruct Hk as (st & Hs & Hk). exists (<[op_key o := st]> store).
    split; [by apply store_step_from_key|]. apply IH. intros k.
    destruct (decide (op_key o = k)) as [<-|Hne].
    + by rewrite lookup_insert_eq.
    + rewrite lookup_insert_ne by done. specialize (Hl k). by rewrite filter_cons_False in Hl.
Qed.

(** ** Points in time *)

(** Every operation at the latest invocation among itself, its predecessors
    and [t]. *)
Fixpoint points (t : Z) τ : list (Z * Operation kv_iface) :=
  match τ with
  | [] => []
  | o :: τ' => (t `max` op_Call o, o) :: points (t `max` op_Call o) τ'
  end.

Lemma points_ops t τ : (points t τ).*2 = τ.
Proof. revert t. induction τ as [|o τ IH]; intros t; simpl; [done|]. by rewrite IH. Qed.

Lemma points_ge t τ : Forall (λ x, t ≤ x.1) (points t τ).
Proof.
  revert t. induction τ as [|o τ IH]; intros t; simpl; constructor; simpl; [lia|].
  eapply Forall_impl; [apply IH|]. intros x Hx. simpl in Hx. lia.
Qed.

Lemma points_sorted t τ : StronglySorted (λ x y, x.1 ≤ y.1) (points t τ).
Proof.
  revert t. induction τ as [|o τ IH]; intros t; simpl; constructor; [apply IH|].
  apply points_ge.
Qed.

(** The point of an operation lies between its call and its return. *)
Lemma points_within t τ :
  StronglySorted (λ a b, ¬ op_before b a) τ → timed τ → Forall (λ o, t ≤ op_Return o) τ →
  Forall (λ x, op_Call x.2 ≤ x.1 ≤ op_Return x.2) (points t τ).
Proof.
  revert t. induction τ as [|o τ IH]; intros t Hs Ht Hr; simpl; [constructor|].
  apply StronglySorted_cons in Hs as [Ho Hs]. apply Forall_cons in Ht as [Hto Ht].
  apply Forall_cons in Hr as [Hro Hr]. constructor; simpl; [lia|].
  apply IH; [done|done|]. rewrite Forall_forall in *. intros x Hx.
  specialize (Ho x Hx). specialize (Hr x Hx). unfold op_before in Ho. lia.
Qed.
End locality.

(** ** Merging *)
Section merge.
Context {A : Type} (R : relation A) `{∀ x y, Decision (R x y)} (P : A → Prop) `{∀ x, Decision (P x)}.

(** Merging with a list without [P] does not disturb the elements with [P]. *)
Lemma filter_merge_l (l1 l2 : list A) :
  (∀ x, x ∈ l1 → ¬ P x) → filter P (list_merge R l1 l2) = filter P l2.
Proof.
  revert l2. induction l1 as [|x l1 IH1]; intros l2 Hl1.
  { by destruct l2. }
  assert (¬ P x) as Hx by (apply Hl1; by left).
  assert (∀ y, y ∈ l1 → ¬ P y) as Hl1' by (intros; apply Hl1; by right).
  induction l2 as [|y l2 IH2].
  - by apply filter_none.
  - rewrite list_merge_cons. case_decide.
    + rewrite filter_cons_False by done. by apply IH1.
    + rewrite !(filter_cons P y). case_decide; by rewrite IH2.
Qed.

Lemma filter_merge_r (l1 l2 : list A) :
  (∀ x, x ∈ l2 → ¬ P x) → filter P (list_merge R l1 l2) = filter P l1.
Proof.
  revert l2. induction l1 as [|x l1 IH1]; intros l2 Hl2.
  { simpl. rewrite filter_none; [done|]. by destruct l2. }
  induction l2 as [|y l2 IH2]; [done|].
  assert (¬ P y) as Hy by (apply Hl2; by left).
  rewrite list_merge_cons. case_decide.
  - rewrite !(filter_cons P x). by rewrite IH1.
  - rewrite filter_cons_False by done. rewrite IH2 by (intros; apply Hl2; by right). done.
Qed.
End merge.

(** ** The theorem *)
Section partition_local.
Implicit Types (ops τ : list (Operation kv_iface)) (o a b : Operation kv_iface) (k : string).

Definition before_point (x y : Z * Operation kv_iface) : Prop := x.1 ≤ y.1.
#[local] Instance before_point_dec x y : Decision (before_point x y) := decide (x.1 ≤ y.1).
#[local] Instance before_point_total : Total before_point.
Proof. intros x y. unfold before_point. lia. Qed.
#[local] Instance before_point_trans : Transitive before_point.
Proof. intros x y z. unfold before_point. lia. Qed.

(** Lists of points, one for each key, have a common order. *)
Lemma merge_keys (keys : list string) (A : string → list (Z * Operation kv_iface)) :
  NoDup keys → (∀ k x, x ∈ A k → op_key x.2 = k) →
  (∀ k, StronglySorted before_point (A k)) →
  ∃ M, StronglySorted before_point M ∧ M ≡ₚ concat (A <$> keys) ∧
    (∀ x, x ∈ M → op_key x.2 ∈ keys) ∧
    (∀ k, k ∈ keys → filter (λ x, op_key x.2 = k) M = A k).
Proof.
  intros Hnd HA Hs. induction Hnd as [|k keys Hk Hnd (M & HM & Hp & Hin & Hf)].
  - exists []. split_and!; [constructor|done|set_solver|set_solver].
  - exists (list_merge before_point (A k) M). split_and!.
    + apply Sorted_StronglySorted; [apply _|].
      apply (Sorted_list_merge before_point); by apply StronglySorted_Sorted.
    + by rewrite (merge_Permutation before_point), Hp.
    + intros x Hx. rewrite (merge_Permutation before_point) in Hx. apply elem_of_app in Hx as [Hx|Hx].
      * rewrite (HA _ _ Hx). left.
      * right. by apply Hin.
    + intros k' [->|Hk']%elem_of_cons.
      * rewrite filter_merge_r by (intros x Hx Hx'; apply Hk; rewrite <-Hx'; by apply Hin).
        apply filter_all. by apply HA.
      * rewrite filter_merge_l by (intros x Hx Hx'; apply Hk; by rewrite <-(HA _ _ Hx), Hx').
        by apply Hf.
Qed.
Lemma lower_bound ops : ∃ t, Forall (λ o, t ≤ op_Return o) ops.
Proof.
  induction ops as [|o ops [t Ht]]; [by exists 0|].
  exists (t `min` op_Return o). constructor; [lia|].
  eapply Forall_impl; [exact Ht|]. intros x Hx. simpl in Hx. lia.
Qed.

(** From linearizations of the keys to one of the store. *)
Lemma merge_linearizations ops (keys : list string) :
  NoDup keys → (∀ o, o ∈ ops → op_key o ∈ keys) → Forall typed_op ops → timed ops →
  Forall (λ k, linearizable_ops kv_Step kv_Init (with_key k ops)) keys →
  linearizable_ops kv_store_Step ∅ ops.
Proof.
  intros Hnd Hkeys Hty Ht Hlin. apply Forall_choice in Hlin as [m Hm].
  destruct (lower_bound ops) as [t0 Ht0].
  set (f := λ k, if decide (k ∈ keys) then default [] (m !! k) else []).
  assert (∀ k, k ∈ keys → f k ≡ₚ with_key k ops ∧
    StronglySorted (λ a b, ¬ op_before b a) (f k) ∧ legal_ops kv_Step kv_Init (f k)) as Hf.
  { intros k Hk. destruct (Hm k Hk) as (τ & Hτ & Hl). unfold f. by rewrite decide_True, Hτ by done. }
  assert (∀ k o, o ∈ f k → o ∈ ops ∧ op_key o = k) as Hin.
  { intros k o Ho. destruct (decide (k ∈ keys)) as [Hk|Hk].
    - rewrite (proj1 (Hf k Hk)) in Ho. apply list_elem_of_filter in Ho. naive_solver.
    - unfold f in Ho. rewrite decide_False in Ho by done. set_solver. }
  assert (∀ k x, x ∈ points t0 (f k) → x.2 ∈ f k) as Hpt.
  { intros k x Hx. rewrite <-(points_ops t0 (f k)). by apply list_elem_of_fmap_2. }
  destruct (merge_keys keys (λ k, points t0 (f k)) Hnd) as (M & HM & Hp & HMk & HMf).
  { intros k x Hx. by apply Hpt, Hin in Hx as [_ ?]. }
  { intros k. apply points_sorted. }
  assert (M.*2 ≡ₚ ops) as Hperm.
  { rewrite Hp. etransitivity; [|apply (concat_classes op_key keys ops Hnd Hkeys)].
    clearbody f. clear -Hf. induction keys as [|k keys IH]; [done|]. simpl.
    rewrite fmap_app, points_ops. apply Permutation_app.
    - apply Hf. left.
    - apply IH. intros k' Hk'. apply Hf. by right. }
  exists (M.*2). split_and!; [done| |].
  - apply StronglySorted_fmap_iff. eapply StronglySorted_impl_in; [exact HM|].
    intros x y Hx Hy Hxy Hb. unfold before_point, op_before in *.
    assert (∀ z, z ∈ M → op_Call z.2 ≤ z.1 ≤ op_Return z.2) as Hw.
    { intros z Hz. pose proof (HMk z Hz) as Hk.
      assert (z ∈ filter (λ x, op_key x.2 = op_key z.2) M) as Hz' by (by apply list_elem_of_filter).
      rewrite HMf in Hz' by done. destruct (Hf _ Hk) as (Hfp & Hfs & _).
      pose proof (points_within t0 (f (op_key z.2)) Hfs) as Hall. rewrite !Forall_forall in Hall.
      unfold timed in Ht. rewrite Forall_forall in Ht, Ht0. apply Hall; [| |done].
      - apply Forall_forall. intros o Ho. apply Ht. by eapply Hin.
      - intros o Ho. apply Ht0. by eapply Hin. }
    pose proof (Hw x Hx). pose proof (Hw y Hy). lia.
  - apply legal_store_iff.
    { by rewrite Hperm. }
    intros k. rewrite lookup_empty. simpl. unfold with_key. rewrite filter_fmap.
    destruct (decide (k ∈ keys)) as [Hk|Hk].
    + rewrite HMf, points_ops by done. by apply Hf.
    + rewrite filter_none; [done|]. intros x Hx <-. by apply Hk, HMk.
Qed.

(** C5: the contract of [Model.Partition] for [KvModel]: a history of typed
    operations that take time is linearizable with respect to the whole
    key/value store if and only if each of the partitions by key is
    linearizable with respect to [KvModel]. *)
Theorem kv_Partition_local `{GoSort} ops partitions :
  kv_typed ops → timed ops → kv_Partition ops = Ret partitions →
  linearizable_ops kv_store_Step ∅ ops ↔ Forall (linearizable_ops kv_Step kv_Init) partitions.
Proof.
  intros Hty Ht Hp. destruct (kv_Partition_spec ops Hty) as (keys & Hp' & Hnd & Hkeys).
  rewrite Hp' in Hp. injection Hp as <-. rewrite Forall_fmap. unfold compose. split.
  - intros (τ & Hτ & Hs & Hl). apply Forall_forall. intros k Hk.
    exists (with_key k τ). unfold with_key. split_and!.
    + by rewrite Hτ.
    + by apply StronglySorted_filter.
    + assert (Forall typed_op τ) as Htyτ by (rewrite Hτ; exact Hty).
      pose proof (proj1 (legal_store_iff τ ∅ Htyτ) Hl k) as Hlk.
      by rewrite lookup_empty in Hlk.
  - apply merge_linearizations; [done| |done|done]. intros o Ho. apply Hkeys. by exists o.
Qed.
End partition_local.

Lemma kv_Partition_local_witness :
  let H := merge_sort_GoSort in
  kv_Partition sample_stale = Ret [sample_stale] ∧
  (linearizable_ops kv_store_Step ∅ sample_stale ↔
   Forall (linearizable_ops kv_Step kv_Init) [sample_stale]).
Proof.
  split; [vm_compute; reflexivity|].
  exact (@kv_Partition_local merge_sort_GoSort sample_stale [sample_stale]
    sample_stale_typed sample_stale_timed eq_refl).
Defined.
