(* ===== verification/Events.v ===== *)
(** * Histories of events (porcupine/checker.go, [renumber], [convertEntries])

    A history given as a sequence of call and return events becomes an entry
    list by [convertEntries (renumber events)].  Renaming the operations by an
    injective function keeps linearizability ([relabel_linearizable]);
    [renumber] is such a renaming, onto the consecutive ids that the bitset of
    the search needs. *)
From stdpp Require Import base gmap sets numbers strings sorting list.
From S2P Require Import Prelude Bitset Model Linearizability ListSearch.
Local Open Scope Z_scope.

(** ** Renaming the operations of an entry list *)
Section relabel.
Context {V St : Type} (f : Z → Z).
Implicit Types (h : list (entry V)) (e c r : entry V) (i j : Z).

Definition relabel e : entry V :=
  MkEntry (e_kind e) (e_value e) (f (e_id e)) (e_time e) (e_clientId e).

Definition inj_on (ids : list Z) : Prop := ∀ i j, i ∈ ids → j ∈ ids → f i = f j → i = j.

Lemma relabel_op_ids h : op_ids (relabel <$> h) = f <$> op_ids h.
Proof. unfold op_ids. by rewrite filter_fmap, <-!list_fmap_compose. Qed.

Lemma op_ids_ids h i : i ∈ op_ids h → i ∈ e_id <$> h.
Proof. rewrite elem_of_op_ids. intros (c & Hc & _ & <-). by apply list_elem_of_fmap_2. Qed.

Section injective.
Context h (Hinj : inj_on (e_id <$> h)) (Hwf : wf_entries h).

Lemma id_in e : e ∈ h → e_id e ∈ e_id <$> h.
Proof. apply list_elem_of_fmap_2. Qed.
#[local] Hint Resolve id_in : core.

Lemma relabel_wf : wf_entries (relabel <$> h).
Proof.
  destruct Hwf as [Hnd Hbef Hret]. split.
  - assert (key <$> (relabel <$> h) = (λ k : entryKind * Z, (k.1, f k.2)) <$> (key <$> h)) as ->
      by (by rewrite <-!list_fmap_compose).
    apply NoDup_fmap_2_strong; [|done].
    intros ? ? (e1 & -> & H1)%list_elem_of_fmap (e2 & -> & H2)%list_elem_of_fmap [= Hk Hid].
    unfold key. f_equal; [done|]. apply Hinj; auto.
  - intros l1 r l2 Heq Hr. apply fmap_app_inv in Heq as (k1 & k2 & -> & Heq & Hh).
    destruct k2 as [|r0 k2]; [done|]. injection Heq as -> ->.
    destruct (Hbef _ _ _ Hh Hr) as (c & Hc & Hcall & Hid).
    exists (relabel c). split_and!; [by apply list_elem_of_fmap_2|done|]. simpl. by rewrite Hid.
  - intros ? (c & -> & Hc)%list_elem_of_fmap Hcall.
    destruct (Hret c Hc Hcall) as (r & Hr & Hrr & Hid).
    exists (relabel r). split_and!; [by apply list_elem_of_fmap_2|done|]. simpl. by rewrite Hid.
Qed.

Lemma relabel_precedes i j :
  i ∈ e_id <$> h → j ∈ e_id <$> h → precedes (relabel <$> h) (f i) (f j) ↔ precedes h i j.
Proof.
  intros Hi Hj. split.
  - intros (l1 & r & l2 & c & l3 & Heq & Hr & Hri & Hc & Hci).
    apply fmap_app_inv in Heq as (k1 & k2 & -> & Heq & Hh).
    destruct k2 as [|r0 k2]; [done|]. injection Heq as -> Heq.
    symmetry in Heq. apply fmap_app_inv in Heq as (k3 & k4 & -> & Heq & ->).
    destruct k4 as [|c0 k4]; [done|]. injection Heq as -> ->.
    exists k1, r0, k3, c0, k4. simpl in *.
    split_and!; [done|done| |done|]; apply Hinj; try done; apply id_in; rewrite Hh; set_solver.
  - intros (l1 & r & l2 & c & l3 & Heq & Hr & <- & Hc & <-).
    exists (relabel <$> l1), (relabel r), (relabel <$> l2), (relabel c), (relabel <$> l3).
    split; [|done]. by rewrite Heq, fmap_app, fmap_cons, fmap_app, fmap_cons.
Qed.

Lemma relabel_find k i e :
  find_entry k h i = Some e → find_entry k (relabel <$> h) (f i) = Some (relabel e).
Proof.
  intros [He Hk]%find_entry_Some. apply find_entry_in; [apply relabel_wf|by apply list_elem_of_fmap_2|].
  unfold key in *. simpl. by simplify_eq.
Qed.

Lemma relabel_find_inv k i e' :
  i ∈ e_id <$> h → find_entry k (relabel <$> h) (f i) = Some e' →
  ∃ e, e' = relabel e ∧ find_entry k h i = Some e.
Proof.
  intros Hi [(e & -> & He)%list_elem_of_fmap Hk]%find_entry_Some. exists e. split; [done|].
  apply find_entry_in; [apply Hwf|done|]. unfold key in *. simpl in Hk. injection Hk as <- Hid.
  f_equal. apply Hinj; auto.
Qed.

Lemma relabel_legal (step : St → V → V → outcome (bool * St)) s (σ : list Z) :
  (∀ i, i ∈ σ → i ∈ e_id <$> h) → legal step (relabel <$> h) s (f <$> σ) ↔ legal step h s σ.
Proof.
  revert s. induction σ as [|i σ IH]; intros s Hσ; [done|]. simpl.
  assert (i ∈ e_id <$> h) as Hi by (apply Hσ; by left).
  assert (∀ s', legal step (relabel <$> h) s' (f <$> σ) ↔ legal step h s' σ) as IH'
    by (intros s'; apply IH; intros; apply Hσ; by right).
  split.
  - intros (c & r & s' & Hc & Hr & Hst & Hl).
    apply relabel_find_inv in Hc as (c0 & -> & Hc); [|done].
    apply relabel_find_inv in Hr as (r0 & -> & Hr); [|done].
    exists c0, r0, s'. by rewrite <-IH'.
  - intros (c & r & s' & Hc & Hr & Hst & Hl).
    exists (relabel c), (relabel r), s'. split_and!; [by apply relabel_find..|done|by apply IH'].
Qed.

Lemma relabel_linearizable (step : St → V → V → outcome (bool * St)) s :
  linearizable step (relabel <$> h) s ↔ linearizable step h s.
Proof.
  assert (∀ σ : list Z, σ ≡ₚ op_ids h → ∀ i, i ∈ σ → i ∈ e_id <$> h) as Hin.
  { intros σ Hσ i Hi. rewrite Hσ in Hi. by apply op_ids_ids. }
  split.
  - intros (σ' & Hσ' & Hs & Hl). rewrite relabel_op_ids in Hσ'.
    apply Permutation_map_inv in Hσ' as (σ & Hx & Hσ). change (σ' = f <$> σ) in Hx. subst σ'.
    symmetry in Hσ. exists σ. split_and!; [done| |].
    + apply StronglySorted_fmap_iff in Hs.
      eapply StronglySorted_impl_in; [exact Hs|]. intros i j Hi Hj Hn Hp. apply Hn. simpl.
      apply relabel_precedes; eauto.
    + apply relabel_legal in Hl; eauto.
  - intros (σ & Hσ & Hs & Hl). exists (f <$> σ). split_and!.
    + by rewrite relabel_op_ids, Hσ.
    + apply StronglySorted_fmap_iff. eapply StronglySorted_impl_in; [exact Hs|].
      intros i j Hi Hj Hn Hp. apply Hn. simpl in Hp. apply relabel_precedes in Hp; eauto.
    + apply relabel_legal; eauto.
Qed.
End injective.
End relabel.

(** ** [renumber] *)
Section renumber.
Context {V St : Type}.
Implicit Types (evs : list (Event V)) (v : Event V) (m : gmap Z Z) (e : entry V) (i j k : Z).

(** The map with which [renumber] ends. *)
Fixpoint renumber_map evs m k : gmap Z Z :=
  match evs with
  | [] => m
  | v :: evs' =>
      match m !! ev_Id v with
      | Some _ => renumber_map evs' m k
      | None => renumber_map evs' (<[ev_Id v := k]> m) (k + 1)
      end
  end.

Definition new_id m i : Z := default 0 (m !! i).

Definition rename (f : Z → Z) v : Event V :=
  MkEvent (ev_ClientId v) (ev_Kind v) (ev_Value v) (f (ev_Id v)).

(** Distinct ids have distinct numbers below [k]. *)
Definition numbering m k : Prop :=
  (∀ i a, m !! i = Some a → a < k) ∧ (∀ i j a, m !! i = Some a → m !! j = Some a → i = j).

Lemma numbering_insert m k i :
  numbering m k → m !! i = None → numbering (<[i := k]> m) (k + 1).
Proof.
  intros [Hlt Hinj] Hi. split.
  - intros j a [(<- & <-)|(_ & Hj)]%lookup_insert_Some; [lia|]. specialize (Hlt j a Hj). lia.
  - intros j j' a [(<- & <-)|(_ & Hj)]%lookup_insert_Some [(<- & Ha)|(_ & Hj')]%lookup_insert_Some.
    + done.
    + apply Hlt in Hj'. lia.
    + subst. apply Hlt in Hj. lia.
    + by eapply Hinj.
Qed.

Lemma renumber_map_spec evs m k :
  numbering m k →
  m ⊆ renumber_map evs m k ∧ (∀ v, v ∈ evs → is_Some (renumber_map evs m k !! ev_Id v)) ∧
  (∃ k', numbering (renumber_map evs m k) k') ∧
  renumber_loop evs m k = rename (new_id (renumber_map evs m k)) <$> evs.
Proof.
  revert m k. induction evs as [|v evs IH]; intros m k Hm; simpl.
  - split_and!; [done|by intros v ?%not_elem_of_nil|by exists k|done].
  - destruct (m !! ev_Id v) as [r|] eqn:Hr.
    + destruct (IH m k Hm) as (Hsub & Hin & Hnum & Heq).
      pose proof (lookup_weaken _ _ _ _ Hr Hsub) as Hr'. split_and!; [done| |done|].
      * intros w [->|Hw]%elem_of_cons; [by eexists|by apply Hin].
      * rewrite Heq. f_equal. unfold rename, new_id. by rewrite Hr'.
    + destruct (IH _ _ (numbering_insert _ _ _ Hm Hr)) as (Hsub & Hin & Hnum & Heq).
      assert (renumber_map evs (<[ev_Id v:=k]> m) (k + 1) !! ev_Id v = Some k) as Hk
        by (eapply lookup_weaken; [apply lookup_insert_eq|done]).
      split_and!; [|  |done|].
      * etrans; [by apply insert_subseteq|done].
      * intros w [->|Hw]%elem_of_cons; [by eexists|by apply Hin].
      * rewrite Heq. f_equal. unfold rename, new_id. by rewrite Hk.
Qed.

Lemma numbering_empty : numbering ∅ 0.
Proof. split; intros *; by rewrite lookup_empty. Qed.

Definition renaming evs : Z → Z := new_id (renumber_map evs ∅ 0).

Lemma renumber_rename evs : renumber evs = rename (renaming evs) <$> evs.
Proof. by apply renumber_map_spec, numbering_empty. Qed.

Lemma renaming_inj evs : inj_on (renaming evs) (ev_Id <$> evs).
Proof.
  destruct (renumber_map_spec evs ∅ 0 numbering_empty) as (_ & Hin & (k' & _ & Hinj) & _).
  intros i j (v & -> & Hv)%list_elem_of_fmap (w & -> & Hw)%list_elem_of_fmap.
  unfold renaming, new_id. destruct (Hin v Hv) as [a Ha], (Hin w Hw) as [b Hb].
  rewrite Ha, Hb. simpl. intros ->. by eapply Hinj.
Qed.

Lemma convertEntries_ids evs : e_id <$> convertEntries evs = ev_Id <$> evs.
Proof.
  unfold convertEntries. rewrite fmap_imap. apply list_eq. intros p.
  rewrite list_lookup_imap, list_lookup_fmap. by destruct (evs !! p).
Qed.

Lemma convertEntries_rename (f : Z → Z) evs :
  convertEntries (rename f <$> evs) = relabel f <$> convertEntries evs.
Proof.
  unfold convertEntries. rewrite fmap_imap, imap_fmap. done.
Qed.

(** The numbers of the calls, in order, as long as every event but a first
    call has been seen. *)
Definition opened (D : gset Z) evs : Prop :=
  ∀ l1 v l2, evs = l1 ++ v :: l2 →
    match ev_Kind v with
    | CallEvent => ev_Id v ∉ D ∧ ev_Id v ∉ ev_Id <$> l1
    | ReturnEvent => ev_Id v ∈ D ∨ ev_Id v ∈ ev_Id <$> l1
    end.

Definition call_events evs : list (Event V) := filter (λ v, ev_Kind v = CallEvent) evs.

Lemma opened_cons D v evs :
  opened D (v :: evs) → opened ({[ev_Id v]} ∪ D) evs.
Proof.
  intros Ho l1 w l2 ->. specialize (Ho (v :: l1) w l2 eq_refl). destruct (ev_Kind w).
  - rewrite fmap_cons, elem_of_cons in Ho. set_solver.
  - rewrite fmap_cons, elem_of_cons in Ho. set_solver.
Qed.

Lemma renumber_loop_calls evs m k :
  opened (dom m) evs →
  ev_Id <$> call_events (renumber_loop evs m k) = seqZ k (zlen (call_events evs)).
Proof.
  revert m k. induction evs as [|v evs IH]; intros m k Ho; [done|].
  pose proof (Ho [] v evs eq_refl) as Hv. pose proof (opened_cons _ _ _ Ho) as Ho'.
  unfold call_events in *. destruct (ev_Kind v) eqn:Hkind; simpl.
  - destruct Hv as [Hv _]. apply not_elem_of_dom in Hv. rewrite Hv.
    rewrite !filter_cons_True by done. rewrite fmap_cons, IH by (by rewrite dom_insert_L).
    cbn [length]. rewrite Nat2Z.inj_succ, (seqZ_cons k) by lia. simpl. do 2 f_equal; lia.
  - destruct Hv as [Hv|Hv]; [|by apply not_elem_of_nil in Hv].
    pose proof Hv as Hin. apply elem_of_dom in Hv as [r Hr]. rewrite Hr.
    rewrite !filter_cons_False by (simpl; congruence). apply IH.
    by replace ({[ev_Id v]} ∪ dom m) with (dom m) in Ho' by set_solver.
Qed.
End renumber.

(** ** Complete event histories *)
Section complete_events.
Context {V St : Type}.
Implicit Types (evs : list (Event V)) (v w : Event V) (h : list (entry V)) (e c r : entry V).

(** Every return follows the call with its id, every call has a return. *)
Definition complete_events evs : Prop := wf_entries (convertEntries evs).

Definition linearizable_events (step : St → V → V → outcome (bool * St)) (s : St) evs : Prop :=
  linearizable step (convertEntries evs) s.

Definition event_steps_return (step : St → V → V → outcome (bool * St)) evs : Prop :=
  ∀ s v w, v ∈ evs → w ∈ evs → ev_Kind v = CallEvent → ev_Kind w = ReturnEvent →
    ev_Id v = ev_Id w → returns (step s (ev_Value v) (ev_Value w)).

Definition entry_kind (k : EventKind) : entryKind :=
  match k with ReturnEvent => returnEntry | CallEvent => callEntry end.

Lemma convert_lookup evs (p : nat) :
  convertEntries evs !! p =
  (λ v, MkEntry (entry_kind (ev_Kind v)) (ev_Value v) (ev_Id v) (Z.of_nat p) (ev_ClientId v)) <$> evs !! p.
Proof. unfold convertEntries. by rewrite list_lookup_imap. Qed.

Lemma elem_of_convert evs e :
  e ∈ convertEntries evs → ∃ v, v ∈ evs ∧ e_kind e = entry_kind (ev_Kind v) ∧
    e_value e = ev_Value v ∧ e_id e = ev_Id v.
Proof.
  intros [p Hp]%list_elem_of_lookup. rewrite convert_lookup in Hp.
  destruct (evs !! p) as [v|] eqn:Hv; [|done]. injection Hp as <-.
  exists v. split; [by eapply list_elem_of_lookup_2|done].
Qed.

Lemma convert_op_ids evs : op_ids (convertEntries evs) = ev_Id <$> call_events evs.
Proof.
  unfold call_events, convertEntries.
  match goal with |- context [imap ?g evs] => assert (∀ (o : nat → nat),
    op_ids (imap (λ p, g (o p)) evs) = ev_Id <$> filter (λ v, ev_Kind v = CallEvent) evs)
    as H; [|exact (H id)] end.
  induction evs as [|v evs IH]; intros o; [done|].
specialize (IH (o ∘ S)). unfold op_ids in *. rewrite imap_cons, !filter_cons.
  unfold is_call in *. simpl. destruct (ev_Kind v); simpl.
  - f_equal. exact IH.
  - exact IH.
Qed.

Lemma wf_length h : wf_entries h → zlen h / 2 = zlen (op_ids h).
Proof.
  intros [Hnd Hbef Hret].
  assert ((e_id <$> filter is_ret h) ≡ₚ op_ids h) as Hperm.
  { apply NoDup_Permutation; [|by apply NoDup_op_ids|].
    - apply (NoDup_fmap_2_strong e_id); [|by eapply NoDup_filter, NoDup_fmap_1].
      intros e1 e2 [Hr1 H1]%list_elem_of_filter [Hr2 H2]%list_elem_of_filter Hid.
      apply (key_inj_in h); [done..|]. unfold key, is_ret in *. congruence.
    - intros i. rewrite elem_of_op_ids, list_elem_of_fmap. split.
      + intros (r & -> & [Hr Hin]%list_elem_of_filter).
        apply list_elem_of_split in Hin as (l1 & l2 & ->).
        destruct (Hbef _ _ _ eq_refl Hr) as (c & Hc & Hcall & Hid).
        exists c. split_and!; [set_solver|done|done].
      + intros (c & Hc & Hcall & <-). destruct (Hret c Hc Hcall) as (r & Hr & Hrr & Hid).
        exists r. split; [done|]. by apply list_elem_of_filter. }
  apply Permutation_length in Hperm. rewrite length_fmap in Hperm.
  assert (length h = length (filter is_call h) + length (filter is_ret h))%nat as Hlen.
  { clear. induction h as [|e h IH]; [done|]. rewrite !filter_cons.
    destruct (kind_cases e) as [He|He].
    - rewrite decide_True, decide_False by (try done; intros ?; by eapply call_not_ret). simpl. lia.
    - rewrite decide_False, decide_True by (try done; intros ?; by eapply call_not_ret). simpl. lia. }
  unfold op_ids in *. rewrite length_fmap in *. rewrite Hlen, Hperm, Nat2Z.inj_add.
  symmetry. apply Z.div_unique with (r := 0); lia.
Qed.

Lemma complete_opened evs : complete_events evs → opened ∅ evs.
Proof.
  intros [Hnd Hbef _] l1 v l2 ->.
  assert (∀ p, convertEntries (l1 ++ v :: l2) !! p =
    (λ v, MkEntry (entry_kind (ev_Kind v)) (ev_Value v) (ev_Id v) (Z.of_nat p) (ev_ClientId v)) <$>
    (l1 ++ v :: l2) !! p) as Hlk by apply convert_lookup.
  set (h := convertEntries (l1 ++ v :: l2)) in *.
  assert (h !! length l1 = Some (MkEntry (entry_kind (ev_Kind v)) (ev_Value v) (ev_Id v)
    (Z.of_nat (length l1)) (ev_ClientId v))) as Hv by (rewrite Hlk, list_lookup_middle; done).
  assert (∀ p e, h !! p = Some e → (p < length l1)%nat → e_id e ∈ ev_Id <$> l1) as Hbefore.
  { intros p e He Hp. rewrite Hlk, lookup_app_l in He by done.
    destruct (l1 !! p) as [w|] eqn:Hw; [|done]. injection He as <-.
    apply (list_elem_of_fmap_2 ev_Id). by eapply list_elem_of_lookup_2. }
  destruct (ev_Kind v) eqn:Hkind.
  - split; [set_solver|]. intros (w & Hid & Hw)%list_elem_of_fmap.
    apply list_elem_of_lookup in Hw as [p Hp]. pose proof (lookup_lt_Some _ _ _ Hp) as Hlt.
    assert (h !! p = Some (MkEntry (entry_kind (ev_Kind w)) (ev_Value w) (ev_Id w) (Z.of_nat p)
      (ev_ClientId w))) as Hhp by (rewrite Hlk, lookup_app_l, Hp by done; done).
    destruct (ev_Kind w) eqn:Hkw.
    + assert (p = length l1); [|lia].
      eapply (NoDup_lookup _ _ _ (callEntry, ev_Id v) Hnd); rewrite list_lookup_fmap.
      * rewrite Hhp. unfold key. simpl. by rewrite Hid.
      * by rewrite Hv.
    + (* a return of this id before [v]: its call comes before it, hence is [v] *)
      destruct (Hbef (take p h) _ (drop (S p) h) (eq_sym (take_drop_middle _ _ _ Hhp)) eq_refl)
        as (c & Hc & Hcall & Hcid).
      apply list_elem_of_lookup in Hc as [q Hq]. apply lookup_take_Some in Hq as [Hq Hqp].
      assert (q = length l1); [|lia].
      eapply (NoDup_lookup _ _ _ (callEntry, ev_Id v) Hnd); rewrite list_lookup_fmap.
      * rewrite Hq. simpl. f_equal. apply key_call. simpl in *. split; [done|congruence].
      * by rewrite Hv.
  - right. destruct (Hbef (take (length l1) h) _ (drop (S (length l1)) h)
      (eq_sym (take_drop_middle _ _ _ Hv)) eq_refl) as (c & Hc & Hcall & Hcid).
    apply list_elem_of_lookup in Hc as [q Hq]. apply lookup_take_Some in Hq as [Hq Hqp].
    simpl in Hcid. rewrite <-Hcid. by eapply Hbefore.
Qed.

(** ** The entries of a renumbered history *)

Lemma events_inj evs : inj_on (renaming evs) (e_id <$> convertEntries evs).
Proof. rewrite convertEntries_ids. apply renaming_inj. Qed.

Lemma converted_linearizable (step : St → V → V → outcome (bool * St)) s evs :
  complete_events evs →
  linearizable step (convertEntries (renumber evs)) s ↔ linearizable_events step s evs.
Proof.
  intros Hc. rewrite renumber_rename, convertEntries_rename.
  by apply relabel_linearizable; [apply events_inj|].
Qed.

Lemma converted_wf evs : complete_events evs → wf_entries (convertEntries (renumber evs)).
Proof.
  intros Hc. rewrite renumber_rename, convertEntries_rename.
  by apply relabel_wf; [apply events_inj|].
Qed.

Lemma converted_ids evs :
  complete_events evs →
  op_ids (convertEntries (renumber evs)) = seqZ 0 (zlen (convertEntries (renumber evs)) / 2).
Proof.
  intros Hc. rewrite (wf_length _ (converted_wf _ Hc)), convert_op_ids.
  assert (ev_Id <$> call_events (renumber evs) = seqZ 0 (zlen (call_events evs))) as Heq.
  { apply renumber_loop_calls. rewrite dom_empty_L. by apply complete_opened. }
  rewrite Heq. f_equal. rewrite length_seqZ. lia.
Qed.

Lemma converted_ok (model : FullModel V St) evs :
  complete_events evs → event_steps_return (Step model) evs →
  history_ok model (convertEntries (renumber evs)).
Proof.
  intros Hc Hret. split; [by apply converted_wf|by rewrite converted_ids|].
  rewrite renumber_rename, convertEntries_rename.
  intros s ? ? (c & -> & Hcin)%list_elem_of_fmap (r & -> & Hrin)%list_elem_of_fmap Hcall Hrr Hid.
  simpl in *. apply events_inj in Hid; [|by apply list_elem_of_fmap_2..].
  destruct (elem_of_convert _ _ Hcin) as (v & Hv & Hvk & Hvv & Hvi).
  destruct (elem_of_convert _ _ Hrin) as (w & Hw & Hwk & Hwv & Hwi).
  unfold is_call, is_ret in *. simpl in *. rewrite Hvv, Hwv. apply Hret; [done|done| | |congruence].
  - destruct (ev_Kind v); simpl in *; congruence.
  - destruct (ev_Kind w); simpl in *; congruence.
Qed.

End complete_events.
