(* ===== verification/Parallel.v ===== *)
(** * The concurrent checker (porcupine/checker.go, [checkParallel])

    One goroutine per partition runs [checkSingle]; the calling goroutine
    selects between their results and a timeout, and sets the flag [kill] that
    the searches read.  The interleavings are a step relation on [pstate]: one
    step is one iteration of a search, one write, one channel operation, or
    the firing of the timer.

    [p_results] is the buffered channel, with the capacity that the code gives
    it; [p_longest] is the slice that the goroutines fill, each in its own
    place. *)
From stdpp Require Import base gmap sets numbers sorting list.
From S2P Require Import Prelude Bitset Model NodeList Checker.
Local Open Scope Z_scope.
Local Open Scope go_scope.

Record linearizationInfo (V : Type) := MkInfo {
  info_history : list (list (entry V));
  info_partialLinearizations : list (list (list Z));
}.
Arguments MkInfo {V} _ _.
Arguments info_history {V} _.
Arguments info_partialLinearizations {V} _.

(** Where a goroutine of a partition stands. *)
Inductive goroutine (V St : Type) :=
| GStart
| GRun (headEntry : option loc) (s : search_st (V := V) (St := St))
| GWrite (ok : bool) (l : partials)   (* longest[i] = l *)
| GSend (ok : bool)                   (* results <- ok *)
| GExit.
Arguments GStart {V St}.
Arguments GRun {V St} _ _.
Arguments GWrite {V St} _ _.
Arguments GSend {V St} _.
Arguments GExit {V St}.

(** [timeoutChan]: nil, or a timer that has or has not fired. *)
Inductive timer := TimerNil | TimerArmed | TimerFired.

#[export] Instance timer_eq_dec : EqDecision timer.
Proof. solve_decision. Defined.

(** Where the caller stands: in the select loop, after it, returned, or
    brought down with the program by a goroutine's panic. *)
Inductive caller (V : Type) :=
| MLoop
| MAfter
| MDone (result : CheckResult) (info : linearizationInfo V)
| MCrash.
Arguments MLoop {V}.
Arguments MAfter {V}.
Arguments MDone {V} _ _.
Arguments MCrash {V}.

Record pstate (V St : Type) := MkP {
  p_gos : list (goroutine V St);
  p_longest : list (option partials);
  p_results : list bool;
  p_kill : bool;
  p_timer : timer;
  p_ok : bool;
  p_timedOut : bool;
  p_count : nat;
  p_main : caller V;
}.
Arguments MkP {V St} _ _ _ _ _ _ _ _ _.
Arguments p_gos {V St} _.
Arguments p_longest {V St} _.
Arguments p_results {V St} _.
Arguments p_kill {V St} _.
Arguments p_timer {V St} _.
Arguments p_ok {V St} _.
Arguments p_timedOut {V St} _.
Arguments p_count {V St} _.
Arguments p_main {V St} _.

Section parallel.
Context {V St : Type} (model : FullModel V St).
Context (history : list (list (entry V))) (computeInfo : bool) (timeout : Z).
Implicit Types (c d : pstate V St) (g : goroutine V St).
Abbreviation n := (length history).

(** ** The caller *)

Definition checkParallel_init : pstate V St :=
  {| p_gos := replicate n GStart;
     p_longest := replicate n None;
     p_results := [];
     p_kill := false;
     p_timer := if bool_decide (0 < timeout) then TimerArmed else TimerNil;
     p_ok := true;
     p_timedOut := false;
     p_count := O;
     p_main := MLoop |}.

(** [case result := <-results] of the select. *)
Definition select_result (result : bool) (results : list bool) c : pstate V St :=
  let count := S (p_count c) in
  let ok := p_ok c && result in
  let stop := negb ok && negb computeInfo in
  {| p_gos := p_gos c; p_longest := p_longest c; p_results := results;
     p_kill := if stop then true else p_kill c;
     p_timer := p_timer c; p_ok := ok; p_timedOut := p_timedOut c; p_count := count;
     p_main := if stop || bool_decide (n ≤ count)%nat then MAfter else MLoop |}.

(** [case <-timeoutChan] of the select. *)
Definition select_timeout c : pstate V St :=
  {| p_gos := p_gos c; p_longest := p_longest c; p_results := p_results c; p_kill := true;
     p_timer := p_timer c; p_ok := p_ok c; p_timedOut := true; p_count := p_count c;
     p_main := MAfter |}.

(** One turn of [for count < len(history)] after the loop. *)
Definition drain_result (results : list bool) c : pstate V St :=
  {| p_gos := p_gos c; p_longest := p_longest c; p_results := results; p_kill := p_kill c;
     p_timer := p_timer c; p_ok := p_ok c; p_timedOut := p_timedOut c;
     p_count := S (p_count c); p_main := p_main c |}.

(** The set of the non-nil pointers of [longest[i]]. *)
Definition pointer_set (l : option partials) : gset nat :=
  match l with
  | None => ∅
  | Some l => list_to_set (omap id (pt_longest l))
  end.

(** The copies of what the pointers point to, in the order [ks] in which the
    range over the map yields them. *)
Definition copy_partials (l : option partials) (ks : list nat) : outcome (list (list Z)) :=
  match mapM (λ k, (default [] (pt_seqs <$> l)) !! k) ks with
  | Some partials => Ret partials
  | None => Panic
  end.

(** [map_orders]: the order that each range over a map happens to take. *)
Definition partialLinearizations_of (longest : list (option partials)) (ps : list (list (list Z))) : Prop :=
  Forall2 (λ l p, ∃ ks, ks ≡ₚ elements (pointer_set l) ∧ copy_partials l ks = Ret p) longest ps.

Definition make_info c (info : linearizationInfo V) : Prop :=
  if computeInfo then
    info_history info = history ∧
    partialLinearizations_of (p_longest c) (info_partialLinearizations info)
  else info = MkInfo [] [].

Definition verdict c : CheckResult :=
  if negb (p_ok c) then Illegal
  else if p_timedOut c then Unknown else Ok.

Definition set_main c (m : caller V) : pstate V St :=
  {| p_gos := p_gos c; p_longest := p_longest c; p_results := p_results c; p_kill := p_kill c;
     p_timer := p_timer c; p_ok := p_ok c; p_timedOut := p_timedOut c; p_count := p_count c;
     p_main := m |}.

(** ** The goroutines *)

Definition set_go c (i : nat) g : pstate V St :=
  {| p_gos := <[i := g]> (p_gos c); p_longest := p_longest c; p_results := p_results c;
     p_kill := p_kill c; p_timer := p_timer c; p_ok := p_ok c; p_timedOut := p_timedOut c;
     p_count := p_count c; p_main := p_main c |}.

(** The goroutine up to its writes: it enters [checkSingle], then iterates. *)
Definition go_step (kill : bool) (subhistory : list (entry V)) g : outcome (goroutine V St) :=
  match g with
  | GStart =>
      let! ' (headEntry, s) := checkSingle_init model subhistory in
      Ret (GRun headEntry s)
  | GRun headEntry s =>
      let! r := checkSingle_iter model computeInfo headEntry kill s in
      match r with
      | inl s => Ret (GRun headEntry s)
      | inr (ok, l) => Ret (GWrite ok l)
      end
  | _ => Ret g
  end.

Definition searching g : bool :=
  match g with GStart | GRun _ _ => true | _ => false end.

(** [longest[i] = l]. *)
Definition write_longest c (i : nat) (ok : bool) (l : partials) : pstate V St :=
  {| p_gos := <[i := GSend ok]> (p_gos c); p_longest := <[i := Some l]> (p_longest c);
     p_results := p_results c; p_kill := p_kill c; p_timer := p_timer c; p_ok := p_ok c;
     p_timedOut := p_timedOut c; p_count := p_count c; p_main := p_main c |}.

(** [results <- ok]. *)
Definition send_result c (i : nat) (ok : bool) : pstate V St :=
  {| p_gos := <[i := GExit]> (p_gos c); p_longest := p_longest c;
     p_results := p_results c ++ [ok]; p_kill := p_kill c; p_timer := p_timer c; p_ok := p_ok c;
     p_timedOut := p_timedOut c; p_count := p_count c; p_main := p_main c |}.

Definition fire c : pstate V St :=
  {| p_gos := p_gos c; p_longest := p_longest c; p_results := p_results c; p_kill := p_kill c;
     p_timer := TimerFired; p_ok := p_ok c; p_timedOut := p_timedOut c; p_count := p_count c;
     p_main := p_main c |}.

(** ** Steps *)
Inductive pstep : pstate V St → pstate V St → Prop :=
| step_search c i g h g' :
    p_gos c !! i = Some g → searching g = true → history !! i = Some h →
    go_step (p_kill c) h g = Ret g' →
    pstep c (set_go c i g')
| step_crash c i g h :
    p_gos c !! i = Some g → searching g = true → history !! i = Some h →
    go_step (p_kill c) h g = Panic →
    pstep c (set_main c MCrash)
| step_write c i ok l :
    p_gos c !! i = Some (GWrite ok l) →
    pstep c (write_longest c i ok l)
| step_send c i ok :
    p_gos c !! i = Some (GSend ok) → (length (p_results c) < n)%nat →
    pstep c (send_result c i ok)
| step_fire c :
    p_timer c = TimerArmed →
    pstep c (fire c)
| step_result c r results :
    p_main c = MLoop → p_results c = r :: results →
    pstep c (select_result r results c)
| step_timeout c :
    p_main c = MLoop → p_timer c = TimerFired →
    pstep c (select_timeout c)
| step_drain c r results :
    p_main c = MAfter → computeInfo = true → (p_count c < n)%nat → p_results c = r :: results →
    pstep c (drain_result results c)
| step_return c info :
    p_main c = MAfter → (computeInfo = true → (n ≤ p_count c)%nat) → make_info c info →
    pstep c (set_main c (MDone (verdict c) info)).

(** [checkParallel] may return [res] with [info]. *)
Definition checkParallel (res : CheckResult) (info : linearizationInfo V) : Prop :=
  ∃ c, rtc pstep checkParallel_init c ∧ p_main c = MDone res info.

End parallel.

(** ** The entry points (checker.go, porcupine.go)

    [Partition] may panic; [l[i]] are the entries of the partitions. *)
Section entry_points.
Context {V St : Type} `{EqDecision St, FmtV V, FmtV St}.
Implicit Types (model : Model V St) (timeout : Z).

Definition checkOperations `{GoSort} model (history : list (Operation V)) (verbose : bool) timeout
    (res : CheckResult) (info : linearizationInfo V) : Prop :=
  let model := fillDefault model in
  ∃ partitions, Partition model history = Ret partitions ∧
    let l := makeEntries <$> partitions in
    checkParallel model l verbose timeout res info.

Definition checkEvents model (history : list (Event V)) (verbose : bool) timeout
    (res : CheckResult) (info : linearizationInfo V) : Prop :=
  let model := fillDefault model in
  ∃ partitions, PartitionEvent model history = Ret partitions ∧
    let l := (λ subhistory, convertEntries (renumber subhistory)) <$> partitions in
    checkParallel model l verbose timeout res info.

Definition CheckOperations `{GoSort} model (history : list (Operation V)) (b : bool) : Prop :=
  ∃ res info, checkOperations model history false 0 res info ∧ b = bool_decide (res = Ok).

Definition CheckOperationsTimeout `{GoSort} model (history : list (Operation V)) timeout
    (res : CheckResult) : Prop :=
  ∃ info, checkOperations model history false timeout res info.

Definition CheckOperationsVerbose `{GoSort} model (history : list (Operation V)) timeout
    (res : CheckResult) (info : linearizationInfo V) : Prop :=
  checkOperations model history true timeout res info.

Definition CheckEvents model (history : list (Event V)) (b : bool) : Prop :=
  ∃ res info, checkEvents model history false 0 res info ∧ b = bool_decide (res = Ok).

Definition CheckEventsTimeout model (history : list (Event V)) timeout (res : CheckResult) : Prop :=
  ∃ info, checkEvents model history false timeout res info.

Definition CheckEventsVerbose model (history : list (Event V)) timeout
    (res : CheckResult) (info : linearizationInfo V) : Prop :=
  checkEvents model history true timeout res info.

End entry_points.
