(* ===== verification/ParallelProof.v ===== *)
(** * The concurrent checker: safety, progress and termination

    The invariant of [pstep]: every goroutine still has an answer to give
    within a known number of steps ([run_ok]), the answers given so far are
    those of the partitions ([sent_ok]), and the local variables of the caller
    follow from the answers it has received ([caller_ok]).  The number of
    steps left bounds every execution; while the caller has not returned, some
    step is possible. *)
From stdpp Require Import base gmap sets numbers sorting list relations.
From S2P Require Import Prelude Bitset Model Linearizability NodeList Checker ListSearch.
From S2P Require Import ListSearchProof CheckerProof Operations KvModel KvSpec Parallel.
Local Open Scope Z_scope.
Local Open Scope go_scope.

Section parallel_proof.
Context {V St : Type} (model : FullModel V St) (equiv : relation St) `{!ModelSpec model equiv}.
Context (history : list (list (entry V))) (computeInfo : bool) (timeout : Z).
Context (Hok : ∀ i h, history !! i = Some h → history_ok model h).
Implicit Types (c d : pstate V St) (g : goroutine V St) (h : list (entry V)) (m i : nat).
Abbreviation n := (length history).
Abbreviation lin h := (linearizable (Step model) h (Init model)).
Abbreviation pstep := (pstep model history computeInfo).
Abbreviation init := (@checkParallel_init V St history timeout).

(** ** What a goroutine answers *)

Definition partials_legal h (l : partials) : Prop :=
  partials_ok (zlen h / 2) (partial_linearization (Step model) h (Init model)) l.

(** The answer of [checkSingle], where [killed] says that the flag may have
    been seen. *)
Definition answer h (killed : Prop) (b : bool) (l : partials) : Prop :=
  (b = true → lin h) ∧ (b = false → killed ∨ ¬ lin h) ∧ partials_legal h l.

Lemma answer_mono h (P Q : Prop) b l : (P → Q) → answer h P b l → answer h Q b l.
Proof. unfold answer. intuition. Qed.

(** The loop answers within [m] iterations, however the flag is set. *)
Definition run_ok h m (headEntry : option loc) (s : search_st (V := V) (St := St)) : Prop :=
  ∀ kill, ∃ b l,
    checkSingle_loop model m computeInfo headEntry kill s = Ret (b, l) ∧
    answer h (∃ k, kill k = true) b l.

Lemma run_ok_init h :
  history_ok model h →
  ∃ headEntry s, checkSingle_init model h = Ret (headEntry, s) ∧
    run_ok h (search_fuel h) headEntry s.
Proof.
  intros Hh. destruct (checkSingle_start model h Hh) as (s & _ & Hs).
  exists (Some (length h)), s. split; [done|]. intros kill.
  destruct (checkSingle_result model equiv h Hh (search_fuel h) computeInfo kill) as (b & l & Hc & ?);
    [done|].
  exists b, l. split; [|done]. unfold checkSingle in Hc. by rewrite Hs in Hc.
Qed.

Lemma killed_iter headEntry s s' :
  checkSingle_iter model computeInfo headEntry true s ≠ Ret (inl s').
Proof.
  unfold checkSingle_iter, checkSingle_body. destruct s. intros Hit.
  destruct (load _ _) as [nd| |]; try discriminate Hit. cbn [obind] in Hit.
  destruct (n_next nd); [discriminate Hit|]. by destruct (call_ids _ _).
Qed.

(** One iteration leaves a loop with fewer iterations to go, or answers. *)
Lemma run_ok_step h m headEntry s (killed : bool) :
  run_ok h m headEntry s →
  ∃ m' r, m = S m' ∧ checkSingle_iter model computeInfo headEntry killed s = Ret r ∧
    match r with
    | inl s' => run_ok h m' headEntry s'
    | inr (b, l) => answer h (killed = true) b l
    end.
Proof.
  intros Hrun. destruct m as [|m].
  { by destruct (Hrun (λ _, false)) as (b & l & ? & _). }
  exists m. destruct (Hrun (λ _, killed)) as (b & l & Hloop & Hans). cbn [checkSingle_loop] in Hloop.
  destruct (checkSingle_iter _ _ _ _ _) as [[s'|[b' l']]| |] eqn:Hit; try discriminate Hloop.
  - exists (inl s'). split_and!; [done..|]. destruct killed.
    + by apply killed_iter in Hit.
    + intros kill. destruct (Hrun (λ k, match k with O => false | S k => kill k end)) as (b2 & l2 & Hl2 & Ha2).
      cbn [checkSingle_loop] in Hl2. rewrite Hit in Hl2. exists b2, l2. split; [done|].
      eapply answer_mono; [|done]. intros [[|k] Hk]; [done|by exists k].
  - exists (inr (b', l')). split_and!; [done..|]. simpl in Hloop. simplify_eq.
    eapply answer_mono; [|done]. by intros [_ ?].
Qed.

(** A goroutine with [m] steps to go. *)
Definition go_ok h (kill : bool) (lg : option partials) g m : Prop :=
  match g with
  | GStart => m = (search_fuel h + 3)%nat
  | GRun headEntry s => ∃ m', run_ok h m' headEntry s ∧ m = (m' + 2)%nat
  | GWrite ok l => answer h (kill = true) ok l ∧ m = 2%nat
  | GSend ok => ∃ l, lg = Some l ∧ answer h (kill = true) ok l ∧ m = 1%nat
  | GExit => ∃ ok l, lg = Some l ∧ answer h (kill = true) ok l ∧ m = 0%nat
  end.

Lemma go_ok_kill h k1 k2 lg g m :
  (k1 = true → k2 = true) → go_ok h k1 lg g m → go_ok h k2 lg g m.
Proof.
  intros Hk. destruct g; simpl; [done|done| | |].
  - intros [? ->]. split; [|done]. by eapply answer_mono.
  - intros (l & -> & ? & ->). exists l. split_and!; [done| |done]. by eapply answer_mono.
  - intros (ok & l & -> & ? & ->). exists ok, l. split_and!; [done| |done]. by eapply answer_mono.
Qed.

Lemma go_step_ok h kill lg g m :
  history_ok model h → searching g = true → go_ok h kill lg g m →
  ∃ g' m', go_step model computeInfo kill h g = Ret g' ∧ go_ok h kill lg g' m' ∧
    (m' < m)%nat ∧ g' ≠ GExit.
Proof.
  intros Hh Hs. destruct g as [|hd s| | |]; simpl; try discriminate Hs.
  - intros ->. destruct (run_ok_init h Hh) as (hd & s & -> & Hrun). simpl.
    exists (GRun hd s), (search_fuel h + 2)%nat. split_and!; [done| |lia|done]. by exists (search_fuel h).
  - intros (m' & Hrun & ->). destruct (run_ok_step _ _ _ _ kill Hrun) as (k & r & -> & -> & Hr). simpl.
    destruct r as [s'|[b l]].
    + exists (GRun hd s'), (k + 2)%nat. split_and!; [done| |lia|done]. by exists k.
    + exists (GWrite b l), 2%nat. split_and!; [done|done|lia|done].
Qed.

Lemma go_step_not_exit kill h g g' :
  searching g = true → go_step model computeInfo kill h g = Ret g' → g' ≠ GExit.
Proof.
  destruct g as [|hd s| | |]; simpl; try done; intros _;
    [destruct (checkSingle_init _ _) as [[??]| |]
    |destruct (checkSingle_iter _ _ _ _ _) as [[?|[??]]| |]]; simpl; congruence.
Qed.

(** ** The invariant *)

(** What was sent, with the senders: the received and the buffered results. *)
Record sent_ok c (rcv que : list (nat * bool)) : Prop := {
  so_nodup : NoDup (rcv ++ que).*1;
  so_exit : ∀ i, i ∈ (rcv ++ que).*1 ↔ p_gos c !! i = Some GExit;
  so_true : ∀ i h, (i, true) ∈ rcv ++ que → history !! i = Some h → lin h;
  so_false : ∀ i h, (i, false) ∈ rcv ++ que → history !! i = Some h → p_kill c = true ∨ ¬ lin h;
  so_queue : p_results c = que.*2;
  so_count : p_count c = length rcv;
}.

Definition some_illegal : Prop := ∃ i h, history !! i = Some h ∧ ¬ lin h.
Definition all_linearizable : Prop := ∀ i h, history !! i = Some h → lin h.

(** The variables of the caller after the loop. *)
Record verdict_ok (ok timedOut : bool) : Prop := {
  vo_false : ok = false → some_illegal;
  vo_true : ok = true → timedOut = false → all_linearizable;
  vo_timedOut : timedOut = true → 0 < timeout;
}.

Definition infos_legal (info : linearizationInfo V) : Prop :=
  if computeInfo then
    info_history info = history ∧
    Forall2 (λ h ps, Forall (partial_linearization (Step model) h (Init model)) ps)
      history (info_partialLinearizations info)
  else info = MkInfo [] [].

Definition caller_ok c (rcv : list (nat * bool)) : Prop :=
  match p_main c with
  | MLoop =>
      p_kill c = false ∧ p_timedOut c = false ∧ (p_count c < n ∨ p_count c = 0)%nat ∧
      (p_ok c = true → Forall (λ x, x.2 = true) rcv) ∧
      (p_ok c = false → some_illegal ∧ computeInfo = true)
  | MAfter => verdict_ok (p_ok c) (p_timedOut c)
  | MDone res info =>
      ∃ ok timedOut, verdict_ok ok timedOut ∧
        res = (if negb ok then Illegal else if timedOut then Unknown else Ok) ∧
        infos_legal info
  | MCrash => False
  end.

Definition timer_left (t : timer) : nat := match t with TimerArmed => 1 | _ => 0 end.

Definition caller_left c : nat :=
  match p_main c with
  | MLoop => n - p_count c + 2
  | MAfter => n - p_count c + 1
  | _ => 0
  end.

(** A state with [m] steps to go at most. *)
Record inv c m : Prop := {
  inv_len : length (p_gos c) = n;
  inv_longest : length (p_longest c) = n;
  inv_gos : ∃ ms, length ms = n ∧
    (∀ i h g k lg, history !! i = Some h → p_gos c !! i = Some g → ms !! i = Some k →
      p_longest c !! i = Some lg → go_ok h (p_kill c) lg g k) ∧
    m = (sum_list ms + timer_left (p_timer c) + caller_left c)%nat;
  inv_sent : ∃ rcv que, sent_ok c rcv que ∧ caller_ok c rcv;
  inv_timer : p_timer c ≠ TimerNil ↔ 0 < timeout;
}.

(** ** Steps keep the invariant *)

Lemma inv_init : ∃ m, inv init m.
Proof.
  set (ms := (λ h, search_fuel h + 3)%nat <$> history).
  exists (sum_list ms + timer_left (p_timer init) + caller_left init)%nat. split.
  - apply length_replicate.
  - apply length_replicate.
  - exists ms. split_and!; [apply length_fmap| |done].
    intros i h g k lg Hh Hg Hk _. simpl in Hg. apply lookup_replicate in Hg as [-> _].
    unfold ms in Hk. rewrite list_lookup_fmap, Hh in Hk. by injection Hk as <-.
  - exists [], []. split.
    + split; simpl; try done; [constructor| | |].
      * intros i. rewrite lookup_replicate. split; [by intros ?%not_elem_of_nil|]. by intros [? _].
      * by intros i h ?%not_elem_of_nil.
      * by intros i h ?%not_elem_of_nil.
    + simpl. split_and!; [done|done|by right|done|done].
  - simpl. by case_bool_decide.
Qed.

(** A step of goroutine [i] that neither starts nor ends a goroutine's place
    in the channel. *)
Lemma inv_go c c' m i h g g' :
  inv c m → history !! i = Some h → p_gos c !! i = Some g → g ≠ GExit → g' ≠ GExit →
  (∀ k lg, p_longest c !! i = Some lg → go_ok h (p_kill c) lg g k →
    ∃ k' lg', (k' < k)%nat ∧ go_ok h (p_kill c) lg' g' k' ∧ p_longest c' = <[i := lg']> (p_longest c)) →
  p_gos c' = <[i := g']> (p_gos c) → p_results c' = p_results c → p_kill c' = p_kill c →
  p_timer c' = p_timer c → p_ok c' = p_ok c → p_timedOut c' = p_timedOut c →
  p_count c' = p_count c → p_main c' = p_main c →
  ∃ m', inv c' m' ∧ (m' < m)%nat.
Proof.
  intros [Hlen Hlong (ms & Hms & Hgos & ->) (rcv & que & Hsent & Hcall) Htim] Hh Hg HgE Hg'E Hstep
    Hgos' Hres Hkill Ht Hpok Hto Hcnt Hmain.
  destruct (lookup_lt_is_Some_2 ms i) as [k Hk]; [by rewrite Hms; eapply lookup_lt_Some|].
  destruct (lookup_lt_is_Some_2 (p_longest c) i) as [lg Hlg]; [by rewrite Hlong; eapply lookup_lt_Some|].
  pose proof (Hgos i h g k lg Hh Hg Hk Hlg) as Hgi.
  destruct (Hstep k lg Hlg Hgi) as (k' & lg' & Hlt & Hgi' & Hlong').
  pose proof (sum_list_insert ms i k k' Hk) as Hsum.
  exists (sum_list (<[i:=k']> ms) + timer_left (p_timer c) + caller_left c)%nat. split; [|lia]. split.
  - by rewrite Hgos', length_insert.
  - by rewrite Hlong', length_insert.
  - exists (<[i:=k']> ms). split_and!; [by rewrite length_insert| |].
    + rewrite Hgos', Hlong', Hkill. intros j hj gj kj lgj Hhj.
      rewrite !list_lookup_insert_Some.
      intros [(<- & <- & _)|(Hij & Hgj)]; intros [(? & <- & _)|(? & Hkj)];
        intros [(? & <- & _)|(? & Hlgj)]; try done.
      * by simplify_eq.
      * by eapply Hgos.
    + unfold caller_left. by rewrite Ht, Hmain, Hcnt.
  - exists rcv, que. split.
    + destruct Hsent as [Hnd Hex Htr Hfa Hq Hc]. split; try done; [|by rewrite Hkill|congruence..].
      intros j. rewrite Hex, Hgos', list_lookup_insert_Some. split.
      * intros Hj. right. split; [congruence|done].
      * intros [(_ & ? & _)|[_ ?]]; [congruence|done].
    + unfold caller_ok in *. by rewrite Hmain, Hkill, Hto, Hcnt, Hpok.
  - by rewrite Ht.
Qed.

Lemma inv_search c m i g h g' :
  inv c m → p_gos c !! i = Some g → searching g = true → history !! i = Some h →
  go_step model computeInfo (p_kill c) h g = Ret g' →
  ∃ m', inv (set_go c i g') m' ∧ (m' < m)%nat.
Proof.
  intros Hinv Hg Hs Hh Hstep.
  pose proof (go_step_not_exit _ _ _ _ Hs Hstep) as Hg'.
  eapply inv_go; try done; [by destruct g| ].
  intros k lg Hlg Hgi.
  destruct (go_step_ok h _ lg g k (Hok i h Hh) Hs Hgi) as (g2 & k' & Hstep' & Hgi' & Hlt & _).
  exists k', lg. replace g' with g2 by congruence. split_and!; [done..|]. simpl. by rewrite list_insert_id.
Qed.

Lemma inv_write c m i ok l :
  inv c m → p_gos c !! i = Some (GWrite ok l) →
  ∃ m', inv (write_longest c i ok l) m' ∧ (m' < m)%nat.
Proof.
  intros Hinv Hg.
  destruct (lookup_lt_is_Some_2 history i) as [h Hh].
  { rewrite <-(inv_len _ _ Hinv). by eapply lookup_lt_Some. }
  eapply (inv_go c _ m i h _ (GSend ok)); try done. intros k lg Hlg (Ha & ->).
  exists 1%nat, (Some l). split_and!; [lia|by exists l|done].
Qed.

(** ** The channel *)

Lemma sent_submseteq c rcv que :
  length (p_gos c) = n → sent_ok c rcv que → (rcv ++ que).*1 ⊆+ seq 0 n.
Proof.
  intros Hlen Hs. apply NoDup_submseteq; [apply Hs|]. intros i Hi.
  apply (so_exit _ _ _ Hs), lookup_lt_Some in Hi. rewrite elem_of_seq. lia.
Qed.

Lemma sent_length c rcv que :
  length (p_gos c) = n → sent_ok c rcv que → (length rcv + length que ≤ n)%nat.
Proof.
  intros Hlen Hs. pose proof (submseteq_length _ _ (sent_submseteq _ _ _ Hlen Hs)) as H.
  by rewrite length_fmap, length_app, length_seq in H.
Qed.

(** When the caller has received [n] results, it has them all. *)
Lemma received_all c rcv que i :
  length (p_gos c) = n → sent_ok c rcv que → (n ≤ length rcv)%nat → (i < n)%nat →
  que = [] ∧ i ∈ rcv.*1.
Proof.
  intros Hlen Hs Hn Hi. pose proof (sent_submseteq _ _ _ Hlen Hs) as Hsub.
  assert (que = []) as ->.
  { pose proof (sent_length _ _ _ Hlen Hs). destruct que; [done|simpl in *; lia]. }
  rewrite app_nil_r in *. split; [done|].
  rewrite (submseteq_length_Permutation _ _ Hsub).
  - rewrite elem_of_seq. lia.
  - by rewrite length_fmap, length_seq.
Qed.

Lemma received_true c rcv que :
  length (p_gos c) = n → sent_ok c rcv que → (n ≤ length rcv)%nat →
  Forall (λ x, x.2 = true) rcv → all_linearizable.
Proof.
  intros Hlen Hs Hn Hall i h Hh.
  destruct (received_all _ _ _ i Hlen Hs Hn) as [-> Hi]; [by eapply lookup_lt_Some|].
  apply list_elem_of_fmap in Hi as ([j b] & -> & Hin).
  rewrite Forall_forall in Hall. pose proof (Hall _ Hin) as Hb. simpl in Hb. subst b.
  eapply (so_true _ _ _ Hs); [|done]. by rewrite app_nil_r.
Qed.

(** A received result moves from the buffer to the caller. *)
Lemma sent_receive c d rcv que r results :
  sent_ok c rcv que → p_results c = r :: results →
  p_gos d = p_gos c → p_results d = results → p_count d = S (p_count c) →
  (p_kill c = true → p_kill d = true) →
  ∃ j que', que = (j, r) :: que' ∧ sent_ok d (rcv ++ [(j, r)]) que'.
Proof.
  intros [Hnd Hex Htr Hfa Hq Hc] Hr Hgos Hres Hcnt Hk. rewrite Hr in Hq.
  destruct que as [|[j r'] que']; [done|]. injection Hq as <- ->.
  exists j, que'. split; [done|].
  split; rewrite <-?app_assoc; simpl; [done|by rewrite Hgos|done| |done|].
  - intros i h Hi Hh. destruct (Hfa i h Hi Hh); auto.
  - rewrite length_app. simpl. lia.
Qed.

Lemma gos_kill c d (ms : list nat) :
  p_gos d = p_gos c → p_longest d = p_longest c → (p_kill c = true → p_kill d = true) →
  (∀ i h g k lg, history !! i = Some h → p_gos c !! i = Some g → ms !! i = Some k →
    p_longest c !! i = Some lg → go_ok h (p_kill c) lg g k) →
  (∀ i h g k lg, history !! i = Some h → p_gos d !! i = Some g → ms !! i = Some k →
    p_longest d !! i = Some lg → go_ok h (p_kill d) lg g k).
Proof. intros -> -> Hk H i h g k lg Hh Hg Hm Hl. eapply go_ok_kill; [exact Hk|by eapply H]. Qed.

Lemma inv_send c m i ok :
  inv c m → p_gos c !! i = Some (GSend ok) →
  ∃ m', inv (send_result c i ok) m' ∧ (m' < m)%nat.
Proof.
  intros [Hlen Hlong (ms & Hms & Hgos & ->) (rcv & que & Hsent & Hcall) Htim] Hg.
  assert (i < n)%nat as Hi by (rewrite <-Hlen; by eapply lookup_lt_Some).
  destruct (lookup_lt_is_Some_2 history i Hi) as [h Hh].
  destruct (lookup_lt_is_Some_2 ms i) as [k Hk]; [by rewrite Hms|].
  destruct (lookup_lt_is_Some_2 (p_longest c) i) as [lg Hlg]; [by rewrite Hlong|].
  destruct (Hgos i h _ k lg Hh Hg Hk Hlg) as (l & -> & Ha & ->).
  pose proof (sum_list_insert ms i _ O Hk) as Hsum.
  exists (sum_list (<[i:=O]> ms) + timer_left (p_timer c) + caller_left c)%nat. split; [|lia].
  split; [by simpl; rewrite length_insert|done| | |done].
  - exists (<[i:=O]> ms). split_and!; [by rewrite length_insert| |done].
    intros j hj gj kj lgj Hhj. simpl. rewrite !list_lookup_insert_Some.
    intros [(<- & <- & _)|(Hij & Hgj)] [(? & <- & _)|(? & Hkj)] Hlgj; try done; [|by eapply Hgos].
    simplify_eq. by exists ok, l.
  - exists rcv, (que ++ [(i, ok)]). split; [|exact Hcall].
    destruct Hsent as [Hnd Hex Htr Hfa Hq Hc].
    assert (i ∉ (rcv ++ que).*1) as Hni by (rewrite Hex; congruence).
    split; rewrite ?app_assoc; simpl.
    + rewrite fmap_app. apply NoDup_app. split_and!; [done| |repeat constructor; set_solver].
      intros x Hx. simpl. set_solver.
    + intros j. rewrite fmap_app, elem_of_app, Hex, list_lookup_insert_Some. simpl.
      rewrite list_elem_of_singleton, Hlen. split.
      * intros [Hj| ->]; [|by left]. right. split; [congruence|done].
      * intros [(<- & _)|[_ ?]]; [by right|by left].
    + intros j hj [Hj|Hj%list_elem_of_singleton]%elem_of_app Hhj; [by eapply Htr|].
      simplify_eq. by apply Ha.
    + intros j hj [Hj|Hj%list_elem_of_singleton]%elem_of_app Hhj; [by eapply Hfa|].
      simplify_eq. by apply Ha.
    + by rewrite fmap_app, Hq.
    + done.
Qed.

Lemma inv_fire c m :
  inv c m → p_timer c = TimerArmed → ∃ m', inv (fire c) m' ∧ (m' < m)%nat.
Proof.
  intros [Hlen Hlong (ms & Hms & Hgos & ->) (rcv & que & [] & Hcall) Htim] Ht.
  exists (sum_list ms + 0 + caller_left c)%nat. rewrite Ht in *. split; [|simpl; lia].
  split; [done|done| | |by rewrite <-Htim].
  - by exists ms.
  - exists rcv, que. by split; [|exact Hcall].
Qed.

Lemma inv_timeout c m :
  inv c m → p_main c = MLoop → p_timer c = TimerFired →
  ∃ m', inv (select_timeout c) m' ∧ (m' < m)%nat.
Proof.
  intros [Hlen Hlong (ms & Hms & Hgos & ->) (rcv & que & [] & Hcall) Htim] Hm Ht.
  exists (sum_list ms + timer_left (p_timer c) + (n - p_count c + 1))%nat.
  split; [|unfold caller_left; rewrite Hm; lia].
  split; [done|done| | |done].
  - exists ms. split_and!; [done| |done]. by apply (gos_kill c).
  - exists rcv, que. split; [split; naive_solver|].
    unfold caller_ok in *. rewrite Hm in Hcall. simpl. destruct Hcall as (_ & _ & _ & _ & Hf).
    split; [naive_solver|done|]. intros _. apply Htim. by rewrite Ht.
Qed.

Lemma inv_result c m r results :
  inv c m → p_main c = MLoop → p_results c = r :: results →
  ∃ m', inv (select_result history computeInfo r results c) m' ∧ (m' < m)%nat.
Proof.
  intros [Hlen Hlong (ms & Hms & Hgos & ->) (rcv & que & Hsent & Hcall) Htim] Hm Hr.
  set (d := select_result history computeInfo r results c).
  destruct (sent_receive c d rcv que r results Hsent Hr) as (j & que' & -> & Hsent'); try done.
  { simpl. by destruct (_ && _). }
  pose proof (sent_length _ _ _ Hlen Hsent) as Hbound. simpl in Hbound.
  pose proof (so_count _ _ _ Hsent) as Hcnt.
  assert (j < n)%nat as Hj.
  { rewrite <-Hlen. eapply lookup_lt_Some, (so_exit _ _ _ Hsent).
    rewrite fmap_app, elem_of_app. right. left. }
  destruct (lookup_lt_is_Some_2 history j Hj) as [h Hh].
  unfold caller_ok in Hcall. rewrite Hm in Hcall.
  destruct Hcall as (Hkill & Hto & _ & Htrue & Hfalse).
  assert (p_ok c && r = false → some_illegal) as Hill.
  { intros [Hp| ->]%andb_false_iff; [by apply Hfalse|]. exists j, h. split; [done|].
    destruct (so_false _ _ _ Hsent j h) as [?|?]; [set_solver|done|congruence|done]. }
  assert (p_ok c && r = true → Forall (λ x, x.2 = true) (rcv ++ [(j, r)])) as Hall.
  { intros [Hp ->]%andb_true_iff. apply Forall_app. split; [by apply Htrue|by constructor]. }
  exists (sum_list ms + timer_left (p_timer c) + caller_left d)%nat. split.
  - split; [done|done| | |done].
    + exists ms. split_and!; [done| |done]. apply (gos_kill c); [done..| |done].
      simpl. intros ->. by case_match.
    + exists (rcv ++ [(j, r)]), que'. split; [done|]. unfold caller_ok. simpl.
      destruct (p_ok c && r) eqn:Hokr; simpl.
      * case_bool_decide as Hn.
        -- split; [done| |congruence]. intros _ _. eapply received_true; [|done| |by apply Hall]; [done|].
           rewrite length_app. simpl. lia.
        -- split_and!; [done|done|lia|intros _; by apply Hall|done].
      * destruct computeInfo eqn:Hci; simpl.
        -- case_bool_decide as Hn; [split; [intros _; by apply Hill|done|congruence]|].
           split_and!; [done|done|lia|done|intros _; split; [by apply Hill|done]].
        -- split; [intros _; by apply Hill|done|congruence].
  - unfold caller_left. rewrite Hm. subst d. simpl. destruct (_ || _); lia.
Qed.

Lemma inv_drain c m r results :
  inv c m → p_main c = MAfter → (p_count c < n)%nat → p_results c = r :: results →
  ∃ m', inv (drain_result results c) m' ∧ (m' < m)%nat.
Proof.
  intros [Hlen Hlong (ms & Hms & Hgos & ->) (rcv & que & Hsent & Hcall) Htim] Hm Hn Hr.
  destruct (sent_receive c (drain_result results c) rcv que r results Hsent Hr)
    as (j & que' & -> & Hsent'); try done.
  exists (sum_list ms + timer_left (p_timer c) + caller_left (drain_result results c))%nat. split.
  - split; [done|done|by exists ms| |done].
    exists (rcv ++ [(j, r)]), que'. split; [done|].
    unfold caller_ok in *. simpl. by rewrite Hm in *.
  - unfold caller_left. simpl. rewrite Hm. lia.
Qed.

(** ** The linearizations that the caller returns *)

Lemma elem_of_pointer_set l k :
  k ∈ pointer_set (Some l) ↔ ∃ i, pt_longest l !! i = Some (Some k).
Proof.
  simpl. rewrite elem_of_list_to_set, list_elem_of_omap. split.
  - intros (x & Hx & Hk). simpl in Hk. subst x. by apply list_elem_of_lookup in Hx.
  - intros [i Hi]. exists (Some k). split; [by eapply list_elem_of_lookup_2|done].
Qed.

Lemma copy_partials_ok h l ks :
  partials_legal h l → ks ≡ₚ elements (pointer_set (Some l)) →
  ∃ ps, copy_partials (Some l) ks = Ret ps ∧
    Forall (partial_linearization (Step model) h (Init model)) ps.
Proof.
  intros Hl Hks. unfold copy_partials.
  destruct (mapM _ ks) as [ps|] eqn:Hm.
  - exists ps. split; [done|]. apply mapM_Some in Hm. apply Forall_forall. intros p Hp.
    apply list_elem_of_lookup in Hp as [i Hi].
    destruct (Forall2_lookup_r _ _ _ _ _ Hm Hi) as (k & _ & Hk).
    exact (Forall_lookup_1 _ _ _ _ (pto_seqs _ _ _ Hl) Hk).
  - exfalso. apply mapM_None in Hm. apply Exists_exists in Hm as (k & Hk & Hnone).
    rewrite Hks, elem_of_elements, elem_of_pointer_set in Hk. destruct Hk as [i Hi].
    destruct (pto_ptr _ _ _ Hl i k Hi) as (ids & Hids & _). simpl in Hnone. congruence.
Qed.

Lemma all_exited c m i h :
  inv c m → (n ≤ p_count c)%nat → history !! i = Some h →
  ∃ l, p_longest c !! i = Some (Some l) ∧ partials_legal h l.
Proof.
  intros [Hlen Hlong (ms & Hms & Hgos & ->) (rcv & que & Hsent & _) _] Hn Hh.
  rewrite (so_count _ _ _ Hsent) in Hn. pose proof (lookup_lt_Some _ _ _ Hh) as Hi.
  destruct (received_all _ _ _ i Hlen Hsent Hn Hi) as [-> Hin].
  rewrite <-(app_nil_r rcv), (so_exit _ _ _ Hsent) in Hin.
  destruct (lookup_lt_is_Some_2 ms i) as [k Hk]; [by rewrite Hms|].
  destruct (lookup_lt_is_Some_2 (p_longest c) i) as [lg Hlg]; [by rewrite Hlong|].
  destruct (Hgos i h _ k lg Hh Hin Hk Hlg) as (ok & l & -> & (_ & _ & Hl) & _). by exists l.
Qed.

Lemma inv_return c m info :
  inv c m → p_main c = MAfter → (computeInfo = true → (n ≤ p_count c)%nat) →
  make_info history computeInfo c info →
  ∃ m', inv (set_main c (MDone (verdict c) info)) m' ∧ (m' < m)%nat.
Proof.
  intros Hinv Hm Hn Hinfo.
  assert (infos_legal info) as Hlegal.
  { unfold infos_legal, make_info in *. destruct computeInfo; [|done].
    destruct Hinfo as [-> Hps]. split; [done|]. unfold partialLinearizations_of in Hps.
    apply Forall2_same_length_lookup_2.
    - by rewrite <-(Forall2_length _ _ _ Hps), (inv_longest _ _ Hinv).
    - intros i h ps Hh Hp. destruct (Forall2_lookup_r _ _ _ _ _ Hps Hp) as (lg & Hlg & ks & Hks & Hcp).
      destruct (all_exited c m i h Hinv (Hn eq_refl) Hh) as (l & Hl & Hpl).
      assert (lg = Some l) as -> by congruence.
      destruct (copy_partials_ok h l ks Hpl Hks) as (ps' & Hcp' & ?). congruence. }
  destruct Hinv as [Hlen Hlong (ms & Hms & Hgos & ->) (rcv & que & [] & Hcall) Htim].
  exists (sum_list ms + timer_left (p_timer c) + 0)%nat.
  split; [|unfold caller_left; rewrite Hm; lia]. split; [done|done|by exists ms| |done].
  exists rcv, que. split; [by split|]. unfold caller_ok in *. rewrite Hm in Hcall. simpl.
  by exists (p_ok c), (p_timedOut c).
Qed.

Lemma inv_step c d m : inv c m → pstep c d → ∃ m', inv d m' ∧ (m' < m)%nat.
Proof.
  intros Hinv Hstep. destruct Hstep.
  - by eapply inv_search.
  - exfalso. destruct Hinv as [Hlen Hlong (ms & Hms & Hgos & ->) _ _].
    assert (i < n)%nat by (by eapply lookup_lt_Some).
    destruct (lookup_lt_is_Some_2 ms i) as [k Hk]; [by rewrite Hms|].
    destruct (lookup_lt_is_Some_2 (p_longest c) i) as [lg Hlg]; [by rewrite Hlong|].
    destruct (go_step_ok h (p_kill c) lg g k) as (g' & m' & Hg' & _); [by eapply Hok|done|by eapply Hgos|].
    congruence.
  - by eapply inv_write.
  - by apply inv_send.
  - by apply inv_fire.
  - by apply inv_result.
  - by apply inv_timeout.
  - by eapply inv_drain.
  - by apply inv_return.
Qed.

Lemma inv_reachable c : rtc pstep init c → ∃ m, inv c m.
Proof.
  intros Hr. destruct inv_init as [m Hm]. revert m Hm.
  induction Hr as [c|c d e Hs Hr IH]; intros m Hm; [by exists m|].
  destruct (inv_step _ _ _ Hm Hs) as (m' & Hm' & _). by eapply IH.
Qed.

(** ** Progress *)

Lemma go_progress c m i :
  inv c m → (i < n)%nat → p_gos c !! i ≠ Some GExit → ∃ d, pstep c d.
Proof.
  intros Hinv Hi Hg. pose proof Hinv as [Hlen Hlong (ms & Hms & Hgos & ->) (rcv & que & Hsent & _) _].
  destruct (lookup_lt_is_Some_2 history i Hi) as [h Hh].
  destruct (lookup_lt_is_Some_2 (p_gos c) i) as [g Hgi]; [by rewrite Hlen|].
  destruct (lookup_lt_is_Some_2 ms i) as [k Hk]; [by rewrite Hms|].
  destruct (lookup_lt_is_Some_2 (p_longest c) i) as [lg Hlg]; [by rewrite Hlong|].
  destruct (searching g) eqn:Hs.
  - destruct (go_step_ok h (p_kill c) lg g k) as (g' & m' & Hg' & _); [by eapply Hok|done|by eapply Hgos|].
    eexists. by eapply step_search.
  - destruct g as [| |ok l|ok|]; try discriminate Hs; [| |done].
    + eexists. by eapply step_write.
    + eexists. eapply step_send; [done|]. rewrite (so_queue _ _ _ Hsent), length_fmap.
      assert (i :: (rcv ++ que).*1 ⊆+ seq 0 n) as Hsub.
      { apply NoDup_submseteq.
        - apply NoDup_cons. split; [|apply Hsent]. rewrite (so_exit _ _ _ Hsent). congruence.
        - intros x [->|Hx]%elem_of_cons; [rewrite elem_of_seq; lia|].
          by eapply elem_of_submseteq, sent_submseteq. }
      apply submseteq_length in Hsub. simpl in Hsub.
      rewrite length_fmap, length_app, length_seq in Hsub. lia.
Qed.

Lemma info_exists c m :
  inv c m → (computeInfo = true → (n ≤ p_count c)%nat) → ∃ info, make_info history computeInfo c info.
Proof.
  intros Hinv Hn. unfold make_info. destruct computeInfo; [|by exists (MkInfo [] [])].
  assert (∀ i lg, p_longest c !! i = Some lg →
    ∃ p, ∃ ks, ks ≡ₚ elements (pointer_set lg) ∧ copy_partials lg ks = Ret p) as Hps.
  { intros i lg Hlg. destruct (lookup_lt_is_Some_2 history i) as [h Hh].
    { rewrite <-(inv_longest _ _ Hinv). by eapply lookup_lt_Some. }
    destruct (all_exited c m i h Hinv (Hn eq_refl) Hh) as (l & Hl & Hpl).
    destruct (copy_partials_ok h l (elements (pointer_set (Some l))) Hpl) as (p & Hp & _); [done|].
    assert (lg = Some l) as -> by congruence. exists p, (elements (pointer_set (Some l))). done. }
  assert (∃ ps, partialLinearizations_of (p_longest c) ps) as [ps Hp]; [|by exists (MkInfo history ps)].
  clear Hinv Hn. unfold partialLinearizations_of.
  induction (p_longest c) as [|lg lgs IH]; [by exists []|].
  destruct (Hps O lg eq_refl) as [p Hp]. destruct IH as [ps Hpss]; [intros i; apply (Hps (S i))|].
  exists (p :: ps). by constructor.
Qed.

Lemma queue_nonempty c m :
  inv c m → (p_count c < n)%nat → (∀ i, (i < n)%nat → p_gos c !! i = Some GExit) →
  ∃ r results, p_results c = r :: results.
Proof.
  intros [Hlen Hlong _ (rcv & que & Hsent & _) _] Hn Hall.
  assert (seq 0 n ⊆+ (rcv ++ que).*1) as Hsub.
  { apply NoDup_submseteq; [apply NoDup_seq|]. intros i [_ Hi]%elem_of_seq.
    by apply (so_exit _ _ _ Hsent), Hall. }
  apply submseteq_length in Hsub. rewrite length_fmap, length_app, length_seq in Hsub.
  rewrite (so_count _ _ _ Hsent) in Hn. rewrite (so_queue _ _ _ Hsent).
  destruct que as [|[j r] que]; simpl in *; [lia|]. by exists r, que.*2.
Qed.

Lemma exited_or_not c :
  (∀ i, (i < length (p_gos c))%nat → p_gos c !! i = Some GExit) ∨
  (∃ i, (i < length (p_gos c))%nat ∧ p_gos c !! i ≠ Some GExit).
Proof.
  induction (p_gos c) as [|g l IH]; [left; simpl; lia|].
  destruct g as [| | | |]; try (right; exists O; split; [simpl; lia|done]).
  destruct IH as [IH|(i & Hi & Hg)]; [left|right; exists (S i); simpl; split; [lia|done]].
  intros [|i] Hi; simpl in *; [done|]. apply IH. lia.
Qed.

Lemma progress c m :
  inv c m → (0 < n)%nat ∨ 0 < timeout → p_main c = MLoop ∨ p_main c = MAfter → ∃ d, pstep c d.
Proof.
  intros Hinv Hn Hm. pose proof (inv_len _ _ Hinv) as Hlen.
  destruct (exited_or_not c) as [Hall|(i & Hi & Hg)]; rewrite Hlen in *;
    [|by eapply go_progress].
  destruct Hm as [Hm|Hm].
  - destruct (decide (p_count c < n)%nat) as [Hc|Hc].
    { destruct (queue_nonempty _ _ Hinv Hc Hall) as (r & results & Hr).
      eexists. by eapply step_result. }
    assert (0 < timeout) as Ht.
    { destruct Hn as [Hn|]; [|done]. destruct (inv_sent _ _ Hinv) as (rcv & que & _ & Hcall).
      unfold caller_ok in Hcall. rewrite Hm in Hcall. lia. }
    apply (inv_timer _ _ Hinv) in Ht. destruct (p_timer c) eqn:Htm; [done| |].
    + eexists. by eapply step_fire.
    + eexists. by eapply step_timeout.
  - destruct (decide (computeInfo = true ∧ (p_count c < n)%nat)) as [[Hci Hc]|Hc].
    + destruct (queue_nonempty _ _ Hinv Hc Hall) as (r & results & Hr).
      eexists. by eapply step_drain.
    + assert (computeInfo = true → (n ≤ p_count c)%nat) as Hc' by (intros; lia || (destruct (decide (p_count c < n)%nat); [naive_solver|lia])).
      destruct (info_exists _ _ Hinv Hc') as [info Hinfo]. eexists. by eapply step_return.
Qed.

(** ** Termination and results *)

Lemma steps_bounded c m : inv c m → ∀ k d, nsteps pstep k c d → (k ≤ m)%nat.
Proof.
  intros Hinv k d Hk. revert m Hinv.
  induction Hk as [c|k c d e Hs Hk IH]; intros m Hinv; [lia|].
  destruct (inv_step _ _ _ Hinv Hs) as (m' & Hm' & Hlt). specialize (IH _ Hm'). lia.
Qed.

(** From a reachable state, the caller returns. *)
Lemma returns_from c m :
  inv c m → (0 < n)%nat ∨ 0 < timeout →
  ∃ d res info, rtc pstep c d ∧ p_main d = MDone res info.
Proof.
  intros Hinv Hn. revert c Hinv. induction (lt_wf m) as [m _ IH]. intros c Hinv.
  destruct (p_main c) as [| |res info|] eqn:Hm.
  1,2: destruct (progress c m Hinv Hn) as [d Hd]; [by rewrite Hm; auto|];
    destruct (inv_step _ _ _ Hinv Hd) as (m' & Hm' & Hlt);
    destruct (IH m' Hlt d Hm') as (e & res & info & He & Hres);
    exists e, res, info; split; [by eapply rtc_l|done].
  - by exists c, res, info.
  - destruct (inv_sent _ _ Hinv) as (rcv & que & _ & Hcall). unfold caller_ok in Hcall.
    by rewrite Hm in Hcall.
Qed.

(** What a returned verdict means. *)
Record result_ok (res : CheckResult) (info : linearizationInfo V) : Prop := {
  ro_Ok : res = Ok → all_linearizable;
  ro_Illegal : res = Illegal → some_illegal;
  ro_Unknown : res = Unknown → 0 < timeout;
  ro_info : infos_legal info;
}.

Lemma checkParallel_result res info :
  checkParallel model history computeInfo timeout res info → result_ok res info.
Proof.
  intros (c & Hr & Hm). destruct (inv_reachable _ Hr) as [m Hinv].
  destruct (inv_sent _ _ Hinv) as (rcv & que & _ & Hcall). unfold caller_ok in Hcall.
  rewrite Hm in Hcall. destruct Hcall as (ok & timedOut & [Hf Ht Hto] & -> & Hinfo).
  split; [| | |done]; destruct ok, timedOut; simpl; intros [=]; auto.
Qed.

End parallel_proof.

(** ** The theorems *)

(** C6: a verdict of [checkParallel] means what it says, whatever the
    interleaving: [Ok] that every partition is linearizable, [Illegal] that
    some partition is not, [Unknown] that there was a timeout to expire; and
    the partial linearizations it returns are legal for their partitions. *)
Theorem checkParallel_sound {V St : Type} (model : FullModel V St) (equiv : relation St)
    `{!ModelSpec model equiv} (history : list (list (entry V))) (computeInfo : bool) (timeout : Z)
    (res : CheckResult) (info : linearizationInfo V) :
  (∀ i h, history !! i = Some h → history_ok model h) →
  checkParallel model history computeInfo timeout res info →
  result_ok model history computeInfo timeout res info.
Proof. intros Hok. by eapply checkParallel_result. Qed.

(** C4: the caller and its goroutines run for a bounded number of steps under
    every schedule, no goroutine ever panics, and as long as the caller has not
    returned some step is possible: it always returns, provided that there is
    a partition or a timeout. *)
Theorem checkParallel_returns {V St : Type} (model : FullModel V St) (equiv : relation St)
    `{!ModelSpec model equiv} (history : list (list (entry V))) (computeInfo : bool) (timeout : Z) :
  (∀ i h, history !! i = Some h → history_ok model h) →
  (0 < length history)%nat ∨ 0 < timeout →
  ∃ N, ∀ k c, nsteps (pstep model history computeInfo) k (checkParallel_init history timeout) c →
    (k ≤ N)%nat ∧ p_main c ≠ MCrash ∧
    ((∃ res info, p_main c = MDone res info) ∨ ∃ d, pstep model history computeInfo c d).
Proof.
  intros Hok Hn. destruct (inv_init model history computeInfo timeout) as [N HN].
  exists N. intros k c Hk.
  split; [by eapply (steps_bounded model equiv history computeInfo timeout Hok)|].
  destruct (inv_reachable model equiv history computeInfo timeout Hok c) as [m Hm];
    [by eapply rtc_nsteps_2|].
  destruct (p_main c) as [| |res info|] eqn:Hmain.
  1,2: split; [done|]; right;
    by eapply (progress model equiv history computeInfo timeout Hok); [|done|rewrite Hmain; auto].
  - split; [done|]. left. by exists res, info.
  - destruct (inv_sent _ _ _ _ _ _ Hm) as (rcv & que & _ & Hcall). unfold caller_ok in Hcall.
    by rewrite Hmain in Hcall.
Qed.

Lemma checkParallel_run {V St : Type} (model : FullModel V St) (equiv : relation St)
    `{!ModelSpec model equiv} (history : list (list (entry V))) (computeInfo : bool) (timeout : Z) :
  (∀ i h, history !! i = Some h → history_ok model h) →
  (0 < length history)%nat ∨ 0 < timeout →
  ∃ res info, checkParallel model history computeInfo timeout res info.
Proof.
  intros Hok Hn. destruct (inv_init model history computeInfo timeout) as [N HN].
  destruct (returns_from model equiv history computeInfo timeout Hok _ N HN Hn)
    as (d & res & info & Hd & Hm).
  by exists res, info, d.
Qed.

Lemma checkParallel_Ok {V St : Type} (model : FullModel V St) (equiv : relation St)
    `{!ModelSpec model equiv} (history : list (list (entry V))) (computeInfo : bool) (timeout : Z)
    (res : CheckResult) (info : linearizationInfo V) :
  (∀ i h, history !! i = Some h → history_ok model h) → timeout ≤ 0 →
  checkParallel model history computeInfo timeout res info →
  res ≠ Unknown ∧ (res = Ok ↔ all_linearizable model history).
Proof.
  intros Hok Ht Hrun.
  destruct (checkParallel_result model equiv history computeInfo timeout Hok _ _ Hrun)
    as [HOk HIll HUnk _].
  assert (res ≠ Unknown) as Hres by (intros Hu%HUnk; lia). split; [done|]. split; [done|].
  intros Hall. destruct res; [done|done|]. destruct (HIll eq_refl) as (i & h & Hh & Hn).
  by destruct Hn; eapply Hall.
Qed.

(** C8: without a timeout and with at least one partition, [checkParallel]
    decides whether every partition is linearizable: it returns, and every
    execution returns [Ok] exactly when they all are. *)
Theorem checkParallel_decides {V St : Type} (model : FullModel V St) (equiv : relation St)
    `{!ModelSpec model equiv} (history : list (list (entry V))) (computeInfo : bool) (timeout : Z) :
  (∀ i h, history !! i = Some h → history_ok model h) → timeout ≤ 0 → (0 < length history)%nat →
  (∃ res info, checkParallel model history computeInfo timeout res info) ∧
  (∀ res info, checkParallel model history computeInfo timeout res info →
    res ≠ Unknown ∧ (res = Ok ↔ all_linearizable model history)).
Proof.
  intros Hok Ht Hn. split.
  - eapply checkParallel_run; [done|done|by left].
  - intros res info Hrun. by eapply checkParallel_Ok.
Qed.

Lemma no_partitions_stuck {V St : Type} (model : FullModel V St) (computeInfo : bool) (timeout : Z)
    (d : pstate V St) :
  timeout ≤ 0 → ¬ pstep model [] computeInfo (checkParallel_init [] timeout) d.
Proof.
  intros Ht. unfold checkParallel_init. rewrite bool_decide_eq_false_2 by lia.
  inversion 1; simplify_eq/=.
Qed.

(** C13: without partitions and without a timeout the select loop of
    [checkParallel] waits for a result that nobody sends: its first state has
    no successor, so that it never returns. *)
Theorem checkParallel_no_partitions_hangs {V St : Type} (model : FullModel V St) (computeInfo : bool)
    (timeout : Z) :
  timeout ≤ 0 →
  (∀ c, rtc (pstep model [] computeInfo) (checkParallel_init [] timeout) c →
    p_main c = MLoop ∧ ∀ d, ¬ pstep model [] computeInfo c d) ∧
  ∀ res info, ¬ checkParallel model [] computeInfo timeout res info.
Proof.
  intros Ht.
  assert (∀ c, rtc (pstep model [] computeInfo) (checkParallel_init [] timeout) c →
    c = checkParallel_init [] timeout) as Hinit.
  { intros c Hr. inversion Hr as [|? d ? Hs]; [done|]. by apply no_partitions_stuck in Hs. }
  split.
  - intros c ->%Hinit. split; [done|]. intros d. by apply no_partitions_stuck.
  - by intros res info (c & ->%Hinit & [=]).
Qed.

(** ** The theorems on the sample histories: one partition that is
    linearizable, one that is not *)
Section samples.
#[local] Existing Instance merge_sort_GoSort.

Definition sample_partitions : list (list (entry kv_iface)) :=
  [makeEntries sample_ok; makeEntries sample_stale].

Lemma sample_partitions_ok i h : sample_partitions !! i = Some h → history_ok kv_full h.
Proof.
  intros Hi. destruct i as [|[|i]]; simpl in Hi; [..|done]; injection Hi as <-.
  - apply sample_ok_history.
  - apply sample_stale_history.
Qed.

Lemma sample_partitions_illegal : ¬ all_linearizable kv_full sample_partitions.
Proof. intros Hall. apply sample_stale_not_linearizable. by apply (Hall 1%nat). Qed.

Lemma checkParallel_sound_witness :
  ∃ res info, checkParallel kv_full sample_partitions true 5 res info ∧ res ≠ Ok.
Proof.
  destruct (checkParallel_run kv_full eq sample_partitions true 5 sample_partitions_ok
    (or_intror eq_refl)) as (res & info & Hrun).
  exists res, info. split; [exact Hrun|]. intros ->.
  apply sample_partitions_illegal.
  exact (ro_Ok _ _ _ _ _ _
    (checkParallel_sound kv_full eq sample_partitions true 5 Ok info sample_partitions_ok Hrun) eq_refl).
Defined.

Lemma checkParallel_returns_witness :
  ∃ N, ∀ k c, nsteps (pstep kv_full sample_partitions false) k
      (checkParallel_init sample_partitions 0) c → (k ≤ N)%nat.
Proof.
  destruct (checkParallel_returns kv_full eq sample_partitions false 0 sample_partitions_ok)
    as [N HN]; [left; vm_compute; lia|].
  exists N. intros k c Hk. exact (proj1 (HN k c Hk)).
Defined.

Lemma checkParallel_decides_witness :
  ∃ res info, checkParallel kv_full sample_partitions false 0 res info ∧ res = Illegal.
Proof.
  destruct (checkParallel_decides kv_full eq sample_partitions false 0 sample_partitions_ok)
    as [(res & info & Hrun) Hall]; [lia|vm_compute; lia|].
  exists res, info. split; [exact Hrun|].
  destruct (Hall res info Hrun) as [HU Hiff]. destruct res; [done| |reflexivity].
  destruct sample_partitions_illegal. by apply Hiff.
Defined.

Lemma checkParallel_no_partitions_hangs_witness :
  0 ≤ 0 ∧ ∀ res info, ¬ checkParallel kv_full [] false 0 res info.
Proof.
  split; [exact (Z.le_refl 0)|].
  exact (proj2 (checkParallel_no_partitions_hangs kv_full false 0 (Z.le_refl 0))).
Defined.

End samples.
