(* ===== verification/EntryPoints.v ===== *)
(** * The entry points of the checker (porcupine/checker.go, porcupine.go)

    [CheckOperations] and [CheckEvents] split a history into partitions, turn
    each into entries and run [checkParallel].  What the whole checker promises
    is [partitions_linearizable]: every partition has an order of its
    operations that keeps real time and that the model takes. *)
From stdpp Require Import base gmap sets numbers strings sorting list.
From S2P Require Import Prelude Bitset Model KvModel Linearizability NodeList Checker ListSearch.
From S2P Require Import ListSearchProof CheckerProof Operations KvSpec Locality Events.
From S2P Require Import Parallel ParallelProof.
Local Open Scope Z_scope.
Local Open Scope go_scope.

Section entry_points.
Context {V St : Type} `{EqDecision St, FmtV V, FmtV St} (model : Model V St) (equiv : relation St).
Abbreviation full := (fillDefault model).
Context `{!ModelSpec full equiv}.

(** Histories that the checker can be given: the partition function returns,
    every operation takes time, and the model accepts the values. *)
Record operations_ok (history : list (Operation V)) (partitions : list (list (Operation V))) : Prop := {
  oo_partition : Partition full history = Ret partitions;
  oo_timed : Forall timed partitions;
  oo_steps : Forall (steps_return (Step full)) partitions;
}.

Record events_ok (history : list (Event V)) (partitions : list (list (Event V))) : Prop := {
  eo_partition : PartitionEvent full history = Ret partitions;
  eo_complete : Forall complete_events partitions;
  eo_steps : Forall (event_steps_return (Step full)) partitions;
}.

Definition partitions_linearizable (partitions : list (list (Operation V))) : Prop :=
  Forall (linearizable_ops (Step full) (Init full)) partitions.

Definition event_partitions_linearizable (partitions : list (list (Event V))) : Prop :=
  Forall (linearizable_events (Step full) (Init full)) partitions.

Lemma operations_history_ok `{GoSort} history partitions :
  operations_ok history partitions →
  ∀ i h, (makeEntries <$> partitions) !! i = Some h → history_ok full h.
Proof.
  intros [_ Ht Hs] i h (ops & -> & Hops)%list_lookup_fmap_Some.
  apply makeEntries_ok; [exact (Forall_lookup_1 _ _ _ _ Ht Hops)|exact (Forall_lookup_1 _ _ _ _ Hs Hops)].
Qed.

Lemma events_history_ok history partitions :
  events_ok history partitions →
  ∀ i h, ((λ sub, convertEntries (renumber sub)) <$> partitions) !! i = Some h → history_ok full h.
Proof.
  intros [_ Hc Hs] i h (evs & -> & Hevs)%list_lookup_fmap_Some.
  apply converted_ok; [exact (Forall_lookup_1 _ _ _ _ Hc Hevs)|exact (Forall_lookup_1 _ _ _ _ Hs Hevs)].
Qed.

Lemma all_linearizable_ops `{GoSort} partitions :
  (all_linearizable full (makeEntries <$> partitions) → partitions_linearizable partitions) ∧
  (Forall distinct_times partitions → partitions_linearizable partitions →
    all_linearizable full (makeEntries <$> partitions)).
Proof.
  split.
  - intros Hall. apply Forall_lookup. intros i ops Hi. apply linearizable_entries_ops, (Hall i).
    by rewrite list_lookup_fmap, Hi.
  - intros Hd Hl i h (ops & -> & Hops)%list_lookup_fmap_Some.
    apply linearizable_ops_entries; [exact (Forall_lookup_1 _ _ _ _ Hd Hops)|].
    exact (Forall_lookup_1 _ _ _ _ Hl Hops).
Qed.

Lemma all_linearizable_events history partitions :
  events_ok history partitions →
  all_linearizable full ((λ sub, convertEntries (renumber sub)) <$> partitions) ↔
  event_partitions_linearizable partitions.
Proof.
  intros [_ Hc _]. split.
  - intros Hall. apply Forall_lookup. intros i evs Hi.
    apply converted_linearizable; [exact (Forall_lookup_1 _ _ _ _ Hc Hi)|].
    apply (Hall i). by rewrite list_lookup_fmap, Hi.
  - intros Hl i h (evs & -> & Hi)%list_lookup_fmap_Some.
    apply converted_linearizable; [exact (Forall_lookup_1 _ _ _ _ Hc Hi)|].
    exact (Forall_lookup_1 _ _ _ _ Hl Hi).
Qed.

End entry_points.

Lemma operations_decided {V St : Type} `{EqDecision St, FmtV V, FmtV St, GoSort}
    (model : Model V St) (equiv : relation St) `{!ModelSpec (fillDefault model) equiv}
    (history : list (Operation V)) (partitions : list (list (Operation V))) :
  operations_ok model history partitions → partitions ≠ [] →
  (∃ b, CheckOperations model history b) ∧
  (∀ b, CheckOperations model history b →
    (b = true → partitions_linearizable model partitions) ∧
    (b = false → Forall distinct_times partitions → ¬ partitions_linearizable model partitions)).
Proof.
  intros Hok Hne. pose proof (operations_history_ok model _ _ Hok) as Hhist. split.
  - destruct (checkParallel_run (fillDefault model) equiv (makeEntries <$> partitions) false 0 Hhist)
      as (res & info & Hrun).
    { left. rewrite length_fmap. destruct partitions; [done|simpl; lia]. }
    exists (bool_decide (res = Ok)), res, info. split; [|done].
    exists partitions. split; [apply Hok|done].
  - intros b (res & info & (ps & Hps & Hrun) & ->).
    assert (ps = partitions) as -> by (pose proof (oo_partition _ _ _ Hok); congruence).
    destruct (checkParallel_Ok _ equiv _ _ _ _ _ Hhist (Z.le_refl 0) Hrun) as [_ Hiff].
    destruct (all_linearizable_ops model partitions) as [Hto Hfrom].
    rewrite bool_decide_eq_true, bool_decide_eq_false. naive_solver.
Qed.

(** C2: [CheckOperations] decides linearizability: on a history of operations
    that take time it returns (some execution does, by [checkParallel_returns]
    all do), an answer [true] means that every partition is linearizable, and,
    when no operation is called at the very time at which another returns,
    [false] means that some partition is not. *)
Theorem CheckOperations_decides {V St : Type} `{EqDecision St, FmtV V, FmtV St, GoSort}
    (model : Model V St) (equiv : relation St) `{!ModelSpec (fillDefault model) equiv}
    (history : list (Operation V)) (partitions : list (list (Operation V))) :
  operations_ok model history partitions → partitions ≠ [] →
  (∃ b, CheckOperations model history b) ∧
  (∀ b, CheckOperations model history b →
    (b = true → partitions_linearizable model partitions) ∧
    (b = false → Forall distinct_times partitions → ¬ partitions_linearizable model partitions)).
Proof. exact (operations_decided model equiv history partitions). Qed.

(** C7: [CheckEvents] decides linearizability of every partition of a history
    of complete events, whatever ids the events carry. *)
Theorem CheckEvents_decides {V St : Type} `{EqDecision St, FmtV V, FmtV St}
    (model : Model V St) (equiv : relation St) `{!ModelSpec (fillDefault model) equiv}
    (history : list (Event V)) (partitions : list (list (Event V))) :
  events_ok model history partitions → partitions ≠ [] →
  (∃ b, CheckEvents model history b) ∧
  (∀ b, CheckEvents model history b →
    b = true ↔ event_partitions_linearizable model partitions).
Proof.
  intros Hok Hne. pose proof (events_history_ok model _ _ Hok) as Hhist. split.
  - destruct (checkParallel_run (fillDefault model) equiv _ false 0 Hhist) as (res & info & Hrun).
    { left. rewrite length_fmap. destruct partitions; [done|simpl; lia]. }
    exists (bool_decide (res = Ok)), res, info. split; [|done].
    exists partitions. split; [apply Hok|done].
  - intros b (res & info & (ps & Hps & Hrun) & ->).
    assert (ps = partitions) as -> by (pose proof (eo_partition _ _ _ Hok); congruence).
    destruct (checkParallel_Ok _ equiv _ _ _ _ _ Hhist (Z.le_refl 0) Hrun) as [_ Hiff].
    rewrite bool_decide_eq_true, Hiff. by eapply all_linearizable_events.
Qed.

(** with a timeout, an answer [Ok] of [CheckOperationsTimeout] means that
    every partition is linearizable, [Illegal] that one is not, and [Unknown]
    is only given when there is a timeout. *)
Theorem CheckOperationsTimeout_sound {V St : Type} `{EqDecision St, FmtV V, FmtV St, GoSort}
    (model : Model V St) (equiv : relation St) `{!ModelSpec (fillDefault model) equiv}
    (history : list (Operation V)) (partitions : list (list (Operation V))) (timeout : Z)
    (res : CheckResult) :
  operations_ok model history partitions → CheckOperationsTimeout model history timeout res →
  (res = Ok → partitions_linearizable model partitions) ∧
  (res = Illegal → Forall distinct_times partitions → ¬ partitions_linearizable model partitions) ∧
  (res = Unknown → 0 < timeout).
Proof.
  intros Hok (info & ps & Hps & Hrun).
  assert (ps = partitions) as -> by (pose proof (oo_partition _ _ _ Hok); congruence).
  destruct (checkParallel_result _ equiv _ _ _ (operations_history_ok model _ _ Hok) _ _ Hrun)
    as [HOk HIll HUnk _].
  destruct (all_linearizable_ops model partitions) as [Hto Hfrom]. split_and!; [by auto| |done].
  intros Hres Hd Hl. destruct (HIll Hres) as (i & h & Hh & Hn). apply Hn.
  exact (Hfrom Hd Hl i h Hh).
Qed.

Lemma kv_operations_ok `{GoSort} (history : list (Operation kv_iface)) :
  kv_typed history → timed history →
  ∃ partitions, operations_ok KvModel history partitions ∧ kv_Partition history = Ret partitions ∧
    (history ≠ [] → partitions ≠ []) ∧ (∀ ops o, ops ∈ partitions → o ∈ ops → o ∈ history).
Proof.
  intros Hty Ht. destruct (kv_Partition_spec history Hty) as (keys & Hp & _ & Hkeys).
  exists ((λ k, with_key k history) <$> keys). split_and!; [split|done| |].
  - exact Hp.
  - apply Forall_fmap, Forall_forall. intros k _. unfold timed, with_key in *.
    by apply Forall_filter.
  - apply Forall_fmap, Forall_forall. intros k _. apply kv_typed_steps.
    by apply Forall_filter.
  - intros Hne. destruct history as [|o history]; [done|].
    assert (op_key o ∈ keys) as Hin by (apply Hkeys; exists o; split; [left|done]).
    by destruct keys; [apply not_elem_of_nil in Hin|].
  - intros ops o (k & -> & _)%list_elem_of_fmap [_ Ho]%list_elem_of_filter. done.
Qed.

(** C1: [CheckOperations] with [KvModel] decides linearizability with respect
    to the key/value store: on a non-empty history of typed operations that
    take time it returns, [true] means that the whole history is linearizable
    with respect to the map from keys to values, and, when no operation is
    called at the very time at which another returns, [false] means that it is
    not. *)
Theorem CheckOperations_kv_decides `{GoSort} (history : list (Operation kv_iface)) :
  kv_typed history → timed history → history ≠ [] →
  (∃ b, CheckOperations KvModel history b) ∧
  (∀ b, CheckOperations KvModel history b →
    (b = true → linearizable_ops kv_store_Step ∅ history) ∧
    (b = false → distinct_times history → ¬ linearizable_ops kv_store_Step ∅ history)).
Proof.
  intros Hty Ht Hne. destruct (kv_operations_ok history Hty Ht) as (ps & Hok & Hp & Hnil & Hsub).
  pose proof (kv_Partition_local history ps Hty Ht Hp) as Hloc.
  destruct (operations_decided KvModel eq history ps Hok (Hnil Hne)) as [Hex Hall].
  split; [done|]. intros b Hb. destruct (Hall b Hb) as [Htrue Hfalse]. split.
  - intros ?. by apply Hloc, Htrue.
  - intros ? Hd ?%Hloc. apply Hfalse; [done| |done].
    apply Forall_forall. intros ops Hops x y Hx Hy. by apply Hd; eapply Hsub.
Qed.

(** C14: [CheckOperations] on the key/value model never returns for an empty
    history: [KvModel] splits it into no partitions at all. *)
Theorem CheckOperations_empty_kv_hangs `{GoSort} (b : bool) : ¬ CheckOperations KvModel [] b.
Proof.
  intros (res & info & (ps & Hps & Hrun) & _).
  change (kv_Partition [] = Ret ps) in Hps. unfold kv_Partition in Hps. simpl in Hps.
  assert (sort_Sort String.ltb (([] : list string)) = []) as Hsort
    by (apply Permutation_nil_r, sort_Sort_perm).
  rewrite map_to_list_empty in Hps. simpl in Hps. rewrite Hsort in Hps. injection Hps as <-.
  destruct Hrun as (c & Hr & Hm).
  inversion Hr as [|? d ? Hs]; subst; [done|].
  by apply (no_partitions_stuck (fillDefault KvModel) false 0 d) in Hs.
Qed.

(** ** The theorems on the sample histories *)
Section samples.
#[local] Existing Instance merge_sort_GoSort.

Lemma sample_ok_operations : operations_ok KvModel sample_ok [sample_ok].
Proof.
  split.
  - vm_compute. reflexivity.
  - repeat constructor.
  - repeat constructor. apply kv_typed_steps, sample_ok_typed.
Qed.

Lemma CheckOperations_decides_witness : ∃ b, CheckOperations KvModel sample_ok b ∧
  (b = true → partitions_linearizable KvModel [sample_ok]).
Proof.
  destruct (CheckOperations_decides KvModel eq sample_ok [sample_ok] sample_ok_operations)
    as [[b Hb] Hall]; [done|].
  exists b. split; [exact Hb|exact (proj1 (Hall b Hb))].
Defined.

Lemma CheckOperationsTimeout_sound_witness : ∃ res,
  CheckOperationsTimeout KvModel sample_ok 1 res ∧
  (res = Ok → partitions_linearizable KvModel [sample_ok]).
Proof.
  destruct (checkParallel_run kv_full eq (makeEntries <$> [sample_ok]) false 1
    (operations_history_ok KvModel _ _ sample_ok_operations) (or_intror eq_refl)) as (res & info & Hrun).
  assert (CheckOperationsTimeout KvModel sample_ok 1 res) as Hres.
  { exists info, [sample_ok]. split; [exact (oo_partition _ _ _ sample_ok_operations)|exact Hrun]. }
  exists res. split; [exact Hres|].
  exact (proj1 (CheckOperationsTimeout_sound KvModel eq sample_ok [sample_ok] 1 res
    sample_ok_operations Hres)).
Defined.

(** A put and an overlapping get, as events with ids that are not consecutive. *)
Definition sample_events : list (Event kv_iface) :=
  [MkEvent 0 CallEvent (IKvInput (MkKvInput 1 "x" "1")) 7;
   MkEvent 1 CallEvent (IKvInput (MkKvInput 0 "x" "")) 9;
   MkEvent 0 ReturnEvent (IKvOutput (MkKvOutput "")) 7;
   MkEvent 1 ReturnEvent (IKvOutput (MkKvOutput "1")) 9].

Lemma sample_events_complete : complete_events sample_events.
Proof.
  split.
  - by apply (bool_decide_unpack _).
  - intros l1 r l2 Heq Hr. unfold is_ret in Hr. vm_compute in Heq.
    destruct l1 as [|? [|? [|? [|? [|? l1]]]]]; simplify_eq/=.
    + eexists. split; [left|done].
    + eexists. split; [right; left|done].
  - intros c Hc Hcall. apply list_elem_of_lookup in Hc as [p Hp]. unfold is_call in Hcall.
    vm_compute in Hp. destruct p as [|[|[|[|p]]]]; simplify_eq/=.
    + eexists. split; [right; right; left|done].
    + eexists. split; [right; right; right; left|done].
Qed.

Lemma sample_events_ok : events_ok KvModel sample_events [sample_events].
Proof.
  split.
  - reflexivity.
  - apply Forall_singleton, sample_events_complete.
  - constructor; [|constructor]. intros s v w Hv Hw Hvk Hwk _. unfold sample_events in *.
    rewrite !elem_of_cons, elem_of_nil in Hv, Hw.
    destruct Hv as [->|[->|[->|[->|[]]]]]; try done;
      destruct Hw as [->|[->|[->|[->|[]]]]]; try done; apply kv_Step_returns.
Qed.

Lemma CheckEvents_decides_witness : ∃ b, CheckEvents KvModel sample_events b ∧
  (b = true ↔ event_partitions_linearizable KvModel [sample_events]).
Proof.
  destruct (CheckEvents_decides KvModel eq sample_events [sample_events] sample_events_ok)
    as [[b Hb] Hall]; [done|].
  exists b. split; [exact Hb|exact (Hall b Hb)].
Defined.

Lemma CheckOperations_kv_decides_witness : ∃ b, CheckOperations KvModel sample_ok b ∧
  (b = true → linearizable_ops kv_store_Step ∅ sample_ok).
Proof.
  destruct (CheckOperations_kv_decides sample_ok sample_ok_typed sample_ok_timed)
    as [[b Hb] Hall]; [done|].
  exists b. split; [exact Hb|exact (proj1 (Hall b Hb))].
Defined.

End samples.
