(* ===== verification/Visualization.v ===== *)
(** * Visualization data (porcupine/visualization.go)

    [computeVisualizationData] replays the partial linearizations that the
    checker found and panics when the model rejects one.  Here: on the
    information that [checkParallel] returns it never does, and the data it
    computes are those of the histories.  [VisualizationPage] renders them. *)
From stdpp Require Import base gmap sets numbers strings sorting list.
From S2P Require Import Prelude Bitset Model KvModel Linearizability NodeList Checker ListSearch.
From S2P Require Import ListSearchProof CheckerProof Operations KvSpec Parallel ParallelProof.
Local Open Scope Z_scope.
Local Open Scope go_scope.

Record historyElement := MkHistoryElement {
  he_ClientId : Z;
  he_Start : Z;
  he_End : Z;
  he_Description : string;
}.

Record linearizationStep := MkLinearizationStep {
  ls_Index : Z;
  ls_StateDescription : string;
}.

Record partitionVisualizationData := MkPartitionData {
  pv_History : list historyElement;
  pv_PartialLinearizations : list (list linearizationStep);
  pv_Largest : gmap Z Z;
}.

Section visualization.
Context {V St : Type} (nil : V). (* the nil interface value *)
Context (model : FullModel V St) `{GoSort}.

(** The first loop: the elements and the two maps from ids to values. *)
Record viz_maps := MkVizMaps {
  vm_history : list historyElement;
  vm_callValue : gmap Z V;
  vm_returnValue : gmap Z V;
}.

Definition viz_entry (elem : entry V) (m : viz_maps) : outcome viz_maps :=
  let '(MkVizMaps history callValue returnValue) := m in
  let! he := slice_get history (e_id elem) in
  match e_kind elem with
  | callEntry =>
      let! history := slice_set history (e_id elem)
        (MkHistoryElement (e_clientId elem) (e_time elem) (he_End he) (he_Description he)) in
      Ret (MkVizMaps history (<[e_id elem := e_value elem]> callValue) returnValue)
  | returnEntry =>
      let! description := DescribeOperation model (default nil (callValue !! e_id elem)) (e_value elem) in
      let! history := slice_set history (e_id elem)
        (MkHistoryElement (he_ClientId he) (he_Start he) (e_time elem) description) in
      Ret (MkVizMaps history callValue (<[e_id elem := e_value elem]> returnValue))
  end.

Fixpoint viz_entries (elems : list (entry V)) (m : viz_maps) : outcome viz_maps :=
  match elems with
  | [] => Ret m
  | elem :: elems' => let! m := viz_entry elem m in viz_entries elems' m
  end.

(** The largest partial linearization of each operation: its size and its
    index. *)
Record largest := MkLargest {
  lg_size : gmap Z Z;
  lg_index : gmap Z Z;
}.

Definition update_largest (histId size i : Z) (lg : largest) : largest :=
  if bool_decide (default 0 (lg_size lg !! histId) < size)
  then MkLargest (<[histId := size]> (lg_size lg)) (<[histId := i]> (lg_index lg))
  else lg.

(** The replay of one partial linearization. *)
Fixpoint viz_steps (m : viz_maps) (size i : Z) (partial : list Z) (state : St) (lg : largest)
    : outcome (list linearizationStep * largest) :=
  match partial with
  | [] => Ret ([], lg)
  | histId :: partial' =>
      let! ' (ok, state) := Step model state (default nil (vm_callValue m !! histId))
                              (default nil (vm_returnValue m !! histId)) in
      if negb ok then Panic (* valid partial linearization returned non-ok result from model step *)
      else
        let! stateDesc := DescribeState model state in
        let! ' (steps, lg) := viz_steps m size i partial' state (update_largest histId size i lg) in
        Ret (MkLinearizationStep histId stateDesc :: steps, lg)
  end.

Fixpoint viz_partials (m : viz_maps) (i : Z) (partials : list (list Z)) (lg : largest)
    : outcome (list (list linearizationStep) * largest) :=
  match partials with
  | [] => Ret ([], lg)
  | partial :: partials' =>
      let! ' (steps, lg) := viz_steps m (zlen partial) i partial (Init model) lg in
      let! ' (rest, lg) := viz_partials m (i + 1) partials' lg in
      Ret (steps :: rest, lg)
  end.

(** [len(partials[i]) > len(partials[j])]. *)
Definition longer (p q : list Z) : bool := bool_decide (zlen q < zlen p).

Definition viz_partition (history : list (entry V)) (partials : list (list Z))
    : outcome partitionVisualizationData :=
  let n := zlen history / 2 in
  let! m := viz_entries history
    (MkVizMaps (replicate (Z.to_nat n) (MkHistoryElement 0 0 0 "")) ∅ ∅) in
  let! ' (linearizations, lg) := viz_partials m 0 (sort_Sort longer partials) (MkLargest ∅ ∅) in
  Ret (MkPartitionData (vm_history m) linearizations (lg_index lg)).

Fixpoint viz_data (history : list (list (entry V))) (partials : list (list (list Z)))
    : outcome (list partitionVisualizationData) :=
  match history with
  | [] => Ret []
  | h :: history' =>
      match partials with
      | [] => Panic (* info.partialLinearizations[partition] *)
      | p :: partials' =>
          let! d := viz_partition h p in
          let! ds := viz_data history' partials' in
          Ret (d :: ds)
      end
  end.

End visualization.

Definition computeVisualizationData {V St : Type} (nil : V) `{EqDecision St, FmtV V, FmtV St, GoSort}
    (model : Model V St) (info : linearizationInfo V) : outcome (list partitionVisualizationData) :=
  viz_data nil (fillDefault model) (info_history info) (info_partialLinearizations info).

(** The model describes the operations of a history. *)
Definition describes {V St : Type} (model : FullModel V St) (h : list (entry V)) : Prop :=
  ∀ c r, c ∈ h → r ∈ h → is_call c → is_ret r → e_id c = e_id r →
    returns (DescribeOperation model (e_value c) (e_value r)).

(** ** The first loop *)
Section viz_proof.
Context {V St : Type} (nil : V) (model : FullModel V St) (h : list (entry V)).
Context (Hok : history_ok model h).
Context (Hdesc : describes model h).
Implicit Types (e c r : entry V) (i : Z) (l : list (entry V)).

(** What the maps hold after the entries [l]. *)
Record maps_ok l (m : viz_maps (V := V)) : Prop := {
  mo_len : zlen (vm_history m) = zlen h / 2;
  mo_call : ∀ c, c ∈ l → is_call c → vm_callValue m !! e_id c = Some (e_value c) ∧
    ∃ he, vm_history m !! Z.to_nat (e_id c) = Some he ∧ he_ClientId he = e_clientId c ∧
      he_Start he = e_time c;
  mo_ret : ∀ c r, c ∈ l → r ∈ l → is_call c → is_ret r → e_id c = e_id r →
    vm_returnValue m !! e_id r = Some (e_value r) ∧
    ∃ he, vm_history m !! Z.to_nat (e_id r) = Some he ∧ he_End he = e_time r ∧
      DescribeOperation model (e_value c) (e_value r) = Ret (he_Description he);
}.

Lemma entry_id_bound e : e ∈ h → 0 ≤ e_id e < zlen h / 2.
Proof.
  intros He. assert (e_id e ∈ op_ids h) as Hi.
  { destruct (kind_cases e) as [Hc|Hr].
    - apply elem_of_op_ids. by exists e.
    - apply list_elem_of_split in He as (l1 & l2 & Heq).
      destruct (wf_call_before _ (ho_wf _ _ Hok) _ _ _ Heq Hr) as (c & Hc & Hcall & Hid).
      apply elem_of_op_ids. exists c. split_and!; [rewrite Heq; set_solver|done|done]. }
  rewrite (ho_ids _ _ Hok), elem_of_seqZ in Hi. lia.
Qed.

(** No two calls, and no two returns, have the same id. *)
Lemma call_fresh l1 e l2 c : h = l1 ++ e :: l2 → is_call e → is_call c → c ∈ l1 → e_id c ≠ e_id e.
Proof.
  intros Heq He Hc Hin Hid. pose proof (wf_nodup _ (ho_wf _ _ Hok)) as Hnd. rewrite Heq in Hnd.
  rewrite fmap_app, fmap_cons in Hnd. eapply (NoDup_app_disjoint _ _ (key e)); [exact Hnd| |by left].
  replace (key e) with (key c); [by apply list_elem_of_fmap_2|].
  unfold key, is_call in *. congruence.
Qed.

Lemma ret_fresh l1 e l2 r : h = l1 ++ e :: l2 → is_ret e → is_ret r → r ∈ l1 → e_id r ≠ e_id e.
Proof.
  intros Heq He Hc Hin Hid. pose proof (wf_nodup _ (ho_wf _ _ Hok)) as Hnd. rewrite Heq in Hnd.
  rewrite fmap_app, fmap_cons in Hnd. eapply (NoDup_app_disjoint _ _ (key e)); [exact Hnd| |by left].
  replace (key e) with (key r); [by apply list_elem_of_fmap_2|].
  unfold key, is_ret in *. congruence.
Qed.

Lemma ret_after_call l1 e l2 r :
  h = l1 ++ e :: l2 → is_call e → is_ret r → r ∈ l1 → e_id r ≠ e_id e.
Proof.
  intros Heq He Hr Hin Hid. apply list_elem_of_split in Hin as (k1 & k2 & ->).
  rewrite <-app_assoc in Heq. simpl in Heq.
  destruct (wf_call_before _ (ho_wf _ _ Hok) _ _ _ Heq Hr) as (c & Hc & Hcall & Hcid).
  eapply (call_fresh (k1 ++ r :: k2) e l2 c); [by rewrite <-app_assoc|done|done|set_solver|congruence].
Qed.

Lemma others_id l1 e l2 x :
  h = l1 ++ e :: l2 → x ∈ l1 → e_id x ≠ e_id e → Z.to_nat (e_id e) ≠ Z.to_nat (e_id x).
Proof.
  intros Heq Hx Hxe. assert (x ∈ h ∧ e ∈ h) as [Hxh Heh] by (rewrite Heq; set_solver).
  pose proof (entry_id_bound x Hxh). pose proof (entry_id_bound e Heh). lia.
Qed.

(** A call is recorded: no entry of its id was seen before. *)
Lemma maps_ok_call l1 e l2 hist cv rv en d :
  h = l1 ++ e :: l2 → is_call e → maps_ok l1 (MkVizMaps hist cv rv) →
  maps_ok (l1 ++ [e]) (MkVizMaps (<[Z.to_nat (e_id e) := MkHistoryElement (e_clientId e) (e_time e) en d]> hist)
    (<[e_id e := e_value e]> cv) rv).
Proof.
  intros Heq Hc [Hlen Hcall Hret]. pose proof (others_id l1 e l2) as Hne. simpl in *.
  pose proof (entry_id_bound e ltac:(rewrite Heq; set_solver)) as Hb. split; simpl.
  - by rewrite length_insert.
  - intros c [Hcin|Hce%list_elem_of_singleton]%elem_of_app Hcc.
    + pose proof (call_fresh _ _ _ _ Heq Hc Hcc Hcin) as Hid.
      rewrite lookup_insert_ne, list_lookup_insert_ne by auto. by apply Hcall.
    + subst c. rewrite lookup_insert_eq, list_lookup_insert_eq by lia. by eauto.
  - intros c r Hcin' [Hrin|Hre%list_elem_of_singleton]%elem_of_app Hcc Hrr Hid.
    + pose proof (ret_after_call _ _ _ _ Heq Hc Hrr Hrin) as Hrid.
      apply elem_of_app in Hcin' as [Hcin|Hce%list_elem_of_singleton]; [|subst; congruence].
      rewrite list_lookup_insert_ne by auto. by apply (Hret c r).
    + subst r. exfalso. by apply (call_not_ret e).
Qed.

(** A return is recorded in the element of its call [c]. *)
Lemma maps_ok_return l1 e l2 c hist cv rv he d :
  h = l1 ++ e :: l2 → is_ret e → c ∈ l1 → is_call c → e_id c = e_id e →
  hist !! Z.to_nat (e_id e) = Some he → DescribeOperation model (e_value c) (e_value e) = Ret d →
  maps_ok l1 (MkVizMaps hist cv rv) →
  maps_ok (l1 ++ [e]) (MkVizMaps (<[Z.to_nat (e_id e) := MkHistoryElement (he_ClientId he) (he_Start he) (e_time e) d]> hist)
    cv (<[e_id e := e_value e]> rv)).
Proof.
  intros Heq Hr Hcin Hcc Hcid Hhe Hd [Hlen Hcall Hret]. pose proof (others_id l1 e l2) as Hne. simpl in *.
  pose proof (entry_id_bound e ltac:(rewrite Heq; set_solver)) as Hb.
  assert (∀ x, x ∈ l1 → x ∈ h) as Hl1 by (intros x Hx; rewrite Heq; set_solver). split; simpl.
  - by rewrite length_insert.
  - intros c' [Hc'in|Hce%list_elem_of_singleton]%elem_of_app Hcc'; [|subst c'; exfalso; by apply (call_not_ret e)].
    destruct (Hcall c' Hc'in Hcc') as (Hcv' & he2 & Hhe2 & Hcl2 & Hst2). split; [done|].
    destruct (decide (e_id c' = e_id e)) as [Hid|Hid].
    + rewrite Hid in *. rewrite list_lookup_insert_eq by lia. eexists. split; [done|]. simpl.
      assert (he2 = he) as -> by congruence. done.
    + rewrite list_lookup_insert_ne by auto. by exists he2.
  - intros c' r [Hc'in|Hce%list_elem_of_singleton]%elem_of_app Hrin' Hcc' Hrr Hid;
      [|subst c'; exfalso; by apply (call_not_ret e)].
    apply elem_of_app in Hrin' as [Hrin|Hre%list_elem_of_singleton].
    + pose proof (ret_fresh _ _ _ _ Heq Hr Hrr Hrin) as Hrid.
      rewrite lookup_insert_ne, list_lookup_insert_ne by auto. by apply (Hret c' r).
    + subst r. rewrite lookup_insert_eq, list_lookup_insert_eq by lia.
      split; [done|]. eexists. split; [done|]. simpl. split; [done|].
      assert (c' = c) as ->; [|done].
      apply (key_inj_in h); [apply Hok|by apply Hl1..|]. unfold key, is_call in *. congruence.
Qed.

Lemma viz_entry_ok l1 e l2 m :
  h = l1 ++ e :: l2 → maps_ok l1 m →
  ∃ m', viz_entry nil model e m = Ret m' ∧ maps_ok (l1 ++ [e]) m'.
Proof.
  intros Heq Hm. pose proof Hm as [Hlen Hcall _]. destruct m as [hist cv rv]. simpl in *.
  assert (e ∈ h) as Hin by (rewrite Heq; set_solver). pose proof (entry_id_bound e Hin) as Hb.
  destruct (slice_get_in_range hist (e_id e)) as (he & Hget & Hhe); [lia|]. rewrite Hget. cbn [obind].
  unfold slice_set. rewrite bool_decide_eq_true_2 by lia. destruct (kind_cases e) as [Hc|Hr].
  - rewrite Hc. cbn [obind]. eexists. split; [done|]. by eapply maps_ok_call.
  - rewrite Hr. destruct (wf_call_before _ (ho_wf _ _ Hok) _ _ _ Heq Hr) as (c & Hcin & Hcc & Hcid).
    destruct (Hcall c Hcin Hcc) as [Hcv _]. rewrite Hcid in Hcv. rewrite Hcv.
    destruct (Hdesc c e ltac:(rewrite Heq; set_solver) Hin Hcc Hr Hcid) as [d Hd].
    change (default nil (Some (e_value c))) with (e_value c). rewrite Hd. cbn [obind].
    eexists. split; [done|]. by eapply (maps_ok_return l1 e l2 c).
Qed.

Lemma viz_entries_ok l1 l2 m :
  h = l1 ++ l2 → maps_ok l1 m → ∃ m', viz_entries nil model l2 m = Ret m' ∧ maps_ok h m'.
Proof.
  revert l1 m. induction l2 as [|e l2 IH]; intros l1 m Heq Hm; simpl.
  - rewrite app_nil_r in Heq. subst l1. by exists m.
  - destruct (viz_entry_ok l1 e l2 m Heq Hm) as (m' & -> & Hm'). simpl.
    apply (IH (l1 ++ [e])); [by rewrite <-app_assoc|done].
Qed.

Lemma maps_ok_init :
  maps_ok [] (MkVizMaps (replicate (Z.to_nat (zlen h / 2)) (MkHistoryElement 0 0 0 "")) ∅ ∅).
Proof.
  split; simpl.
  - rewrite length_replicate. assert (0 ≤ zlen h / 2) by (apply Z.div_pos; lia). lia.
  - by intros c ?%not_elem_of_nil.
  - by intros c r ?%not_elem_of_nil.
Qed.

(** ** The replay *)
Context (Hstate : ∀ s, returns (DescribeState model s)).

(** [lg] after the partial linearizations of [dn], given as ids and size. *)
Record largest_ok (dn : list (list Z * Z)) (lg : largest) : Prop := {
  lo_none : ∀ i, lg_size lg !! i = None → lg_index lg !! i = None ∧ ∀ x, x ∈ dn → i ∉ x.1;
  lo_some : ∀ i s, lg_size lg !! i = Some s → 0 < s ∧ ∃ (k : nat) x,
    lg_index lg !! i = Some (Z.of_nat k) ∧ dn !! k = Some x ∧ i ∈ x.1 ∧ x.2 = s ∧
    ∀ y, y ∈ dn → i ∈ y.1 → y.2 ≤ s;
}.

Lemma largest_ok_start dn size lg :
  largest_ok dn lg → largest_ok (dn ++ [([], size)]) lg.
Proof.
  intros [Hn Hs]. split.
  - intros i Hi. destruct (Hn i Hi) as [Hx Hall]. split; [done|].
    intros x [Hx'| ->%list_elem_of_singleton]%elem_of_app; [by apply Hall|apply not_elem_of_nil].
  - intros i s Hi. destruct (Hs i s Hi) as (Hpos & k & x & Hk & Hx & Hin & Hsz & Hmax). split; [done|].
    exists k, x. split_and!; [done|by apply lookup_app_l_Some|done|done|].
    intros y [Hy| ->%list_elem_of_singleton]%elem_of_app; [by apply Hmax|by intros ?%not_elem_of_nil].
Qed.

(** Elements of the list whose last one grows by [i], before and after. *)
Lemma grown_back (dn : list (list Z * Z)) pre i size j y :
  i ≠ j → y ∈ dn ++ [(pre ++ [i], size)] → j ∈ y.1 → ∃ y', y' ∈ dn ++ [(pre, size)] ∧ j ∈ y'.1 ∧ y'.2 = y.2.
Proof.
  intros Hij [Hy| ->%list_elem_of_singleton]%elem_of_app Hj.
  - exists y. set_solver.
  - exists (pre, size). simpl in *. set_solver.
Qed.

Lemma grown_fwd (dn : list (list Z * Z)) pre i size k x :
  (dn ++ [(pre, size)]) !! k = Some x →
  ∃ x', (dn ++ [(pre ++ [i], size)]) !! k = Some x' ∧ x'.2 = x.2 ∧ ∀ j, j ∈ x.1 → j ∈ x'.1.
Proof.
  intros [Hx|[Hk Hx]]%lookup_app_Some.
  - exists x. split; [by apply lookup_app_l_Some|done].
  - exists (pre ++ [i], size). rewrite lookup_app_r by done.
    destruct (k - length dn)%nat as [|?]; [|done]. injection Hx as <-. simpl. set_solver.
Qed.

Lemma update_largest_ok dn (pre : list Z) i size lg :
  0 < size → largest_ok (dn ++ [(pre, size)]) lg →
  largest_ok (dn ++ [(pre ++ [i], size)]) (update_largest i size (zlen dn) lg).
Proof.
  intros Hsize [Hn Hs]. pose proof (grown_back dn pre i size) as Hback. pose proof (grown_fwd dn pre i size) as Hfwd.
  (* an operation other than [i] keeps its entry *)
  assert (∀ j s, i ≠ j → lg_size lg !! j = Some s → 0 < s ∧ ∃ (k : nat) x,
    lg_index lg !! j = Some (Z.of_nat k) ∧ (dn ++ [(pre ++ [i], size)]) !! k = Some x ∧ j ∈ x.1 ∧
    x.2 = s ∧ ∀ y, y ∈ dn ++ [(pre ++ [i], size)] → j ∈ y.1 → y.2 ≤ s) as Hother.
  { intros j s Hij Hj. destruct (Hs j s Hj) as (Hpos & k & x & Hk & Hx & Hin & Hsz & Hmax).
    split; [done|]. destruct (Hfwd k x Hx) as (x' & Hx' & Hsz' & Hin').
    exists k, x'. split_and!; [done|done|auto|congruence|].
    intros y Hy Hjy. destruct (Hback j y Hij Hy Hjy) as (y' & Hy' & Hjy' & <-). by apply Hmax. }
  unfold update_largest. case_bool_decide as Hcmp; split; simpl.
  - intros j Hj. apply lookup_insert_None in Hj as [Hj Hne].
    destruct (Hn j) as [Hx Hall]; [done|]. rewrite lookup_insert_ne by done. split; [done|].
    intros y Hy Hjy. destruct (Hback j y) as (y' & Hy' & Hjy' & _); [done..|]. by eapply Hall.
  - intros j s [(<- & <-)|(Hij & Hj)]%lookup_insert_Some.
    + split; [done|]. exists (length dn), (pre ++ [i], size). rewrite lookup_insert_eq.
      split_and!; [done|by apply list_lookup_middle|simpl; set_solver|done|].
      intros y [Hy| ->%list_elem_of_singleton]%elem_of_app Hiy; [|simpl; lia].
      destruct (lg_size lg !! i) as [s|] eqn:Hsi.
      * destruct (Hs i s Hsi) as (_ & _ & _ & _ & _ & _ & _ & Hmax). simpl in Hcmp.
        pose proof (Hmax y ltac:(set_solver) Hiy). lia.
      * destruct (Hn i Hsi) as [_ Hall]. destruct (Hall y); [set_solver|done].
    + rewrite lookup_insert_ne by done. by apply Hother.
  - intros j Hj. destruct (decide (i = j)) as [<-|Hij]; [rewrite Hj in Hcmp; simpl in Hcmp; lia|].
    destruct (Hn j Hj) as [Hx Hall]. split; [done|].
    intros y Hy Hjy. destruct (Hback j y) as (y' & Hy' & Hjy' & _); [done..|]. by eapply Hall.
  - intros j s Hj. destruct (decide (i = j)) as [<-|Hij]; [|by apply Hother].
    destruct (Hs i s Hj) as (Hpos & k & x & Hk & Hx & Hin & Hsz & Hmax). split; [done|].
    destruct (Hfwd k x Hx) as (x' & Hx' & Hsz' & Hin').
    exists k, x'. split_and!; [done|done|auto|congruence|].
    intros y [Hy| ->%list_elem_of_singleton]%elem_of_app Hiy; [apply Hmax; set_solver|].
    simpl. rewrite Hj in Hcmp. simpl in Hcmp. lia.
Qed.

Definition step_ids (steps : list linearizationStep) : list Z := ls_Index <$> steps.

Lemma viz_steps_ok m dn (pre σ : list Z) size state lg :
  maps_ok h m → legal (Step model) h state σ → (σ ≠ [] → 0 < size) →
  largest_ok (dn ++ [(pre, size)]) lg →
  ∃ steps lg', viz_steps nil model m size (zlen dn) σ state lg = Ret (steps, lg') ∧
    step_ids steps = σ ∧ largest_ok (dn ++ [(pre ++ σ, size)]) lg'.
Proof.
  intros Hm. revert pre state lg. induction σ as [|i σ IH]; intros pre state lg Hl Hsize Hlg; simpl.
  - exists [], lg. by rewrite app_nil_r.
  - destruct Hl as (c & r & s' & [Hcin Hck]%find_entry_Some & [Hrin Hrk]%find_entry_Some & Hs & Hl).
    apply key_call in Hck as [Hc <-]. apply key_ret in Hrk as [Hr Hid].
    destruct (mo_call _ _ Hm c Hcin Hc) as [Hcv _].
    destruct (mo_ret _ _ Hm c r Hcin Hrin Hc Hr (eq_sym Hid)) as [Hrv _].
    rewrite <-Hid, Hrv, Hid, Hcv. simpl. rewrite Hs. simpl.
    destruct (Hstate s') as [d Hd]. rewrite Hd. simpl.
    destruct (IH (pre ++ [e_id c]) s' (update_largest (e_id c) size (zlen dn) lg))
      as (steps & lg' & -> & Hsteps & Hlg'); [done|intros; by apply Hsize| |].
    { apply update_largest_ok; [by apply Hsize|done]. }
    simpl. exists (MkLinearizationStep (e_id c) d :: steps), lg'.
    split_and!; [done|unfold step_ids in *; by rewrite fmap_cons, Hsteps|]. by rewrite <-app_assoc in Hlg'.
Qed.

Definition sized (p : list Z) : list Z * Z := (p, zlen p).

Lemma viz_partials_ok m (dn ps : list (list Z)) lg :
  maps_ok h m → Forall (legal (Step model) h (Init model)) ps → largest_ok (sized <$> dn) lg →
  ∃ (ls : list (list linearizationStep)) lg', viz_partials nil model m (zlen dn) ps lg = Ret (ls, lg') ∧
    step_ids <$> ls = ps ∧ largest_ok (sized <$> (dn ++ ps)) lg'.
Proof.
  intros Hm Hall. revert dn lg. induction Hall as [|p ps Hp Hall IH]; intros dn lg Hlg; simpl.
  - exists [], lg. by rewrite app_nil_r.
  - destruct (viz_steps_ok m (sized <$> dn) [] p (zlen p) (Init model) lg)
      as (steps & lg1 & Hst & Hsteps & Hlg1); [done|done| |by apply largest_ok_start|].
    { destruct p; [done|simpl; lia]. }
    rewrite length_fmap in Hst. rewrite Hst. simpl.
    destruct (IH (dn ++ [p]) lg1) as (ls & lg' & Hrest & Hls & Hlg').
    { by rewrite fmap_app. }
    replace (zlen (dn ++ [p])) with (zlen dn + 1) in Hrest by (rewrite length_app; simpl; lia).
    rewrite Hrest. simpl. exists (steps :: ls), lg'.
    split_and!; [done|by rewrite fmap_cons, Hsteps, Hls|]. by rewrite <-app_assoc in Hlg'.
Qed.

(** What the data of one partition say. *)
Record partition_data_ok (ps : list (list Z)) (d : partitionVisualizationData) : Prop := {
  pd_len : zlen (pv_History d) = zlen h / 2;
  pd_history : ∀ c r, c ∈ h → r ∈ h → is_call c → is_ret r → e_id c = e_id r →
    ∃ he, pv_History d !! Z.to_nat (e_id c) = Some he ∧ he_ClientId he = e_clientId c ∧
      he_Start he = e_time c ∧ he_End he = e_time r ∧
      DescribeOperation model (e_value c) (e_value r) = Ret (he_Description he);
  pd_partials : step_ids <$> pv_PartialLinearizations d ≡ₚ ps;
  pd_largest : ∀ i, (∃ p, p ∈ ps ∧ i ∈ p) → ∃ (k : nat) (steps : list linearizationStep),
    pv_Largest d !! i = Some (Z.of_nat k) ∧ pv_PartialLinearizations d !! k = Some steps ∧
    i ∈ step_ids steps ∧ ∀ p, p ∈ ps → i ∈ p → (length p ≤ length steps)%nat;
}.

Lemma viz_partition_ok `{GoSort} (ps : list (list Z)) :
  Forall (legal (Step model) h (Init model)) ps →
  ∃ d, viz_partition nil model h ps = Ret d ∧ partition_data_ok ps d.
Proof.
  intros Hall. unfold viz_partition.
  destruct (viz_entries_ok [] h _ eq_refl maps_ok_init) as (m & -> & Hm). simpl.
  set (qs := sort_Sort longer ps). assert (qs ≡ₚ ps) as Hqs by apply sort_Sort_perm.
  destruct (viz_partials_ok m [] qs (MkLargest ∅ ∅)) as (ls & lg & Hrun & Hls & Hlg); [done| | |].
  { by rewrite Hqs. }
  { split; simpl.
    - intros i _. rewrite lookup_empty. split; [done|]. by intros x ?%not_elem_of_nil.
    - intros i s. by rewrite lookup_empty. }
  change (Z.of_nat (length (@List.nil (list Z)))) with 0 in Hrun. rewrite Hrun. simpl.
  eexists. split; [done|]. split; simpl.
  - apply Hm.
  - intros c r Hc Hr Hcc Hrr Hid.
    destruct (mo_call _ _ Hm c Hc Hcc) as (_ & he & Hhe & Hcl & Hst).
    destruct (mo_ret _ _ Hm c r Hc Hr Hcc Hrr Hid) as (_ & he' & Hhe' & Hend & Hdd).
    rewrite <-Hid, Hhe in Hhe'. injection Hhe' as <-. by exists he.
  - by rewrite Hls.
  - intros i (p & Hp & Hip). simpl in Hlg.
    assert (sized p ∈ sized <$> qs) as Hpin by (apply list_elem_of_fmap_2; by rewrite Hqs).
    destruct (lg_size lg !! i) as [s|] eqn:Hs.
    + destruct (lo_some _ _ Hlg i s Hs) as (_ & k & x & Hk & Hx & Hin & Hsz & Hmax).
      rewrite list_lookup_fmap in Hx. destruct (qs !! k) as [q|] eqn:Hq; [|done].
      injection Hx as <-. rewrite <-Hls, list_lookup_fmap in Hq.
      destruct (ls !! k) as [l|] eqn:Hl; [|done]. injection Hq as <-.
      exists k, l. split_and!; [done|done|done|].
      intros p' Hp' Hip'. specialize (Hmax (sized p')). simpl in Hmax, Hsz.
      unfold step_ids in Hsz. rewrite length_fmap in Hsz. rewrite <-Hsz in Hmax.
      assert (zlen p' ≤ zlen l); [|lia]. apply Hmax; [|done].
      apply list_elem_of_fmap_2. by rewrite Hqs.
    + destruct (lo_none _ _ Hlg i Hs) as [_ Hno]. by destruct (Hno _ Hpin).
Qed.

End viz_proof.

(** What [computeVisualizationData] computes. *)
Lemma visualization_data_ok {V St : Type} (nil : V) `{EqDecision St, FmtV V, FmtV St, GoSort}
    (model : Model V St) (equiv : relation St) `{!ModelSpec (fillDefault model) equiv}
    (history : list (list (entry V))) (timeout : Z) (res : CheckResult) (info : linearizationInfo V) :
  (∀ i h, history !! i = Some h → history_ok (fillDefault model) h) →
  (∀ i h, history !! i = Some h → describes (fillDefault model) h) →
  (∀ s, returns (DescribeState (fillDefault model) s)) →
  checkParallel (fillDefault model) history true timeout res info →
  ∃ data, computeVisualizationData nil model info = Ret data ∧
    Forall2 (λ x d, partition_data_ok (fillDefault model) x.1 x.2 d)
      (zip history (info_partialLinearizations info)) data.
Proof.
  intros Hok Hd Hs Hrun.
  destruct (ro_info _ _ _ _ _ _ (checkParallel_result _ equiv _ _ _ Hok _ _ Hrun)) as [Hh Hps].
  unfold computeVisualizationData. rewrite Hh. clear Hrun Hh.
  induction Hps as [|h ps hs pss Hp Hps IH]; simpl; [by exists []|].
  destruct (viz_partition_ok nil (fillDefault model) h (Hok O h eq_refl) (Hd O h eq_refl) Hs ps) as (d & -> & Hdok).
  { eapply Forall_impl; [exact Hp|]. intros σ. apply pl_legal. }
  simpl. destruct IH as (data & -> & Hdata); [intros i; apply (Hok (S i))|intros i; apply (Hd (S i))|].
  simpl. exists (d :: data). split; [done|]. by constructor.
Qed.

(** [computeVisualizationData] never panics on the information that
    [checkParallel] returns, in particular not on a partial linearization that
    the model rejects.  Its data describe every operation of every partition,
    list exactly the partial linearizations found, and point every operation
    to a longest one that contains it. *)
Theorem computeVisualizationData_ok {V St : Type} (nil : V) `{EqDecision St, FmtV V, FmtV St, GoSort}
    (model : Model V St) (equiv : relation St) `{!ModelSpec (fillDefault model) equiv}
    (history : list (list (entry V))) (timeout : Z) (res : CheckResult) (info : linearizationInfo V) :
  (∀ i h, history !! i = Some h → history_ok (fillDefault model) h) →
  (∀ i h, history !! i = Some h → describes (fillDefault model) h) →
  (∀ s, returns (DescribeState (fillDefault model) s)) →
  checkParallel (fillDefault model) history true timeout res info →
  ∃ data, computeVisualizationData nil model info = Ret data ∧
    Forall2 (λ x d, partition_data_ok (fillDefault model) x.1 x.2 d)
      (zip history (info_partialLinearizations info)) data.
Proof. exact (visualization_data_ok nil model equiv history timeout res info). Qed.

Section samples.
#[local] Existing Instance merge_sort_GoSort.

Lemma sample_partitions_describes i h : sample_partitions !! i = Some h → describes kv_full h.
Proof.
  intros Hi c r Hc Hr Hcc Hrr _. unfold is_call, is_ret in *.
  assert (∀ v call ret, h = makeEntries [sample_put; sample_get v call ret] →
    returns (DescribeOperation kv_full (e_value c) (e_value r))) as Hall.
  { intros v call ret ->. apply elem_of_makeEntries in Hc as (p & o & Hp & [->| ->]); [|done].
    apply elem_of_makeEntries in Hr as (q & o' & Hq & [->| ->]); [done|].
    destruct p as [|[|p]], q as [|[|q]]; simplify_eq/=; by eexists. }
  destruct i as [|[|i]]; simplify_eq/=; by eapply Hall.
Qed.

Lemma computeVisualizationData_ok_witness :
  ∃ res info data, checkParallel kv_full sample_partitions true 0 res info ∧
    computeVisualizationData (IKvOutput (MkKvOutput "")) KvModel info = Ret data ∧ length data = 2%nat.
Proof.
  destruct (checkParallel_run kv_full eq sample_partitions true 0 sample_partitions_ok)
    as (res & info & Hrun); [left; vm_compute; lia|].
  destruct (computeVisualizationData_ok (IKvOutput (MkKvOutput "")) KvModel eq sample_partitions 0 res info
    sample_partitions_ok sample_partitions_describes (λ s, ex_intro _ _ eq_refl) Hrun)
    as (data & Hdata & Hall).
  exists res, info, data. split; [exact Hrun|]. split; [exact Hdata|].
  rewrite <-(Forall2_length _ _ _ Hall), length_zip_with.
  destruct (ro_info _ _ _ _ _ _ (checkParallel_result _ eq _ _ _ sample_partitions_ok _ _ Hrun)) as [_ Hps].
  rewrite <-(Forall2_length _ _ _ Hps). reflexivity.
Defined.

End samples.
