(* ===== verification/VisualizationPage.v ===== *)
(** * The page that Visualize writes (porcupine/visualization.go)

    [Visualize] marshals the data of a history to JSON and writes them into
    the page; [VisualizePath] does so into a file.  The writer and the file
    system are arguments.  Here: on the information that the checker returns,
    the page is written, its data cannot end the script it stands in, and a
    JSON reader gets back from the page the data that were computed. *)
From Stdlib Require Import Ascii NArith.
From stdpp Require Import base gmap sets numbers strings sorting list.
From S2P Require Import Prelude Strconv Json Bitset Model KvModel Linearizability NodeList Checker ListSearch.
From S2P Require Import ListSearchProof CheckerProof Operations KvSpec Parallel ParallelProof EntryPoints Visualization Html.
Local Open Scope Z_scope.
Local Open Scope go_scope.

(** ** What the types of the data marshal to *)

(** A map with integer keys: an object whose fields are in the order of their
    names. *)
Definition field_lt (x y : string * json) : bool := str_lt (fst x) (fst y).
Definition map_ToJson {A : Type} `{ToJson A, GoSort} : ToJson (gmap Z A) :=
  λ m, JObj (sort_Sort field_lt ((λ kv, (Itoa (fst kv), to_json (snd kv))) <$> map_to_list m)).
#[export] Existing Instance map_ToJson.

Definition historyElement_ToJson : ToJson historyElement := λ he,
  JObj [("ClientId", to_json (he_ClientId he)); ("Start", to_json (he_Start he));
        ("End", to_json (he_End he)); ("Description", to_json (he_Description he))].
#[export] Existing Instance historyElement_ToJson.

Definition linearizationStep_ToJson : ToJson linearizationStep := λ ls,
  JObj [("Index", to_json (ls_Index ls)); ("StateDescription", to_json (ls_StateDescription ls))].
#[export] Existing Instance linearizationStep_ToJson.

Definition partitionData_ToJson `{GoSort} : ToJson partitionVisualizationData := λ pv,
  JObj [("History", to_json (pv_History pv)); ("PartialLinearizations", to_json (pv_PartialLinearizations pv));
        ("Largest", to_json (pv_Largest pv))].
#[export] Existing Instance partitionData_ToJson.

(** ** fmt.Fprintf, for the verb [%s] of a byte slice

    [None]: another verb, or a number of operands that is not that of the
    verbs, which the code does not use. *)
Fixpoint Sprintf (format : string) (a : list string) : option string :=
  match format with
  | EmptyString => match a with [] => Some "" | _ => None end
  | String c rest =>
      if bool_decide (c = "%"%char) then
        match rest, a with
        | String v rest', x :: a' => if bool_decide (v = "s"%char) then String.append x <$> Sprintf rest' a' else None
        | _, _ => None
        end
      else String c <$> Sprintf rest a
  end.

(** ** Visualize *)
Section visualize.
Context {V St W Err : Type} (nil : V) `{EqDecision St, FmtV V, FmtV St, GoSort}.

(** [write s w]: what [output.Write] makes of the world, and its error. *)
Definition Visualize (model : Model V St) (info : linearizationInfo V) (write : string → W → W * option Err)
    (w : W) : outcome (W * option Err) :=
  let! data := computeVisualizationData nil model info in
  let jsonData := Marshal (to_json data) in
  let! page := or_panic (Sprintf html [jsonData]) in
  Ret (write page w).

(** [os.Create] gives a file or an error; the file is closed in any case. *)
Definition VisualizePath {F : Type} (create : string → W → W * (F + Err)) (write : F → string → W → W * option Err)
    (close : F → W → W) (model : Model V St) (info : linearizationInfo V) (path : string) (w : W)
    : outcome (W * option Err) :=
  let '(w, r) := create path w in
  match r with
  | inr err => Ret (w, Some err)
  | inl f =>
      let! ' (w, err) := Visualize model info (write f) w in
      Ret (close f w, err)
  end.
End visualize.

(** ** The page *)
Definition no_verb (c : ascii) : bool := negb (Ascii.eqb c "%"%char).

Lemma Sprintf_plain (x y : string) (a : list string) :
  all_chars no_verb x = true → Sprintf (x +:+ y) a = String.append x <$> Sprintf y a.
Proof.
  induction x as [|c x IH]; intros Hx.
  - rewrite append_empty. by destruct (Sprintf y a).
  - apply andb_true_iff in Hx as [Hc Hx]. rewrite append_cons. cbn [Sprintf].
    rewrite bool_decide_eq_false_2 by (by intros ->). rewrite IH by done. by destruct (Sprintf y a).
Qed.

Lemma html_plain : all_chars no_verb html_before = true ∧ all_chars no_verb html_end = true.
Proof. split; vm_compute; reflexivity. Qed.

Lemma Sprintf_html (data : string) : Sprintf html [data] = Some (html_before +:+ data +:+ html_end).
Proof.
  unfold html. destruct html_plain as [Hb He]. rewrite Sprintf_plain by done.
  rewrite append_cons, append_cons, append_empty. cbn [Sprintf].
  rewrite !bool_decide_eq_true_2 by done.
  rewrite <-(append_nil html_end), Sprintf_plain by done. simpl. by rewrite !append_nil.
Qed.

(** ** From the checker to the page *)

(** The model describes the operations it is asked about. *)
Definition operations_described {V St : Type} (model : FullModel V St) (ops : list (Operation V)) : Prop :=
  ∀ o o', o ∈ ops → o' ∈ ops → returns (DescribeOperation model (op_Input o) (op_Output o')).

Lemma described_entries {V St : Type} `{GoSort} (model : FullModel V St) (ops : list (Operation V)) :
  operations_described model ops → describes model (makeEntries ops).
Proof.
  intros Hd c r (p & o & Ho & Hc)%elem_of_makeEntries (q & o' & Ho' & Hr)%elem_of_makeEntries Hcc Hrr _.
  unfold is_call, is_ret in *. destruct Hc as [->| ->]; [|done]. destruct Hr as [->| ->]; [done|]. simpl.
  apply Hd; by eapply list_elem_of_lookup_2.
Qed.

(** The text of the data stands between the two parts of the constant, cannot
    be taken for markup, and reads as the data. *)
Record page_shows (data : list partitionVisualizationData) (text : string) `{GoSort} : Prop := {
  ps_safe : all_chars html_safe text = true;
  ps_reads : ∀ fuel, (json_size (to_json data) ≤ fuel)%nat →
    parse fuel (text +:+ html_end) = Some (coerced_json (to_json data), html_end);
}.

Lemma Marshal_shows `{GoSort} (data : list partitionVisualizationData) : page_shows data (Marshal (to_json data)).
Proof. split; [apply Marshal_safe|]. intros fuel Hf. by apply parse_Marshal. Qed.

Lemma Visualize_writes {V St W Err : Type} (nil : V) `{EqDecision St, FmtV V, FmtV St, GoSort}
    (model : Model V St) (info : linearizationInfo V) (data : list partitionVisualizationData)
    (write : string → W → W * option Err) (w : W) :
  computeVisualizationData nil model info = Ret data →
  Visualize nil model info write w = Ret (write (html_before +:+ Marshal (to_json data) +:+ html_end) w).
Proof. intros Hd. unfold Visualize. rewrite Hd, obind_Ret, Sprintf_html. done. Qed.

(** C11: what the checker found is what the page shows: on the result of
    [CheckOperationsVerbose], whatever its verdict and whenever it timed out,
    [Visualize] panics nowhere and writes one page, the constant around the
    data of the history; the data text has no character of markup and no
    line break, so that it cannot end the script it stands in; and a JSON
    reader gets the computed data from it, with the bytes that are no UTF-8
    replaced. *)
Theorem Visualize_page {V St W Err : Type} (nil : V) `{EqDecision St, FmtV V, FmtV St, GoSort}
    (model : Model V St) (equiv : relation St) `{!ModelSpec (fillDefault model) equiv}
    (history : list (Operation V)) (partitions : list (list (Operation V))) (timeout : Z) (res : CheckResult)
    (info : linearizationInfo V) (write : string → W → W * option Err) (w : W) :
  operations_ok model history partitions →
  Forall (operations_described (fillDefault model)) partitions →
  (∀ s, returns (DescribeState (fillDefault model) s)) →
  CheckOperationsVerbose model history timeout res info →
  ∃ data text, Visualize nil model info write w = Ret (write (html_before +:+ text +:+ html_end) w) ∧
    page_shows data text ∧
    Forall2 (λ x d, partition_data_ok (fillDefault model) x.1 x.2 d)
      (zip (makeEntries <$> partitions) (info_partialLinearizations info)) data.
Proof.
  intros Hok Hdesc Hst (ps & Hps & Hrun).
  assert (ps = partitions) as -> by (pose proof (oo_partition _ _ _ Hok); congruence).
  destruct (visualization_data_ok nil model equiv (makeEntries <$> partitions) timeout res info
    (operations_history_ok model _ _ Hok)) as (data & Hd & Hall); [|done|done|].
  - intros i h (ops & -> & Hops)%list_lookup_fmap_Some. apply described_entries.
    exact (Forall_lookup_1 _ _ _ _ Hdesc Hops).
  - exists data, (Marshal (to_json data)). split; [by apply Visualize_writes|]. split; [apply Marshal_shows|done].
Qed.

(** A file that can be created gets the page, and is closed. *)
Lemma VisualizePath_creates {V St W Err F : Type} (nil : V) `{EqDecision St, FmtV V, FmtV St, GoSort}
    (create : string → W → W * (F + Err)) (write : F → string → W → W * option Err) (close : F → W → W)
    (model : Model V St) (info : linearizationInfo V) (data : list partitionVisualizationData) (path : string) (w : W) :
  computeVisualizationData nil model info = Ret data →
  VisualizePath nil create write close model info path w =
  let '(w1, r) := create path w in
  Ret match r with
      | inl f =>
          let '(w2, err) := write f (html_before +:+ Marshal (to_json data) +:+ html_end) w1 in (close f w2, err)
      | inr err => (w1, Some err)
      end.
Proof.
  intros Hd. unfold VisualizePath. destruct (create path w) as [w1 [f|err]]; [|done].
  rewrite (Visualize_writes nil model info data) by done. simpl. by destruct (write f _ w1).
Qed.

(** ** The sample history *)
Section samples.
#[local] Existing Instance merge_sort_GoSort.

Lemma kv_operations_described (ops : list (Operation kv_iface)) :
  kv_typed ops → operations_described kv_full ops.
Proof.
  intros Ht o o' Ho Ho'. unfold kv_typed in Ht. rewrite Forall_forall in Ht.
  pose proof (Ht o Ho) as H1. pose proof (Ht o' Ho') as H2.
  change (DescribeOperation kv_full) with kv_DescribeOperation. unfold kv_DescribeOperation.
  destruct (op_Input o), (op_Output o), (op_Input o'), (op_Output o'); try done. by eexists.
Qed.

Lemma Visualize_page_witness :
  ∃ res info data text, CheckOperationsVerbose KvModel sample_ok 0 res info ∧
    Visualize (IKvOutput (MkKvOutput "")) KvModel info (λ s w, (w +:+ s, @None unit)) "" =
      Ret (html_before +:+ text +:+ html_end, None) ∧
    page_shows data text ∧ length data = 1%nat.
Proof.
  destruct (checkParallel_run kv_full eq (makeEntries <$> [sample_ok]) true 0
    (operations_history_ok KvModel _ _ sample_ok_operations)) as (res & info & Hrun); [left; vm_compute; lia|].
  assert (CheckOperationsVerbose KvModel sample_ok 0 res info) as Hres.
  { exists [sample_ok]. split; [exact (oo_partition _ _ _ sample_ok_operations)|exact Hrun]. }
  destruct (Visualize_page (IKvOutput (MkKvOutput "")) KvModel eq sample_ok [sample_ok] 0 res info
    (λ s w, (w +:+ s, @None unit)) "" sample_ok_operations) as (data & text & Hv & Hs & Hall).
  - constructor; [exact (kv_operations_described _ sample_ok_typed)|constructor].
  - intros s. exact (ex_intro _ s eq_refl).
  - exact Hres.
  - exists res, info, data, text. split; [exact Hres|]. split; [exact Hv|]. split; [exact Hs|].
    rewrite <-(Forall2_length _ _ _ Hall), length_zip_with.
    destruct (ro_info _ _ _ _ _ _ (checkParallel_result _ eq _ _ _
      (operations_history_ok KvModel _ _ sample_ok_operations) _ _ Hrun)) as [_ Hps].
    rewrite <-(Forall2_length _ _ _ Hps). reflexivity.
Defined.
End samples.
