(* ===== verification/Labrpc.v ===== *)
(** * The simulated network (labrpc/labrpc.go)

    [Network], its administration, [Server] and [Service] with their
    dispatch, and the life of one RPC: [ClientEnd.Call], the goroutine of the
    network that accepts requests, [processReq], and the goroutine that runs
    the handler.  The steps of all goroutines are interleaved by [sstep]; what
    [math/rand] decides is left open.

    End names and server names are values of two countable types; pointers to
    servers are locations, nil is [None].  Package gob is a parameter:
    [gob_encode], and what a decoder leaves in a fresh variable. *)
From Stdlib Require Import Ascii.
From stdpp Require Import base gmap sets numbers strings sorting list.
From S2P Require Import Prelude.
Local Open Scope Z_scope.
Local Open Scope go_scope.

(** Signed 32- and 64-bit counters wrap around. *)
Definition wrap_int (w : Z) (z : Z) : Z := (z + 2 ^ (w - 1)) mod 2 ^ w - 2 ^ (w - 1).

(** ** Splitting "Service.Method" *)

(** [strings.LastIndex(s, ".")]. *)
Fixpoint last_dot (s : string) : Z :=
  match s with
  | EmptyString => -1
  | String c s' =>
      let i := last_dot s' in
      if bool_decide (0 ≤ i) then i + 1
      else if bool_decide (c = "."%char) then 0 else -1
  end.

Fixpoint str_take (n : nat) (s : string) : string :=
  match n, s with
  | S n, String c s' => String c (str_take n s')
  | _, _ => EmptyString
  end.

Fixpoint str_drop (n : nat) (s : string) : string :=
  match n, s with
  | S n, String _ s' => str_drop n s'
  | _, _ => s
  end.

(** [s[:i]] and [s[i:]] of a string: out of range indices panic. *)
Definition str_upto (s : string) (i : Z) : outcome string :=
  if bool_decide (0 ≤ i ≤ Z.of_nat (String.length s)) then Ret (str_take (Z.to_nat i) s) else Panic.
Definition str_from (s : string) (i : Z) : outcome string :=
  if bool_decide (0 ≤ i ≤ Z.of_nat (String.length s)) then Ret (str_drop (Z.to_nat i) s) else Panic.

Definition split_svcMeth (svcMeth : string) : outcome (string * string) :=
  let dot := last_dot svcMeth in
  let! serviceName := str_upto svcMeth dot in
  let! methodName := str_from svcMeth (dot + 1) in
  Ret (serviceName, methodName).

Abbreviation bytes := (list Byte.byte).

(** Package gob: what an encoder writes, what a decoder leaves in a new
    variable of a type ([None]: an error). *)
Class Gob (V RT : Type) := {
  gob_typeOf : V → RT;
  gob_encode : V → bytes;
  gob_decode : RT → bytes → option V;
  gob_zero : RT → V;
}.

Record replyMsg := MkReplyMsg {
  rep_ok : bool;
  rep_reply : bytes;
}.

Record reqMsg (EN RT : Type) := MkReqMsg {
  req_endname : EN;
  req_svcMeth : string;
  req_argsType : RT;
  req_args : bytes;
}.
Arguments MkReqMsg {EN RT} _ _ _ _.
Arguments req_endname {EN RT} _.
Arguments req_svcMeth {EN RT} _.
Arguments req_argsType {EN RT} _.
Arguments req_args {EN RT} _.

(** ** Services and servers *)

Inductive rkind := KPtr | KOther.
#[export] Instance rkind_eq_dec : EqDecision rkind.
Proof. solve_decision. Defined.

(** A method as package reflect shows it, with what it does: [W] is the state
    of the program behind the handlers. *)
Record rmethod (W V RT : Type) := MkMethod {
  rm_Name : string;
  rm_PkgPath : string;
  rm_In : list rkind;
  rm_NumOut : Z;
  rm_replyType : RT;
  rm_Func : W → V → outcome (W * V);
}.
Arguments MkMethod {W V RT} _ _ _ _ _ _.
Arguments rm_Name {W V RT} _.
Arguments rm_PkgPath {W V RT} _.
Arguments rm_In {W V RT} _.
Arguments rm_NumOut {W V RT} _.
Arguments rm_replyType {W V RT} _.
Arguments rm_Func {W V RT} _ _ _.

Record Service (W V RT : Type) := MkService {
  svc_name : string;
  svc_methods : gmap string (rmethod W V RT);
}.
Arguments MkService {W V RT} _ _.
Arguments svc_name {W V RT} _.
Arguments svc_methods {W V RT} _.

Record Server (W V RT : Type) := MkServer {
  srv_services : gmap string (Service W V RT);
  srv_count : Z;
}.
Arguments MkServer {W V RT} _ _.
Arguments srv_services {W V RT} _.
Arguments srv_count {W V RT} _.

Section service.
Context {W V RT EN : Type} `{Gob V RT}.

(** The test of [MakeService]; [mtype.In(2)] panics past the parameters. *)
Definition suitable (m : rmethod W V RT) : outcome bool :=
  if bool_decide (rm_PkgPath m ≠ "") then Ret false
  else if bool_decide (length (rm_In m) ≠ 3%nat) then Ret false
  else
    let! k := slice_get (rm_In m) 2 in
    if bool_decide (k ≠ KPtr) then Ret false
    else Ret (bool_decide (rm_NumOut m = 0)).

Fixpoint MakeService_loop (ms : list (rmethod W V RT)) (methods : gmap string (rmethod W V RT))
    : outcome (gmap string (rmethod W V RT)) :=
  match ms with
  | [] => Ret methods
  | m :: ms' =>
      let! ok := suitable m in
      MakeService_loop ms' (if ok then <[rm_Name m := m]> methods else methods)
  end.

Definition MakeService (name : string) (ms : list (rmethod W V RT)) : outcome (Service W V RT) :=
  let! methods := MakeService_loop ms ∅ in Ret (MkService name methods).

Definition MakeServer : Server W V RT := MkServer ∅ 0.

Definition AddService (rs : Server W V RT) (svc : Service W V RT) : Server W V RT :=
  MkServer (<[svc_name svc := svc]> (srv_services rs)) (srv_count rs).

Definition Server_GetCount (rs : Server W V RT) : Z := srv_count rs.

(** [svc.dispatch]: an error of the decoder is ignored, and the argument is
    then the zero value; an unknown method is fatal. *)
Definition Service_dispatch (svc : Service W V RT) (methname : string) (req : reqMsg EN RT) (w : W)
    : outcome (W * replyMsg) :=
  match svc_methods svc !! methname with
  | Some method =>
      let args := default (gob_zero (req_argsType req)) (gob_decode (req_argsType req) (req_args req)) in
      let! ' (w, replyv) := rm_Func method w args in
      Ret (w, MkReplyMsg true (gob_encode replyv))
  | None => Panic
  end.

(** The part of [rs.dispatch] under the lock: it counts the request and finds
    the service; an unknown service is fatal. *)
Definition Server_enter (rs : Server W V RT) (req : reqMsg EN RT)
    : outcome (Server W V RT * (Service W V RT * string)) :=
  let rs := MkServer (srv_services rs) (wrap_int 64 (srv_count rs + 1)) in
  let! ' (serviceName, methodName) := split_svcMeth (req_svcMeth req) in
  match srv_services rs !! serviceName with
  | Some service => Ret (rs, (service, methodName))
  | None => Panic
  end.

Definition Server_dispatch (rs : Server W V RT) (req : reqMsg EN RT) (w : W)
    : outcome (Server W V RT * W * replyMsg) :=
  let! ' (rs, (service, methodName)) := Server_enter rs req in
  let! ' (w, reply) := Service_dispatch service methodName req w in
  Ret (rs, w, reply).

End service.

(** ** The network *)
Abbreviation sloc := nat.

Record Network (EN SN : Type) `{Countable EN, Countable SN} := MkNetwork {
  rn_reliable : bool;
  rn_longDelays : bool;
  rn_longReordering : bool;
  rn_ends : gset EN;
  rn_enabled : gmap EN bool;
  rn_servers : gmap SN (option sloc);
  rn_connections : gmap EN (option SN);
  rn_done : bool;
  rn_count : Z;
  rn_bytes : Z;
}.
Arguments MkNetwork {EN SN _ _ _ _} _ _ _ _ _ _ _ _ _ _.
Arguments rn_reliable {EN SN _ _ _ _} _.
Arguments rn_longDelays {EN SN _ _ _ _} _.
Arguments rn_longReordering {EN SN _ _ _ _} _.
Arguments rn_ends {EN SN _ _ _ _} _.
Arguments rn_enabled {EN SN _ _ _ _} _.
Arguments rn_servers {EN SN _ _ _ _} _.
Arguments rn_connections {EN SN _ _ _ _} _.
Arguments rn_done {EN SN _ _ _ _} _.
Arguments rn_count {EN SN _ _ _ _} _.
Arguments rn_bytes {EN SN _ _ _ _} _.

Section network.
Context {EN SN : Type} `{Countable EN, Countable SN}.
Implicit Types (rn : Network EN SN).

Definition MakeNetwork : Network EN SN := MkNetwork true false false ∅ ∅ ∅ ∅ false 0 0.

(** Closing a closed channel panics. *)
Definition Cleanup rn : outcome (Network EN SN) :=
  if rn_done rn then Panic
  else Ret (MkNetwork (rn_reliable rn) (rn_longDelays rn) (rn_longReordering rn) (rn_ends rn)
              (rn_enabled rn) (rn_servers rn) (rn_connections rn) true (rn_count rn) (rn_bytes rn)).

Definition Reliable rn (yes : bool) : Network EN SN :=
  MkNetwork yes (rn_longDelays rn) (rn_longReordering rn) (rn_ends rn) (rn_enabled rn)
    (rn_servers rn) (rn_connections rn) (rn_done rn) (rn_count rn) (rn_bytes rn).

Definition LongReordering rn (yes : bool) : Network EN SN :=
  MkNetwork (rn_reliable rn) (rn_longDelays rn) yes (rn_ends rn) (rn_enabled rn)
    (rn_servers rn) (rn_connections rn) (rn_done rn) (rn_count rn) (rn_bytes rn).

Definition LongDelays rn (yes : bool) : Network EN SN :=
  MkNetwork (rn_reliable rn) yes (rn_longReordering rn) (rn_ends rn) (rn_enabled rn)
    (rn_servers rn) (rn_connections rn) (rn_done rn) (rn_count rn) (rn_bytes rn).

(** The map lookups of the code, which yield zero values for missing keys. *)
Definition enabled_of rn (e : EN) : bool := default false (rn_enabled rn !! e).
Definition connection_of rn (e : EN) : option SN := default None (rn_connections rn !! e).
Definition server_of rn (s : SN) : option sloc := default None (rn_servers rn !! s).

Definition readEndnameInfo rn (endname : EN) : bool * option SN * option sloc * bool * bool :=
  let enabled := enabled_of rn endname in
  let servername := connection_of rn endname in
  let server := match servername with Some s => server_of rn s | None => None end in
  (enabled, servername, server, rn_reliable rn, rn_longReordering rn).

Definition isServerDead rn (endname : EN) (servername : SN) (server : sloc) : bool :=
  bool_decide (enabled_of rn endname = false ∨ server_of rn servername ≠ Some server).

(** A second end of the same name is fatal. *)
Definition MakeEnd rn (endname : EN) : outcome (Network EN SN) :=
  if bool_decide (endname ∈ rn_ends rn) then Panic
  else Ret (MkNetwork (rn_reliable rn) (rn_longDelays rn) (rn_longReordering rn)
              ({[endname]} ∪ rn_ends rn) (<[endname := false]> (rn_enabled rn)) (rn_servers rn)
              (<[endname := None]> (rn_connections rn)) (rn_done rn) (rn_count rn) (rn_bytes rn)).

Definition set_server rn (servername : SN) (rs : option sloc) : Network EN SN :=
  MkNetwork (rn_reliable rn) (rn_longDelays rn) (rn_longReordering rn) (rn_ends rn) (rn_enabled rn)
    (<[servername := rs]> (rn_servers rn)) (rn_connections rn) (rn_done rn) (rn_count rn) (rn_bytes rn).

Definition AddServer rn (servername : SN) (rs : sloc) : Network EN SN := set_server rn servername (Some rs).
Definition DeleteServer rn (servername : SN) : Network EN SN := set_server rn servername None.

Definition Connect rn (endname : EN) (servername : SN) : Network EN SN :=
  MkNetwork (rn_reliable rn) (rn_longDelays rn) (rn_longReordering rn) (rn_ends rn) (rn_enabled rn)
    (rn_servers rn) (<[endname := Some servername]> (rn_connections rn)) (rn_done rn) (rn_count rn)
    (rn_bytes rn).

Definition Enable rn (endname : EN) (enabled : bool) : Network EN SN :=
  MkNetwork (rn_reliable rn) (rn_longDelays rn) (rn_longReordering rn) (rn_ends rn)
    (<[endname := enabled]> (rn_enabled rn)) (rn_servers rn) (rn_connections rn) (rn_done rn)
    (rn_count rn) (rn_bytes rn).

(** A deleted or unknown server is a nil pointer. *)
Definition GetCount {W V RT : Type} rn (srvs : gmap sloc (Server W V RT)) (servername : SN) : outcome Z :=
  let! svr := or_panic (server_of rn servername) in
  let! rs := or_panic (srvs !! svr) in
  Ret (Server_GetCount rs).

Definition GetTotalCount rn : Z := rn_count rn.
Definition GetTotalBytes rn : Z := rn_bytes rn.

(** The counters that the goroutines update. *)
Definition add_count rn : Network EN SN :=
  MkNetwork (rn_reliable rn) (rn_longDelays rn) (rn_longReordering rn) (rn_ends rn) (rn_enabled rn)
    (rn_servers rn) (rn_connections rn) (rn_done rn) (wrap_int 32 (rn_count rn + 1)) (rn_bytes rn).

Definition add_bytes rn (n : Z) : Network EN SN :=
  MkNetwork (rn_reliable rn) (rn_longDelays rn) (rn_longReordering rn) (rn_ends rn) (rn_enabled rn)
    (rn_servers rn) (rn_connections rn) (rn_done rn) (rn_count rn) (wrap_int 64 (rn_bytes rn + n)).

End network.
