(* ===== verification/LabrpcSteps.v ===== *)
(** * RPCs in flight (labrpc/labrpc.go, [Call], [MakeNetwork], [processReq])

    The goroutines of the network as one step relation.  A [call] is one
    execution of [ClientEnd.Call] with what the network does for it: the caller
    itself ([client]), the goroutine of [processReq] with the timer it may
    leave behind ([rproc]), and the goroutine that runs the handler
    ([handler]).  Rolls of [math/rand] are arguments of the steps.

    Administration of the network and invocations of new calls are steps of
    the environment; every step carries a [label]. *)
From stdpp Require Import base gmap sets numbers strings sorting list relations.
From S2P Require Import Prelude Labrpc.
Local Open Scope Z_scope.
Local Open Scope go_scope.

(** The three parties of an RPC. *)
Inductive client (V : Type) :=
| CSend                       (* select { case e.ch <- req; case <-e.done } *)
| CWait                       (* <-req.replyCh *)
| CRet (reply : option V).    (* returned: true with a reply, or false *)
Arguments CSend {V}.
Arguments CWait {V}.
Arguments CRet {V} _.

Inductive rproc (SN : Type) :=
| PRead                                                     (* readEndnameInfo *)
| PDelay (servername : SN) (server : sloc) (reliable longreordering : bool)
| PWait (servername : SN) (server : sloc) (reliable longreordering : bool)
| PCheck (servername : SN) (server : sloc) (reliable longreordering : bool) (reply : option replyMsg)
| PTimer (counted : bool) (reply : replyMsg)                (* time.AfterFunc *)
| PSend (reply : replyMsg)                                  (* req.replyCh <- reply *)
| PDone.
Arguments PRead {SN}.
Arguments PDelay {SN} _ _ _ _.
Arguments PWait {SN} _ _ _ _.
Arguments PCheck {SN} _ _ _ _ _.
Arguments PTimer {SN} _ _.
Arguments PSend {SN} _.
Arguments PDone {SN}.

Inductive handler (W V RT : Type) :=
| HNone
| HReady (server : sloc)
| HServing (server : sloc) (service : Service W V RT) (methodName : string)
| HReplied (server : sloc) (reply : replyMsg)               (* ech <- r *)
| HExit (server : sloc) (reply : replyMsg).
Arguments HNone {W V RT}.
Arguments HReady {W V RT} _.
Arguments HServing {W V RT} _ _ _.
Arguments HReplied {W V RT} _ _.
Arguments HExit {W V RT} _ _.

Record call (EN SN W V RT : Type) := MkCall {
  cl_req : reqMsg EN RT;
  cl_replyType : RT;
  cl_client : client V;
  cl_proc : option (rproc SN);
  cl_handler : handler W V RT;
}.
Arguments MkCall {EN SN W V RT} _ _ _ _ _.
Arguments cl_req {EN SN W V RT} _.
Arguments cl_replyType {EN SN W V RT} _.
Arguments cl_client {EN SN W V RT} _.
Arguments cl_proc {EN SN W V RT} _.
Arguments cl_handler {EN SN W V RT} _.

Definition failure : replyMsg := MkReplyMsg false [].

(** ** [processReq] *)
Section processReq.
Context {EN SN : Type} `{Countable EN, Countable SN}.
Implicit Types (rn : Network EN SN).

(** Up to the choice between the two cases of the outer conditional. *)
Definition processReq_read rn (endname : EN) : rproc SN :=
  let '(enabled, servername, server, reliable, longreordering) := readEndnameInfo rn endname in
  match enabled, servername, server with
  | true, Some snm, Some srv => PDelay snm srv reliable longreordering
  | _, _, _ => PTimer false failure
  end.

(** [reliable == false && rand.Int()%1000 < 100]. *)
Definition drop_roll (reliable : bool) (roll : Z) : bool :=
  negb reliable && bool_decide (roll mod 1000 < 100).

Definition processReq_delay (snm : SN) (srv : sloc) (reliable longreordering : bool) (roll : Z) : rproc SN :=
  if drop_roll reliable roll then PSend failure else PWait snm srv reliable longreordering.

(** [case <-time.After(...)] of the waiting loop. *)
Definition processReq_poll rn (endname : EN) (snm : SN) (srv : sloc) (reliable longreordering : bool)
    : rproc SN :=
  if isServerDead rn endname snm srv then PCheck snm srv reliable longreordering None
  else PWait snm srv reliable longreordering.

(** After the loop; [roll2] is [rand.Intn(900)]. *)
Definition processReq_check rn (endname : EN) (snm : SN) (srv : sloc) (reliable longreordering : bool)
    (reply : option replyMsg) (roll roll2 : Z) : Network EN SN * rproc SN :=
  let serverDead := isServerDead rn endname snm srv in
  match reply with
  | None => (rn, PSend failure)
  | Some reply =>
      if serverDead then (rn, PSend failure)
      else if drop_roll reliable roll then (rn, PSend failure)
      else if longreordering && bool_decide (roll2 < 600) then (rn, PTimer true reply)
      else (add_bytes rn (zlen (rep_reply reply)), PSend reply)
  end.

(** The function of [time.AfterFunc] begins. *)
Definition timer_fires rn (counted : bool) (reply : replyMsg) : Network EN SN * rproc SN :=
  ((if counted then add_bytes rn (zlen (rep_reply reply)) else rn), PSend reply).

End processReq.

(** What [Call] makes of the reply; an error of the decoder is fatal. *)
Definition Call_return {V RT : Type} `{Gob V RT} (replyType : RT) (rep : replyMsg) : outcome (option V) :=
  if rep_ok rep then
    match gob_decode replyType (rep_reply rep) with
    | Some v => Ret (Some v)
    | None => Panic
    end
  else Ret None.

(** ** The system *)
Inductive admin (EN SN W V RT : Type) :=
| AReliable (yes : bool)
| ALongReordering (yes : bool)
| ALongDelays (yes : bool)
| AMakeEnd (endname : EN)
| AMakeServer
| AAddService (rs : sloc) (svc : Service W V RT)
| AAddServer (servername : SN) (rs : sloc)
| ADeleteServer (servername : SN)
| AConnect (endname : EN) (servername : SN)
| AEnable (endname : EN) (enabled : bool)
| ACleanup
| ACall (endname : EN) (svcMeth : string) (args : V) (replyType : RT).
Arguments AReliable {EN SN W V RT} _.
Arguments ALongReordering {EN SN W V RT} _.
Arguments ALongDelays {EN SN W V RT} _.
Arguments AMakeEnd {EN SN W V RT} _.
Arguments AMakeServer {EN SN W V RT}.
Arguments AAddService {EN SN W V RT} _ _.
Arguments AAddServer {EN SN W V RT} _ _.
Arguments ADeleteServer {EN SN W V RT} _.
Arguments AConnect {EN SN W V RT} _ _.
Arguments AEnable {EN SN W V RT} _ _.
Arguments ACleanup {EN SN W V RT}.
Arguments ACall {EN SN W V RT} _ _ _ _.

Inductive label (EN SN W V RT : Type) :=
| LCall (i : nat)
| LLoop
| LAdmin (op : admin EN SN W V RT).
Arguments LCall {EN SN W V RT} _.
Arguments LLoop {EN SN W V RT}.
Arguments LAdmin {EN SN W V RT} _.

Record sys (EN SN W V RT : Type) `{Countable EN, Countable SN} := MkSys {
  s_net : Network EN SN;
  s_servers : gmap sloc (Server W V RT);
  s_app : W;
  s_calls : list (call EN SN W V RT);
  s_loop : bool;    (* the goroutine of the network is running *)
}.
Arguments MkSys {EN SN W V RT _ _ _ _} _ _ _ _ _.
Arguments s_net {EN SN W V RT _ _ _ _} _.
Arguments s_servers {EN SN W V RT _ _ _ _} _.
Arguments s_app {EN SN W V RT _ _ _ _} _.
Arguments s_calls {EN SN W V RT _ _ _ _} _.
Arguments s_loop {EN SN W V RT _ _ _ _} _.

Section system.
Context {EN SN W V RT : Type} `{Countable EN, Countable SN, Gob V RT}.
Abbreviation call := (call EN SN W V RT).
Abbreviation sys := (sys EN SN W V RT).
Implicit Types (s : sys) (cl : call).

Definition with_net s (rn : Network EN SN) : sys :=
  MkSys rn (s_servers s) (s_app s) (s_calls s) (s_loop s).
Definition with_call s (i : nat) cl : sys :=
  MkSys (s_net s) (s_servers s) (s_app s) (<[i := cl]> (s_calls s)) (s_loop s).

Definition with_client cl (c : client V) (p : option (rproc SN)) : call :=
  MkCall (cl_req cl) (cl_replyType cl) c p (cl_handler cl).
Definition with_proc cl (p : rproc SN) : call :=
  MkCall (cl_req cl) (cl_replyType cl) (cl_client cl) (Some p) (cl_handler cl).
Definition with_handler cl (h : handler W V RT) : call :=
  MkCall (cl_req cl) (cl_replyType cl) (cl_client cl) (cl_proc cl) h.

(** The beginning of [Call]: the request is built. *)
Definition Call_begin (endname : EN) (svcMeth : string) (args : V) (replyType : RT) : call :=
  MkCall (MkReqMsg endname svcMeth (gob_typeOf args) (gob_encode args)) replyType CSend None HNone.

Definition with_servers s (m : gmap sloc (Server W V RT)) : sys :=
  MkSys (s_net s) m (s_app s) (s_calls s) (s_loop s).

Definition admin_step (op : admin EN SN W V RT) s : outcome sys :=
  match op with
  | AReliable yes => Ret (with_net s (Reliable (s_net s) yes))
  | ALongReordering yes => Ret (with_net s (LongReordering (s_net s) yes))
  | ALongDelays yes => Ret (with_net s (LongDelays (s_net s) yes))
  | AMakeEnd e => let! rn := MakeEnd (s_net s) e in Ret (with_net s rn)
  | AMakeServer => Ret (with_servers s (<[size (s_servers s) := MakeServer]> (s_servers s)))
  | AAddService l svc =>
      let! rs := or_panic (s_servers s !! l) in
      Ret (with_servers s (<[l := AddService rs svc]> (s_servers s)))
  | AAddServer snm l =>
      let! _ := or_panic (s_servers s !! l) in (* a pointer that somebody holds *)
      Ret (with_net s (AddServer (s_net s) snm l))
  | ADeleteServer snm => Ret (with_net s (DeleteServer (s_net s) snm))
  | AConnect e snm => Ret (with_net s (Connect (s_net s) e snm))
  | AEnable e enabled => Ret (with_net s (Enable (s_net s) e enabled))
  | ACleanup => let! rn := Cleanup (s_net s) in Ret (with_net s rn)
  | ACall e svcMeth args rt =>
      Ret (MkSys (s_net s) (s_servers s) (s_app s) (s_calls s ++ [Call_begin e svcMeth args rt]) (s_loop s))
  end.

Inductive sstep : label EN SN W V RT → sys → sys → Prop :=
| step_admin s op s' :
    admin_step op s = Ret s' → sstep (LAdmin op) s s'
(* the network *)
| step_accept s i cl :
    s_calls s !! i = Some cl → cl_client cl = CSend → s_loop s = true →
    sstep (LCall i) s
      (with_call (with_net s (add_bytes (add_count (s_net s)) (zlen (req_args (cl_req cl))))) i
        (with_client cl CWait (Some PRead)))
| step_loop_exit s :
    s_loop s = true → rn_done (s_net s) = true →
    sstep LLoop s (MkSys (s_net s) (s_servers s) (s_app s) (s_calls s) false)
(* the caller *)
| step_refused s i cl :
    s_calls s !! i = Some cl → cl_client cl = CSend → rn_done (s_net s) = true →
    sstep (LCall i) s (with_call s i (with_client cl (CRet None) (cl_proc cl)))
| step_deliver s i cl r v :
    s_calls s !! i = Some cl → cl_client cl = CWait → cl_proc cl = Some (PSend r) →
    Call_return (cl_replyType cl) r = Ret v →
    sstep (LCall i) s (with_call s i (with_client cl (CRet v) (Some PDone)))
(* processReq *)
| step_read s i cl :
    s_calls s !! i = Some cl → cl_proc cl = Some PRead →
    sstep (LCall i) s
      (with_call s i (with_proc cl (processReq_read (s_net s) (req_endname (cl_req cl)))))
| step_delay s i cl snm srv reliable lr roll p :
    s_calls s !! i = Some cl → cl_proc cl = Some (PDelay snm srv reliable lr) → 0 ≤ roll →
    processReq_delay snm srv reliable lr roll = p →
    sstep (LCall i) s (with_call s i
      match p with
      | PWait _ _ _ _ => with_handler (with_proc cl p) (HReady srv)
      | _ => with_proc cl p
      end)
| step_poll s i cl snm srv reliable lr :
    s_calls s !! i = Some cl → cl_proc cl = Some (PWait snm srv reliable lr) →
    sstep (LCall i) s (with_call s i
      (with_proc cl (processReq_poll (s_net s) (req_endname (cl_req cl)) snm srv reliable lr)))
| step_reply s i cl snm srv reliable lr srv' r :
    s_calls s !! i = Some cl → cl_proc cl = Some (PWait snm srv reliable lr) →
    cl_handler cl = HReplied srv' r →
    sstep (LCall i) s (with_call s i
      (with_handler (with_proc cl (PCheck snm srv reliable lr (Some r))) (HExit srv' r)))
| step_drain s i cl srv' r p :
    (* the goroutine that drains [ech] after the server was found dead *)
    s_calls s !! i = Some cl → cl_proc cl = Some p →
    (∀ snm srv reliable lr, p ≠ PWait snm srv reliable lr) →
    cl_handler cl = HReplied srv' r →
    sstep (LCall i) s (with_call s i (with_handler cl (HExit srv' r)))
| step_check s i cl snm srv reliable lr reply roll roll2 rn p :
    s_calls s !! i = Some cl → cl_proc cl = Some (PCheck snm srv reliable lr reply) →
    0 ≤ roll → 0 ≤ roll2 < 900 →
    processReq_check (s_net s) (req_endname (cl_req cl)) snm srv reliable lr reply roll roll2 = (rn, p) →
    sstep (LCall i) s (with_call (with_net s rn) i (with_proc cl p))
| step_timer s i cl counted r rn p :
    s_calls s !! i = Some cl → cl_proc cl = Some (PTimer counted r) →
    timer_fires (s_net s) counted r = (rn, p) →
    sstep (LCall i) s (with_call (with_net s rn) i (with_proc cl p))
(* the handler *)
| step_enter s i cl srv rs rs' service methodName :
    s_calls s !! i = Some cl → cl_handler cl = HReady srv → s_servers s !! srv = Some rs →
    Server_enter rs (cl_req cl) = Ret (rs', (service, methodName)) →
    sstep (LCall i) s
      (with_call (with_servers s (<[srv := rs']> (s_servers s))) i
        (with_handler cl (HServing srv service methodName)))
| step_serve s i cl srv service methodName w r :
    s_calls s !! i = Some cl → cl_handler cl = HServing srv service methodName →
    Service_dispatch service methodName (cl_req cl) (s_app s) = Ret (w, r) →
    sstep (LCall i) s
      (with_call (MkSys (s_net s) (s_servers s) w (s_calls s) (s_loop s)) i
        (with_handler cl (HReplied srv r))).

(** Executions that take labels of a given kind only. *)
Inductive steps (P : label EN SN W V RT → Prop) : sys → sys → Prop :=
| steps_refl s : steps P s s
| steps_step s1 l s2 s3 : P l → sstep l s1 s2 → steps P s2 s3 → steps P s1 s3.

Definition sys_init (w : W) : sys := MkSys MakeNetwork ∅ w [] true.

Definition reachable (w : W) s : Prop := steps (λ _, True) (sys_init w) s.

End system.
