(* ===== verification/LabrpcProof.v ===== *)
(** * RPCs in flight: what a reply means

    [calls_ok]: what the caller, the goroutine of [processReq] and the handler
    of one RPC know of each other, as an invariant of every execution; the
    counters of the network and of the servers; calls to a deleted server;
    calls on a reliable network; progress of every call. *)
From Stdlib Require Import Ascii.
From stdpp Require Import base gmap sets numbers strings sorting list relations.
From S2P Require Import Prelude Labrpc LabrpcSteps.
Local Open Scope Z_scope.
Local Open Scope go_scope.

Section labrpc_proof.
Context {EN SN W V RT : Type} `{Countable EN, Countable SN, Gob V RT}.
Abbreviation call := (call EN SN W V RT).
Abbreviation sys := (sys EN SN W V RT).
Abbreviation label := (label EN SN W V RT).
Implicit Types (s : sys) (cl : call) (r : replyMsg).

(** ** The invariant of one call *)

(** The reply that the goroutine of [processReq] holds. *)
Definition proc_reply (p : option (rproc SN)) : option replyMsg :=
  match p with
  | Some (PCheck _ _ _ _ r) => r
  | Some (PTimer _ r) | Some (PSend r) => Some r
  | _ => None
  end.

Record call_ok cl : Prop := {
  co_client : match cl_client cl with
              | CSend => cl_proc cl = None
              | CWait => ∃ p, cl_proc cl = Some p ∧ p ≠ PDone
              | CRet _ => cl_proc cl = None ∨ cl_proc cl = Some PDone
              end;
  co_handler : match cl_proc cl with
               | None | Some PRead | Some (PDelay _ _ _ _) => cl_handler cl = HNone
               | Some (PWait _ srv _ _) =>
                   cl_handler cl = HReady srv ∨ (∃ svc m, cl_handler cl = HServing srv svc m) ∨
                   ∃ r, cl_handler cl = HReplied srv r
               | _ => True
               end;
  co_reply : ∀ r, proc_reply (cl_proc cl) = Some r → rep_ok r = true →
    ∃ srv, cl_handler cl = HExit srv r;
  co_result : ∀ v, cl_client cl = CRet (Some v) →
    ∃ srv r, cl_handler cl = HExit srv r ∧ rep_ok r = true ∧
      gob_decode (cl_replyType cl) (rep_reply r) = Some v;
}.

Definition calls_ok s : Prop := ∀ i cl, s_calls s !! i = Some cl → call_ok cl.

Lemma calls_ok_insert s s' i cl :
  calls_ok s → s_calls s' = <[i := cl]> (s_calls s) → call_ok cl → calls_ok s'.
Proof.
  intros Hs Heq Hcl j cl'. rewrite Heq, list_lookup_insert_Some.
  intros [(<- & <- & _)|[_ Hj]]; [done|by eapply Hs].
Qed.

Lemma calls_ok_same s s' : calls_ok s → s_calls s' = s_calls s → calls_ok s'.
Proof. intros Hs Heq i cl. rewrite Heq. apply Hs. Qed.

Lemma Call_return_Some rt r v :
  Call_return rt r = Ret (Some v) → rep_ok r = true ∧ gob_decode rt (rep_reply r) = Some v.
Proof.
  unfold Call_return. destruct (rep_ok r); [|done]. destruct (gob_decode _ _); [|done]. by intros [= ->].
Qed.

Lemma Service_dispatch_ok (svc : Service W V RT) m (req : reqMsg EN RT) w w' r :
  Service_dispatch svc m req w = Ret (w', r) → rep_ok r = true.
Proof.
  unfold Service_dispatch. destruct (svc_methods svc !! m); [|done]. intros Hd. inv_ret.
  destruct v. inv_ret. by simplify_eq.
Qed.

Lemma admin_calls (op : admin EN SN W V RT) s s' :
  admin_step op s = Ret s' →
  s_calls s' = s_calls s ∨
  ∃ e svcMeth args rt, op = ACall e svcMeth args rt ∧ s_calls s' = s_calls s ++ [Call_begin e svcMeth args rt].
Proof.
  destruct op; simpl; intros Ha; inv_ret; subst; try (by left); try (by left; simplify_eq).
  right. by eexists _, _, _, _.
Qed.

Lemma call_begin_ok e svcMeth args rt : call_ok (Call_begin e svcMeth args rt).
Proof. by split. Qed.

(** The goroutine of [processReq] moves on without a caller's doing. *)
Lemma call_ok_proc cl p :
  call_ok cl → (∃ q, cl_proc cl = Some q ∧ q ≠ PDone) → p ≠ PDone →
  match p with
  | PRead => False
  | PDelay _ _ _ _ => cl_handler cl = HNone
  | PWait _ srv _ _ => cl_handler cl = HReady srv ∨ (∃ svc m, cl_handler cl = HServing srv svc m) ∨
      ∃ r, cl_handler cl = HReplied srv r
  | _ => True
  end →
  (∀ r, proc_reply (Some p) = Some r → rep_ok r = true → ∃ srv, cl_handler cl = HExit srv r) →
  call_ok (with_proc cl p).
Proof.
  intros [Hc Hh Hr Hv] (q & Hq & Hqd) Hp Hph Hpr. split; simpl.
  - rewrite Hq in Hc. destruct (cl_client cl); [done|by exists p|naive_solver].
  - destruct p; naive_solver.
  - done.
  - done.
Qed.

Lemma processReq_check_proc (rn : Network EN SN) e snm srv (reliable lr : bool) reply roll roll2 rn' p :
  processReq_check rn e snm srv reliable lr reply roll roll2 = (rn', p) →
  (p = PSend failure) ∨
  ∃ r, reply = Some r ∧ isServerDead rn e snm srv = false ∧ (p = PTimer true r ∨ p = PSend r).
Proof.
  unfold processReq_check. destruct reply as [r|]; [|intros [= _ <-]; by left].
  destruct (isServerDead _ _ _ _); [intros [= _ <-]; by left|].
  destruct (drop_roll _ _); [intros [= _ <-]; by left|].
  destruct (_ && _); intros [= _ <-]; right; exists r; auto.
Qed.

Lemma failure_not_ok r : r = failure → rep_ok r = true → False.
Proof. by intros ->. Qed.

(** The caller gets the reply. *)
Lemma call_ok_deliver cl r v :
  call_ok cl → cl_proc cl = Some (PSend r) → Call_return (cl_replyType cl) r = Ret v →
  call_ok (with_client cl (CRet v) (Some PDone)).
Proof.
  intros [Hc Hh Hr Hv] Hp Hret. rewrite Hp in *. split; simpl; [by right|done|done|]. intros v' [= ->].
  apply Call_return_Some in Hret as [Hok Hdec]. destruct (Hr r eq_refl Hok) as [srv Hsrv]. by exists srv, r.
Qed.

(** A server is chosen. *)
Lemma call_ok_chosen cl snm srv (rel lr : bool) :
  call_ok cl → cl_proc cl = Some (PDelay snm srv rel lr) →
  call_ok (with_handler (with_proc cl (PWait snm srv rel lr)) (HReady srv)).
Proof.
  intros [Hc Hh Hr Hv] Hp. rewrite Hp in *. split; simpl; [|by left|done|].
  - destruct (cl_client cl); [done|by eexists|naive_solver].
  - intros v Hret. destruct (Hv v Hret) as (? & ? & Hx & _). congruence.
Qed.

(** The handler has replied, and the reply is taken. *)
Lemma call_ok_reply cl snm srv (rel lr : bool) srv' r :
  call_ok cl → cl_proc cl = Some (PWait snm srv rel lr) → cl_handler cl = HReplied srv' r →
  call_ok (with_handler (with_proc cl (PCheck snm srv rel lr (Some r))) (HExit srv' r)).
Proof.
  intros [Hc _ Hr Hv] Hp Hh. rewrite Hp in *. split; simpl; [|done|intros r' [= <-] _; by exists srv'|].
  - destruct (cl_client cl); [done|by eexists|naive_solver].
  - intros v Hret. destruct (Hv v Hret) as (? & ? & Hx & _). congruence.
Qed.

(** Nobody waits for the reply. *)
Lemma call_ok_drain cl p srv r :
  call_ok cl → cl_proc cl = Some p → (∀ snm srv rel lr, p ≠ PWait snm srv rel lr) →
  cl_handler cl = HReplied srv r → call_ok (with_handler cl (HExit srv r)).
Proof.
  intros [Hc Hh' Hr Hv] Hp Hnw Hh. rewrite Hp in *. split; simpl; [by rewrite Hp| | |].
  - rewrite Hp. destruct p; try done; [congruence|congruence|by destruct (Hnw _ _ _ _ eq_refl)].
  - rewrite Hp. intros r' Hr' Hok. destruct (Hr r' Hr' Hok). congruence.
  - intros v Hret. destruct (Hv v Hret) as (? & ? & Hx & _). congruence.
Qed.

(** The handler moves on, on its server. *)
Lemma call_ok_handler cl srv h :
  call_ok cl → (cl_handler cl = HReady srv ∨ ∃ svc m, cl_handler cl = HServing srv svc m) →
  (∃ svc m, h = HServing srv svc m) ∨ (∃ r, h = HReplied srv r) → call_ok (with_handler cl h).
Proof.
  intros [Hc Hh' Hr Hv] Hh Hnew.
  assert (∀ srv' r, cl_handler cl ≠ HExit srv' r) as Hne by (intros srv' r; destruct Hh as [->|(? & ? & ->)]; done).
  split; simpl; [done| | |].
  - destruct (cl_proc cl) as [[]|]; try done; destruct Hh as [Hh|(? & ? & Hh)]; rewrite Hh in Hh'; try done;
      destruct Hh' as [Hx|[(? & ? & Hx)|(? & Hx)]]; simplify_eq; destruct Hnew as [(? & ? & ->)|(? & ->)]; eauto 6.
  - intros r' Hr' Hok. destruct (Hr r' Hr' Hok) as [? Hx]. by apply Hne in Hx.
  - intros v Hret. destruct (Hv v Hret) as (? & ? & Hx & _). by apply Hne in Hx.
Qed.

Lemma step_call_ok l s s' : calls_ok s → sstep l s s' → calls_ok s'.
Proof.
  intros Hs Hstep. destruct Hstep as
    [s op s' Ha|s i cl Hi Hc Hl|s Hl Hd|s i cl Hi Hc Hd|s i cl r v Hi Hc Hp Hv|s i cl Hi Hp
    |s i cl snm srv rel lr roll p Hi Hp Hroll <-|s i cl snm srv rel lr Hi Hp
    |s i cl snm srv rel lr srv' r Hi Hp Hh|s i cl srv' r p Hi Hp Hnw Hh
    |s i cl snm srv rel lr reply roll roll2 rn p Hi Hp Hr1 Hr2 Hchk|s i cl counted r rn p Hi Hp Ht
    |s i cl srv rs rs' svc m Hi Hh Hrs He|s i cl srv svc m w r Hi Hh Hd];
    try (pose proof (Hs i cl Hi) as Hok; eapply calls_ok_insert; [exact Hs|done|]).
  - destruct (admin_calls _ _ _ Ha) as [Heq|(e & sm & args & rt & _ & Heq)]; [by eapply calls_ok_same|].
    intros j cl. rewrite Heq, lookup_app_Some. intros [Hj|[_ Hj]]; [by eapply Hs|].
    apply list_lookup_singleton_Some in Hj as [_ <-]. apply call_begin_ok.
  - destruct Hok as [Hc' Hh Hr Hv]. rewrite Hc in *. rewrite Hc' in *. split; simpl; [by eexists|done|done|done].
  - by eapply calls_ok_same.
  - destruct Hok as [Hc' Hh Hr Hv]. rewrite Hc in *. split; simpl; [by left|done|done|done].
  - by eapply call_ok_deliver.
  - pose proof (co_handler _ Hok) as Hh. rewrite Hp in Hh.
    apply call_ok_proc; [done|by exists PRead|..]; unfold processReq_read;
      destruct (readEndnameInfo _ _) as [[[[[] [?|]] [?|]] ?] ?]; try done; by intros ? [= <-].
  - pose proof (co_handler _ Hok) as Hh. rewrite Hp in Hh. unfold processReq_delay.
    destruct (drop_roll _ _); [|by apply (call_ok_chosen cl snm)].
    apply call_ok_proc; [done|by eexists|done|done|]. by intros ? [= <-].
  - pose proof (co_handler _ Hok) as Hh. rewrite Hp in Hh. unfold processReq_poll.
    destruct (isServerDead _ _ _ _); (apply call_ok_proc; [done|by eexists|done|done|done]).
  - by eapply call_ok_reply.
  - by eapply call_ok_drain.
  - pose proof (co_reply _ Hok) as Hr. rewrite Hp in Hr. apply call_ok_proc; [done|by eexists|..];
      destruct (processReq_check_proc _ _ _ _ _ _ _ _ _ _ _ Hchk) as [->|(r & -> & _ & [->| ->])];
      try done; by intros ? [= <-].
  - pose proof (co_reply _ Hok) as Hr. rewrite Hp in Hr.
    injection Ht as _ <-. apply call_ok_proc; [done|by eexists|done|done|done].
  - eapply call_ok_handler; eauto.
  - eapply call_ok_handler; eauto 6.
Qed.

Lemma steps_ind_inv (P : label → Prop) (I : sys → Prop) s s' :
  (∀ l s1 s2, P l → I s1 → sstep l s1 s2 → I s2) → I s → steps P s s' → I s'.
Proof. intros HI Hs Hst. induction Hst as [|s1 l s2 s3 Hl Hstep Hst IH]; [done|]. by eauto. Qed.

(** What the goroutines leave of the network: all but its counters. *)
Record same_admin (rn rn' : Network EN SN) : Prop := {
  sa_enabled : rn_enabled rn' = rn_enabled rn;
  sa_connections : rn_connections rn' = rn_connections rn;
  sa_servers : rn_servers rn' = rn_servers rn;
  sa_reliable : rn_reliable rn' = rn_reliable rn;
  sa_longReordering : rn_longReordering rn' = rn_longReordering rn;
  sa_done : rn_done rn' = rn_done rn;
}.

Lemma same_admin_refl rn : same_admin rn rn.
Proof. by split. Qed.

Lemma processReq_check_net rn e snm srv (reliable lr : bool) reply roll roll2 rn' (p : rproc SN) :
  processReq_check rn e snm srv reliable lr reply roll roll2 = (rn', p) → same_admin rn rn'.
Proof. unfold processReq_check. intros Hc. repeat case_match; simplify_eq; by split. Qed.

Lemma timer_fires_net rn (counted : bool) r rn' (p : rproc SN) :
  timer_fires rn counted r = (rn', p) → same_admin rn rn'.
Proof. unfold timer_fires. intros Ht. destruct counted; simplify_eq; by split. Qed.

Lemma step_net l s s' :
  sstep l s s' → (∃ op, l = LAdmin op ∧ admin_step op s = Ret s') ∨ same_admin (s_net s) (s_net s').
Proof.
  intros Hstep. destruct Hstep; eauto; right; try apply same_admin_refl.
  - by split.
  - by eapply processReq_check_net.
  - by eapply timer_fires_net.
Qed.

(** Following one call while another, or itself, moves. *)
Lemma track_call (Q : call → Prop) (calls : list call) i j cl cl' :
  calls !! i = Some cl → Q cl → (i = j → Q cl') →
  ∃ cl2, <[j := cl']> calls !! i = Some cl2 ∧ Q cl2.
Proof.
  intros Hi Hq Hj. destruct (decide (j = i)) as [->|Hne].
  - rewrite list_lookup_insert_eq by (by eapply lookup_lt_Some). eauto.
  - rewrite list_lookup_insert_ne by done. eauto.
Qed.

Lemma track_admin (Q : call → Prop) op s s' i cl :
  s_calls s !! i = Some cl → Q cl → admin_step op s = Ret s' → ∃ cl2, s_calls s' !! i = Some cl2 ∧ Q cl2.
Proof.
  intros Hi Hq Ha. exists cl. split; [|done].
  destruct (admin_calls _ _ _ Ha) as [->|(e & sm & args & rt & _ & ->)]; [done|by apply lookup_app_l_Some].
Qed.

Lemma reachable_calls_ok (w : W) s : reachable w s → calls_ok s.
Proof.
  apply (steps_ind_inv (λ _, True)).
  - intros l s1 s2 _. apply step_call_ok.
  - by intros [|i] cl Hi.
Qed.

(** ** Counting *)

(** The handler of the call has been counted by the server at [l]. *)
Definition entered (l : sloc) cl : Prop :=
  match cl_handler cl with
  | HServing srv _ _ | HReplied srv _ | HExit srv _ => srv = l
  | _ => False
  end.

#[export] Instance entered_dec l cl : Decision (entered l cl).
Proof. unfold entered. destruct (cl_handler cl); apply _. Defined.

(** The network has taken the request of the call. *)
Definition accepted cl : Prop := is_Some (cl_proc cl).

Definition count_calls (P : call → Prop) `{∀ cl, Decision (P cl)} s : Z :=
  zlen (filter P (s_calls s)).

Lemma count_calls_insert (P : call → Prop) `{∀ cl, Decision (P cl)} s s' i cl cl' :
  s_calls s !! i = Some cl → s_calls s' = <[i := cl']> (s_calls s) →
  count_calls P s' + (if decide (P cl) then 1 else 0) = count_calls P s + (if decide (P cl') then 1 else 0).
Proof.
  intros Hi Heq. unfold count_calls. rewrite Heq.
  pose proof (length_filter_insert P (s_calls s) i cl cl' Hi). repeat case_decide; lia.
Qed.

Record counts_ok s : Prop := {
  ct_server : ∀ l rs, s_servers s !! l = Some rs → srv_count rs = wrap_int 64 (count_calls (entered l) s);
  ct_fresh : ∀ i cl l, s_calls s !! i = Some cl → entered l cl → is_Some (s_servers s !! l);
  ct_dom : ∀ l, is_Some (s_servers s !! l) → (l < size (s_servers s))%nat;
  ct_total : rn_count (s_net s) = wrap_int 32 (count_calls accepted s);
}.

Lemma wrap_int_add (w a b : Z) : 0 < w → wrap_int w (wrap_int w a + b) = wrap_int w (a + b).
Proof.
  intros Hw. unfold wrap_int. f_equal. assert (0 < 2 ^ w) by (apply Z.pow_pos_nonneg; lia).
  replace ((a + 2 ^ (w - 1)) mod 2 ^ w - 2 ^ (w - 1) + b + 2 ^ (w - 1))
    with ((a + 2 ^ (w - 1)) mod 2 ^ w + b) by lia.
  rewrite Z.add_mod_idemp_l by lia. f_equal. lia.
Qed.

(** A step that moves one call, which may enter server [srv]. *)
Lemma counts_call s s' i cl cl' :
  counts_ok s → s_calls s !! i = Some cl → s_calls s' = <[i := cl']> (s_calls s) →
  (∀ l rs', s_servers s' !! l = Some rs' → ∃ rs, s_servers s !! l = Some rs ∧
    srv_count rs' = (if decide (entered l cl) then srv_count rs
      else if decide (entered l cl') then wrap_int 64 (srv_count rs + 1) else srv_count rs)) →
  (∀ l, entered l cl → entered l cl') →
  dom (s_servers s') = dom (s_servers s) →
  (∀ l, entered l cl' → is_Some (s_servers s !! l)) →
  rn_count (s_net s') =
    (if decide (accepted cl) then rn_count (s_net s)
     else if decide (accepted cl') then wrap_int 32 (rn_count (s_net s) + 1) else rn_count (s_net s)) →
  (accepted cl → accepted cl') → counts_ok s'.
Proof.
  intros [Hsrv Hfr Hdom Htot] Hi Heq Hs Hmono Hd Hent Hn Hacc. split.
  - intros l rs' Hl. destruct (Hs l rs' Hl) as (rs & Hrs & ->). rewrite (Hsrv l rs Hrs).
    pose proof (count_calls_insert (entered l) s s' i cl cl' Hi Heq) as Hc. specialize (Hmono l).
    repeat case_decide; try tauto; rewrite ?wrap_int_add by lia; f_equal; lia.
  - intros j cl0 l. rewrite Heq, list_lookup_insert_Some, <-elem_of_dom, Hd, elem_of_dom.
    intros [(<- & <- & _)|[_ Hj]] Hl; [by apply Hent|by eapply Hfr].
  - intros l. rewrite <-elem_of_dom, <-size_dom, Hd, size_dom, elem_of_dom. apply Hdom.
  - pose proof (count_calls_insert accepted s s' i cl cl' Hi Heq) as Hc. rewrite Hn, Htot.
    repeat case_decide; try tauto; [f_equal; lia| |f_equal; lia].
    rewrite wrap_int_add by lia. f_equal. lia.
Qed.

(** The common case: no server is entered. *)
Lemma counts_call_plain s s' i cl cl' :
  counts_ok s → s_calls s !! i = Some cl → s_calls s' = <[i := cl']> (s_calls s) →
  s_servers s' = s_servers s → rn_count (s_net s') = rn_count (s_net s) →
  (∀ l, entered l cl' ↔ entered l cl) → (accepted cl' ↔ accepted cl) → counts_ok s'.
Proof.
  intros Hok Hi Heq Hs Hn Hent Hacc. eapply (counts_call s s' i cl cl'); try done.
  - intros l rs'. rewrite Hs. intros Hl. exists rs'. split; [done|]. specialize (Hent l).
    repeat case_decide; tauto.
  - intros l. apply Hent.
  - by rewrite Hs.
  - intros l Hl%Hent. by eapply ct_fresh.
  - rewrite Hn. repeat case_decide; tauto.
  - tauto.
Qed.

Lemma counts_admin op s s' : counts_ok s → admin_step op s = Ret s' → counts_ok s'.
Proof.
  intros Hok Ha. pose proof Hok as [Hsrv Hfr Hdom Htot]. destruct op; simpl in Ha; inv_ret; subst; try done.
  - unfold MakeEnd in Hv. case_bool_decide; inv_ret; subst. by split.
  - (* AMakeServer *)
    assert (s_servers s !! size (s_servers s) = None) as Hnone.
    { apply eq_None_not_Some. intros Hs%Hdom. lia. }
    split; simpl; [|intros i cl l Hi Hl|intros l Hl|done].
    + intros l rs [(<- & <-)|(Hne & Hl)]%lookup_insert_Some; [|by eapply Hsrv].
      unfold count_calls. rewrite filter_none; [done|].
      intros cl [i Hi]%list_elem_of_lookup Hent. destruct (Hfr i cl _ Hi Hent). simpl in *. congruence.
    + destruct (decide (size (s_servers s) = l)) as [<-|Hne]; [by rewrite lookup_insert_eq|].
      rewrite lookup_insert_ne by done. by eapply Hfr.
    + rewrite map_size_insert_None by done.
      destruct (decide (size (s_servers s) = l)) as [<-|Hne]; [lia|].
      rewrite lookup_insert_ne in Hl by done. specialize (Hdom l Hl). lia.
  - (* AAddService *)
    split; simpl; [|intros i cl l Hi Hl|intros l Hl|done].
    + intros l rs' [(<- & <-)|(Hne & Hl)]%lookup_insert_Some; [by apply (Hsrv rs v)|by eapply Hsrv].
    + destruct (decide (rs = l)) as [<-|Hne]; [by rewrite lookup_insert_eq|].
      rewrite lookup_insert_ne by done. by eapply Hfr.
    + rewrite map_size_insert_Some by done. apply Hdom.
      destruct (decide (rs = l)) as [<-|Hne]; [by eexists|]. by rewrite lookup_insert_ne in Hl.
  - unfold Cleanup in Hv. destruct (rn_done _); inv_ret; subst. by split.
  - (* ACall *)
    split; simpl; [| |done|].
    + intros l rs Hl. rewrite (Hsrv l rs Hl). unfold count_calls. simpl. by rewrite filter_app, app_nil_r.
    + intros i cl l. rewrite lookup_app_Some. intros [Hi|[_ Hi]] Hl; [by eapply Hfr|].
      by apply list_lookup_singleton_Some in Hi as [_ <-].
    + rewrite Htot. unfold count_calls. simpl. rewrite filter_app. f_equal.
      rewrite filter_cons_False, app_nil_r; [done|]. intros [? [=]].
Qed.

Lemma counts_accept s i cl k :
  calls_ok s → counts_ok s → s_calls s !! i = Some cl → cl_client cl = CSend →
  counts_ok (with_call (with_net s (add_bytes (add_count (s_net s)) k)) i (with_client cl CWait (Some PRead))).
Proof.
  intros Hs Hok Hi Hc. pose proof (co_client _ (Hs i cl Hi)) as Hcl. rewrite Hc in Hcl.
  eapply (counts_call s _ i cl); try done.
  - intros l rs Hrs. exists rs. split; [done|]. by repeat case_decide.
  - intros l Hent. by eapply ct_fresh.
  - rewrite decide_False by (unfold accepted; rewrite Hcl; by intros [? ?]).
    by rewrite decide_True by (by eexists).
  - intros _. by eexists.
Qed.

Lemma counts_enter s i cl srv rs rs' svc m :
  counts_ok s → s_calls s !! i = Some cl → cl_handler cl = HReady srv → s_servers s !! srv = Some rs →
  Server_enter rs (cl_req cl) = Ret (rs', (svc, m)) →
  counts_ok (with_call (with_servers s (<[srv := rs']> (s_servers s))) i (with_handler cl (HServing srv svc m))).
Proof.
  intros Hok Hi Hh Hrs He. assert (srv_count rs' = wrap_int 64 (srv_count rs + 1)) as Hcnt.
  { unfold Server_enter in He. inv_ret. destruct v. case_match; [|done]. by simplify_eq. }
  eapply (counts_call s _ i cl); try done.
  - intros l rs0 Hl. simpl in Hl. apply lookup_insert_Some in Hl as [(<- & <-)|(Hne & Hl)].
    + exists rs. split; [done|]. rewrite Hcnt.
      rewrite decide_False by (unfold entered; rewrite Hh; tauto).
      by rewrite decide_True.
    + exists rs0. split; [done|]. rewrite !decide_False; [done|..]; unfold entered; simpl; rewrite ?Hh; tauto.
  - intros l. unfold entered. rewrite Hh. tauto.
  - simpl. rewrite dom_insert_L. apply elem_of_dom_2 in Hrs. set_solver.
  - intros l Hl. unfold entered in Hl. simpl in Hl. subst l. by eexists.
  - simpl. repeat case_decide; done.
Qed.

(** The goroutine of [processReq] moves on. *)
Lemma counts_proc s i cl rn q p h :
  counts_ok s → s_calls s !! i = Some cl → cl_proc cl = Some q → rn_count rn = rn_count (s_net s) →
  (∀ l, entered l (with_handler (with_proc cl p) h) ↔ entered l cl) →
  counts_ok (with_call (with_net s rn) i (with_handler (with_proc cl p) h)).
Proof.
  intros Hok Hi Hp Hn Hent. eapply (counts_call_plain s _ i cl); try done.
  unfold accepted. simpl. rewrite Hp. split; by eexists.
Qed.

Lemma counts_step l s s' : calls_ok s → counts_ok s → sstep l s s' → counts_ok s'.
Proof.
  intros Hs Hok Hstep. destruct Hstep as
    [s op s' Ha|s i cl Hi Hc Hl|s Hl Hd|s i cl Hi Hc Hd|s i cl r v Hi Hc Hp Hv|s i cl Hi Hp
    |s i cl snm srv rel lr roll p Hi Hp Hroll <-|s i cl snm srv rel lr Hi Hp
    |s i cl snm srv rel lr srv' r Hi Hp Hh|s i cl srv' r p Hi Hp Hnw Hh
    |s i cl snm srv rel lr reply roll roll2 rn p Hi Hp Hr1 Hr2 Hchk|s i cl counted r rn p Hi Hp Ht
    |s i cl srv rs rs' svc m Hi Hh Hrs He|s i cl srv svc m w r Hi Hh Hd].
  - by eapply counts_admin.
  - by apply counts_accept.
  - by destruct Hok; split.
  - by eapply (counts_call_plain s _ i cl).
  - eapply (counts_call_plain s _ i cl); try done. unfold accepted. simpl. rewrite Hp. split; by eexists.
  - by eapply (counts_proc s i cl (s_net s) _ _ (cl_handler cl)).
  - pose proof (co_handler _ (Hs i cl Hi)) as Hh. rewrite Hp in Hh. unfold processReq_delay.
    destruct (drop_roll _ _); [by eapply (counts_proc s i cl (s_net s) _ _ (cl_handler cl))|].
    eapply (counts_proc s i cl (s_net s)); try done. intros l. unfold entered. simpl. by rewrite Hh.
  - by eapply (counts_proc s i cl (s_net s) _ _ (cl_handler cl)).
  - eapply (counts_proc s i cl (s_net s)); try done. intros l. unfold entered. simpl. by rewrite Hh.
  - eapply (counts_call_plain s _ i cl); try done. intros l. unfold entered. simpl. by rewrite Hh.
  - assert (rn_count rn = rn_count (s_net s)) as Hn.
    { unfold processReq_check in Hchk. repeat case_match; by simplify_eq. }
    by eapply (counts_proc s i cl rn _ _ (cl_handler cl)).
  - assert (rn_count rn = rn_count (s_net s)) as Hn.
    { unfold timer_fires in Ht. destruct counted; by simplify_eq. }
    by eapply (counts_proc s i cl rn _ _ (cl_handler cl)).
  - by eapply counts_enter.
  - eapply (counts_call_plain s _ i cl); try done. intros l. unfold entered. simpl. by rewrite Hh.
Qed.

Lemma reachable_counts (w : W) s : reachable w s → counts_ok s.
Proof.
  intros Hr. apply (steps_ind_inv (λ _, True) (λ s, calls_ok s ∧ counts_ok s) (sys_init w) s); [| |done].
  - intros l s1 s2 _ [Hc1 Hc2] Hst. split; [by eapply step_call_ok|by eapply counts_step].
  - split; [by intros [|i] cl Hi|]. split; simpl; try done.
    + intros l [? Hl]. by rewrite lookup_empty in Hl.
Qed.

(** ** A deleted server *)

(** No name leads to the server at [srv]. *)
Definition unregistered (srv : sloc) s : Prop := ∀ snm, server_of (s_net s) snm ≠ Some srv.

(** The goroutine of [processReq] has chosen the server at [srv], and has not
    replied yet, or has replied with a failure. *)
Definition doomed (srv : sloc) cl : Prop :=
  match cl_proc cl with
  | Some (PDelay _ srv' _ _) | Some (PWait _ srv' _ _) | Some (PCheck _ srv' _ _ _) => srv' = srv
  | Some (PSend r) => r = failure
  | Some PDone => True
  | _ => False
  end ∧ (cl_client cl = CWait ∨ cl_client cl = CRet None).

Definition not_registering (srv : sloc) (l : label) : Prop :=
  match l with LAdmin (AAddServer _ srv') => srv' ≠ srv | _ => True end.

Lemma unregistered_dead srv s e snm :
  unregistered srv s → isServerDead (s_net s) e snm srv = true.
Proof. intros Hu. apply bool_decide_eq_true. right. apply Hu. Qed.

Lemma server_of_insert (rn : Network EN SN) snm o snm' :
  server_of (set_server rn snm o) snm' = if decide (snm = snm') then o else server_of rn snm'.
Proof.
  unfold server_of, set_server. simpl. case_decide as Hs.
  - subst. by rewrite lookup_insert_eq.
  - by rewrite lookup_insert_ne.
Qed.

Lemma unregistered_step srv l s s' :
  not_registering srv l → unregistered srv s → sstep l s s' → unregistered srv s'.
Proof.
  intros Hl Hu [(op & -> & Ha)|Hsame]%step_net.
  2: { intros snm. unfold server_of. rewrite (sa_servers _ _ Hsame). apply Hu. }
  destruct op; simpl in Ha; inv_ret; subst; try exact Hu.
  - unfold MakeEnd in Hv. case_bool_decide; inv_ret; subst. exact Hu.
  - intros snm. simpl. unfold AddServer. rewrite server_of_insert.
    case_decide; [|apply Hu]. intros [= ->]. by apply Hl.
  - intros snm. simpl. unfold DeleteServer. rewrite server_of_insert.
    case_decide; [done|apply Hu].
  - unfold Cleanup in Hv. destruct (rn_done _); inv_ret; subst. exact Hu.
Qed.

Lemma doomed_step srv l s s' i cl :
  unregistered srv s → s_calls s !! i = Some cl → doomed srv cl → sstep l s s' →
  ∃ cl', s_calls s' !! i = Some cl' ∧ doomed srv cl'.
Proof.
  intros Hu Hcl Hdoom Hstep. pose proof Hdoom as Hq. unfold doomed in Hdoom. destruct Hstep as
    [s op s' Ha|s j cl' Hi Hc Hlo|s Hlo Hd|s j cl' Hi Hc Hd|s j cl' r v Hi Hc Hp Hv|s j cl' Hi Hp
    |s j cl' snm srv' rel lr roll p Hi Hp Hroll <-|s j cl' snm srv' rel lr Hi Hp
    |s j cl' snm srv' rel lr srv2 r Hi Hp Hh|s j cl' srv2 r p Hi Hp Hnw Hh
    |s j cl' snm srv' rel lr reply roll roll2 rn p Hi Hp Hr1 Hr2 Hchk|s j cl' counted r rn p Hi Hp Ht
    |s j cl' srv' rs rs' svc m Hi Hh Hrs He|s j cl' srv' svc m w r Hi Hh Hd];
    try (eapply (track_call (doomed srv)); [exact Hcl|exact Hq|]; intros <-; assert (cl' = cl) as -> by congruence; clear Hq; unfold doomed; simpl;
         try rewrite Hp in Hdoom; simpl in Hdoom).
  - by eapply track_admin.
  - rewrite Hc in Hdoom. naive_solver.
  - by exists cl.
  - rewrite Hc in Hdoom. naive_solver.
  - destruct Hdoom as [-> _]. split; [done|]. right. unfold Call_return in Hv. by simplify_eq/=.
  - tauto.
  - destruct Hdoom as [-> Hcc]. unfold processReq_delay. by destruct (drop_roll _ _).
  - destruct Hdoom as [-> Hcc]. unfold processReq_poll. by destruct (isServerDead _ _ _ _).
  - done.
  - rewrite Hp. done.
  - destruct Hdoom as [-> Hcc]. split; [|done].
    unfold processReq_check in Hchk. rewrite (unregistered_dead _ _ _ _ Hu) in Hchk.
    destruct reply; by simplify_eq.
  - tauto.
  - exact Hdoom.
  - exact Hdoom.
Qed.

(** ** A reliable network *)

Definition no_admin (l : label) : Prop :=
  match l with LAdmin (ACall _ _ _ _) => True | LAdmin _ => False | _ => True end.

(** The end is connected and enabled, the server registered, nothing delayed
    or dropped. *)
Definition good_path (e : EN) (snm : SN) (srv : sloc) s : Prop :=
  readEndnameInfo (s_net s) e = (true, Some snm, Some srv, true, false) ∧ rn_done (s_net s) = false.

Lemma good_path_alive e snm srv s : good_path e snm srv s → isServerDead (s_net s) e snm srv = false.
Proof.
  intros [Hg _]. unfold readEndnameInfo in Hg. injection Hg as He Hc Hs _ _.
  rewrite Hc in Hs. apply bool_decide_eq_false. rewrite He, Hs. naive_solver.
Qed.

Lemma good_path_step e snm srv l s s' :
  no_admin l → good_path e snm srv s → sstep l s s' → good_path e snm srv s'.
Proof.
  intros Hl Hg [(op & -> & Ha)|[He Hc Hs Hr Ho Hd]]%step_net.
  - destruct op; try done. simpl in Ha. inv_ret. subst. exact Hg.
  - revert Hg. unfold good_path, readEndnameInfo, enabled_of, connection_of, server_of.
    by rewrite He, Hc, Hs, Hr, Ho, Hd.
Qed.

(** Where a call can be on a good path. *)
Definition on_good_path (e : EN) (snm : SN) (srv : sloc) cl : Prop :=
  req_endname (cl_req cl) = e ∧ cl_client cl ≠ CRet None ∧
  (∀ srv' r, cl_handler cl = HReplied srv' r ∨ cl_handler cl = HExit srv' r → rep_ok r = true) ∧
  match cl_proc cl with
  | None | Some PRead | Some PDone => True
  | Some (PDelay snm' srv' rel lr) | Some (PWait snm' srv' rel lr) =>
      snm' = snm ∧ srv' = srv ∧ rel = true ∧ lr = false
  | Some (PCheck snm' srv' rel lr r) =>
      snm' = snm ∧ srv' = srv ∧ rel = true ∧ lr = false ∧ ∃ r', r = Some r' ∧ rep_ok r' = true
  | Some (PSend r) => rep_ok r = true
  | Some (PTimer _ _) => False
  end.

Lemma on_good_path_step e snm srv l s s' i cl :
  no_admin l → good_path e snm srv s → s_calls s !! i = Some cl → on_good_path e snm srv cl →
  sstep l s s' → ∃ cl', s_calls s' !! i = Some cl' ∧ on_good_path e snm srv cl'.
Proof.
  intros Hl Hg Hcl Hgood Hstep.
  pose proof Hgood as Hq.
  destruct Hstep as
    [s op s' Ha|s j cl' Hi Hc Hlo|s Hlo Hd|s j cl' Hi Hc Hd|s j cl' r v Hi Hc Hp Hv|s j cl' Hi Hp
    |s j cl' snm' srv' rel lr roll p Hi Hp Hroll <-|s j cl' snm' srv' rel lr Hi Hp
    |s j cl' snm' srv' rel lr srv2 r Hi Hp Hh|s j cl' srv2 r p Hi Hp Hnw Hh
    |s j cl' snm' srv' rel lr reply roll roll2 rn p Hi Hp Hr1 Hr2 Hchk|s j cl' counted r rn p Hi Hp Ht
    |s j cl' srv' rs rs' svc m Hi Hh Hrs He|s j cl' srv' svc m w r Hi Hh Hd];
    try (eapply (track_call (on_good_path e snm srv)); [exact Hcl|exact Hq|]; intros <-; assert (cl' = cl) as -> by congruence; clear Hq;
         destruct Hgood as (Hge & Hgc & Hgh & Hgp); unfold on_good_path; simpl;
         try rewrite Hp in Hgp; simpl in Hgp).
  - by eapply track_admin.
  - by split_and!.
  - by exists cl.
  - destruct Hg as [_ Hg]. congruence.
  - split_and!; [done| |done|done]. intros [= ->]. unfold Call_return in Hv. rewrite Hgp in Hv.
    by destruct (gob_decode _ _).
  - unfold processReq_read. rewrite Hge. destruct Hg as [-> _]. by split_and!.
  - destruct Hgp as (-> & -> & -> & ->). unfold processReq_delay. simpl. split_and!; try done.
    intros ? ? [?|?]; done.
  - destruct Hgp as (-> & -> & -> & ->). unfold processReq_poll. rewrite Hge.
    rewrite (good_path_alive _ _ _ _ Hg). by split_and!.
  - destruct Hgp as (-> & -> & -> & ->).
    assert (rep_ok r = true) as Hr by (eapply Hgh; eauto). split_and!; try done; [|by eexists].
    intros ? ? [?|?]; simplify_eq; done.
  - rewrite Hp. split_and!; try done. intros ? ? [?|?]; simplify_eq; eauto.
  - destruct Hgp as (-> & -> & -> & -> & r & -> & Hr). unfold processReq_check in Hchk.
    rewrite Hge, (good_path_alive _ _ _ _ Hg) in Hchk. simpl in Hchk. simplify_eq. by split_and!.
  - done.
  - split_and!; try done. intros ? ? [?|?]; done.
  - apply Service_dispatch_ok in Hd. split_and!; try done. intros ? ? [?|?]; by simplify_eq.
Qed.

(** ** Progress *)

(** The pointers to servers that the goroutines hold are not nil. *)
Definition mentions (srv : sloc) cl : Prop :=
  (∃ snm rel lr, cl_proc cl = Some (PDelay snm srv rel lr)) ∨ cl_handler cl = HReady srv.

Record pointers_ok s : Prop := {
  po_names : ∀ snm l, server_of (s_net s) snm = Some l → is_Some (s_servers s !! l);
  po_calls : ∀ i cl l, s_calls s !! i = Some cl → mentions l cl → is_Some (s_servers s !! l);
  po_loop : s_loop s = false → rn_done (s_net s) = true;
}.

Lemma pointers_call s s' i cl :
  pointers_ok s → s_calls s' = <[i := cl]> (s_calls s) → s_servers s' = s_servers s →
  rn_servers (s_net s') = rn_servers (s_net s) → rn_done (s_net s') = rn_done (s_net s) →
  s_loop s' = s_loop s → (∀ l, mentions l cl → is_Some (s_servers s !! l)) → pointers_ok s'.
Proof.
  intros [Hn Hc Hl] Heq Hs Hsn Hd Hlo Hm. split.
  - intros snm l. unfold server_of. rewrite Hsn, Hs. apply Hn.
  - intros j cl' l. rewrite Heq, Hs, list_lookup_insert_Some.
    intros [(<- & <- & _)|[_ Hj]]; [by apply Hm|by eapply Hc].
  - rewrite Hlo, Hd. done.
Qed.

Lemma is_Some_insert {K B : Type} `{Countable K} (m : gmap K B) (k : K) (b : B) (l : K) :
  is_Some (m !! l) → is_Some (<[k := b]> m !! l).
Proof. rewrite lookup_insert_is_Some'. auto. Qed.

Lemma pointers_admin op s s' : pointers_ok s → admin_step op s = Ret s' → pointers_ok s'.
Proof.
  intros [Hn Hc Hl] Ha. destruct op; simpl in Ha; inv_ret; subst; try done.
  - unfold MakeEnd in Hv. case_bool_decide; inv_ret; subst. by split.
  - split; simpl; eauto using is_Some_insert.
  - split; simpl; eauto using is_Some_insert.
  - split; simpl; [|done|done]. intros snm l. unfold AddServer. rewrite server_of_insert.
    case_decide; [intros [= <-]; by eexists|apply Hn].
  - split; simpl; [|done|done]. intros snm l. unfold DeleteServer. rewrite server_of_insert.
    case_decide; [done|apply Hn].
  - unfold Cleanup in Hv. destruct (rn_done _); inv_ret; subst. by split.
  - split; simpl; [done| |done]. intros i cl l. rewrite lookup_app_Some. intros [Hi|[_ Hi]]; [by apply Hc with i|].
    apply list_lookup_singleton_Some in Hi as [_ <-]. intros [(? & ? & ? & [=])|[=]].
Qed.

Lemma pointers_step l s s' : pointers_ok s → sstep l s s' → pointers_ok s'.
Proof.
  intros Hok Hstep. pose proof Hok as [Hn Hc0 Hl0]. destruct Hstep as
    [s op s' Ha|s i cl Hi Hc Hlo|s Hlo Hd|s i cl Hi Hc Hd|s i cl r v Hi Hc Hp Hv|s i cl Hi Hp
    |s i cl snm srv rel lr roll p Hi Hp Hroll <-|s i cl snm srv rel lr Hi Hp
    |s i cl snm srv rel lr srv2 r Hi Hp Hh|s i cl srv2 r p Hi Hp Hnw Hh
    |s i cl snm srv rel lr reply roll roll2 rn p Hi Hp Hr1 Hr2 Hchk|s i cl counted r rn p Hi Hp Ht
    |s i cl srv rs rs' svc m Hi Hh Hrs He|s i cl srv svc m w r Hi Hh Hd];
    try (assert (∀ srv', cl_handler cl = HReady srv' → is_Some (s_servers s !! srv')) as Hready
      by (intros srv' ?; eapply Hc0; [exact Hi|by right])).
  - by eapply pointers_admin.
  - eapply pointers_call; try done. intros l [(? & ? & ? & [=])|Hh]; by apply Hready.
  - by split.
  - eapply pointers_call; try done. intros l Hm. by eapply Hc0.
  - eapply pointers_call; try done. intros l [(? & ? & ? & [=])|Hh]; by apply Hready.
  - eapply pointers_call; try done. intros l [(sn & re & lo & Hpd)|Hh]; [|by apply Hready].
    simpl in Hpd. unfold processReq_read, readEndnameInfo in Hpd. repeat case_match; simplify_eq. by eapply Hn.
  - assert (is_Some (s_servers s !! srv)) as Hsrv by (eapply Hc0; [exact Hi|left; eauto]).
    eapply pointers_call; try done. unfold processReq_delay. destruct (drop_roll _ _).
    + intros l [(? & ? & ? & [=])|Hh]; by apply Hready.
    + intros l [(? & ? & ? & [=])|[= <-]]. done.
  - eapply pointers_call; try done. unfold processReq_poll.
    destruct (isServerDead _ _ _ _); intros l [(? & ? & ? & [=])|Hh]; by apply Hready.
  - eapply pointers_call; try done. intros l [(? & ? & ? & [=])|[=]].
  - eapply pointers_call; try done. intros l [(sn & re & lo & Hpd)|[=]].
    eapply Hc0; [exact Hi|left; eauto].
  - destruct (processReq_check_net _ _ _ _ _ _ _ _ _ _ _ Hchk). eapply pointers_call; try done.
    intros l [(sn & re & lo & Hpd)|Hh]; [|by apply Hready]. simpl in Hpd.
    destruct (processReq_check_proc _ _ _ _ _ _ _ _ _ _ _ Hchk) as [->|(? & _ & _ & [->| ->])]; done.
  - destruct (timer_fires_net _ _ _ _ _ Ht). eapply pointers_call; try done.
    injection Ht as _ <-. intros l [(? & ? & ? & [=])|Hh]; by apply Hready.
  - pose proof (is_Some_insert (s_servers s) srv rs') as Hsub. split; simpl; [eauto| |done].
    intros j cl' l. rewrite list_lookup_insert_Some. intros [(<- & <- & _)|[_ Hj]] Hm; [|by eapply Hsub, Hc0].
    destruct Hm as [Hm|[=]]. apply Hsub. eapply Hc0; [exact Hi|by left].
  - eapply pointers_call; try done. intros l [Hm|[=]]. eapply Hc0; [exact Hi|by left].
Qed.

Lemma reachable_pointers (w : W) s : reachable w s → pointers_ok s.
Proof.
  apply (steps_ind_inv (λ _, True)).
  - intros l s1 s2 _. apply pointers_step.
  - split; simpl; [|by intros [|i]|done]. intros snm l. unfold server_of. simpl. by rewrite lookup_empty.
Qed.

(** The next step of the call ends the program, in [log.Fatalf] or in a panic
    of the handler. *)
Definition fatal s cl : Prop :=
  (∃ srv rs, cl_handler cl = HReady srv ∧ s_servers s !! srv = Some rs ∧
    ¬ returns (Server_enter rs (cl_req cl))) ∨
  (∃ srv svc m, cl_handler cl = HServing srv svc m ∧
    ¬ returns (Service_dispatch svc m (cl_req cl) (s_app s))) ∨
  (∃ r, cl_proc cl = Some (PSend r) ∧ ¬ returns (Call_return (cl_replyType cl) r)).

Lemma returns_or {A : Type} (m : outcome A) : (∃ a, m = Ret a) ∨ ¬ returns m.
Proof. destruct m; [left; by eexists|right; by intros [? ?]..]. Qed.

(** A step of call [i] that changes it. *)
Definition advances (i : nat) s : Prop := ∃ s', sstep (LCall i) s s' ∧ s_calls s' !! i ≠ s_calls s !! i.

Lemma advance_with s i cl cl' s' :
  s_calls s !! i = Some cl → sstep (LCall i) s s' → s_calls s' = <[i := cl']> (s_calls s) →
  cl' ≠ cl → advances i s.
Proof.
  intros Hi Hst Heq Hne. exists s'. split; [done|]. rewrite Heq, Hi.
  rewrite list_lookup_insert_eq by (by eapply lookup_lt_Some). congruence.
Qed.

Lemma with_proc_ne cl p : cl_proc cl ≠ Some p → with_proc cl p ≠ cl.
Proof. intros Hne Heq. apply Hne. by rewrite <-Heq. Qed.

Lemma call_progress s i cl :
  calls_ok s → pointers_ok s → s_calls s !! i = Some cl → (∀ v, cl_client cl ≠ CRet v) →
  advances i s ∨ fatal s cl.
Proof.
  intros Hs [_ Hpc Hloop] Hi Hret. pose proof (Hs i cl Hi) as [Hc Hh _ _].
  destruct (cl_client cl) as [| |v] eqn:Hcl; [| |by destruct (Hret v)].
  { left. destruct (s_loop s) eqn:Hlo.
    - eapply advance_with; [done|by eapply step_accept|done|]. intros Heq.
      apply (f_equal cl_client) in Heq. simpl in Heq. congruence.
    - eapply advance_with; [done|eapply step_refused; eauto|done|]. intros Heq.
      apply (f_equal cl_client) in Heq. simpl in Heq. congruence. }
  destruct Hc as (p & Hp & Hpd). rewrite Hp in Hh.
  destruct p as [|snm srv rel lr|snm srv rel lr|snm srv rel lr reply|counted r|r|]; [..|done].
  - left. eapply advance_with; [done|by eapply step_read|done|]. apply with_proc_ne. rewrite Hp.
    unfold processReq_read. by repeat case_match.
  - left. eapply advance_with; [done|by apply (step_delay s i cl snm srv rel lr 0)|done|].
    intros Heq. apply (f_equal cl_proc) in Heq. rewrite Hp in Heq. unfold processReq_delay in Heq.
    by destruct (drop_roll _ _).
  - destruct Hh as [Hh|[(svc & m & Hh)|(r & Hh)]].
    + destruct (Hpc i cl srv Hi) as [rs Hrs]; [by right|].
      destruct (returns_or (Server_enter rs (cl_req cl))) as [[[rs' [svc m]] He]|Hne];
        [left|right; left; eauto 8].
      eapply advance_with; [done|by eapply step_enter|done|]. intros Heq.
      apply (f_equal cl_handler) in Heq. simpl in Heq. congruence.
    + destruct (returns_or (Service_dispatch svc m (cl_req cl) (s_app s))) as [[[w r] Hd]|Hne];
        [left|right; right; left; eauto 8].
      eapply advance_with; [done|by eapply step_serve|done|]. intros Heq.
      apply (f_equal cl_handler) in Heq. simpl in Heq. congruence.
    + left. eapply advance_with; [done|by eapply step_reply|done|]. intros Heq.
      apply (f_equal cl_handler) in Heq. simpl in Heq. congruence.
  - left. destruct (processReq_check (s_net s) (req_endname (cl_req cl)) snm srv rel lr reply 0 0)
      as [rn p] eqn:Hchk.
    eapply advance_with; [done|by eapply step_check|done|]. apply with_proc_ne. rewrite Hp.
    destruct (processReq_check_proc _ _ _ _ _ _ _ _ _ _ _ Hchk) as [->|(? & _ & _ & [->| ->])]; done.
  - left. eapply advance_with; [done|by eapply step_timer|done|]. apply with_proc_ne. by rewrite Hp.
  - destruct (returns_or (Call_return (cl_replyType cl) r)) as [[v Hv]|Hne];
      [left|right; right; right; eauto 8].
    eapply advance_with; [done|by eapply step_deliver|done|]. intros Heq.
    apply (f_equal cl_client) in Heq. simpl in Heq. congruence.
Qed.

End labrpc_proof.

(** ** Strings: "Service.Method" *)
Fixpoint has_dot (s : string) : bool :=
  match s with
  | EmptyString => false
  | String c s' => bool_decide (c = "."%char) || has_dot s'
  end.

Lemma last_dot_bound s : -1 ≤ last_dot s < Z.of_nat (String.length s).
Proof.
  induction s as [|c s IH]; simpl; [lia|]. case_bool_decide; [lia|]. case_bool_decide; lia.
Qed.

Lemma last_dot_none s : last_dot s = -1 ↔ has_dot s = false.
Proof.
  pose proof (last_dot_bound s) as Hb. revert Hb. induction s as [|c s IH]; simpl; [done|].
  pose proof (last_dot_bound s) as Hb. specialize (IH Hb). intros _.
  destruct (has_dot s) eqn:Hd.
  - rewrite bool_decide_eq_true_2 by (destruct (decide (last_dot s = -1)); [naive_solver|lia]).
    rewrite orb_true_r. split; [lia|done].
  - rewrite bool_decide_eq_false_2 by (rewrite (proj2 IH eq_refl); lia). rewrite orb_false_r.
    case_bool_decide; naive_solver.
Qed.

(** The string around its last dot. *)
Lemma last_dot_split s :
  0 ≤ last_dot s →
  s = (str_take (Z.to_nat (last_dot s)) s +:+ "." +:+ str_drop (Z.to_nat (last_dot s + 1)) s)%string ∧
  has_dot (str_drop (Z.to_nat (last_dot s + 1)) s) = false.
Proof.
  induction s as [|c s IH]; simpl; [lia|]. case_bool_decide as Hi.
  - intros _. destruct (IH Hi) as [Heq Hd].
    replace (Z.to_nat (last_dot s + 1)) with (S (Z.to_nat (last_dot s))) in * by lia.
    replace (Z.to_nat (last_dot s + 1 + 1)) with (S (S (Z.to_nat (last_dot s)))) by lia.
    simpl in *. split; [|done]. rewrite Heq at 1. done.
  - case_bool_decide as Hc; [|lia]. intros _. subst c. simpl. split; [by destruct s|].
    apply last_dot_none. pose proof (last_dot_bound s). destruct s; simpl in *; lia.
Qed.

Lemma str_take_app a b : str_take (String.length a) (a +:+ b)%string = a.
Proof. induction a as [|c a IH]; simpl; [by destruct b|]. by rewrite IH. Qed.

Lemma str_drop_app a b : str_drop (String.length a) (a +:+ b)%string = b.
Proof. induction a as [|c a IH]; simpl; [by destruct b|done]. Qed.

Lemma last_dot_app a b : has_dot b = false → last_dot (a +:+ "." +:+ b)%string = Z.of_nat (String.length a).
Proof.
  intros Hb. induction a as [|c a IH]; simpl.
  - change (last_dot (String "."%char b) = 0). cbn [last_dot]. apply last_dot_none in Hb. by rewrite Hb.
  - simpl in IH. rewrite IH. rewrite bool_decide_eq_true_2 by lia. lia.
Qed.

(** the dispatcher of a server splits "Service.Method" at the last dot: it
    is the inverse of joining the names, for method names without a dot, and it
    panics exactly on strings without any dot. *)
Theorem split_svcMeth_spec (svcMeth service method : string) :
  (split_svcMeth svcMeth = Ret (service, method) ↔
    svcMeth = (service +:+ "." +:+ method)%string ∧ has_dot method = false) ∧
  (split_svcMeth svcMeth = Panic ↔ has_dot svcMeth = false).
Proof.
  unfold split_svcMeth, str_upto, str_from. pose proof (last_dot_bound svcMeth) as Hb.
  destruct (decide (0 ≤ last_dot svcMeth)) as [Hd|Hd].
  - rewrite !bool_decide_eq_true_2 by lia. simpl. destruct (last_dot_split _ Hd) as [Heq Hnd]. split.
    + split; [by intros [= <- <-]|]. intros [-> Hm]. rewrite last_dot_app by done.
      rewrite Nat2Z.id, str_take_app.
      replace (Z.to_nat (Z.of_nat (String.length service) + 1)) with (String.length service + 1)%nat by lia.
      do 2 f_equal. clear. induction service as [|c s IH]; simpl; [by destruct method|done].
    + split; [done|]. intros Hn%last_dot_none. lia.
  - rewrite bool_decide_eq_false_2 by lia. simpl. split.
    + split; [done|]. intros [-> Hm]. rewrite last_dot_app in Hd by done. lia.
    + split; [intros _|done]. apply last_dot_none. lia.
Qed.

(** ** Handlers *)
Section make_service.
Context {W V RT : Type}.
Implicit Types (m : rmethod W V RT).

(** The method is exported, takes a receiver and two arguments, the second
    of them a pointer, and returns nothing. *)
Definition is_handler m : Prop :=
  rm_PkgPath m = "" ∧ length (rm_In m) = 3%nat ∧ rm_In m !! 2%nat = Some KPtr ∧ rm_NumOut m = 0.

Lemma suitable_spec m : ∃ b, suitable m = Ret b ∧ (b = true ↔ is_handler m).
Proof.
  unfold suitable, is_handler. case_bool_decide as Hp; [exists false; naive_solver|].
  case_bool_decide as Hl; [exists false; naive_solver|].
  destruct (slice_get_in_range (rm_In m) 2) as (k & -> & Hk); [lia|]. simpl.
  change (Z.to_nat 2) with 2%nat in Hk.
  case_bool_decide as Hkp; [exists false; naive_solver|].
  eexists. split; [done|]. rewrite bool_decide_eq_true. destruct k; naive_solver.
Qed.

Lemma MakeService_loop_spec ms methods :
  NoDup (rm_Name <$> ms) → (∀ m, m ∈ ms → methods !! rm_Name m = None) →
  ∃ methods', MakeService_loop ms methods = Ret methods' ∧
    ∀ name m, methods' !! name = Some m ↔
      methods !! name = Some m ∨ (m ∈ ms ∧ rm_Name m = name ∧ is_handler m).
Proof.
  revert methods. induction ms as [|m ms IH]; intros methods Hnd Hfresh; simpl.
  { exists methods. split; [done|]. intros name m. set_solver. }
  destruct (suitable_spec m) as (b & -> & Hb). simpl. rewrite fmap_cons in Hnd.
  apply NoDup_cons in Hnd as [Hni Hnd].
  destruct (IH (if b then <[rm_Name m := m]> methods else methods) Hnd) as (methods' & -> & Hspec).
  { intros m' Hm'. assert (rm_Name m ≠ rm_Name m') as Hne.
    { intros Heq. apply Hni. rewrite Heq. by apply list_elem_of_fmap_2. }
    destruct b; [rewrite lookup_insert_ne by done|]; apply Hfresh; by right. }
  exists methods'. split; [done|]. intros name m'. rewrite Hspec, elem_of_cons. destruct b.
  - rewrite lookup_insert_Some. pose proof (Hfresh m (list_elem_of_here _ _)).
    destruct (decide (rm_Name m = name)) as [<-|Hne]; naive_solver.
  - naive_solver.
Qed.
End make_service.

(** [MakeService] never panics, and the service it makes has exactly the
    methods that look like a handler, each under its name. *)
Theorem MakeService_handlers {W V RT : Type} (name : string) (ms : list (rmethod W V RT)) :
  NoDup (rm_Name <$> ms) →
  ∃ svc, MakeService name ms = Ret svc ∧ svc_name svc = name ∧
    ∀ mname m, svc_methods svc !! mname = Some m ↔ m ∈ ms ∧ rm_Name m = mname ∧ is_handler m.
Proof.
  intros Hnd. destruct (MakeService_loop_spec ms ∅ Hnd) as (methods & Hm & Hspec); [done|].
  unfold MakeService. rewrite Hm. simpl. eexists. split_and!; [done|done|].
  intros mname m. simpl. rewrite Hspec, lookup_empty. naive_solver.
Qed.

(** ** The theorems on RPCs *)
Section rpc_theorems.
Context {EN SN W V RT : Type} `{Countable EN, Countable SN, Gob V RT}.
Implicit Types (s : sys EN SN W V RT) (cl : call EN SN W V RT).

(** C17: a call that returns [true] returns the decoded reply of its own
    handler, which has run to its end; and each handler runs at most once, as
    the state of the call shows. *)
Theorem Call_result (w : W) s i cl v :
  reachable w s → s_calls s !! i = Some cl → cl_client cl = CRet (Some v) →
  ∃ srv r, cl_handler cl = HExit srv r ∧ rep_ok r = true ∧
    gob_decode (cl_replyType cl) (rep_reply r) = Some v.
Proof. intros Hr Hi Hc. by apply (co_result _ (reachable_calls_ok w s Hr i cl Hi)). Qed.

(** C18: [GetCount] of a registered server is the number of calls whose
    handler has started on it, as a 64-bit [int], and [GetTotalCount] the
    number of requests that the network has accepted, as a signed 32-bit
    integer. *)
Theorem rpc_counts (w : W) s :
  reachable w s →
  (∀ snm srv, server_of (s_net s) snm = Some srv →
    GetCount (s_net s) (s_servers s) snm = Ret (wrap_int 64 (count_calls (entered srv) s))) ∧
  GetTotalCount (s_net s) = wrap_int 32 (count_calls accepted s).
Proof.
  intros Hr. destruct (reachable_counts w s Hr) as [Hsrv _ _ Htot]. split; [|exact Htot].
  intros snm srv Hs. destruct (po_names _ (reachable_pointers w s Hr) snm srv Hs) as [rs Hrs].
  unfold GetCount, Server_GetCount. rewrite Hs. simpl. rewrite Hrs. simpl. f_equal. by apply Hsrv.
Qed.

(** C15: once a server is deleted and as long as it is not added again, no
    call that had chosen it and was not answered returns [true] any more: the
    guarantee on which a restarted server with a new persister relies. *)
Theorem deleted_server_never_replies s s' i cl srv :
  unregistered srv s → s_calls s !! i = Some cl → doomed srv cl →
  steps (not_registering srv) s s' →
  ∃ cl', s_calls s' !! i = Some cl' ∧ ∀ v, cl_client cl' ≠ CRet (Some v).
Proof.
  intros Hu Hi Hd Hst.
  destruct (steps_ind_inv (not_registering srv)
    (λ s, unregistered srv s ∧ ∃ cl, s_calls s !! i = Some cl ∧ doomed srv cl) s s') as [_ Hcl].
  - intros l s1 s2 Hl [Hu1 (cl1 & Hi1 & Hd1)] Hs. split; [by eapply unregistered_step|].
    by eapply doomed_step.
  - eauto.
  - done.
  - destruct Hcl as (cl' & Hi' & _ & Hc). exists cl'. split; [done|]. intros v Hv.
    destruct Hc; congruence.
Qed.

(** Following a call on a good path. *)
Lemma good_path_calls s s' i e snm srv svcMeth args rt :
  good_path e snm srv s → s_calls s !! i = Some (Call_begin e svcMeth args rt) →
  steps no_admin s s' →
  ∃ cl', s_calls s' !! i = Some cl' ∧ cl_client cl' ≠ CRet None.
Proof.
  intros Hg Hi Hst.
  destruct (steps_ind_inv no_admin
    (λ s, good_path e snm srv s ∧ ∃ cl, s_calls s !! i = Some cl ∧ on_good_path e snm srv cl) s s')
    as [_ (cl' & Hi' & _ & Hc & _)].
  - intros l s1 s2 Hl [Hg1 (cl1 & Hi1 & Hd1)] Hs. split; [by eapply good_path_step|].
    by eapply on_good_path_step.
  - split; [done|]. exists (Call_begin e svcMeth args rt). split; [done|].
    split_and!; try done. intros ? ? [?|?]; done.
  - done.
  - by exists cl'.
Qed.

(** C16: on a reliable network whose administration is left alone, a call
    through an enabled end to a registered server never fails. *)
Theorem reliable_call_succeeds s s' i e snm srv svcMeth args rt :
  good_path e snm srv s → s_calls s !! i = Some (Call_begin e svcMeth args rt) →
  steps no_admin s s' →
  ∃ cl', s_calls s' !! i = Some cl' ∧ cl_client cl' ≠ CRet None.
Proof. apply good_path_calls. Qed.

(** C20: a call that has not returned can always go on, by its own doing or
    that of its handler, unless its next step is a fatal error: no deadlock, be
    the network deleted, disconnected or cleaned up. *)
Theorem rpc_progress (w : W) s i cl :
  reachable w s → s_calls s !! i = Some cl → (∀ v, cl_client cl ≠ CRet v) →
  advances i s ∨ fatal s cl.
Proof.
  intros Hr Hi Hc. apply call_progress; [by eapply reachable_calls_ok|by eapply reachable_pointers|done|done].
Qed.

End rpc_theorems.

(** ** A sample network: an echo server, one call *)
Section echo.

#[local] Instance echo_gob : Gob bytes unit := {|
  gob_typeOf := λ _, tt;
  gob_encode := λ v, v;
  gob_decode := λ _ b, Some b;
  gob_zero := λ _, [];
|}.

Definition echo_method : rmethod unit bytes unit :=
  MkMethod "Do" "" [KPtr; KOther; KPtr] 0 tt (λ w v, Ret (w, v)).
Definition echo_hidden : rmethod unit bytes unit :=
  MkMethod "do" "main" [KPtr; KOther; KPtr] 0 tt (λ w v, Ret (w, v)).
Definition echo_service : Service unit bytes unit := MkService "Echo" {["Do" := echo_method]}.

Abbreviation esys := (sys string string unit bytes unit).
Abbreviation elabel := (label string string unit bytes unit).

Fixpoint run_admin (ops : list (admin string string unit bytes unit)) (s : esys) : outcome esys :=
  match ops with
  | [] => Ret s
  | op :: ops' => let! s := admin_step op s in run_admin ops' s
  end.

Lemma run_admin_steps (P : elabel → Prop) ops s s' :
  Forall (λ op, P (LAdmin op)) ops → run_admin ops s = Ret s' → steps P s s'.
Proof.
  intros Hall. revert s. induction Hall as [|op ops Hop Hall IH]; intros s Hr; simpl in Hr.
  - injection Hr as <-. constructor.
  - inv_ret. eapply steps_step; [exact Hop|by apply step_admin|by apply IH].
Qed.

Lemma steps_trans (P : elabel → Prop) s1 s2 s3 : steps P s1 s2 → steps P s2 s3 → steps P s1 s3.
Proof. induction 1; [done|]. intros. eapply steps_step; eauto. Qed.

Definition echo_setup : list (admin string string unit bytes unit) :=
  [AMakeServer; AAddService 0 echo_service; AAddServer "server" 0; AMakeEnd "end";
   AConnect "end" "server"; AEnable "end" true; ACall "end" "Echo.Do" [Byte.x01] tt].

(** The network after the set-up, with the call at its beginning. *)
Definition echo_ready : esys :=
  match run_admin echo_setup (sys_init tt) with Ret s => s | _ => sys_init tt end.

Lemma echo_ready_reachable : reachable tt echo_ready.
Proof.
  apply (run_admin_steps _ echo_setup); [by repeat constructor|]. vm_compute. reflexivity.
Qed.

(** Evaluates the state that the rest of the run starts from. *)
Ltac norm_state :=
  match goal with |- steps ?P ?t ?u => let t' := eval vm_compute in t in change (steps P t' u) end.

Lemma echo_done (P : elabel → Prop) :
  (∀ i, P (LCall i)) →
  ∃ s cl, steps P echo_ready s ∧ s_calls s !! 0%nat = Some cl ∧ cl_client cl = CRet (Some [Byte.x01]).
Proof.
  intros HP. eexists _, _. split; [|split].
  - eapply steps_step; [apply (HP O)|eapply (step_accept _ 0); vm_compute; reflexivity|norm_state].
    eapply steps_step; [apply (HP O)|eapply (step_read _ 0); vm_compute; reflexivity|norm_state].
    eapply steps_step; [apply (HP O)|
      eapply (step_delay _ 0 _ "server" 0 true false 0); [vm_compute; reflexivity..|lia|vm_compute; reflexivity]|norm_state].
    eapply steps_step; [apply (HP O)|eapply (step_enter _ 0 _ 0); [vm_compute; reflexivity..]|norm_state].
    eapply steps_step; [apply (HP O)|eapply (step_serve _ 0); vm_compute; reflexivity|norm_state].
    eapply steps_step; [apply (HP O)|eapply (step_reply _ 0); vm_compute; reflexivity|norm_state].
    eapply steps_step; [apply (HP O)|
      eapply (step_check _ 0 _ "server" 0 true false _ 0 0);
        [vm_compute; reflexivity..|lia|lia|vm_compute; reflexivity]|norm_state].
    eapply steps_step; [apply (HP O)|eapply (step_deliver _ 0); vm_compute; reflexivity|norm_state].
    apply steps_refl.
  - vm_compute. reflexivity.
  - vm_compute. reflexivity.
Qed.

Lemma echo_done_reachable :
  ∃ (s : esys) cl, reachable tt s ∧ s_calls s !! 0%nat = Some cl ∧ cl_client cl = CRet (Some [Byte.x01]).
Proof.
  destruct (echo_done (λ _, True) (λ _, I)) as (s & cl & Hs & Hc). exists s, cl.
  split; [|done]. eapply steps_trans; [apply echo_ready_reachable|done].
Qed.

Lemma Call_result_witness :
  ∃ (s : esys) cl srv r, reachable tt s ∧ s_calls s !! 0%nat = Some cl ∧
    cl_handler cl = HExit srv r ∧ rep_ok r = true.
Proof.
  destruct echo_done_reachable as (s & cl & Hr & Hi & Hc).
  destruct (Call_result tt s 0 cl [Byte.x01] Hr Hi Hc) as (srv & r & Hh & Hok & _).
  exists s, cl, srv, r. split; [exact Hr|]. split; [exact Hi|]. split; [exact Hh|exact Hok].
Defined.

Lemma rpc_counts_witness :
  ∃ s : esys, reachable tt s ∧ GetTotalCount (s_net s) = wrap_int 32 (count_calls accepted s).
Proof.
  destruct echo_done_reachable as (s & cl & Hr & _).
  exists s. split; [exact Hr|]. exact (proj2 (rpc_counts tt s Hr)).
Defined.

(** The server is deleted while the request is in its initial delay. *)
Definition echo_doomed : esys :=
  MkSys (DeleteServer (s_net echo_ready) "server") (s_servers echo_ready) tt
    [MkCall (MkReqMsg "end" "Echo.Do" tt [Byte.x01]) tt CWait (Some (PDelay "server" O true false)) HNone] true.

Lemma deleted_server_never_replies_witness :
  ∃ cl, s_calls echo_doomed !! 0%nat = Some cl ∧ ∀ v, cl_client cl ≠ CRet (Some v).
Proof.
  apply (deleted_server_never_replies echo_doomed echo_doomed 0
    (MkCall (MkReqMsg "end" "Echo.Do" tt [Byte.x01]) tt CWait (Some (PDelay "server" O true false)) HNone) O).
  - intros snm. unfold echo_doomed, DeleteServer. simpl. rewrite server_of_insert.
    destruct (decide ("server" = snm)) as [Heq|Hne]; [discriminate|].
    unfold server_of.
    replace (rn_servers (s_net echo_ready)) with ({["server" := Some O]} : gmap string (option sloc))
      by (vm_compute; reflexivity).
    rewrite lookup_singleton_ne by done. discriminate.
  - reflexivity.
  - split; [reflexivity|left; reflexivity].
  - apply steps_refl.
Defined.

Lemma reliable_call_succeeds_witness :
  ∃ s cl, steps no_admin echo_ready s ∧ s_calls s !! 0%nat = Some cl ∧ cl_client cl ≠ CRet None.
Proof.
  destruct (echo_done no_admin (λ _, I)) as (s & cl0 & Hs & _).
  destruct (reliable_call_succeeds echo_ready s 0 "end" "server" O "Echo.Do" [Byte.x01] tt)
    as (cl & Hi & Hc); [split; vm_compute; reflexivity|vm_compute; reflexivity|exact Hs|].
  exists s, cl. split; [exact Hs|]. split; [exact Hi|exact Hc].
Defined.

Lemma rpc_progress_witness : ∃ cl, advances 0 echo_ready ∨ fatal echo_ready cl.
Proof.
  exists (Call_begin "end" "Echo.Do" [Byte.x01] tt).
  apply (rpc_progress tt echo_ready 0 (Call_begin "end" "Echo.Do" [Byte.x01] tt));
    [apply echo_ready_reachable|vm_compute; reflexivity|intros v; vm_compute; discriminate].
Defined.

Lemma MakeService_handlers_witness :
  ∃ svc, MakeService "Echo" [echo_method; echo_hidden] = Ret svc ∧ svc_name svc = "Echo".
Proof.
  destruct (MakeService_handlers "Echo" [echo_method; echo_hidden]) as (svc & Hs & Hn & _).
  { apply (bool_decide_unpack _). vm_compute. exact I. }
  exists svc. split; [exact Hs|exact Hn].
Defined.

End echo.
