(* ===== verification/LabrpcCut.v ===== *)
(** * Calls over a disabled end

    The harnesses partition a network by disabling ends.  Here: as long as an
    end stays disabled, no call over it returns [true], be it made before or
    after the end was disabled, on its way to the server, in the handler, or
    on its way back, unless its reply had already left.  And a partition of
    the harness of a replicated service is a partition: no server gets an
    answer from a server of the other part. *)
From stdpp Require Import base gmap sets numbers strings sorting list relations.
From S2P Require Import Prelude Labrpc LabrpcSteps LabrpcProof.
Local Open Scope Z_scope.
Local Open Scope go_scope.

Section cut.
Context {EN SN W V RT : Type} `{Countable EN, Countable SN, Gob V RT}.
Abbreviation call := (call EN SN W V RT).
Abbreviation sys := (sys EN SN W V RT).
Abbreviation label := (label EN SN W V RT).
Implicit Types (s : sys) (cl : call) (r : replyMsg) (e : EN).

Definition disabled e s : Prop := enabled_of (s_net s) e = false.

Definition not_enabling e (l : label) : Prop :=
  match l with LAdmin (AEnable e' true) => e' ≠ e | _ => True end.

(** The call is over [e], and no reply but a failure has left the server's
    side. *)
Definition unanswered e cl : Prop :=
  req_endname (cl_req cl) = e ∧ (∀ v, cl_client cl ≠ CRet (Some v)) ∧
  match cl_proc cl with
  | Some (PTimer _ r) | Some (PSend r) => r = failure
  | _ => True
  end.

(** A call that is just made. *)
Lemma Call_begin_unanswered e svcMeth args rt : unanswered e (Call_begin e svcMeth args rt).
Proof. by split_and!. Qed.

Lemma disabled_step e l s s' : not_enabling e l → disabled e s → sstep l s s' → disabled e s'.
Proof.
  intros Hl Hd [(op & -> & Ha)|Hsame]%step_net.
  2: { unfold disabled, enabled_of in *. by rewrite (sa_enabled _ _ Hsame). }
  unfold disabled, enabled_of in *. destruct op as [| | |e'| | | | | |e' b| |]; simpl in Ha; inv_ret; subst; try exact Hd.
  - unfold MakeEnd in Hv. case_bool_decide; inv_ret; subst. simpl.
    destruct (decide (e' = e)) as [->|Hne]; [by rewrite lookup_insert_eq|by rewrite lookup_insert_ne].
  - simpl. destruct (decide (e' = e)) as [->|Hne]; [|by rewrite lookup_insert_ne].
    rewrite lookup_insert_eq. simpl. destruct b; [by destruct Hl|done].
  - unfold Cleanup in Hv. destruct (rn_done _); inv_ret; subst. exact Hd.
Qed.

Lemma disabled_dead e s snm srv : disabled e s → isServerDead (s_net s) e snm srv = true.
Proof. intros Hd. apply bool_decide_eq_true. by left. Qed.

Lemma unanswered_step e l s s' i cl :
  disabled e s → s_calls s !! i = Some cl → unanswered e cl → sstep l s s' →
  ∃ cl', s_calls s' !! i = Some cl' ∧ unanswered e cl'.
Proof.
  intros Hd Hcl Hq Hstep. pose proof Hq as (He & Hc0 & Hp0). destruct Hstep as
    [s op s' Ha|s j cl' Hi Hc Hlo|s Hlo Hdn|s j cl' Hi Hc Hdn|s j cl' r v Hi Hc Hp Hv|s j cl' Hi Hp
    |s j cl' snm srv' rel lr roll p Hi Hp Hroll <-|s j cl' snm srv' rel lr Hi Hp
    |s j cl' snm srv' rel lr srv2 r Hi Hp Hh|s j cl' srv2 r p Hi Hp Hnw Hh
    |s j cl' snm srv' rel lr reply roll roll2 rn p Hi Hp Hr1 Hr2 Hchk|s j cl' counted r rn p Hi Hp Ht
    |s j cl' srv' rs rs' svc m Hi Hh Hrs Hen|s j cl' srv' svc m w r Hi Hh Hdi];
    try (eapply (track_call (unanswered e)); [exact Hcl|exact Hq|]; intros <-;
         assert (cl' = cl) as -> by congruence; clear Hq; unfold unanswered; simpl;
         try rewrite Hp in Hp0; simpl in Hp0).
  - by eapply track_admin.
  - done.
  - by exists cl.
  - by split_and!.
  - subst r. injection Hv as <-. by split_and!.
  - split_and!; [done|done|]. unfold processReq_read, readEndnameInfo. rewrite He, Hd. done.
  - unfold processReq_delay. by destruct (drop_roll _ _).
  - unfold processReq_poll. by destruct (isServerDead _ _ _ _).
  - done.
  - by rewrite Hp.
  - unfold processReq_check in Hchk. rewrite He, disabled_dead in Hchk by done.
    destruct reply; by simplify_eq.
  - injection Ht as _ <-. by subst r.
  - done.
  - done.
Qed.

(** What a disabled end means for a call over it. *)
Lemma disabled_end_calls e s s' i cl :
  disabled e s → s_calls s !! i = Some cl → unanswered e cl → steps (not_enabling e) s s' →
  ∃ cl', s_calls s' !! i = Some cl' ∧ ∀ v, cl_client cl' ≠ CRet (Some v).
Proof.
  intros Hd Hi Hu Hst.
  destruct (steps_ind_inv (not_enabling e) (λ s, disabled e s ∧ ∃ cl, s_calls s !! i = Some cl ∧ unanswered e cl) s s')
    as [_ (cl' & Hi' & _ & Hc & _)].
  - intros l s1 s2 Hl [Hd1 (cl1 & Hi1 & Hu1)] Hs. split; [by eapply disabled_step|by eapply unanswered_step].
  - eauto.
  - done.
  - by exists cl'.
Qed.
End cut.
