(* ===== verification/Labgob.v ===== *)
(** * Warnings of the encoder wrapper (labgob/labgob.go)

    [checkType] walks the graph of the types of a value and complains once
    about every lower-case field; [checkDefault] complains about values that
    are not zero before they are decoded into.  Types are nodes of a graph
    [types] (the identity of a [reflect.Type]), which may be cyclic; pointers
    to values lead into a store, which may be cyclic as well.  The global
    variables of the package are the record [globals]; what is printed is
    recorded in [out].  Package gob itself is a parameter, and so is
    [unicode.IsUpper], on runes. *)
From Stdlib Require Import Ascii.
From stdpp Require Import base gmap sets numbers strings sorting list relations.
From S2P Require Import Prelude Strconv.
Local Open Scope Z_scope.
Local Open Scope go_scope.

Abbreviation tid := nat.

Record field := MkField {
  f_Name : string;
  f_Type : tid;
}.

(** The kinds that [checkType] distinguishes. *)
Inductive kind :=
| KStruct (fields : list field)
| KElem (elem : tid)            (* Slice, Array, Ptr *)
| KMap (elem key : tid)
| KDefault.

Record rtype := MkType {
  t_Name : string;
  t_Kind : kind;
}.

(** What is printed: the complaint about a field of a type, the warning about
    a variable or field. *)
Inductive message :=
| LowerCase (field type : string)
| NonDefault (what : string).

Record globals := MkGlobals {
  checked : gset tid;
  errorCount : Z;
  out : list message;
}.

(** [unicode.IsUpper] of the rune that [utf8.DecodeRuneInString] finds; this is
    also how package reflect tells that a field is exported. *)
Definition first_upper (is_upper : Z → bool) (name : string) : bool :=
  match name with
  | String c s => is_upper (fst (decode_rune c s))
  | EmptyString => is_upper RuneError
  end.

Section check_type.
Context (is_upper : Z → bool) (types : gmap tid rtype).

Definition complain (t : rtype) (f : field) (g : globals) : globals :=
  if first_upper is_upper (f_Name f) then g
  else MkGlobals (checked g) (errorCount g + 1) (out g ++ [LowerCase (f_Name f) (t_Name t)]).

Fixpoint check_fields (rec : tid → globals → outcome globals) (t : rtype) (fs : list field) (g : globals)
    : outcome globals :=
  match fs with
  | [] => Ret g
  | f :: fs' =>
      let g := complain t f g in
      let! g := rec (f_Type f) g in
      check_fields rec t fs' g
  end.

Fixpoint checkType (fuel : nat) (t : tid) (g : globals) : outcome globals :=
  match fuel with
  | O => NoFuel
  | S fuel =>
      match types !! t with
      | None => Panic
      | Some ty =>
          if bool_decide (t ∈ checked g) then Ret g
          else
            let g := MkGlobals ({[t]} ∪ checked g) (errorCount g) (out g) in
            match t_Kind ty with
            | KStruct fields => check_fields (checkType fuel) ty fields g
            | KElem elem => checkType fuel elem g
            | KMap elem key => let! g := checkType fuel elem g in checkType fuel key g
            | KDefault => Ret g
            end
      end
  end.

(** The nil interface has no type: calling [Kind] on it panics. *)
Definition checkValue (fuel : nat) (typeOf : option tid) (g : globals) : outcome globals :=
  let! t := or_panic typeOf in checkType fuel t g.

End check_type.

(** ** Values *)
Inductive basic := BBool (b : bool) | BInt (z : Z) | BString (s : string).

Definition is_zero (b : basic) : bool :=
  match b with
  | BBool b => negb b
  | BInt z => bool_decide (z = 0)
  | BString s => bool_decide (s = "")
  end.

(** A field of a struct value: its name, and whether it is embedded. *)
Record vfield := MkVField {
  vf_Name : string;
  vf_Anonymous : bool;
}.

(** A value, with the name of its type where [checkDefault1] prints it. *)
Inductive rvalue :=
| RStruct (fields : list (vfield * rvalue))
| RPtr (elem : option nat)
| RBasic (typeName : string) (b : basic)
| ROther.

(** What a [reflect.Value] remembers of the unexported fields it came through:
    [Interface] panics when there is one.  [Field] forgets embedded fields. *)
Record access := MkAccess {
  flagStickyRO : bool;
  flagEmbedRO : bool;
}.
Definition full_access : access := MkAccess false false.
Definition readable (a : access) : bool := negb (flagStickyRO a || flagEmbedRO a).
Definition Field_access (is_upper : Z → bool) (f : vfield) (a : access) : access :=
  let unexported := negb (first_upper is_upper (vf_Name f)) in
  MkAccess (flagStickyRO a || (unexported && negb (vf_Anonymous f))) (unexported && vf_Anonymous f).

Section check_default.
Context (is_upper : Z → bool) (store : gmap nat rvalue).

Definition warn (what : string) (g : globals) : globals :=
  MkGlobals (checked g) (errorCount g + 1)
    (if bool_decide (errorCount g < 1) then out g ++ [NonDefault what] else out g).

(** [levels] is [4 - depth]: the recursion ends at depth 4. *)
Fixpoint checkDefault1 (levels : nat) (value : rvalue) (a : access) (name : string) (g : globals) : outcome globals :=
  match levels with
  | O => Ret g (* depth > 3 *)
  | S levels =>
      match value with
      | RStruct fields =>
          (fix go (fields : list (vfield * rvalue)) (g : globals) : outcome globals :=
             match fields with
             | [] => Ret g
             | (f, vv) :: fields' =>
                 let name1 := if bool_decide (name ≠ "") then (name +:+ "." +:+ vf_Name f)%string else vf_Name f in
                 let! g := checkDefault1 levels vv (Field_access is_upper f a) name1 g in
                 go fields' g
             end) fields g
      | RPtr None => Ret g
      | RPtr (Some l) =>
          let! v := or_panic (store !! l) in checkDefault1 levels v a name g
      | RBasic typeName b =>
          if negb (readable a) then Panic (* value.Interface() *)
          else if is_zero b then Ret g
          else Ret (warn (if bool_decide (name = "") then typeName else name) g)
      | ROther => Ret g
      end
  end.

Definition checkDefault (value : option rvalue) (g : globals) : outcome globals :=
  match value with
  | None => Ret g
  | Some v => checkDefault1 3 v full_access "" g
  end.

End check_default.

(** ** The wrappers

    A [LabEncoder] holds an encoder of package gob, of type [G]; what its
    methods do is [gob_Encode] and so on, with the encoder's new state and the
    error they return. *)
Record LabEncoder (G : Type) := MkLabEncoder { le_gob : G }.
Record LabDecoder (G : Type) := MkLabDecoder { ld_gob : G }.
Arguments MkLabEncoder {G} _.
Arguments le_gob {G} _.
Arguments MkLabDecoder {G} _.
Arguments ld_gob {G} _.

Definition NewEncoder {W G : Type} (gob_NewEncoder : W → G) (w : W) : LabEncoder G := MkLabEncoder (gob_NewEncoder w).
Definition NewDecoder {R G : Type} (gob_NewDecoder : R → G) (r : R) : LabDecoder G := MkLabDecoder (gob_NewDecoder r).

Section wrappers.
Context (is_upper : Z → bool) (types : gmap tid rtype) (fuel : nat).
Context {G E V : Type}.

(** The argument [e] of type [typeOf]. *)
Definition Encode (gob_Encode : V → G → G * option E) (enc : LabEncoder G) (typeOf : option tid) (e : V) (g : globals)
    : outcome (globals * (LabEncoder G * option E)) :=
  let! g := checkValue is_upper types fuel typeOf g in
  let '(gob, err) := gob_Encode e (le_gob enc) in
  Ret (g, (MkLabEncoder gob, err)).

Definition EncodeValue (gob_EncodeValue : V → G → G * option E) (enc : LabEncoder G) (typeOf : option tid) (value : V)
    (g : globals) : outcome (globals * (LabEncoder G * option E)) :=
  let! g := checkValue is_upper types fuel typeOf g in
  let '(gob, err) := gob_EncodeValue value (le_gob enc) in
  Ret (g, (MkLabEncoder gob, err)).

(** [value]: what [e] points to before it is decoded into. *)
Definition Decode (gob_Decode : V → G → G * (V * option E)) (dec : LabDecoder G) (store : gmap nat rvalue)
    (value : option rvalue) (typeOf : option tid) (e : V) (g : globals)
    : outcome (globals * (LabDecoder G * (V * option E))) :=
  let! g := checkValue is_upper types fuel typeOf g in
  let! g := checkDefault is_upper store value g in
  let '(gob, r) := gob_Decode e (ld_gob dec) in
  Ret (g, (MkLabDecoder gob, r)).

(** The registry of package gob is the world [R]. *)
Definition Register {R : Type} (gob_Register : V → R → R) (typeOf : option tid) (value : V) (r : R) (g : globals)
    : outcome (globals * R) :=
  let! g := checkValue is_upper types fuel typeOf g in Ret (g, gob_Register value r).

Definition RegisterName {R : Type} (gob_RegisterName : string → V → R → R) (name : string) (typeOf : option tid)
    (value : V) (r : R) (g : globals) : outcome (globals * R) :=
  let! g := checkValue is_upper types fuel typeOf g in Ret (g, gob_RegisterName name value r).
End wrappers.

(** ** [checkType]: termination, coverage, one complaint for each field *)
Section check_type_proof.
Context (is_upper : Z → bool) (types : gmap tid rtype).
Implicit Types (t u x : tid) (g : globals) (ty : rtype).

Definition successors ty : list tid :=
  match t_Kind ty with
  | KStruct fields => f_Type <$> fields
  | KElem elem => [elem]
  | KMap elem key => [elem; key]
  | KDefault => []
  end.

Definition edge t u : Prop := ∃ ty, types !! t = Some ty ∧ u ∈ successors ty.

(** Every type that a type mentions is in the graph. *)
Definition closed_graph : Prop := ∀ t u, edge t u → is_Some (types !! u).

Definition bad_fields ty : list message :=
  match t_Kind ty with
  | KStruct fields => (λ f, LowerCase (f_Name f) (t_Name ty)) <$> filter (λ f, first_upper is_upper (f_Name f) = false) fields
  | _ => []
  end.

Definition complaints t : list message := from_option bad_fields [] (types !! t).

Definition unchecked g : nat := size (dom types ∖ checked g).

(** What a walk from the types [ts] does to the globals. *)
Record walked (ts : list tid) (own : list message) g g' : Prop := {
  wk_mono : checked g ⊆ checked g';
  wk_start : ∀ t, t ∈ ts → t ∈ checked g';
  wk_closed : ∀ x u, x ∈ checked g' → x ∉ checked g → edge x u → u ∈ checked g';
  wk_reach : ∀ x, x ∈ checked g' → x ∉ checked g → ∃ t, t ∈ ts ∧ rtc edge t x;
  wk_out : ∃ new, out g' = out g ++ new ∧ errorCount g' = errorCount g + zlen new ∧
    new ≡ₚ own ++ concat (complaints <$> elements (checked g' ∖ checked g));
}.

Lemma walked_none g : walked [] [] g g.
Proof.
  split; [done|set_solver|done|done|]. exists [].
  rewrite app_nil_r, difference_diag_L, elements_empty. simpl. split_and!; [done|lia|done].
Qed.

Lemma elements_split (X Y Z : gset tid) :
  X ⊆ Y → Y ⊆ Z → elements (Z ∖ X) ≡ₚ elements (Y ∖ X) ++ elements (Z ∖ Y).
Proof.
  intros HXY HYZ. rewrite <-elements_disj_union by set_solver. f_equiv.
  apply leibniz_equiv_iff, set_eq. intros x.
  destruct (decide (x ∈ Y)); set_solver.
Qed.

Lemma walked_app ts1 ts2 own1 own2 g1 g2 g3 :
  walked ts1 own1 g1 g2 → walked ts2 own2 g2 g3 → walked (ts1 ++ ts2) (own1 ++ own2) g1 g3.
Proof.
  intros [Hm1 Hs1 Hc1 Hr1 (n1 & Ho1 & He1 & Hp1)] [Hm2 Hs2 Hc2 Hr2 (n2 & Ho2 & He2 & Hp2)]. split.
  - set_solver.
  - set_solver.
  - intros x u Hx Hn Hxu. destruct (decide (x ∈ checked g2)) as [Hx2|Hx2]; [|by eapply Hc2].
    apply Hm2. by eapply Hc1.
  - intros x Hx Hn. destruct (decide (x ∈ checked g2)) as [Hx2|Hx2].
    + destruct (Hr1 x Hx2 Hn) as (t & Ht & Hrt). exists t. set_solver.
    + destruct (Hr2 x Hx Hx2) as (t & Ht & Hrt). exists t. set_solver.
  - exists (n1 ++ n2). split_and!.
    + by rewrite Ho2, Ho1, app_assoc.
    + rewrite He2, He1, length_app. lia.
    + rewrite (elements_split _ _ _ Hm1 Hm2), fmap_app, concat_app, Hp1, Hp2.
      rewrite <-!app_assoc. apply Permutation_app_head. rewrite !app_assoc.
      apply Permutation_app_tail, Permutation_app_comm.
Qed.

(** A type that was not checked: it is marked, then its successors are walked. *)
Lemma walked_mark t ty g g' :
  types !! t = Some ty → t ∉ checked g →
  walked (successors ty) (bad_fields ty) (MkGlobals ({[t]} ∪ checked g) (errorCount g) (out g)) g' →
  walked [t] [] g g'.
Proof.
  intros Hty Ht [Hm Hs Hc Hr (new & Ho & He & Hp)]. simpl in *. split.
  - set_solver.
  - set_solver.
  - intros x u Hx Hn Hxu. destruct (decide (x = t)) as [->|Hne].
    + destruct Hxu as (ty' & Hty' & Hu). apply Hs. by simplify_eq.
    + eapply Hc; [done|set_solver|done].
  - intros x Hx Hn. exists t. split; [set_solver|].
    destruct (decide (x = t)) as [->|Hne]; [apply rtc_refl|].
    destruct (Hr x Hx) as (u & Hu & Hux); [set_solver|].
    eapply rtc_l; [by exists ty|done].
  - exists new. split_and!; [done|done|]. rewrite Hp. simpl.
    assert (checked g' ∖ checked g = {[t]} ∪ (checked g' ∖ ({[t]} ∪ checked g))) as ->.
    { apply set_eq. intros x. destruct (decide (x = t)); set_solver. }
    rewrite elements_disj_union, elements_singleton by set_solver. simpl.
    unfold complaints at 2. by rewrite Hty.
Qed.

Lemma complain_out ty f g :
  checked (complain is_upper ty f g) = checked g ∧
  out (complain is_upper ty f g) = out g ++ (if first_upper is_upper (f_Name f) then [] else [LowerCase (f_Name f) (t_Name ty)]) ∧
  errorCount (complain is_upper ty f g) = errorCount g + (if first_upper is_upper (f_Name f) then 0 else 1).
Proof. unfold complain. destruct (first_upper _ _); simpl; rewrite ?app_nil_r; split_and!; done || lia. Qed.

Lemma unchecked_mono g g' : checked g ⊆ checked g' → (unchecked g' ≤ unchecked g)%nat.
Proof. intros Hm. unfold unchecked. apply subseteq_size. set_solver. Qed.

Lemma unchecked_mark t g :
  is_Some (types !! t) → t ∉ checked g →
  (unchecked (MkGlobals ({[t]} ∪ checked g) (errorCount g) (out g)) < unchecked g)%nat.
Proof.
  intros Ht Hn. unfold unchecked. apply subset_size. simpl. split; [set_solver|].
  intros Hsub. apply (not_elem_of_empty (C := gset tid) t).
  apply elem_of_dom in Ht. assert (t ∈ dom types ∖ ({[t]} ∪ checked g)) by (apply Hsub; set_solver).
  set_solver.
Qed.

Lemma check_fields_ok (rec : tid → globals → outcome globals) ty fs g N :
  (∀ t g1, t ∈ f_Type <$> fs → (unchecked g1 ≤ N)%nat → ∃ g', rec t g1 = Ret g' ∧ walked [t] [] g1 g') →
  (unchecked g ≤ N)%nat →
  ∃ g', check_fields is_upper rec ty fs g = Ret g' ∧
    walked (f_Type <$> fs)
      ((λ f, LowerCase (f_Name f) (t_Name ty)) <$> filter (λ f, first_upper is_upper (f_Name f) = false) fs) g g'.
Proof.
  revert g. induction fs as [|f fs IH]; intros g Hrec HN; simpl.
  { exists g. split; [done|apply walked_none]. }
  destruct (complain_out ty f g) as (Hc & Ho & He).
  destruct (Hrec (f_Type f) (complain is_upper ty f g)) as (g1 & Hr1 & Hw1).
  { left. }
  { unfold unchecked. by rewrite Hc. }
  rewrite Hr1. simpl.
  assert (unchecked g1 ≤ N)%nat as HN1.
  { etrans; [|exact HN]. apply unchecked_mono. rewrite <-Hc. apply (wk_mono _ _ _ _ Hw1). }
  destruct (IH g1) as (g' & Hr' & Hw').
  { intros t g2 Ht. apply Hrec. rewrite fmap_cons. by right. }
  { done. }
  exists g'. split; [done|].
  assert (walked [f_Type f] (if first_upper is_upper (f_Name f) then [] else [LowerCase (f_Name f) (t_Name ty)]) g g1) as Hw.
  { destruct Hw1 as [Hm Hs Hcl Hre (new & Hout & Herr & Hp)]. rewrite Hc in *. split; try done.
    exists ((if first_upper is_upper (f_Name f) then [] else [LowerCase (f_Name f) (t_Name ty)]) ++ new). split_and!.
    - by rewrite Hout, Ho, app_assoc.
    - rewrite Herr, He, length_app. destruct (first_upper _ _); simpl; lia.
    - by rewrite Hp. }
  pose proof (walked_app _ _ _ _ _ _ _ Hw Hw') as Happ. rewrite filter_cons.
  destruct (first_upper is_upper (f_Name f)); simpl in *; done.
Qed.

Lemma checkType_ok fuel t g :
  closed_graph → is_Some (types !! t) → (unchecked g < fuel)%nat →
  ∃ g', checkType is_upper types fuel t g = Ret g' ∧ walked [t] [] g g'.
Proof.
  intros Hgr. revert t g. induction fuel as [|fuel IH]; intros t g [ty Hty] Hfuel; [lia|].
  simpl. rewrite Hty. case_bool_decide as Hin.
  - exists g. split; [done|]. split; [done|set_solver|done|done|].
    exists []. rewrite app_nil_r, difference_diag_L, elements_empty. simpl. split_and!; [done|lia|done].
  - assert (∀ u, u ∈ successors ty → is_Some (types !! u)) as Hsucc by (intros u Hu; eapply Hgr; by exists ty).
    pose proof (unchecked_mark t g (ex_intro _ ty Hty) Hin) as Hlt.
    set (g0 := MkGlobals ({[t]} ∪ checked g) (errorCount g) (out g)) in *.
    cut (∃ g', match t_Kind ty with
      | KStruct fields => check_fields is_upper (checkType is_upper types fuel) ty fields g0
      | KElem elem => checkType is_upper types fuel elem g0
      | KMap elem key => let! g := checkType is_upper types fuel elem g0 in checkType is_upper types fuel key g
      | KDefault => Ret g0
      end = Ret g' ∧ walked (successors ty) (bad_fields ty) g0 g').
    { intros (g' & Hg' & Hw). exists g'. split; [done|]. by eapply walked_mark. }
    unfold successors, bad_fields in *. destruct (t_Kind ty) as [fs|elem|elem key|].
    + apply (check_fields_ok _ _ _ _ (unchecked g0)); [|done].
      intros u g1 Hu Hg1. apply IH; [by apply Hsucc|lia].
    + apply IH; [apply Hsucc; left|lia].
    + destruct (IH elem g0) as (g1 & Hg1 & Hw1); [apply Hsucc; left|lia|]. rewrite Hg1. simpl.
      destruct (IH key g1) as (g2 & Hg2 & Hw2); [apply Hsucc; right; left| |].
      { pose proof (unchecked_mono _ _ (wk_mono _ _ _ _ Hw1)). lia. }
      exists g2. split; [done|]. exact (walked_app _ _ _ _ _ _ _ Hw1 Hw2).
    + exists g0. split; [done|apply walked_none].
Qed.

End check_type_proof.

(** C21: [checkType] terminates on every graph of types, cyclic ones included,
    within one recursion per type, and when the types checked before are closed
    under reference (as they are between calls) it checks exactly the types
    that can be reached: it complains once about every field of every newly
    checked type whose first rune [unicode.IsUpper] refuses, whatever that
    function is, and [errorCount] counts the complaints. *)
Theorem checkType_complete (is_upper : Z → bool) (types : gmap tid rtype) (t : tid) (g : globals) (fuel : nat) :
  closed_graph types → is_Some (types !! t) → (size types < fuel)%nat →
  (∀ x u, x ∈ checked g → edge types x u → u ∈ checked g) →
  ∃ g', checkType is_upper types fuel t g = Ret g' ∧
    (∀ x u, x ∈ checked g' → edge types x u → u ∈ checked g') ∧
    (∀ x, x ∈ checked g' ↔ x ∈ checked g ∨ rtc (edge types) t x) ∧
    ∃ new, out g' = out g ++ new ∧ errorCount g' = errorCount g + zlen new ∧
      new ≡ₚ concat (complaints is_upper types <$> elements (checked g' ∖ checked g)).
Proof.
  intros Hgr Ht Hfuel Hcl.
  destruct (checkType_ok is_upper types fuel t g Hgr Ht) as (g' & Hg' & [Hm Hs Hc Hr Ho]).
  { unfold unchecked. rewrite <-size_dom in Hfuel. eapply Nat.le_lt_trans; [|exact Hfuel].
    apply subseteq_size. set_solver. }
  assert (∀ x u, x ∈ checked g' → edge types x u → u ∈ checked g') as Hcl'.
  { intros x u Hx Hxu. destruct (decide (x ∈ checked g)) as [Hx0|Hx0]; [|by eapply Hc].
    apply Hm. by eapply Hcl. }
  exists g'. split_and!; [done|done| |exact Ho].
  intros x. split.
  - intros Hx. destruct (decide (x ∈ checked g)) as [Hx0|Hx0]; [by left|]. right.
    destruct (Hr x Hx Hx0) as (t' & ->%list_elem_of_singleton & Hrt). done.
  - intros [Hx|Hx]; [by apply Hm|].
    assert (t ∈ checked g') as Htc by (apply Hs; left). revert Htc. clear -Hx Hcl'.
    induction Hx as [|x y z Hxy Hyz IH]; [done|]. intros Hx. apply IH. by eapply Hcl'.
Qed.

(** ** [checkDefault] *)
Section check_default_proof.
Context (is_upper : Z → bool) (store : gmap nat rvalue).

(** The paths of the basic values that are not zero, within [levels] levels,
    as the recursion meets them. *)
Fixpoint non_defaults (levels : nat) (value : rvalue) (name : string) : list string :=
  match levels with
  | O => []
  | S levels =>
      match value with
      | RStruct fields =>
          concat ((λ x : vfield * rvalue, non_defaults levels x.2
            (if bool_decide (name ≠ "") then (name +:+ "." +:+ vf_Name x.1)%string else vf_Name x.1)) <$> fields)
      | RPtr (Some l) => from_option (λ v, non_defaults levels v name) [] (store !! l)
      | RBasic typeName b =>
          if is_zero b then [] else [if bool_decide (name = "") then typeName else name]
      | _ => []
      end
  end.

Fixpoint warn_all (whats : list string) (g : globals) : globals :=
  match whats with
  | [] => g
  | w :: whats' => warn_all whats' (warn w g)
  end.

Lemma warn_all_app w1 w2 g : warn_all (w1 ++ w2) g = warn_all w2 (warn_all w1 g).
Proof. revert g. induction w1 as [|w w1 IH]; intros g; simpl; [done|]. by rewrite IH. Qed.

(** The value has no dangling pointer within [levels] levels. *)
Fixpoint well_pointed (levels : nat) (value : rvalue) : Prop :=
  match levels with
  | O => True
  | S levels =>
      match value with
      | RStruct fields => Forall (λ x : vfield * rvalue, well_pointed levels x.2) fields
      | RPtr (Some l) => ∃ v, store !! l = Some v ∧ well_pointed levels v
      | _ => True
      end
  end.

(** No basic value within [levels] levels was reached through an unexported
    field. *)
Fixpoint accessible (levels : nat) (value : rvalue) (a : access) : bool :=
  match levels with
  | O => true
  | S levels =>
      match value with
      | RStruct fields => forallb (λ x : vfield * rvalue, accessible levels x.2 (Field_access is_upper x.1 a)) fields
      | RPtr (Some l) => from_option (λ v, accessible levels v a) true (store !! l)
      | RBasic _ _ => readable a
      | _ => true
      end
  end.

Lemma checkDefault1_warns levels value a name g :
  well_pointed levels value →
  checkDefault1 is_upper store levels value a name g =
  if accessible levels value a then Ret (warn_all (non_defaults levels value name) g) else Panic.
Proof.
  revert value a name g. induction levels as [|levels IH]; intros value a name g Hw; [done|].
  destruct value as [fields|[l|]|typeName b|]; cbn [checkDefault1 non_defaults accessible]; try done.
  - cbn [well_pointed] in Hw. revert g. induction Hw as [|[f vv] fields Hv Hw IHf]; intros g; [done|].
    rewrite IH by exact Hv. cbn [forallb fst snd]. destruct (accessible levels vv _); [|done].
    cbn [obind andb]. rewrite IHf, fmap_cons. cbn [concat fst snd]. by rewrite warn_all_app.
  - destruct Hw as (v & Hv & Hw). rewrite Hv. simpl. by apply IH.
  - destruct (readable a); [|done]. by destruct (is_zero b).
Qed.

Lemma warn_all_globals whats g :
  0 ≤ errorCount g →
  errorCount (warn_all whats g) = errorCount g + zlen whats ∧
  checked (warn_all whats g) = checked g ∧
  out (warn_all whats g) = out g ++
    (if bool_decide (errorCount g < 1) then NonDefault <$> take 1 whats else []).
Proof.
  revert g. induction whats as [|w whats IH]; intros g Hg; simpl.
  - case_bool_decide; simpl; rewrite app_nil_r; split_and!; done || lia.
  - destruct (IH (warn w g)) as (He & Hc & Ho); [simpl; lia|].
    rewrite (bool_decide_eq_false_2 (errorCount (warn w g) < 1)) in Ho by (simpl; lia).
    rewrite He, Hc, Ho, app_nil_r. unfold warn. simpl. split_and!; [lia|done|].
    destruct (bool_decide _); [done|by rewrite app_nil_r].
Qed.

End check_default_proof.

(** [checkDefault] counts every basic value that is not zero within three
    levels of structs and pointers, and warns at most once, about the first of
    them, and only if nothing was counted before.  But if one of the basic
    values, zero or not, is in an unexported field, it panics. *)
Theorem checkDefault_warns (is_upper : Z → bool) (store : gmap nat rvalue) (v : rvalue) (g : globals) :
  well_pointed store 3 v → 0 ≤ errorCount g →
  (accessible is_upper store 3 v full_access = true →
    ∃ g', checkDefault is_upper store (Some v) g = Ret g' ∧
      errorCount g' = errorCount g + zlen (non_defaults store 3 v "") ∧
      checked g' = checked g ∧
      out g' = out g ++ (if bool_decide (errorCount g < 1)
                         then NonDefault <$> take 1 (non_defaults store 3 v "") else [])) ∧
  (accessible is_upper store 3 v full_access = false → checkDefault is_upper store (Some v) g = Panic).
Proof.
  intros Hw Hg. unfold checkDefault. rewrite checkDefault1_warns by done. split; intros ->; [|done].
  eexists. split; [done|]. by apply warn_all_globals.
Qed.

(** ** Samples *)

(** A type that refers to itself, with a lower-case field. *)
Definition sample_types : gmap tid rtype :=
  {[ 0%nat := MkType "Node" (KStruct [MkField "Value" 2; MkField "next" 1]);
     1%nat := MkType "" (KElem 0);
     2%nat := MkType "int" KDefault ]}.

Lemma sample_types_closed : closed_graph sample_types.
Proof.
  intros t u (ty & Hty & Hu). unfold sample_types in *.
  apply lookup_insert_Some in Hty as [[<- <-]|[_ Hty]].
  { cbn in Hu. rewrite !elem_of_cons, elem_of_nil in Hu. destruct Hu as [->|[->|[]]]; by eexists. }
  apply lookup_insert_Some in Hty as [[<- <-]|[_ Hty]].
  { cbn in Hu. apply list_elem_of_singleton in Hu as ->. by eexists. }
  apply lookup_singleton_Some in Hty as [<- <-]. cbn in Hu. by apply not_elem_of_nil in Hu.
Qed.

(** [unicode.IsUpper] on ASCII. *)
Definition ascii_upper (r : Z) : bool := bool_decide (65 ≤ r ≤ 90).

Lemma checkType_complete_witness :
  ∃ g', checkType ascii_upper sample_types 4 0 (MkGlobals ∅ 0 []) = Ret g' ∧
    (∀ x, x ∈ checked g' ↔ x ∈ (∅ : gset tid) ∨ rtc (edge sample_types) 0%nat x).
Proof.
  destruct (checkType_complete ascii_upper sample_types 0 (MkGlobals ∅ 0 []) 4 sample_types_closed)
    as (g' & Hg' & _ & Hreach & _); [by eexists|vm_compute; lia|set_solver|].
  exists g'. split; [exact Hg'|exact Hreach].
Defined.

Definition sample_reply (name : string) : rvalue :=
  RStruct [(MkVField "Err" false, RBasic "string" (BString "")); (MkVField name false, RBasic "int" (BInt 3));
           (MkVField "Ok" false, RBasic "bool" (BBool true))].

Lemma checkDefault_warns_witness :
  (∃ g', checkDefault ascii_upper ∅ (Some (sample_reply "Term")) (MkGlobals ∅ 0 []) = Ret g' ∧
    errorCount g' = 2 ∧ out g' = [NonDefault "Term"]) ∧
  checkDefault ascii_upper ∅ (Some (sample_reply "term")) (MkGlobals ∅ 0 []) = Panic.
Proof.
  split.
  - destruct (checkDefault_warns ascii_upper ∅ (sample_reply "Term") (MkGlobals ∅ 0 []))
      as [(g' & Hg' & He & _ & Ho) _]; [repeat constructor|simpl; lia|reflexivity|].
    exists g'. split; [exact Hg'|]. split; [exact He|exact Ho].
  - apply (checkDefault_warns ascii_upper ∅ (sample_reply "term") (MkGlobals ∅ 0 [])); [repeat constructor|simpl; lia|reflexivity].
Defined.
