(* ===== verification/NetAdmin.v ===== *)
(** * Lemmas on the administration of the network

    What [Enable], [MakeEnd] and [Connect] do to the ends, one at a time and
    over a list of ends: the harnesses of raft, kvraft, shardmaster and shardkv
    use them in loops. *)
From stdpp Require Import base gmap sets numbers strings sorting list.
From S2P Require Import Prelude Labrpc LabrpcProof.
Local Open Scope Z_scope.
Local Open Scope go_scope.

Lemma slice_get_nat {A : Type} (l : list A) (i : nat) : slice_get l (Z.of_nat i) = or_panic (l !! i).
Proof. unfold slice_get. rewrite bool_decide_eq_true_2 by lia. by rewrite Nat2Z.id. Qed.

Lemma slice_set_nat {A : Type} (l : list A) (i : nat) a :
  (i < length l)%nat → slice_set l (Z.of_nat i) a = Ret (<[i := a]> l).
Proof. intros Hi. unfold slice_set. rewrite bool_decide_eq_true_2 by lia. by rewrite Nat2Z.id. Qed.

Lemma seqZ_seq (n : nat) : seqZ 0 (Z.of_nat n) = Z.of_nat <$> seq 0 n.
Proof.
  unfold seqZ. rewrite Nat2Z.id. apply list_fmap_ext. intros i x _. lia.
Qed.

Section net_admin.
Context {EN SN : Type} `{Countable EN, Countable SN}.
Implicit Types (rn : Network EN SN) (e : EN) (snm : SN).

(** The part of a network that the operations on ends leave alone. *)
Definition net_rest rn : bool * bool * bool * gmap SN (option sloc) * bool * Z * Z :=
  (rn_reliable rn, rn_longDelays rn, rn_longReordering rn, rn_servers rn, rn_done rn, rn_count rn,
   rn_bytes rn).

Definition enable_all rn (es : list EN) (b : bool) : Network EN SN :=
  foldl (λ rn e, Enable rn e b) rn es.

Lemma enabled_Enable rn e b e' :
  enabled_of (Enable rn e b) e' = if decide (e' = e) then b else enabled_of rn e'.
Proof.
  unfold enabled_of, Enable. simpl. case_decide as He.
  - rewrite He. by rewrite lookup_insert_eq.
  - by rewrite lookup_insert_ne.
Qed.

Lemma enable_all_cons rn e es b : enable_all rn (e :: es) b = enable_all (Enable rn e b) es b.
Proof. done. Qed.

Lemma enable_all_enabled rn es b e :
  enabled_of (enable_all rn es b) e = if decide (e ∈ es) then b else enabled_of rn e.
Proof.
  revert rn. induction es as [|e' es IH]; intros rn; [done|].
  rewrite enable_all_cons, IH, enabled_Enable.
  repeat case_decide; set_solver.
Qed.

Lemma enable_all_connection rn es b e : connection_of (enable_all rn es b) e = connection_of rn e.
Proof. revert rn. induction es as [|e' es IH]; intros rn; [done|]. by rewrite enable_all_cons, IH. Qed.

Lemma enable_all_ends rn es b : rn_ends (enable_all rn es b) = rn_ends rn.
Proof. revert rn. induction es as [|e' es IH]; intros rn; [done|]. by rewrite enable_all_cons, IH. Qed.

Lemma enable_all_rest rn es b : net_rest (enable_all rn es b) = net_rest rn.
Proof. revert rn. induction es as [|e' es IH]; intros rn; [done|]. by rewrite enable_all_cons, IH. Qed.

Lemma enabled_MakeEnd rn rn' e e' :
  MakeEnd rn e = Ret rn' → enabled_of rn' e' = if decide (e' = e) then false else enabled_of rn e'.
Proof.
  unfold MakeEnd, enabled_of. case_bool_decide; [done|]. intros [= <-]. simpl.
  case_decide as He; [rewrite He; by rewrite lookup_insert_eq|by rewrite lookup_insert_ne].
Qed.

Lemma connection_MakeEnd rn rn' e e' :
  MakeEnd rn e = Ret rn' → connection_of rn' e' = if decide (e' = e) then None else connection_of rn e'.
Proof.
  unfold MakeEnd, connection_of. case_bool_decide; [done|]. intros [= <-]. simpl.
  case_decide as He; [rewrite He; by rewrite lookup_insert_eq|by rewrite lookup_insert_ne].
Qed.

Lemma MakeEnd_fresh rn e :
  e ∉ rn_ends rn → ∃ rn', MakeEnd rn e = Ret rn' ∧ rn_ends rn' = {[e]} ∪ rn_ends rn ∧
    net_rest rn' = net_rest rn.
Proof. intros He. unfold MakeEnd. rewrite bool_decide_eq_false_2 by done. by eexists. Qed.

Lemma connection_Connect rn e snm e' :
  connection_of (Connect rn e snm) e' = if decide (e' = e) then Some snm else connection_of rn e'.
Proof.
  unfold connection_of, Connect. simpl.
  case_decide as He; [rewrite He; by rewrite lookup_insert_eq|by rewrite lookup_insert_ne].
Qed.

Lemma enabled_Connect rn e snm e' : enabled_of (Connect rn e snm) e' = enabled_of rn e'.
Proof. done. Qed.

Lemma server_of_set rn snm o snm' :
  server_of (set_server rn snm o) snm' = if decide (snm' = snm) then o else server_of rn snm'.
Proof.
  unfold server_of, set_server. simpl.
  case_decide as He; [rewrite He; by rewrite lookup_insert_eq|by rewrite lookup_insert_ne].
Qed.

Lemma net_rest_server_of rn rn' snm : net_rest rn' = net_rest rn → server_of rn' snm = server_of rn snm.
Proof. unfold net_rest, server_of. intros [=]. congruence. Qed.
End net_admin.

(** ** Loops of the harnesses *)
(** The ends of a new peer, one to each peer of the group: [MakeEnd] is fatal
    on a name in use. *)
Fixpoint make_ends (names : list string) (j : Z) (rn : Network string Z) : outcome (Network string Z) :=
  match names with
  | [] => Ret rn
  | e :: names' =>
      let! rn := MakeEnd rn e in
      make_ends names' (j + 1) (Connect rn e j)
  end.

(** The same to named servers, enabled at once. *)
Fixpoint make_enabled_ends (dest : Z → string) (names : list string) (j : Z) (rn : Network string string)
    : outcome (Network string string) :=
  match names with
  | [] => Ret rn
  | e :: names' =>
      let! rn := MakeEnd rn e in
      make_enabled_ends dest names' (j + 1) (Enable (Connect rn e (dest j)) e true)
  end.

(** The ends of a new generation: disabled, each leading to its peer. *)
Lemma make_ends_spec (names : list string) (j : nat) (rn : Network string Z) :
  NoDup names → (∀ e, e ∈ names → e ∉ rn_ends rn) →
  ∃ rn', make_ends names (Z.of_nat j) rn = Ret rn' ∧ net_rest rn' = net_rest rn ∧
    rn_ends rn' = list_to_set names ∪ rn_ends rn ∧
    (∀ e, enabled_of rn' e = if decide (e ∈ names) then false else enabled_of rn e) ∧
    (∀ e, e ∉ names → connection_of rn' e = connection_of rn e) ∧
    (∀ k e, names !! k = Some e → connection_of rn' e = Some (Z.of_nat (j + k))).
Proof.
  revert j rn. induction names as [|e names IH]; intros j rn Hnd Hfresh; simpl.
  { exists rn. split_and!; try done. set_solver. }
  apply NoDup_cons in Hnd as [He Hnd].
  destruct (MakeEnd_fresh rn e) as (rn1 & Hrn1 & Hends1 & Hrest1); [apply Hfresh; left|].
  rewrite Hrn1. simpl. replace (Z.of_nat j + 1) with (Z.of_nat (S j)) by lia.
  destruct (IH (S j) (Connect rn1 e (Z.of_nat j)) Hnd) as (rn' & -> & Hrest & Hends & Hen & Hco & Hnth).
  { intros e' He'. simpl. rewrite Hends1. specialize (Hfresh e'). set_solver. }
  exists rn'. split; [done|]. split; [by rewrite Hrest|]. split.
  { rewrite Hends. simpl. rewrite Hends1. by rewrite !(assoc_L (∪)), (comm_L (∪) {[e]}). }
  split_and!.
  - intros e'. rewrite Hen, enabled_Connect, (enabled_MakeEnd _ _ _ _ Hrn1).
    destruct (decide (e' ∈ names)) as [Hin|Hin]; [by rewrite decide_True by (by right)|].
    destruct (decide (e' = e)) as [Heq|Heq]; [by rewrite decide_True by (rewrite Heq; left)|].
    rewrite decide_False; [done|]. by intros [?|?]%elem_of_cons.
  - intros e' He'. apply not_elem_of_cons in He' as [Hne He']. rewrite Hco by done.
    rewrite connection_Connect, (connection_MakeEnd _ _ _ _ Hrn1). by rewrite !decide_False by done.
  - intros [|k] e'; simpl.
    + intros [= <-]. rewrite Hco by done. rewrite connection_Connect, decide_True by done.
      by rewrite Nat.add_0_r.
    + intros Hk. rewrite (Hnth k e' Hk). do 2 f_equal. lia.
Qed.

Lemma make_enabled_ends_spec (dest : Z → string) (names : list string) (j : nat) (rn : Network string string) :
  NoDup names → (∀ e, e ∈ names → e ∉ rn_ends rn) →
  ∃ rn', make_enabled_ends dest names (Z.of_nat j) rn = Ret rn' ∧ net_rest rn' = net_rest rn ∧
    rn_ends rn' = list_to_set names ∪ rn_ends rn ∧
    (∀ e, enabled_of rn' e = if decide (e ∈ names) then true else enabled_of rn e) ∧
    (∀ e, e ∉ names → connection_of rn' e = connection_of rn e) ∧
    (∀ k e, names !! k = Some e → connection_of rn' e = Some (dest (Z.of_nat (j + k)))).
Proof.
  revert j rn. induction names as [|e names IH]; intros j rn Hnd Hfresh; simpl.
  { exists rn. split_and!; try done. set_solver. }
  apply NoDup_cons in Hnd as [He Hnd].
  destruct (MakeEnd_fresh rn e) as (rn1 & Hrn1 & Hends1 & Hrest1); [apply Hfresh; left|].
  rewrite Hrn1. simpl. replace (Z.of_nat j + 1) with (Z.of_nat (S j)) by lia.
  destruct (IH (S j) (Enable (Connect rn1 e (dest (Z.of_nat j))) e true) Hnd)
    as (rn' & -> & Hrest & Hends & Hen & Hco & Hnth).
  { intros e' He'. simpl. rewrite Hends1. specialize (Hfresh e'). set_solver. }
  exists rn'. split; [done|]. split; [by rewrite Hrest|]. split.
  { rewrite Hends. simpl. rewrite Hends1. by rewrite !(assoc_L (∪)), (comm_L (∪) {[e]}). }
  split_and!.
  - intros e'. rewrite Hen, enabled_Enable, enabled_Connect, (enabled_MakeEnd _ _ _ _ Hrn1).
    destruct (decide (e' ∈ names)) as [Hin|Hin]; [by rewrite decide_True by (by right)|].
    destruct (decide (e' = e)) as [Heq|Heq]; [by rewrite decide_True by (rewrite Heq; left)|].
    rewrite (decide_False (P := e' ∈ _ :: _)); [done|]. by intros [?|?]%elem_of_cons.
  - intros e' He'. apply not_elem_of_cons in He' as [Hne He']. rewrite Hco by done.
    change (connection_of (Enable ?r e true) e') with (connection_of r e').
    rewrite connection_Connect, (connection_MakeEnd _ _ _ _ Hrn1). by rewrite !decide_False by done.
  - intros [|k] e'; simpl.
    + intros [= <-]. rewrite Hco by done.
      change (connection_of (Enable ?r e true) e) with (connection_of r e).
      rewrite connection_Connect, decide_True by done. by rewrite Nat.add_0_r.
    + intros Hk. rewrite (Hnth k e' Hk). do 3 f_equal. lia.
Qed.

Lemma MakeService_returns {W A RT : Type} (name : string) (ms : list (rmethod W A RT)) : returns (MakeService name ms).
Proof.
  unfold MakeService. assert (∀ m, returns (MakeService_loop ms m)) as Hl.
  { induction ms as [|m ms IH]; intros meths; simpl; [by eexists|].
    destruct (suitable_spec m) as (b & -> & _). simpl. apply IH. }
  destruct (Hl ∅) as [m ->]. by eexists.
Qed.

