(* ===== verification/Random.v ===== *)
(** * Random names and numbers, and the time limit of a test

    The harnesses (raft, kvraft, shardmaster, shardkv: config.go) and the
    clerks (client.go) have the same [randstring], [makeSeed], [nrand] and
    [checkTimeout].  What package crypto/rand answers is an argument.  Here:
    [randstring] never panics, its name is as long as asked and safe to use in
    file names, and names are different exactly when the random bytes they
    are made of are. *)
From Stdlib Require Import Ascii NArith.
From stdpp Require Import base gmap sets numbers strings sorting list.
From S2P Require Import Prelude Strconv Labrpc.
Local Open Scope Z_scope.
Local Open Scope go_scope.

(** ** base64.URLEncoding *)
Definition url_alphabet : string := "ABCDEFGHIJKLMNOPQRSTUVWXYZabcdefghijklmnopqrstuvwxyz0123456789-_".

Definition url_char (sextet : Z) : ascii := default "="%char (String.get (Z.to_nat sextet) url_alphabet).

(** A block of three bytes is four characters; one or two bytes at the end
    are padded with [=]. *)
Definition block_value (b0 b1 b2 : Z) : Z := Z.lor (Z.lor (Z.shiftl b0 16) (Z.shiftl b1 8)) b2.
Definition sextet (val : Z) (i : Z) : ascii := url_char (Z.land (Z.shiftr val (18 - 6 * i)) 0x3F).

Fixpoint EncodeToString (src : list Z) : string :=
  match src with
  | b0 :: b1 :: b2 :: src' =>
      let val := block_value b0 b1 b2 in
      String (sextet val 0) (String (sextet val 1) (String (sextet val 2) (String (sextet val 3) (EncodeToString src'))))
  | [b0; b1] =>
      let val := block_value b0 b1 0 in
      String (sextet val 0) (String (sextet val 1) (String (sextet val 2) "="))
  | [b0] =>
      let val := block_value b0 0 0 in
      String (sextet val 0) (String (sextet val 1) "==")
  | [] => ""
  end.

(** ** randstring, makeSeed, nrand

    [crand_Read b]: what the buffer [b] holds after [crand.Read(b)], whose
    result is not looked at. *)
Definition randstring (crand_Read : list Z → list Z) (n : Z) : outcome string :=
  if bool_decide (2 * n < 0) then Panic (* make([]byte, 2*n) *)
  else
    let b := crand_Read (replicate (Z.to_nat (2 * n)) 0) in
    let s := EncodeToString b in
    if bool_decide (0 ≤ n ≤ Z.of_nat (String.length s)) then Ret (String.substring 0 (Z.to_nat n) s) else Panic.

(** [crand_Int max]: [None] is the error that is not looked at, with which
    the number is a nil pointer. *)
Definition makeSeed (crand_Int : Z → option Z) : outcome Z :=
  let max := Z.shiftl 1 62 in
  let! bigx := or_panic (crand_Int max) in
  Ret (wrap_int 64 bigx).

Definition nrand : (Z → option Z) → outcome Z := makeSeed.

(** ** checkTimeout

    [elapsed]: nanoseconds since the test began; [t.Fatal] is [Panic]. *)
Definition Second : Z := 1000000000.

Definition checkTimeout (failed : bool) (elapsed : Z) : outcome unit :=
  if negb failed && bool_decide (elapsed > 120 * Second) then Panic else Ret tt.

(** ** Bytes and sextets *)
Definition is_byte (b : Z) : Prop := 0 ≤ b < 256.

(** The buffer stays as long as it was, and holds bytes. *)
Definition fills (crand_Read : list Z → list Z) : Prop :=
  ∀ b, length (crand_Read b) = length b ∧ Forall is_byte (crand_Read b).

Lemma block_value_eq b0 b1 b2 :
  is_byte b0 → is_byte b1 → is_byte b2 → block_value b0 b1 b2 = b0 * 2 ^ 16 + b1 * 2 ^ 8 + b2.
Proof.
  unfold is_byte, block_value. intros H0 H1 H2.
  rewrite (lor_shiftl b0 (Z.shiftl b1 8) 16) by (rewrite ?Z.shiftl_mul_pow2 by lia; lia).
  rewrite Z.shiftl_mul_pow2 by lia.
  replace (b0 * 2 ^ 16 + b1 * 2 ^ 8) with (Z.shiftl (b0 * 2 ^ 8 + b1) 8) by (rewrite Z.shiftl_mul_pow2; lia).
  rewrite lor_shiftl, Z.shiftl_mul_pow2 by lia. lia.
Qed.

Lemma url_char_inj (x y : Z) : 0 ≤ x < 64 → 0 ≤ y < 64 → url_char x = url_char y → x = y.
Proof.
  assert (∀ n m : nat, (n < 64)%nat → (m < 64)%nat →
    url_char (Z.of_nat n) = url_char (Z.of_nat m) → n = m) as Hall.
  { intros n m Hn Hm Heq.
    assert (bool_decide (Forall (λ n, Forall (λ m, url_char (Z.of_nat n) = url_char (Z.of_nat m) → n = m) (seq 0 64))
      (seq 0 64)) = true) as H by (vm_compute; reflexivity).
    apply bool_decide_eq_true in H. rewrite Forall_seq in H. specialize (H n ltac:(lia)).
    rewrite Forall_seq in H. apply H; [lia|done]. }
  intros Hx Hy Heq. specialize (Hall (Z.to_nat x) (Z.to_nat y)). rewrite !Z2Nat.id in Hall by lia.
  specialize (Hall ltac:(lia) ltac:(lia) Heq). lia.
Qed.

Definition in_alphabet (c : ascii) : bool := existsb (Ascii.eqb c) (String.list_ascii_of_string url_alphabet).

Lemma url_char_in_alphabet (x : Z) : 0 ≤ x < 64 → in_alphabet (url_char x) = true.
Proof.
  intros Hx. assert (bool_decide (Forall (λ n : nat, in_alphabet (url_char (Z.of_nat n)) = true) (seq 0 64)) = true) as H
    by (vm_compute; reflexivity).
  apply bool_decide_eq_true in H. rewrite Forall_seq in H.
  specialize (H (Z.to_nat x) ltac:(lia)). by rewrite Z2Nat.id in H by lia.
Qed.

Lemma sextet_range (val i : Z) : 0 ≤ Z.land (Z.shiftr val (18 - 6 * i)) 0x3F < 64.
Proof. rewrite (Z.land_ones _ 6) by lia. apply Z.mod_pos_bound. lia. Qed.

Lemma sextet_in_alphabet (val i : Z) : in_alphabet (sextet val i) = true.
Proof. apply url_char_in_alphabet, sextet_range. Qed.

Lemma sextet_inj (v w i p : Z) :
  0 ≤ i ≤ 3 → p = 2 ^ (18 - 6 * i) → sextet v i = sextet w i → (v / p) mod 64 = (w / p) mod 64.
Proof.
  intros Hi -> Heq. apply url_char_inj in Heq; [|apply sextet_range..].
  by rewrite !(Z.land_ones _ 6), !Z.shiftr_div_pow2 in Heq by lia.
Qed.

(** A block is its four sextets. *)
Lemma sextets_value (v : Z) : 0 ≤ v < 2 ^ 24 →
  v = ((v / 262144) mod 64) * 262144 + ((v / 4096) mod 64) * 4096 + ((v / 64) mod 64) * 64 + (v / 1) mod 64.
Proof. intros Hv. Z.to_euclidean_division_equations. lia. Qed.

Lemma block_inj a0 a1 a2 b0 b1 b2 :
  is_byte a0 → is_byte a1 → is_byte a2 → is_byte b0 → is_byte b1 → is_byte b2 →
  (∀ i, 0 ≤ i ≤ 3 → sextet (block_value a0 a1 a2) i = sextet (block_value b0 b1 b2) i) →
  a0 = b0 ∧ a1 = b1 ∧ a2 = b2.
Proof.
  intros Ha0 Ha1 Ha2 Hb0 Hb1 Hb2 Hs. unfold is_byte in *.
  assert (block_value a0 a1 a2 = block_value b0 b1 b2) as Hv.
  { rewrite (sextets_value (block_value a0 a1 a2)), (sextets_value (block_value b0 b1 b2))
      by (rewrite block_value_eq by done; lia).
    rewrite (sextet_inj _ _ 0 262144 ltac:(lia) eq_refl (Hs 0 ltac:(lia))).
    rewrite (sextet_inj _ _ 1 4096 ltac:(lia) eq_refl (Hs 1 ltac:(lia))).
    rewrite (sextet_inj _ _ 2 64 ltac:(lia) eq_refl (Hs 2 ltac:(lia))).
    by rewrite (sextet_inj _ _ 3 1 ltac:(lia) eq_refl (Hs 3 ltac:(lia))). }
  rewrite !block_value_eq in Hv by done. lia.
Qed.

(** ** EncodeToString *)
Lemma EncodeToString_block b0 b1 b2 src :
  EncodeToString (b0 :: b1 :: b2 :: src) =
  let val := block_value b0 b1 b2 in
  String (sextet val 0) (String (sextet val 1) (String (sextet val 2) (String (sextet val 3) (EncodeToString src)))).
Proof. done. Qed.

(** The first [4 k] characters are the code of the first [3 k] bytes. *)
Lemma EncodeToString_prefix (k : nat) (src : list Z) :
  (3 * k ≤ length src)%nat →
  String.substring 0 (4 * k) (EncodeToString src) = EncodeToString (take (3 * k) src).
Proof.
  revert src. induction k as [|k IH]; intros src Hlen; [by destruct (EncodeToString src)|].
  replace (4 * S k)%nat with (S (S (S (S (4 * k))))) by lia. replace (3 * S k)%nat with (S (S (S (3 * k)))) in * by lia.
  destruct src as [|b0 [|b1 [|b2 src]]]; simpl in Hlen; try lia. simpl take.
  rewrite !EncodeToString_block. cbn [String.substring]. rewrite IH by lia. done.
Qed.

Lemma EncodeToString_length (k : nat) (src : list Z) :
  length src = (3 * k)%nat → String.length (EncodeToString src) = (4 * k)%nat.
Proof.
  revert src. induction k as [|k IH]; intros src Hlen; [by destruct src|].
  destruct src as [|b0 [|b1 [|b2 src]]]; simpl in Hlen; try lia.
  rewrite EncodeToString_block. cbn [String.length]. rewrite IH by lia. lia.
Qed.

Lemma EncodeToString_alphabet (k : nat) (src : list Z) :
  length src = (3 * k)%nat → all_chars in_alphabet (EncodeToString src) = true.
Proof.
  revert src. induction k as [|k IH]; intros src Hlen; [by destruct src|].
  destruct src as [|b0 [|b1 [|b2 src]]]; simpl in Hlen; try lia.
  rewrite EncodeToString_block. cbn [all_chars]. by rewrite !sextet_in_alphabet, IH by lia.
Qed.

Lemma EncodeToString_inj (k : nat) (src src' : list Z) :
  length src = (3 * k)%nat → length src' = (3 * k)%nat → Forall is_byte src → Forall is_byte src' →
  EncodeToString src = EncodeToString src' → src = src'.
Proof.
  revert src src'. induction k as [|k IH]; intros src src' Hlen Hlen'; [by destruct src, src'|].
  destruct src as [|a0 [|a1 [|a2 src]]]; simpl in Hlen; try lia.
  destruct src' as [|b0 [|b1 [|b2 src']]]; simpl in Hlen'; try lia.
  rewrite !Forall_cons. intros (Ha0 & Ha1 & Ha2 & Ha) (Hb0 & Hb1 & Hb2 & Hb).
  rewrite !EncodeToString_block. cbv zeta. intros [= H0 H1 H2 H3 Hrest].
  destruct (block_inj a0 a1 a2 b0 b1 b2) as (-> & -> & ->); try done.
  - intros i Hi. assert (i = 0 ∨ i = 1 ∨ i = 2 ∨ i = 3) as [->|[->|[->| ->]]] by lia; done.
  - by rewrite (IH src src') by (done || lia).
Qed.

(** ** Names *)
Lemma substring_substring (n m : nat) (s : string) :
  (n ≤ m)%nat → String.substring 0 n (String.substring 0 m s) = String.substring 0 n s.
Proof.
  revert m s. induction n as [|n IH]; intros [|m] [|c s] Hnm; try done; [lia|]. simpl. by rewrite IH by lia.
Qed.

Lemma length_substring (n : nat) (s : string) :
  (n ≤ String.length s)%nat → String.length (String.substring 0 n s) = n.
Proof. revert s. induction n as [|n IH]; intros [|c s] Hn; simpl in *; try done; [lia|]. by rewrite IH by lia. Qed.

Lemma all_chars_substring P (n : nat) (s : string) :
  all_chars P s = true → all_chars P (String.substring 0 n s) = true.
Proof.
  revert s. induction n as [|n IH]; intros [|c s]; try done. simpl. intros [-> Hs]%andb_true_iff. by apply IH.
Qed.

(** What a call of [randstring] has read: [2 n] random bytes. *)
Definition random_bytes (crand_Read : list Z → list Z) (n : nat) : list Z := crand_Read (replicate (2 * n) 0).

Lemma random_bytes_length crand_Read n : fills crand_Read → length (random_bytes crand_Read n) = (2 * n)%nat.
Proof. intros Hf. unfold random_bytes. destruct (Hf (replicate (2 * n) 0)) as [-> _]. apply length_replicate. Qed.

Lemma random_bytes_take crand_Read n k :
  fills crand_Read → (k ≤ 2 * n)%nat →
  length (take k (random_bytes crand_Read n)) = k ∧ Forall is_byte (take k (random_bytes crand_Read n)).
Proof.
  intros Hf Hk. rewrite length_take, random_bytes_length by done. split; [lia|].
  apply Forall_take. apply (Hf (replicate (2 * n) 0)).
Qed.

(** The first [n] characters, among the first [4 k] of the code. *)
Lemma randstring_prefix crand_Read (n k : nat) :
  fills crand_Read → (3 * k ≤ 2 * n)%nat → (n ≤ 4 * k)%nat →
  randstring crand_Read (Z.of_nat n) =
  Ret (String.substring 0 n (EncodeToString (take (3 * k) (random_bytes crand_Read n)))).
Proof.
  intros Hf Hk Hn. unfold randstring. rewrite bool_decide_eq_false_2 by lia.
  replace (Z.to_nat (2 * Z.of_nat n)) with (2 * n)%nat by lia. fold (random_bytes crand_Read n).
  rewrite <-(EncodeToString_prefix k) by (by rewrite random_bytes_length).
  rewrite substring_substring, Nat2Z.id by done. rewrite bool_decide_eq_true_2; [done|]. split; [lia|].
  apply inj_le. apply Nat.le_trans with (4 * k)%nat; [done|].
  destruct (random_bytes_take crand_Read n (3 * k) Hf Hk) as [Hlen _].
  apply EncodeToString_length in Hlen. rewrite <-EncodeToString_prefix in Hlen by (by rewrite random_bytes_length).
  revert Hlen. generalize (EncodeToString (random_bytes crand_Read n)). intros s Hs. clear -Hs.
  revert s Hs. induction (4 * k)%nat as [|m IH]; intros [|c s] Hs; simpl in *; try lia. apply le_n_S, IH. lia.
Qed.

(** [randstring n] returns [n] characters of the alphabet: no slash, no
    padding. *)
Lemma randstring_returns crand_Read (n : nat) :
  fills crand_Read → (n ≠ 1)%nat →
  ∃ s, randstring crand_Read (Z.of_nat n) = Ret s ∧ String.length s = n ∧ all_chars in_alphabet s = true.
Proof.
  intros Hf Hn. set (k := ((n + 3) / 4)%nat).
  assert (n ≤ 4 * k ∧ 3 * k ≤ 2 * n)%nat as [Hk Hk'].
  { unfold k. pose proof (Nat.div_mod (n + 3) 4 ltac:(lia)). pose proof (Nat.mod_upper_bound (n + 3) 4 ltac:(lia)). lia. }
  rewrite (randstring_prefix crand_Read n k) by done. eexists. split; [done|].
  destruct (random_bytes_take crand_Read n (3 * k) Hf Hk') as [Hlen _].
  rewrite length_substring by (rewrite (EncodeToString_length k) by done; done). split; [done|].
  apply all_chars_substring. by apply (EncodeToString_alphabet k).
Qed.

(** Equal names of [4 k] characters are made of the same bytes. *)
Lemma randstring_eq crand_Read crand_Read' (k : nat) s :
  fills crand_Read → fills crand_Read' →
  randstring crand_Read (Z.of_nat (4 * k)) = Ret s → randstring crand_Read' (Z.of_nat (4 * k)) = Ret s →
  take (3 * k) (random_bytes crand_Read (4 * k)) = take (3 * k) (random_bytes crand_Read' (4 * k)).
Proof.
  intros Hf Hf'. destruct (random_bytes_take crand_Read (4 * k) (3 * k) Hf ltac:(lia)) as [Hlen Hb].
  destruct (random_bytes_take crand_Read' (4 * k) (3 * k) Hf' ltac:(lia)) as [Hlen' Hb'].
  rewrite !(randstring_prefix _ (4 * k) k) by (done || lia). intros Hs Hs'. rewrite <-Hs in Hs'.
  apply (f_equal (λ m, match m with Ret x => x | _ => "" end)) in Hs'. symmetry. revert Hs'. cbv beta iota.
  rewrite !EncodeToString_prefix, !(take_ge (take _ _)) by (rewrite ?Hlen, ?Hlen'; lia). by apply (EncodeToString_inj k).
Qed.



(** Names for [n] ends, drawn one after the other, are all different when the
    bytes they are made of are. *)
Lemma randstrings_NoDup (reads : list (list Z → list Z)) (k : nat) :
  Forall fills reads → NoDup ((λ r, take (3 * k) (random_bytes r (4 * k))) <$> reads) →
  ∃ names, Forall2 (λ r s, randstring r (Z.of_nat (4 * k)) = Ret s) reads names ∧ NoDup names.
Proof.
  intros Hf. set (name r := String.substring 0 (4 * k) (EncodeToString (take (3 * k) (random_bytes r (4 * k))))).
  intros Hnd. exists (name <$> reads). split.
  - clear Hnd. induction Hf as [|r reads Hr Hf IH]; csimpl; [constructor|]. constructor; [|done].
    apply randstring_prefix; [done|lia..].
  - rewrite Forall_forall in Hf. clear -Hf Hnd.
    induction reads as [|r reads IH]; csimpl; [constructor|].
    apply NoDup_cons in Hnd as [Hr Hnd]. constructor; [|apply IH; [intros; apply Hf; by right|done]].
    intros (r' & Heq & Hr')%list_elem_of_fmap. apply Hr. apply list_elem_of_fmap. exists r'. split; [|done].
    destruct (random_bytes_take r (4 * k) (3 * k) (Hf r ltac:(left)) ltac:(lia)) as [Hl Hb].
    destruct (random_bytes_take r' (4 * k) (3 * k) (Hf r' ltac:(by right)) ltac:(lia)) as [Hl' Hb'].
    unfold name in Heq. rewrite !EncodeToString_prefix, !(take_ge (take _ _)) in Heq by (rewrite ?Hl, ?Hl'; lia).
    by apply (EncodeToString_inj k).
Qed.

(** ** Seeds and the time limit *)

(** What crypto/rand documents of [Int]: a number below its argument. *)
Lemma makeSeed_range (crand_Int : Z → option Z) x :
  crand_Int (2 ^ 62) = Some x → 0 ≤ x < 2 ^ 62 → makeSeed crand_Int = Ret x.
Proof.
  intros Hi Hx. unfold makeSeed. change (Z.shiftl 1 62) with (2 ^ 62). rewrite Hi. simpl. f_equal.
  unfold wrap_int. rewrite Z.mod_small; lia.
Qed.

(** A test fails at two minutes, unless it has failed already. *)
Lemma checkTimeout_spec (failed : bool) (elapsed : Z) :
  checkTimeout failed elapsed = Panic ↔ failed = false ∧ 120 * 1000000000 < elapsed.
Proof. unfold checkTimeout, Second. destruct failed; simpl; [naive_solver|]. case_bool_decide; naive_solver lia. Qed.
