(* ===== verification/MapReduce.v ===== *)
(** * Sequential MapReduce (mr/worker.go, main/mrsequential.go)

    Key/value pairs with their sort order, the hash that picks a reduce task,
    and the sequential program: read and map every file, sort by key, reduce
    each run of equal keys.  Files, the plugin and the sort are parameters. *)
From Stdlib Require Import Ascii NArith.
From stdpp Require Import base gmap sets numbers strings sorting list.
From S2P Require Import Prelude Strconv Model.
Local Open Scope go_scope.

Record KeyValue := MkKeyValue {
  Key : string;
  Value : string;
}.
#[export] Instance KeyValue_eq_dec : EqDecision KeyValue.
Proof. solve_decision. Defined.

(** [ByKey], by the two elements. *)
Definition ByKey_Less (a b : KeyValue) : bool := str_lt (Key a) (Key b).

(** ** [ihash]: 32-bit FNV-1a without its top bit *)
Section ihash.
Local Open Scope Z_scope.

Definition fnv_offset32 : Z := 2166136261.
Definition fnv_prime32 : Z := 16777619.

Fixpoint fnv32a (h : Z) (s : string) : Z :=
  match s with
  | EmptyString => h
  | String c s' =>
      let h := Z.lxor h (Z.of_N (N_of_ascii c)) in
      fnv32a ((h * fnv_prime32) mod 2 ^ 32) s'
  end.

Definition ihash (key : string) : Z := Z.land (fnv32a fnv_offset32 key) 0x7fffffff.
End ihash.

(** ** mrsequential *)

(** A line of the output: ["%v %v\n"]. *)
Definition newline : string := String (ascii_of_nat 10) EmptyString.
Definition line (key output : string) : string := key +:+ " " +:+ output +:+ newline.

Section mrsequential.
Context `{GoSort}.
(** [open_read]: the content of a file; an error is fatal. *)
Context (open_read : string → outcome string).
Context (mapf : string → string → outcome (list KeyValue)) (reducef : string → list string → outcome string).

Fixpoint map_files (files : list string) (intermediate : list KeyValue) : outcome (list KeyValue) :=
  match files with
  | [] => Ret intermediate
  | filename :: files' =>
      let! content := open_read filename in
      let! kva := mapf filename content in
      map_files files' (intermediate ++ kva)
  end.

(** [j - i] of the inner loop, from [j = i + 1]: how many of the following
    pairs have the key. *)
Fixpoint key_run (key : string) (kvs : list KeyValue) : nat :=
  match kvs with
  | kv :: kvs' => if bool_decide (Key kv = key) then S (key_run key kvs') else 0
  | [] => 0
  end.

Fixpoint reduce_loop (fuel : nat) (intermediate : list KeyValue) (i : nat) (ofile : string) : outcome string :=
  match fuel with
  | 0 => NoFuel
  | S fuel' =>
      match intermediate !! i with
      | None => Ret ofile
      | Some kv =>
          let j := i + 1 + key_run (Key kv) (drop (i + 1) intermediate) in
          let values := Value <$> take (j - i) (drop i intermediate) in
          let! output := reducef (Key kv) values in
          reduce_loop fuel' intermediate j (ofile +:+ line (Key kv) output)
      end
  end.

(** The content of mr-out-0. *)
Definition mrsequential (files : list string) : outcome string :=
  let! intermediate := map_files files [] in
  let intermediate := sort_Sort ByKey_Less intermediate in
  reduce_loop (S (length intermediate)) intermediate 0 "".

End mrsequential.

(** ** The plugin

    [plugin_open], [plugin_lookup]: [plugin.Open] and [Plugin.Lookup]; a symbol
    has one of the two types that are asserted, or another. *)
Abbreviation map_fun := (string → string → outcome (list KeyValue)).
Abbreviation reduce_fun := (string → list string → outcome string).

Inductive symbol :=
| SymMap (mapf : map_fun)
| SymReduce (reducef : reduce_fun)
| SymOther.

Section plugin.
Context {H : Type} (plugin_open : string → option H) (plugin_lookup : H → string → option symbol).

Definition assert_map (x : symbol) : outcome map_fun := match x with SymMap f => Ret f | _ => Panic end.
Definition assert_reduce (x : symbol) : outcome reduce_fun := match x with SymReduce f => Ret f | _ => Panic end.

(** Each error is fatal. *)
Definition loadPlugin (filename : string) : outcome (map_fun * reduce_fun) :=
  let! p := or_panic (plugin_open filename) in
  let! xmapf := or_panic (plugin_lookup p "Map") in
  let! mapf := assert_map xmapf in
  let! xreducef := or_panic (plugin_lookup p "Reduce") in
  let! reducef := assert_reduce xreducef in
  Ret (mapf, reducef).

(** [main]: [os.Args] is the program, the plugin and the input files. *)
Definition mrsequential_main `{GoSort} (open_read : string → outcome string) (Args : list string) : outcome string :=
  if bool_decide (length Args < 3) then Panic
  else
    let! so := or_panic (Args !! 1) in
    let! ' (mapf, reducef) := loadPlugin so in
    mrsequential open_read mapf reducef (drop 2 Args).

(** [main] returns the output of the files after the plugin, if it gets that
    many arguments and the plugin has both functions. *)
Lemma mrsequential_main_Ret `{GoSort} (open_read : string → outcome string) (Args : list string) (out : string) :
  mrsequential_main open_read Args = Ret out ↔
  ∃ prog so f files p mapf reducef, Args = prog :: so :: f :: files ∧ plugin_open so = Some p ∧
    plugin_lookup p "Map" = Some (SymMap mapf) ∧ plugin_lookup p "Reduce" = Some (SymReduce reducef) ∧
    mrsequential open_read mapf reducef (f :: files) = Ret out.
Proof.
  unfold mrsequential_main, loadPlugin. split.
  - case_bool_decide as Hlen; [done|]. destruct Args as [|prog [|so [|f files]]]; simpl in Hlen; [lia..|].
    simpl. destruct (plugin_open so) as [p|] eqn:Hp; [|done]. simpl.
    destruct (plugin_lookup p "Map") as [[mapf| |]|] eqn:Hm; try done. simpl.
    destruct (plugin_lookup p "Reduce") as [[|reducef|]|] eqn:Hr; try done. intros Hout.
    by exists prog, so, f, files, p, mapf, reducef.
  - intros (prog & so & f & files & p & mapf & reducef & -> & Hp & Hm & Hr & <-).
    rewrite bool_decide_eq_false_2 by (simpl; lia). simpl. by rewrite Hp; simpl; rewrite Hm; simpl; rewrite Hr.
Qed.
End plugin.
