(* ===== verification/MapReduceProof.v ===== *)
(** * mrsequential groups the intermediate pairs by key

    The index loops of the reduce phase compute the groups of the sorted pairs,
    and these are the groups of the unsorted ones, in key order; the hash of a
    key is a 31-bit number. *)
From Stdlib Require Import Ascii NArith.
From stdpp Require Import base gmap sets numbers strings sorting list.
From S2P Require Import Prelude Strconv Model MapReduce.
Local Open Scope go_scope.

(** ** Byte-wise order of strings *)
Definition key_lt (s1 s2 : string) : Prop := String.le s1 s2 ∧ s1 ≠ s2.

#[export] Instance key_lt_trans : Transitive key_lt.
Proof.
  intros x y z [Hxy Hne] [Hyz Hne']. split; [by etransitivity|].
  intros ->. apply Hne. by apply (anti_symm String.le).
Qed.

Lemma key_lt_sorted_unique (l k : list string) :
  StronglySorted key_lt l → StronglySorted key_lt k → (∀ s, s ∈ l ↔ s ∈ k) → l = k.
Proof.
  assert (∀ l, StronglySorted key_lt l → StronglySorted String.le l ∧ NoDup l) as Hle.
  { induction 1 as [|s l' Hl [IHs IHn] Hs]; [by split; constructor|]. split.
    - constructor; [done|]. eapply Forall_impl; [exact Hs|]. by intros ? [? _].
    - constructor; [|done]. intros Hin. rewrite Forall_forall in Hs. by destruct (Hs s Hin). }
  intros [Hl Hnl]%Hle [Hk Hnk]%Hle Heq. apply (StronglySorted_unique String.le); [done..|].
  by apply NoDup_Permutation.
Qed.

(** ** Groups *)
Section groups.
Implicit Types (kvs : list KeyValue) (k : string) (gs : list (string * list string)).

Definition values k kvs : list string := Value <$> filter (λ kv, Key kv = k) kvs.
Definition distinct_keys kvs : list string := remove_dups (Key <$> kvs).
Definition groups kvs : list (string * list string) := (λ k, (k, values k kvs)) <$> distinct_keys kvs.

Definition key_sorted kvs : Prop := StronglySorted (λ x y, String.le (Key x) (Key y)) kvs.

Lemma key_run_split k kvs :
  ∃ run rest, kvs = run ++ rest ∧ length run = key_run k kvs ∧ Forall (λ kv, Key kv = k) run ∧
    (∀ kv, head rest = Some kv → Key kv ≠ k).
Proof.
  induction kvs as [|kv kvs IH]; simpl; [by exists [], []|].
  case_bool_decide as Hk.
  - destruct IH as (run & rest & -> & <- & Hrun & Hrest). exists (kv :: run), rest.
    split_and!; [done..|by constructor|done].
  - exists [], (kv :: kvs). split_and!; [done..|constructor|]. by intros ? [= <-].
Qed.

(** In sorted pairs, the rest after a run has other keys. *)
Lemma sorted_rest k (run rest : list KeyValue) kv :
  key_sorted (kv :: run ++ rest) → Key kv = k → (∀ kv', head rest = Some kv' → Key kv' ≠ k) →
  Forall (λ kv', Key kv' ≠ k) rest.
Proof.
  intros Hs Hk Hhead. destruct rest as [|kv1 rest]; [constructor|].
  specialize (Hhead kv1 eq_refl). change (kv :: run ++ kv1 :: rest) with ((kv :: run) ++ kv1 :: rest) in Hs.
  apply StronglySorted_app in Hs as (Hcross & _ & Hs). apply StronglySorted_cons in Hs as [Hall _].
  assert (String.le k (Key kv1)) as Hle by (rewrite <-Hk; apply Hcross; left).
  constructor; [done|]. eapply Forall_impl; [exact Hall|]. intros kv' Hle' Heq.
  apply Hhead. apply (anti_symm String.le); [by rewrite <-Heq|done].
Qed.

Lemma distinct_keys_run k (run rest : list KeyValue) :
  Forall (λ kv, Key kv = k) run → Forall (λ kv, Key kv ≠ k) rest →
  ∀ kv, Key kv = k → distinct_keys (kv :: run ++ rest) = k :: distinct_keys rest.
Proof.
  intros Hrun Hrest. unfold distinct_keys. induction Hrun as [|kv1 run Hk1 Hrun IH]; intros kv Hk.
  - csimpl. rewrite Hk. case_decide as Hin; [|done]. apply list_elem_of_fmap in Hin as (kv' & Hk' & Hin).
    rewrite Forall_forall in Hrest. by destruct (Hrest kv' Hin).
  - rewrite <-(IH kv1 Hk1). csimpl. case_decide as Hin; [done|]. destruct Hin. rewrite Hk, Hk1. left.
Qed.

Lemma groups_run k (run rest : list KeyValue) kv :
  Key kv = k → Forall (λ kv, Key kv = k) run → Forall (λ kv, Key kv ≠ k) rest →
  groups (kv :: run ++ rest) = (k, Value <$> kv :: run) :: groups rest.
Proof.
  intros Hk Hrun Hrest. unfold groups. rewrite (distinct_keys_run k) by done. csimpl. f_equal.
  - f_equal. unfold values. rewrite filter_cons_True by done. rewrite filter_app.
    rewrite (filter_all _ run) by (by apply Forall_forall).
    rewrite (filter_none _ rest) by (by apply Forall_forall). by rewrite app_nil_r.
  - apply list_fmap_ext. intros i k' Hk'%list_elem_of_lookup_2. f_equal. unfold values.
    unfold distinct_keys in Hk'. rewrite elem_of_remove_dups, list_elem_of_fmap in Hk'.
    destruct Hk' as (kv' & -> & Hin). rewrite Forall_forall in Hrest. pose proof (Hrest kv' Hin) as Hne.
    change (kv :: run ++ rest) with ((kv :: run) ++ rest). rewrite filter_app.
    rewrite (filter_none _ (kv :: run)); [done|]. rewrite Forall_forall in Hrun.
    intros kv2 [->|Hin2]%elem_of_cons Heq; [congruence|]. by rewrite <-(Hrun kv2 Hin2), Heq in Hne.
Qed.

(** ** The reduce loop *)
Context (reducef : string → list string → outcome string).

(** One line per group. *)
Fixpoint emit_all gs (ofile : string) : outcome string :=
  match gs with
  | [] => Ret ofile
  | (k, vs) :: gs' => let! output := reducef k vs in emit_all gs' (ofile +:+ line k output)
  end.

Lemma reduce_loop_groups (fuel : nat) kvs (i : nat) ofile :
  key_sorted (drop i kvs) → (length kvs - i < fuel)%nat →
  reduce_loop reducef fuel kvs i ofile = emit_all (groups (drop i kvs)) ofile.
Proof.
  revert i ofile. induction fuel as [|fuel IH]; intros i ofile Hs Hf; [lia|]. simpl.
  destruct (kvs !! i) as [kv|] eqn:Hi; last first.
  { apply lookup_ge_None in Hi. by rewrite drop_ge by done. }
  pose proof (lookup_lt_Some _ _ _ Hi) as Hlt. rewrite (drop_S kvs kv i Hi) in *.
  rewrite (Nat.add_comm i 1). simpl.
  destruct (key_run_split (Key kv) (drop (S i) kvs)) as (run & rest & Hsplit & Hlen & Hrun & Hhead).
  rewrite <-Hlen. rewrite Hsplit in *.
  pose proof (sorted_rest (Key kv) run rest kv Hs eq_refl Hhead) as Hrest.
  rewrite (groups_run (Key kv) run rest kv) by done. simpl.
  replace (S (i + length run) - i) with (length (kv :: run)) by (simpl; lia).
  change (kv :: run ++ rest) with ((kv :: run) ++ rest). rewrite take_app_length.
  destruct (reducef (Key kv) _) as [output| |]; [|done..]. simpl.
  assert (drop (S (i + length run)) kvs = rest) as Hdrop.
  { change (S (i + length run)) with (S i + length run). rewrite <-drop_drop, Hsplit. apply drop_app_length. }
  rewrite <-Hdrop. apply IH; [|lia]. rewrite Hdrop.
  change (kv :: run ++ rest) with ((kv :: run) ++ rest) in Hs.
  by apply StronglySorted_app in Hs as (_ & _ & Hs).
Qed.

Lemma groups_keys_sorted kvs : key_sorted kvs → StronglySorted key_lt (distinct_keys kvs).
Proof.
  unfold distinct_keys. induction 1 as [|kv kvs Hs IH Hkv]; csimpl; [constructor|].
  case_decide as Hin; [done|]. constructor; [done|]. apply Forall_forall.
  intros k. rewrite elem_of_remove_dups, list_elem_of_fmap. intros (kv' & -> & Hin').
  rewrite Forall_forall in Hkv. split; [by apply Hkv|]. intros Heq. apply Hin.
  rewrite Heq. by apply list_elem_of_fmap_2.
Qed.

Lemma elem_of_distinct_keys kvs k : k ∈ distinct_keys kvs ↔ k ∈ Key <$> kvs.
Proof. apply elem_of_remove_dups. Qed.

Lemma values_perm k kvs kvs' : kvs ≡ₚ kvs' → values k kvs ≡ₚ values k kvs'.
Proof. intros Hp. unfold values. by rewrite Hp. Qed.
End groups.

Lemma sort_ByKey_sorted `{GoSort} (kvs : list KeyValue) : key_sorted (sort_Sort ByKey_Less kvs).
Proof.
  eapply StronglySorted_impl_in; [apply sort_Sort_sorted|].
  - intros x y z. unfold ByKey_Less. rewrite !str_lt_false. intros. by etransitivity.
  - intros x y. unfold ByKey_Less. rewrite !str_lt_false. destruct (total String.le (Key x) (Key y)); auto.
  - intros x y _ _. unfold ByKey_Less. by rewrite str_lt_false.
Qed.

(** ** The specification: group, then reduce in key order *)
Definition spec_keys (kvs : list KeyValue) : list string := merge_sort String.le (distinct_keys kvs).
Definition spec_groups (kvs : list KeyValue) : list (string * list string) :=
  (λ k, (k, values k kvs)) <$> spec_keys kvs.

Lemma spec_keys_sorted kvs : StronglySorted key_lt (spec_keys kvs).
Proof.
  assert (NoDup (spec_keys kvs)) as Hnd.
  { unfold spec_keys. rewrite merge_sort_Permutation. apply NoDup_remove_dups. }
  assert (StronglySorted String.le (spec_keys kvs)) as Hs by (apply (StronglySorted_merge_sort String.le)).
  induction Hs as [|k l Hs IH Hk]; [constructor|]. apply NoDup_cons in Hnd as [Hni Hnd].
  constructor; [by apply IH|]. rewrite Forall_forall in *. intros k' Hin. split; [by apply Hk|].
  by intros ->.
Qed.

Lemma elem_of_spec_keys kvs k : k ∈ spec_keys kvs ↔ k ∈ Key <$> kvs.
Proof. unfold spec_keys. by rewrite merge_sort_Permutation, elem_of_distinct_keys. Qed.

Lemma distinct_keys_sort kvs kvs' :
  kvs' ≡ₚ kvs → key_sorted kvs' → distinct_keys kvs' = spec_keys kvs.
Proof.
  intros Hp Hs. apply key_lt_sorted_unique; [by apply groups_keys_sorted|apply spec_keys_sorted|].
  intros k. rewrite elem_of_distinct_keys, elem_of_spec_keys. by rewrite Hp.
Qed.

Lemma emit_all_perm reducef (gs gs' : list (string * list string)) ofile :
  (∀ k vs vs', vs ≡ₚ vs' → reducef k vs = reducef k vs') →
  Forall2 (λ g g', fst g = fst g' ∧ snd g ≡ₚ snd g') gs gs' →
  emit_all reducef gs ofile = emit_all reducef gs' ofile.
Proof.
  intros Hr HF. revert ofile. induction HF as [|[k vs] [k' vs'] gs gs' [Hk Hv] HF IH]; intros ofile; [done|].
  simpl in *. subst k'. rewrite (Hr k vs vs' Hv). destruct (reducef k vs'); simpl; [apply IH|done..].
Qed.

Section mrsequential_spec.
Context `{GoSort} (open_read : string → outcome string).
Context (mapf : string → string → outcome (list KeyValue)) (reducef : string → list string → outcome string).

Lemma mrsequential_groups (files : list string) :
  mrsequential open_read mapf reducef files =
  let! kvs := map_files open_read mapf files [] in
  emit_all reducef (groups (sort_Sort ByKey_Less kvs)) "".
Proof.
  unfold mrsequential. destruct (map_files _ _ _ _) as [kvs| |]; [|done..]. rewrite !obind_Ret.
  rewrite reduce_loop_groups; [by rewrite drop_0|rewrite drop_0; apply sort_ByKey_sorted|lia].
Qed.

Lemma groups_sort_spec (kvs : list KeyValue) :
  Forall2 (λ g g', fst g = fst g' ∧ snd g ≡ₚ snd g') (groups (sort_Sort ByKey_Less kvs)) (spec_groups kvs).
Proof.
  unfold groups, spec_groups.
  rewrite (distinct_keys_sort kvs) by (apply sort_Sort_perm || apply sort_ByKey_sorted).
  apply Forall2_fmap_2, Forall_Forall2_diag, Forall_true. intros k. simpl. split; [done|].
  apply values_perm, sort_Sort_perm.
Qed.

Lemma mrsequential_order_insensitive (files : list string) :
  (∀ k vs vs', vs ≡ₚ vs' → reducef k vs = reducef k vs') →
  mrsequential open_read mapf reducef files =
  let! kvs := map_files open_read mapf files [] in emit_all reducef (spec_groups kvs) "".
Proof.
  intros Hr. rewrite mrsequential_groups. destruct (map_files _ _ _ _) as [kvs| |]; [|done..]. simpl.
  apply emit_all_perm; [done|apply groups_sort_spec].
Qed.

(** The map phase, when no file and no map fails. *)
Lemma map_files_Ret (files : list string) (content : string → string) (kva : string → list KeyValue) acc :
  (∀ f, f ∈ files → open_read f = Ret (content f) ∧ mapf f (content f) = Ret (kva f)) →
  map_files open_read mapf files acc = Ret (acc ++ concat (kva <$> files)).
Proof.
  revert acc. induction files as [|f files IH]; intros acc Hf; csimpl; [by rewrite app_nil_r|].
  destruct (Hf f) as [Ho Hm]; [left|]. rewrite Ho, obind_Ret, Hm, obind_Ret. rewrite IH by (intros; apply Hf; by right).
  by rewrite (assoc_L (++)).
Qed.

Lemma emit_all_Ret (f : string → list string → string) gs ofile :
  (∀ k vs, (k, vs) ∈ gs → reducef k vs = Ret (f k vs)) →
  emit_all reducef gs ofile =
    Ret (foldl (λ out g, out +:+ line (fst g) (f (fst g) (snd g))) ofile gs).
Proof.
  revert ofile. induction gs as [|[k vs] gs IH]; intros ofile Hg; simpl; [done|].
  rewrite (Hg k vs) by left. simpl. apply IH. intros. apply Hg. by right.
Qed.
End mrsequential_spec.

(** C28: the sequential program emits one line per distinct key, in increasing
    key order, each from all the values of that key; with a reduce function
    that does not look at the order of its values, the whole program is the
    specification: group the mapped pairs by key and reduce each group, panics
    of the callbacks included. *)
Theorem mrsequential_refines_spec `{GoSort} (open_read : string → outcome string)
    (mapf : string → string → outcome (list KeyValue)) (reducef : string → list string → outcome string)
    (files : list string) :
  (∀ kvs, map_files open_read mapf files [] = Ret kvs →
    ∃ gs, mrsequential open_read mapf reducef files = emit_all reducef gs "" ∧
      StronglySorted key_lt (fst <$> gs) ∧ (∀ k, k ∈ fst <$> gs ↔ k ∈ Key <$> kvs) ∧
      (∀ k vs, (k, vs) ∈ gs → vs ≡ₚ values k kvs)) ∧
  ((∀ k vs vs', vs ≡ₚ vs' → reducef k vs = reducef k vs') →
    mrsequential open_read mapf reducef files =
    let! kvs := map_files open_read mapf files [] in emit_all reducef (spec_groups kvs) "").
Proof.
  split; [|apply mrsequential_order_insensitive].
  intros kvs Hkvs. exists (groups (sort_Sort ByKey_Less kvs)).
  rewrite mrsequential_groups, Hkvs. split; [done|].
  assert (fst <$> groups (sort_Sort ByKey_Less kvs) = spec_keys kvs) as Hfst.
  { unfold groups. rewrite <-list_fmap_compose. change (fst ∘ _) with (@id string).
    rewrite list_fmap_id. apply distinct_keys_sort; [apply sort_Sort_perm|apply sort_ByKey_sorted]. }
  rewrite Hfst. split_and!; [apply spec_keys_sorted|intros k; apply elem_of_spec_keys|].
  intros k vs (k' & [= -> ->] & _)%list_elem_of_fmap. apply values_perm, sort_Sort_perm.
Qed.

(** ** The hash *)
Section ihash.
Local Open Scope Z_scope.

Lemma fnv32a_app h s1 s2 : fnv32a h (s1 +:+ s2) = fnv32a (fnv32a h s1) s2.
Proof. revert h. induction s1 as [|c s1 IH]; intros h; [done|]. apply IH. Qed.

Lemma fnv32a_bounds h s : 0 ≤ h < 2 ^ 32 → 0 ≤ fnv32a h s < 2 ^ 32.
Proof.
  revert h. induction s as [|c s IH]; intros h Hh; [done|]. apply IH. apply Z.mod_pos_bound. lia.
Qed.

Lemma ihash_mod key : ihash key = fnv32a fnv_offset32 key mod 2 ^ 31.
Proof. unfold ihash. change 0x7fffffff with (Z.ones 31). by rewrite Z.land_ones by lia. Qed.
End ihash.

(** the hash of a key is the 32-bit FNV-1a of its bytes without the top
    bit, so it is a nonnegative 31-bit number and [ihash(key) % nReduce]
    always names a reduce task; FNV-1a reads the key byte by byte, so the
    hash of a concatenation continues the hash of the first part. *)
Theorem ihash_bounds (key key' : string) (nReduce : Z) :
  (0 < nReduce)%Z →
  (0 ≤ ihash key < 2 ^ 31)%Z ∧ (0 ≤ Z.rem (ihash key) nReduce < nReduce)%Z ∧
  ihash (key +:+ key') = (fnv32a (fnv32a fnv_offset32 key) key' mod 2 ^ 31)%Z.
Proof.
  intros Hn. rewrite !ihash_mod, fnv32a_app.
  pose proof (Z.mod_pos_bound (fnv32a fnv_offset32 key) (2 ^ 31) ltac:(lia)) as Hb.
  split; [lia|]. split; [|done]. rewrite Z.rem_mod_nonneg by lia. apply Z.mod_pos_bound. lia.
Qed.

Example fnv32a_a : fnv32a fnv_offset32 "a" = 0xe40c292c%Z.
Proof. by vm_compute. Qed.

Lemma ihash_bounds_witness : ihash "foobar" = 0x3f9cf968%Z ∧ (0 ≤ Z.rem (ihash "foobar") 10 < 10)%Z.
Proof. split; [by vm_compute|]. apply (ihash_bounds "foobar" "" 10). lia. Defined.
