(* ===== verification/MrApps.v ===== *)
(** * The MapReduce applications (mrapps/)

    Word count, the indexer, and the test applications crash, nocrash, mtiming
    and rtiming, over Go's strings.FieldsFunc and strings.Join.
    [is_letter] is unicode.IsLetter; what the random number generator, the
    clock, the process table and the directory answer are arguments. *)
From Stdlib Require Import Ascii NArith.
From stdpp Require Import base gmap sets numbers strings pretty sorting list.
From S2P Require Import Prelude Strconv Model MapReduce.
Local Open Scope go_scope.

Section fields.
Context (is_letter : Z → bool).

(** [strings.FieldsFunc(s, func(r) { return !unicode.IsLetter(r) })].  [skip]
    bytes still belong to the last rune; [word] is the field that was
    started, its bytes reversed. *)
Definition rev_string (l : list ascii) : string := Stdlib.Strings.String.string_of_list_ascii (reverse l).

Fixpoint fields_loop (skip : nat) (s : string) (word : list ascii) : list string :=
  match s with
  | EmptyString => if bool_decide (word = []) then [] else [rev_string word]
  | String c s' =>
      match skip with
      | S skip' => fields_loop skip' s' (if bool_decide (word = []) then [] else c :: word)
      | O =>
          let '(r, w) := decode_rune c s' in
          if is_letter r then fields_loop (w - 1) s' (c :: word)
          else (if bool_decide (word = []) then [] else [rev_string word]) ++ fields_loop (w - 1) s' []
      end
  end.

Definition FieldsFunc_letters (s : string) : list string := fields_loop 0 s [].

(** [strings.Join]. *)
Fixpoint Join (elems : list string) (sep : string) : string :=
  match elems with
  | [] => ""
  | [s] => s
  | s :: elems' => s +:+ sep +:+ Join elems' sep
  end.

(** ** wc *)
Definition wc_Map (filename contents : string) : outcome (list KeyValue) :=
  let words := FieldsFunc_letters contents in
  Ret ((λ w, MkKeyValue w "1") <$> words).

Definition wc_Reduce (key : string) (vs : list string) : outcome string :=
  Ret (Itoa (zlen vs)).

(** ** indexer

    [range]: the order in which Go visits the keys of a map. *)
Definition indexer_Map (range : gset string → list string) (document value : string) : outcome (list KeyValue) :=
  let words := FieldsFunc_letters value in
  let m : gset string := list_to_set words in
  Ret ((λ w, MkKeyValue w document) <$> range m).

Definition indexer_Reduce `{GoSort} (key : string) (vs : list string) : outcome string :=
  let vs := sort_Sort str_lt vs in
  Ret (Itoa (zlen vs) +:+ " " +:+ Join vs ",").
End fields.

(** ** crash and nocrash

    [rr]: the random number below 1000; the delay is not observable. *)
Definition crash_maybeCrash (rr : Z) : outcome unit :=
  if bool_decide (rr < 330)%Z then Panic else Ret tt.

Definition nocrash_maybeCrash (rr : Z) : outcome unit :=
  if false && bool_decide (rr < 500)%Z then Panic else Ret tt.

(** [len] of a string counts bytes. *)
Definition str_len (s : string) : Z := Z.of_nat (String.length s).

Definition crash_Map (rr : Z) (filename contents : string) : outcome (list KeyValue) :=
  crash_maybeCrash rr ;;;
  Ret ([] ++ [MkKeyValue "a" filename] ++ [MkKeyValue "b" (Itoa (str_len filename))] ++
       [MkKeyValue "c" (Itoa (str_len contents))] ++ [MkKeyValue "d" "xyzzy"]).

Definition crash_Reduce `{GoSort} (rr : Z) (key : string) (vs : list string) : outcome string :=
  crash_maybeCrash rr ;;;
  let vv := sort_Sort str_lt vs in
  Ret (Join vv " ").

Definition nocrash_Map (rr : Z) (filename contents : string) : outcome (list KeyValue) :=
  nocrash_maybeCrash rr ;;;
  Ret ([] ++ [MkKeyValue "a" filename] ++ [MkKeyValue "b" (Itoa (str_len filename))] ++
       [MkKeyValue "c" (Itoa (str_len contents))] ++ [MkKeyValue "d" "xyzzy"]).

Definition nocrash_Reduce `{GoSort} (rr : Z) (key : string) (vs : list string) : outcome string :=
  nocrash_maybeCrash rr ;;;
  let vv := sort_Sort str_lt vs in
  Ret (Join vv " ").

(** ** mtiming and rtiming

    [names]: the directory, this process' own file included, or an error;
    [sscanf phase name]: the process number that [fmt.Sscanf] reads from a
    name with the phase's pattern; [alive]: whether [syscall.Kill(pid, 0)]
    succeeds; [write_ok], [remove_ok]: whether the file operations succeed. *)
Definition nparallel (sscanf : string → string → option Z) (alive : Z → bool) (phase : string)
    (write_ok : bool) (names : outcome (list string)) (remove_ok : bool) : outcome Z :=
  if negb write_ok then Panic
  else
    let! names := names in
    let ret := foldl (λ ret name,
      match sscanf phase name with
      | Some xpid => if alive xpid then (ret + 1)%Z else ret
      | None => ret
      end) 0%Z names in
    if negb remove_ok then Panic else Ret ret.

(** [ts]: the clock, printed; [np]: the answer of [nparallel]. *)
Definition mtiming_Map (pid : Z) (ts : string) (np : string → outcome Z) (filename contents : string)
    : outcome (list KeyValue) :=
  let! n := np "map" in
  Ret ([] ++ [MkKeyValue ("times-" +:+ Itoa pid) ts] ++ [MkKeyValue ("parallel-" +:+ Itoa pid) (Itoa n)]).

Definition mtiming_Reduce `{GoSort} (key : string) (vs : list string) : outcome string :=
  let vv := sort_Sort str_lt vs in
  Ret (Join vv " ").

Definition rtiming_Map (filename contents : string) : outcome (list KeyValue) :=
  Ret ((λ k, MkKeyValue k "1") <$> ["a"; "b"; "c"; "d"; "e"; "f"; "g"; "h"; "i"; "j"]).

Definition rtiming_Reduce (np : string → outcome Z) (key : string) (vs : list string) : outcome string :=
  let! n := np "reduce" in Ret (Itoa n).

(** rtiming has the same text. *)
Definition rtiming_nparallel : (string → string → option Z) → (Z → bool) → string → bool → outcome (list string) →
    bool → outcome Z := nparallel.
