(* ===== verification/MrAppsProof.v ===== *)
(** * The applications, run by mrsequential

    Word count counts words; the indexer lists, for each word, its documents;
    and a run of crash that does not crash is a run of nocrash. *)
From Stdlib Require Import Ascii NArith.
From stdpp Require Import base gmap sets numbers strings pretty sorting list.
From S2P Require Import Prelude Strconv Model MapReduce MapReduceProof MrApps.
Local Open Scope go_scope.

(** ** Sorting strings *)
Lemma sort_str_sorted `{GoSort} (vs : list string) : StronglySorted String.le (sort_Sort str_lt vs).
Proof.
  eapply StronglySorted_impl_in; [apply sort_Sort_sorted|].
  - intros x y z. rewrite !str_lt_false. intros. by etransitivity.
  - intros x y. rewrite !str_lt_false. destruct (total String.le x y); auto.
  - intros x y _ _. by rewrite str_lt_false.
Qed.

Lemma sort_str_perm `{GoSort} (vs vs' : list string) :
  vs ≡ₚ vs' → sort_Sort str_lt vs = sort_Sort str_lt vs'.
Proof.
  intros Hp. apply (StronglySorted_unique String.le); [apply sort_str_sorted..|].
  by rewrite !sort_Sort_perm.
Qed.

Lemma sort_str_length `{GoSort} (vs : list string) : length (sort_Sort str_lt vs) = length vs.
Proof. apply Permutation_length, sort_Sort_perm. Qed.

Lemma foldl_lines (f : string → list string → string) (g : string → string) (h : string → list string)
    (ws : list string) (out : string) :
  (∀ w, f w (h w) = g w) →
  foldl (λ out p, out +:+ line (fst p) (f (fst p) (snd p))) out ((λ k, (k, h k)) <$> ws) =
  foldl (λ out w, out +:+ line w (g w)) out ws.
Proof.
  intros Hfg. revert out. induction ws as [|w ws IH]; intros out; [done|]. csimpl.
  rewrite Hfg. apply IH.
Qed.

(** ** Reducers that do not look at the order of the values *)
Lemma wc_Reduce_perm k vs vs' : vs ≡ₚ vs' → wc_Reduce k vs = wc_Reduce k vs'.
Proof. intros Hp. unfold wc_Reduce. by rewrite Hp. Qed.

Lemma indexer_Reduce_perm `{GoSort} k vs vs' : vs ≡ₚ vs' → indexer_Reduce k vs = indexer_Reduce k vs'.
Proof. intros Hp. unfold indexer_Reduce. by rewrite (sort_str_perm vs vs' Hp). Qed.

Lemma crash_Reduce_perm `{GoSort} rr k vs vs' : vs ≡ₚ vs' → crash_Reduce rr k vs = crash_Reduce rr k vs'.
Proof. intros Hp. unfold crash_Reduce. by rewrite (sort_str_perm vs vs' Hp). Qed.

Lemma nocrash_Reduce_perm `{GoSort} rr k vs vs' : vs ≡ₚ vs' → nocrash_Reduce rr k vs = nocrash_Reduce rr k vs'.
Proof. intros Hp. unfold nocrash_Reduce. by rewrite (sort_str_perm vs vs' Hp). Qed.

(** ** Words *)
Section fields.
Context (is_letter : Z → bool).

Lemma rev_string_not_empty l : l ≠ [] → rev_string l ≠ "".
Proof.
  destruct l as [|c l]; [done|]. intros _. unfold rev_string. rewrite reverse_cons.
  by destruct (reverse l).
Qed.

Lemma fields_loop_not_empty skip s word : Forall (.≠ "") (fields_loop is_letter skip s word).
Proof.
  assert (∀ word, Forall (.≠ "") (if bool_decide (word = []) then [] else [rev_string word])) as Hone.
  { intros w. case_bool_decide; constructor; [by apply rev_string_not_empty|constructor]. }
  revert skip word. induction s as [|c s IH]; intros skip word; simpl; [apply Hone|].
  destruct skip; [|apply IH]. destruct (decode_rune c s) as [r w].
  destruct (is_letter r); [apply IH|]. apply Forall_app. split; [apply Hone|apply IH].
Qed.

Definition occurrences (w : string) (words : list string) : Z := zlen (filter (λ w', w' = w) words).

Definition all_words (contents : list string) : list string := concat (FieldsFunc_letters is_letter <$> contents).

Lemma wc_kvs_keys (contents : list string) :
  Key <$> concat ((λ c, (λ w, MkKeyValue w "1") <$> FieldsFunc_letters is_letter c) <$> contents) =
  all_words contents.
Proof.
  unfold all_words. induction contents as [|c cs IH]; [done|]. csimpl. rewrite fmap_app, IH. f_equal.
  rewrite <-list_fmap_compose. change (Key ∘ _) with (@id string). apply list_fmap_id.
Qed.

Lemma values_length (k : string) (kvs : list KeyValue) : zlen (values k kvs) = occurrences k (Key <$> kvs).
Proof. unfold values, occurrences. by rewrite length_fmap, filter_fmap, length_fmap. Qed.
End fields.

(** C35: word count run on readable files returns one line for each distinct
    word of their contents, in increasing order, with the decimal number of
    its occurrences in all the files; no word is empty. *)
Theorem wordcount_correct `{GoSort} (is_letter : Z → bool) (open_read : string → outcome string)
    (content : string → string) (files : list string) :
  (∀ f, f ∈ files → open_read f = Ret (content f)) →
  let words := all_words is_letter (content <$> files) in
  ∃ ws, StronglySorted key_lt ws ∧ (∀ w, w ∈ ws ↔ w ∈ words) ∧ Forall (.≠ "") ws ∧
    mrsequential open_read (wc_Map is_letter) wc_Reduce files =
    Ret (foldl (λ out w, out +:+ line w (Itoa (occurrences w words))) "" ws).
Proof.
  intros Hread words.
  set (kva f := (λ w, MkKeyValue w "1") <$> FieldsFunc_letters is_letter (content f)).
  assert (Key <$> concat (kva <$> files) = words) as Hkeys.
  { unfold words. rewrite <-wc_kvs_keys. by rewrite <-list_fmap_compose. }
  exists (spec_keys (concat (kva <$> files))).
  assert (∀ w, w ∈ spec_keys (concat (kva <$> files)) ↔ w ∈ words) as Hin.
  { intros w. by rewrite elem_of_spec_keys, Hkeys. }
  split; [apply spec_keys_sorted|]. split; [done|]. split.
  { apply Forall_forall. intros w Hw. apply Hin, list_elem_of_In, in_concat in Hw as (l & Hl & Hw).
    apply list_elem_of_In in Hw. apply list_elem_of_In, list_elem_of_fmap in Hl as (c & -> & _).
    pose proof (fields_loop_not_empty is_letter 0 c []) as Hne. rewrite Forall_forall in Hne. by apply Hne. }
  rewrite mrsequential_order_insensitive by apply wc_Reduce_perm.
  rewrite (map_files_Ret _ _ _ content kva) by (intros f Hf; split; [by apply Hread|done]). simpl.
  rewrite (emit_all_Ret _ (λ k vs, Itoa (zlen vs))) by done. f_equal. unfold spec_groups.
  apply (foldl_lines (λ _ vs, Itoa (zlen vs))). intros w. by rewrite values_length, Hkeys.
Qed.

(** ** The indexer *)
Section indexer.
Context `{GoSort} (is_letter : Z → bool) (open_read : string → outcome string).
Implicit Types (range : gset string → list string).

(** The documents that contain a word, with one entry for each file given. *)
Definition documents (content : string → string) (files : list string) (w : string) : list string :=
  filter (λ f, w ∈ FieldsFunc_letters is_letter (content f)) files.

Lemma filter_key_map (l : list string) (w d : string) :
  NoDup l → values w ((λ k, MkKeyValue k d) <$> l) = if decide (w ∈ l) then [d] else [].
Proof.
  unfold values. rewrite filter_fmap, <-list_fmap_compose. simpl. induction 1 as [|k l Hk Hl IH]; [done|].
  rewrite filter_cons. destruct (decide (k = w)) as [->|Hne].
  - csimpl. rewrite IH, decide_False, decide_True by (done || left). done.
  - rewrite IH. destruct (decide (w ∈ l)); [rewrite decide_True by (by right)|rewrite decide_False]; try done.
    intros [->|?]%elem_of_cons; done.
Qed.

Lemma indexer_values range content (files : list string) w :
  (∀ m, range m ≡ₚ elements m) →
  values w (concat ((λ f, (λ k, MkKeyValue k f) <$>
    range (list_to_set (FieldsFunc_letters is_letter (content f)))) <$> files)) =
  documents content files w.
Proof.
  intros Hr. unfold documents. induction files as [|f files IH]; [done|]. csimpl.
  unfold values in *. rewrite filter_app, fmap_app, IH. rewrite filter_cons.
  set (l := range _).
  assert (l ≡ₚ elements (list_to_set (FieldsFunc_letters is_letter (content f)) : gset string)) as Hl by apply Hr.
  assert (NoDup l) as Hnd by (rewrite Hl; apply NoDup_elements).
  pose proof (filter_key_map l w f Hnd) as Hf. unfold values in Hf. rewrite Hf.
  assert (w ∈ l ↔ w ∈ FieldsFunc_letters is_letter (content f)) as Hin.
  { by rewrite Hl, elem_of_elements, elem_of_list_to_set. }
  destruct (decide (w ∈ l)); [rewrite decide_True by (by apply Hin)|rewrite decide_False by (by rewrite <-Hin)]; done.
Qed.

Lemma indexer_keys range content (files : list string) w :
  (∀ m, range m ≡ₚ elements m) →
  w ∈ Key <$> concat ((λ f, (λ k, MkKeyValue k f) <$>
    range (list_to_set (FieldsFunc_letters is_letter (content f)))) <$> files) ↔
  documents content files w ≠ [].
Proof.
  intros Hr. rewrite <-(indexer_values range content files w Hr). unfold values.
  rewrite list_elem_of_fmap. split.
  - intros (kv & -> & Hin) Hnil. apply fmap_nil_inv in Hnil.
    apply (not_elem_of_nil kv). rewrite <-Hnil. by apply list_elem_of_filter.
  - destruct (filter _ _) as [|kv l] eqn:Hf; [done|]. intros _. exists kv.
    assert (kv ∈ kv :: l) as Hin by left. rewrite <-Hf in Hin.
    apply list_elem_of_filter in Hin as [-> Hin]. done.
Qed.

Lemma indexer_run range content (files : list string) :
  (∀ m, range m ≡ₚ elements m) → (∀ f, f ∈ files → open_read f = Ret (content f)) →
  ∃ ws, StronglySorted key_lt ws ∧ (∀ w, w ∈ ws ↔ documents content files w ≠ []) ∧
    mrsequential open_read (indexer_Map is_letter range) indexer_Reduce files =
    Ret (foldl (λ out w, out +:+ line w
      (Itoa (zlen (documents content files w)) +:+ " " +:+
       Join (sort_Sort str_lt (documents content files w)) ",")) "" ws).
Proof.
  intros Hr Hread.
  set (kva f := (λ k, MkKeyValue k f) <$> range (list_to_set (FieldsFunc_letters is_letter (content f)))).
  exists (spec_keys (concat (kva <$> files))). split; [apply spec_keys_sorted|]. split.
  { intros w. rewrite elem_of_spec_keys. by apply indexer_keys. }
  rewrite mrsequential_order_insensitive by (intros; by apply indexer_Reduce_perm).
  rewrite (map_files_Ret _ _ _ content kva) by (intros f Hf; split; [by apply Hread|done]). simpl.
  rewrite (emit_all_Ret _ (λ k vs, Itoa (zlen (sort_Sort str_lt vs)) +:+ " " +:+ Join (sort_Sort str_lt vs) ","))
    by done.
  f_equal. unfold spec_groups.
  apply (foldl_lines (λ _ vs, Itoa (zlen (sort_Sort str_lt vs)) +:+ " " +:+ Join (sort_Sort str_lt vs) ",")).
  intros w. rewrite sort_str_length. unfold kva. by rewrite indexer_values.
Qed.
End indexer.

(** C36: the indexer run on readable files returns one line for each word that
    occurs, in increasing order, with the number of the files that contain it
    and their names, sorted; the order in which Go visits a map does not
    matter. *)
Theorem indexer_correct `{GoSort} (is_letter : Z → bool) (open_read : string → outcome string)
    (range range' : gset string → list string) (content : string → string) (files : list string) :
  (∀ m, range m ≡ₚ elements m) → (∀ m, range' m ≡ₚ elements m) →
  (∀ f, f ∈ files → open_read f = Ret (content f)) →
  mrsequential open_read (indexer_Map is_letter range) indexer_Reduce files =
  mrsequential open_read (indexer_Map is_letter range') indexer_Reduce files ∧
  ∃ ws, StronglySorted key_lt ws ∧ (∀ w, w ∈ ws ↔ documents is_letter content files w ≠ []) ∧
    mrsequential open_read (indexer_Map is_letter range) indexer_Reduce files =
    Ret (foldl (λ out w, out +:+ line w
      (Itoa (zlen (documents is_letter content files w)) +:+ " " +:+
       Join (sort_Sort str_lt (documents is_letter content files w)) ",")) "" ws).
Proof.
  intros Hr Hr' Hread.
  destruct (indexer_run is_letter open_read range content files Hr Hread) as (ws & Hs & Hin & Hrun).
  destruct (indexer_run is_letter open_read range' content files Hr' Hread) as (ws' & Hs' & Hin' & Hrun').
  assert (ws = ws') as <-.
  { apply key_lt_sorted_unique; [done..|]. intros w. by rewrite Hin, Hin'. }
  split; [by rewrite Hrun, Hrun'|by exists ws].
Qed.

(** ** crash *)
Lemma map_files_impl (open_read : string → outcome string) (mapf mapf' : string → string → outcome (list KeyValue))
    (files : list string) acc kvs :
  (∀ f c kva, mapf f c = Ret kva → mapf' f c = Ret kva) →
  map_files open_read mapf files acc = Ret kvs → map_files open_read mapf' files acc = Ret kvs.
Proof.
  intros Hm. revert acc. induction files as [|f files IH]; intros acc; simpl; [done|].
  intros Hk. inv_ret. rewrite Hv. simpl. rewrite (Hm _ _ _ Hv0). simpl. by apply IH.
Qed.

Lemma emit_all_impl (reducef reducef' : string → list string → outcome string) gs ofile out :
  (∀ k vs o, reducef k vs = Ret o → reducef' k vs = Ret o) →
  emit_all reducef gs ofile = Ret out → emit_all reducef' gs ofile = Ret out.
Proof.
  intros Hr. revert ofile. induction gs as [|[k vs] gs IH]; intros ofile; simpl; [done|].
  intros Hk. inv_ret. rewrite (Hr _ _ _ Hv). simpl. by apply IH.
Qed.

(** a run of the crashing application that returns at all, whatever its
    random numbers, returns what nocrash returns, whatever its own; and
    nocrash never crashes. *)
Theorem crash_matches_nocrash `{GoSort} (open_read : string → outcome string)
    (rm rm' : string → string → Z) (rr rr' : string → list string → Z) (files : list string) :
  (∀ out, mrsequential open_read (λ f c, crash_Map (rm f c) f c) (λ k vs, crash_Reduce (rr k vs) k vs) files = Ret out →
    mrsequential open_read (λ f c, nocrash_Map (rm' f c) f c) (λ k vs, nocrash_Reduce (rr' k vs) k vs) files = Ret out) ∧
  ((∀ f, f ∈ files → returns (open_read f)) →
    returns (mrsequential open_read (λ f c, nocrash_Map (rm' f c) f c) (λ k vs, nocrash_Reduce (rr' k vs) k vs) files)).
Proof.
  split.
  - intros out. rewrite !mrsequential_groups. intros Hrun. inv_ret.
    rewrite (map_files_impl _ (λ f c, crash_Map (rm f c) f c) (λ f c, nocrash_Map (rm' f c) f c) _ _ v); [|..|exact Hv]; last first.
    { intros f c kva. unfold crash_Map, nocrash_Map, crash_maybeCrash.
      destruct (bool_decide (rm f c < 330)%Z); done. }
    simpl. eapply emit_all_impl; [|exact Hk]. intros k vs o.
    unfold crash_Reduce, nocrash_Reduce, crash_maybeCrash.
    destruct (bool_decide (rr k vs < 330)%Z); done.
  - intros Hread. rewrite mrsequential_groups.
    set (content f := match open_read f with Ret c => c | _ => "" end).
    set (kva f := match nocrash_Map 0 f (content f) with Ret kva => kva | _ => [] end).
    rewrite (map_files_Ret _ _ _ content kva); [simpl|].
    + rewrite (emit_all_Ret _ (λ _ vs, Join (sort_Sort str_lt vs) " ")) by done. by eexists.
    + intros f [c Hc]%Hread. unfold kva, content. rewrite Hc. by split.
Qed.

(** ** Witnesses *)
Definition ascii_letter (r : Z) : bool := bool_decide (65 ≤ r ≤ 90 ∨ 97 ≤ r ≤ 122)%Z.

#[local] Existing Instance merge_sort_GoSort.

Lemma mrsequential_refines_spec_witness :
  mrsequential Ret (wc_Map ascii_letter) wc_Reduce ["b, a b"] =
  emit_all wc_Reduce (spec_groups [MkKeyValue "b" "1"; MkKeyValue "a" "1"; MkKeyValue "b" "1"]) "".
Proof.
  destruct (mrsequential_refines_spec Ret (wc_Map ascii_letter) wc_Reduce ["b, a b"]) as [_ Hspec].
  rewrite Hspec; [done|]. apply wc_Reduce_perm.
Defined.

Lemma wordcount_correct_witness :
  ∃ ws, (∀ w, w ∈ ws ↔ w ∈ ["b"; "a"; "b"; "c"; "a"]) ∧
    mrsequential Ret (wc_Map ascii_letter) wc_Reduce ["b, a b"; "c2a"] =
    Ret (foldl (λ out w, out +:+ line w (Itoa (occurrences w ["b"; "a"; "b"; "c"; "a"]))) "" ws).
Proof.
  destruct (wordcount_correct ascii_letter Ret id ["b, a b"; "c2a"]) as (ws & _ & Hin & _ & Hrun); [done|].
  exists ws. split; [exact Hin|exact Hrun].
Defined.

Lemma indexer_correct_witness :
  ∃ ws, (∀ w, w ∈ ws ↔ documents ascii_letter id ["b a"; "a"] w ≠ []) ∧
    mrsequential Ret (indexer_Map ascii_letter elements) indexer_Reduce ["b a"; "a"] =
    Ret (foldl (λ out w, out +:+ line w
      (Itoa (zlen (documents ascii_letter id ["b a"; "a"] w)) +:+ " " +:+
       Join (sort_Sort str_lt (documents ascii_letter id ["b a"; "a"] w)) ",")) "" ws).
Proof.
  destruct (indexer_correct ascii_letter Ret elements (λ m, reverse (elements m)) id ["b a"; "a"])
    as (_ & ws & _ & Hin & Hrun); [done| |done|].
  - intros m. apply reverse_Permutation.
  - exists ws. split; [exact Hin|exact Hrun].
Defined.

Lemma crash_matches_nocrash_witness :
  ∃ out, mrsequential Ret (λ f c, crash_Map 700 f c) (λ k vs, crash_Reduce 400 k vs) ["x"; "y"] = Ret out ∧
    mrsequential Ret (λ f c, nocrash_Map 0 f c) (λ k vs, nocrash_Reduce 1 k vs) ["x"; "y"] = Ret out.
Proof.
  destruct (mrsequential Ret (λ f c, crash_Map 700 f c) (λ k vs, crash_Reduce 400 k vs) ["x"; "y"])
    as [out| |] eqn:Hrun; [|by vm_compute in Hrun..].
  exists out. split; [done|].
  destruct (crash_matches_nocrash Ret (λ _ _, 700%Z) (λ _ _, 0%Z) (λ _ _, 400%Z) (λ _ _, 1%Z) ["x"; "y"]) as [Hm _].
  by apply Hm.
Defined.
