(* ===== verification/Mr.v ===== *)
(** * The master of the distributed MapReduce draft (mr/master.go, mr/rpc.go)

    The sources are a draft that the Go compiler rejects (field declarations
    and loops with misplaced tokens, names that differ between the two files);
    each definition follows the statements of one function.  The clock, the
    user id, sockets and the file system are arguments. *)
From Stdlib Require Import Ascii NArith.
From stdpp Require Import base gmap sets numbers strings pretty sorting list.
From S2P Require Import Prelude Strconv Model MapReduce MrApps.
Local Open Scope go_scope.

(** ** The master's data *)
Record Task := MkTask {
  Filename : string;
  Task_WorkerId : string;
  StartTime : Z;
  Status : Z;
}.

Record Worker := MkWorker {
  Id : string;
  Hostname : string;
  Port : Z;
  Worker_Tasks : list Task;
}.

Record Master := MkMaster {
  Workers : list Worker;
  Tasks : list Task;
}.

(** ** The arguments and replies of the RPCs *)
Record ExampleArgs := MkExampleArgs { X : Z }.
Record ExampleReply := MkExampleReply { Y : Z }.
Record RegisterWorkerRequest := MkRegisterWorkerRequest { req_Hostname : string; req_Port : Z }.
Record RegisterWorkerResponse := MkRegisterWorkerResponse { rsp_WorkerId : string }.
Record GetTaskRequest := MkGetTaskRequest { WrokerId : string }.
Record GetTaskResponse := MkGetTaskResponse { TaskInfo : Task }.

(** ** The handlers: the master and the reply that they leave behind *)
Definition Example_handler (m : Master) (args : ExampleArgs) (reply : ExampleReply) : Master * ExampleReply :=
  (m, MkExampleReply (X args + 1)%Z).

(** [now] is [time.Now().UnixNano()]. *)
Definition RegisterWorker (m : Master) (args : RegisterWorkerRequest) (reply : RegisterWorkerResponse) (now : Z)
    : Master * RegisterWorkerResponse :=
  let workerId := req_Hostname args +:+ ":" +:+ Itoa (req_Port args) +:+ "-" +:+ Itoa now in
  let worker := MkWorker workerId (req_Hostname args) (req_Port args) [] in
  (MkMaster (Workers m ++ [worker]) (Tasks m), MkRegisterWorkerResponse workerId).

(** The loop of [GetTask]: [task] is a copy of the element, and so is the
    reply; without an idle task the reply is left as it is. *)
Fixpoint GetTask_loop (tasks : list Task) (args : GetTaskRequest) (reply : GetTaskResponse) (now : Z) : GetTaskResponse :=
  match tasks with
  | [] => reply
  | task :: tasks' =>
      if bool_decide (Status task = 0%Z) then
        let task := MkTask (Filename task) (Task_WorkerId task) (StartTime task) 1 in
        let task := MkTask (Filename task) (WrokerId args) (StartTime task) (Status task) in
        let task := MkTask (Filename task) (Task_WorkerId task) now (Status task) in
        MkGetTaskResponse task
      else GetTask_loop tasks' args reply now
  end.

Definition GetTask (m : Master) (args : GetTaskRequest) (reply : GetTaskResponse) (now : Z) : Master * GetTaskResponse :=
  (m, GetTask_loop (Tasks m) args reply now).

Definition Done (m : Master) : bool := let ret := false in ret.

(** [masterSock]: the socket's name, from the user id. *)
Definition masterSock (uid : Z) : string := "/var/tmp/824-mr-" +:+ Itoa uid.

(** [server]: removes an old socket and listens on a new one, or dies; what
    it then serves is [Master_serve] of [MrWorker]. *)
Section server.
Context {FS L : Type} (Remove : string → FS → FS) (Listen : string → string → FS → option (FS * L)).

Definition server (uid : Z) (fs : FS) : outcome (FS * L) :=
  let sockname := masterSock uid in
  let fs := Remove sockname fs in
  or_panic (Listen "unix" sockname fs).
End server.

Fixpoint MakeMaster_loop (files : list string) (taskList : list Task) : list Task :=
  match files with
  | [] => taskList
  | filename :: files' => MakeMaster_loop files' (taskList ++ [MkTask filename "" 0 0])
  end.

Definition MakeMaster {FS L : Type} (Remove : string → FS → FS) (Listen : string → string → FS → option (FS * L))
    (uid : Z) (files : list string) (nReduce : Z) (fs : FS) : outcome (Master * (FS * L)) :=
  let taskList := MakeMaster_loop files [] in
  let m := MkMaster [] taskList in
  let! l := server Remove Listen uid fs in
  Ret (m, l).

(** ** split

    [nread k r]: how many bytes the [k]-th [file.Read] reads when [r] are left,
    or an error, which is fatal; with none left it returns EOF, which ends the
    loop.  A chunk is a fresh slice of that many zeros: the buffer that was
    read into is not copied to it. *)
Definition chunkSize : nat := 16 * 1024.

Section split.
Context (nread : nat → nat → option nat).

Fixpoint split_loop (fuel k : nat) (rest : list ascii) (res : list (list ascii)) : outcome (list (list ascii)) :=
  match fuel with
  | 0 => NoFuel
  | S fuel' =>
      if bool_decide (rest = []) then Ret res
      else
        let! bytesRead := or_panic (nread k (length rest)) in
        let chunk := replicate bytesRead Ascii.zero in
        split_loop fuel' (S k) (drop bytesRead rest) (res ++ [take bytesRead chunk])
  end.

(** [content]: the bytes of the file; that it cannot be opened is fatal. *)
Definition split (content : outcome (list ascii)) : outcome (list (list ascii)) :=
  let! bytes := content in split_loop (S (length bytes)) 0 bytes [].
End split.

(** ** Theorems *)

(** [GetTask] answers the first idle task, marked, and leaves the master's own
    list as it was: the next worker is given the same task. *)
Theorem GetTask_repeats (m : Master) (args args' : GetTaskRequest) (reply reply' : GetTaskResponse) (now now' : Z) :
  let '(m1, r1) := GetTask m args reply now in
  let '(m2, r2) := GetTask m1 args' reply' now' in
  Tasks m2 = Tasks m ∧
  ((Forall (λ t, Status t ≠ 0%Z) (Tasks m) ∧ r1 = reply ∧ r2 = reply') ∨
   ∃ ts1 t0 ts2, Tasks m = ts1 ++ t0 :: ts2 ∧ Status t0 = 0%Z ∧ Forall (λ t, Status t ≠ 0%Z) ts1 ∧
     r1 = MkGetTaskResponse (MkTask (Filename t0) (WrokerId args) now 1) ∧
     r2 = MkGetTaskResponse (MkTask (Filename t0) (WrokerId args') now' 1)).
Proof.
  unfold GetTask. split; [done|]. induction (Tasks m) as [|t ts IH]; simpl; [by left|].
  case_bool_decide as Hs; simpl; [by right; exists [], t, ts|].
  destruct IH as [(Hall & IH)|(ts1 & t0 & ts2 & -> & Ht0 & Hts1 & IH)].
  - left. split; [by constructor|done].
  - right. exists (t :: ts1), t0, ts2. split_and!; [done|done|by constructor|apply IH..].
Qed.

Lemma MakeMaster_loop_tasks (files : list string) (acc : list Task) :
  MakeMaster_loop files acc = acc ++ ((λ f, MkTask f "" 0 0) <$> files).
Proof.
  revert acc. induction files as [|f fs IH]; intros acc; simpl; [by rewrite app_nil_r|].
  rewrite IH. by rewrite <-(assoc_L (++)).
Qed.

Definition sound_read (nread : nat → nat → option nat) : Prop :=
  ∀ k r, (0 < r)%nat → ∃ n, nread k r = Some n ∧ (1 ≤ n ≤ Nat.min chunkSize r)%nat.

Lemma split_loop_spec (nread : nat → nat → option nat) (fuel k : nat) (rest : list ascii) (res : list (list ascii)) :
  sound_read nread → (length rest < fuel)%nat →
  ∃ chunks, split_loop nread fuel k rest res = Ret (res ++ chunks) ∧
    concat chunks = replicate (length rest) Ascii.zero ∧
    Forall (λ c, 1 ≤ length c ≤ chunkSize)%nat chunks.
Proof.
  intros Hread. revert k rest res. induction fuel as [|fuel IH]; intros k rest res Hf; [lia|]. simpl.
  case_bool_decide as Hrest; [by exists []; rewrite app_nil_r, Hrest|].
  assert (0 < length rest)%nat as Hpos by (destruct rest; simpl; [done|lia]).
  destruct (Hread k (length rest) Hpos) as (n & -> & Hn). simpl.
  rewrite (take_ge (replicate n _)) by (by rewrite length_replicate).
  destruct (IH (S k) (drop n rest) (res ++ [replicate n Ascii.zero])) as (chunks & -> & Hc & Hall).
  { rewrite length_drop. lia. }
  exists (replicate n Ascii.zero :: chunks). split; [by rewrite <-(assoc_L (++))|]. split.
  - simpl. rewrite Hc, length_drop, <-replicate_add. f_equal. lia.
  - constructor; [|done]. rewrite length_replicate. lia.
Qed.

(** C37: however many bytes each read returns, [split] ends, and its chunks
    have the length of the file, each 1 to 16384 bytes; but all their bytes
    are zero, so files of the same length are split alike. *)
Theorem split_zeroes (nread : nat → nat → option nat) (bytes : list ascii) :
  sound_read nread →
  ∃ chunks, split nread (Ret bytes) = Ret chunks ∧
    concat chunks = replicate (length bytes) Ascii.zero ∧
    Forall (λ c, 1 ≤ length c ≤ chunkSize)%nat chunks.
Proof.
  intros Hread. unfold split. simpl obind.
  destruct (split_loop_spec nread (S (length bytes)) 0 bytes [] Hread) as (chunks & Hs & Hc & Hall); [lia|].
  by exists chunks.
Qed.

Lemma split_zeroes_witness :
  ∃ chunks, split (λ _ r, Some (Nat.min chunkSize r)) (Ret ["a"; "b"; "c"]%char) = Ret chunks ∧
    concat chunks = [Ascii.zero; Ascii.zero; Ascii.zero].
Proof.
  destruct (split_zeroes (λ _ r, Some (Nat.min chunkSize r)) ["a"; "b"; "c"]%char) as (chunks & Hs & Hc & _).
  - intros _ r Hr. eexists. split; [done|]. unfold chunkSize. lia.
  - exists chunks. split; [exact Hs|exact Hc].
Defined.
