(* ===== verification/MrWorker.v ===== *)
(** * The worker of the MapReduce draft, and the programs (mr/worker.go, main/)

    The remote calls of the worker to the master over package net/rpc, the
    worker up to its intermediate file, mrworker and mrmaster.  Here: the
    intermediate file reads back as the sorted pairs; a worker is registered,
    but gets no task, since it asks for a method that the master does not
    have; and mrmaster never ends. *)
From Stdlib Require Import Ascii NArith.
From stdpp Require Import base gmap sets numbers strings pretty sorting list.
From S2P Require Import Prelude Strconv Json Model MapReduce MapReduceProof MrApps Mr.
Local Open Scope go_scope.

(** ** What goes over the connection

    The master serves its exported methods, under the name of its type.  What
    the interface values [args] and [reply] of a call hold, by their types. *)
Inductive rpc_args :=
| AExample (args : ExampleArgs)
| ARegisterWorker (args : RegisterWorkerRequest)
| AGetTask (args : GetTaskRequest).

Inductive rpc_reply :=
| RExample (reply : ExampleReply)
| RRegisterWorker (reply : RegisterWorkerResponse)
| RGetTask (reply : GetTaskResponse).

Definition rpc_error : option string := Some "rpc: can't find method".

Definition Master_serve (now : Z) (rpcname : string) (args : rpc_args) (reply : rpc_reply) (m : Master)
    : Master * (rpc_reply * option string) :=
  if bool_decide (rpcname = "Master.Example") then
    match args, reply with
    | AExample a, RExample r => let '(m, r) := Example_handler m a r in (m, (RExample r, None))
    | _, _ => (m, (reply, rpc_error))
    end
  else if bool_decide (rpcname = "Master.RegisterWorker") then
    match args, reply with
    | ARegisterWorker a, RRegisterWorker r => let '(m, r) := RegisterWorker m a r now in (m, (RRegisterWorker r, None))
    | _, _ => (m, (reply, rpc_error))
    end
  else if bool_decide (rpcname = "Master.GetTask") then
    match args, reply with
    | AGetTask a, RGetTask r => let '(m, r) := GetTask m a r now in (m, (RGetTask r, None))
    | _, _ => (m, (reply, rpc_error))
    end
  else (m, (reply, rpc_error)).

(** ** The worker *)
Section worker.
Context {W Conn : Type}.
(** [rpc.DialHTTP] and the client's [Call], on the world [W]. *)
Context (DialHTTP : string → string → W → option Conn).
Context (client_Call : Conn → string → rpc_args → rpc_reply → W → W * (rpc_reply * option string)).
Context (uid : Z).

(** [call]: that it cannot dial is fatal; an error of the call is printed. *)
Definition call (rpcname : string) (args : rpc_args) (reply : rpc_reply) (w : W) : outcome (W * (rpc_reply * bool)) :=
  let sockname := masterSock uid in
  let! c := or_panic (DialHTTP "unix" sockname w) in
  let '(w, (reply, err)) := client_Call c rpcname args reply w in
  Ret (w, (reply, bool_decide (err = None))).

(** [register] and [getTask] look at the reply, whatever [call] returned. *)
Definition register (host : string) (w : W) : outcome (W * string) :=
  let args := MkRegisterWorkerRequest host 0 in
  let reply := MkRegisterWorkerResponse "" in
  let! ' (w, (reply, _)) := call "Master.RegisterWorker" (ARegisterWorker args) (RRegisterWorker reply) w in
  Ret (w, match reply with RRegisterWorker r => rsp_WorkerId r | _ => "" end).

Definition zero_task : Task := MkTask "" "" 0 0.

Definition getTask (wrokerId : string) (w : W) : outcome (W * Task) :=
  let args := MkGetTaskRequest wrokerId in
  let reply := MkGetTaskResponse zero_task in
  let! ' (w, (reply, _)) := call "Master.getTask" (AGetTask args) (RGetTask reply) w in
  Ret (w, match reply with RGetTask r => TaskInfo r | _ => zero_task end).

(** [readFile]: an error is fatal. *)
Definition readFile (open_read : string → outcome string) (filename : string) : outcome string := open_read filename.

(** The JSON of a pair, and the loop that writes the pairs, one line each. *)
Definition KeyValue_ToJson : ToJson KeyValue := λ kv,
  JObj [("Key", to_json (Key kv)); ("Value", to_json (Value kv))].
#[export] Existing Instance KeyValue_ToJson.

Definition Encode (kv : KeyValue) : string := Marshal (to_json kv) +:+ String newline_char "".

Fixpoint encode_all (mapRes : list KeyValue) (intermediateFile : string) : string :=
  match mapRes with
  | [] => intermediateFile
  | kv :: mapRes' => encode_all mapRes' (intermediateFile +:+ Encode kv)
  end.

(** [Worker]: the name and the content of its intermediate file. *)
Definition Worker `{GoSort} (open_read : string → outcome string) (mapf : string → string → outcome (list KeyValue))
    (host : string) (w : W) : outcome (W * (string * string)) :=
  let! ' (w, WorkerId) := register host w in
  let! ' (w, task) := getTask WorkerId w in
  let! content := readFile open_read (Filename task) in
  let! mapRes := mapf (Filename task) content in
  let mapRes := sort_Sort ByKey_Less mapRes in
  let oname := "mr-X-Y" in
  let intermediateFile := encode_all mapRes "" in
  Ret (w, (oname, intermediateFile)).

(** ** The programs *)

(** [loadPlugin] of mrworker has the text of mrsequential's. *)
Definition mrworker_loadPlugin {H : Type} (plugin_open : string → option H) (plugin_lookup : H → string → option symbol) :
    string → outcome (map_fun * reduce_fun) := loadPlugin plugin_open plugin_lookup.

Definition mrworker_main {H : Type} `{GoSort} (plugin_open : string → option H)
    (plugin_lookup : H → string → option symbol) (open_read : string → outcome string) (host : string)
    (Args : list string) (w : W) : outcome (W * (string * string)) :=
  if bool_decide (length Args ≠ 2) then Panic
  else
    let! so := or_panic (Args !! 1) in
    let! ' (mapf, _reducef) := mrworker_loadPlugin plugin_open plugin_lookup so in
    Worker open_read mapf host w.
End worker.

(** The loop of mrmaster: [seconds] that it sleeps at most. *)
Fixpoint mrmaster_loop (seconds : nat) (m : Master) : outcome Master :=
  match seconds with
  | 0 => NoFuel
  | S seconds' => if bool_decide (Done m = false) then mrmaster_loop seconds' m else Ret m
  end.

Definition mrmaster_main {FS L : Type} (Remove : string → FS → FS) (Listen : string → string → FS → option (FS * L))
    (uid : Z) (seconds : nat) (Args : list string) (fs : FS) : outcome Master :=
  if bool_decide (length Args < 2) then Panic
  else
    let! ' (m, _) := MakeMaster Remove Listen uid (drop 1 Args) 10 fs in
    mrmaster_loop seconds m.

(** ** Theorems *)

(** The master's program runs forever, since [Done] is always false. *)
Lemma mrmaster_never_ends {FS L : Type} (Remove : string → FS → FS) (Listen : string → string → FS → option (FS * L))
    (uid : Z) (seconds : nat) (Args : list string) (fs : FS) :
  2 ≤ length Args → is_Some (Listen "unix" (masterSock uid) (Remove (masterSock uid) fs)) →
  mrmaster_main Remove Listen uid seconds Args fs = NoFuel.
Proof.
  intros Hlen [l Hl]. unfold mrmaster_main, MakeMaster, server. rewrite bool_decide_eq_false_2 by lia. rewrite Hl. simpl.
  induction seconds as [|seconds IH]; [done|exact IH].
Qed.

(** The records of an intermediate file, by a JSON reader; [n] lines. *)
Fixpoint read_lines (fuel n : nat) (s : string) : option (list json) :=
  match n with
  | 0 => if bool_decide (s = "") then Some [] else None
  | S n' => p ← parse fuel s; s' ← expect newline_char (snd p); l ← read_lines fuel n' s'; Some (fst p :: l)
  end.

Lemma encode_all_app (kvs : list KeyValue) (file : string) : encode_all kvs file = file +:+ encode_all kvs "".
Proof.
  revert file. induction kvs as [|kv kvs IH]; intros file; simpl; [by rewrite append_nil|].
  rewrite IH, (IH ("" +:+ Encode kv)). by rewrite append_assoc.
Qed.

Lemma intermediate_file_reads_back (kvs : list KeyValue) (fuel : nat) :
  5 ≤ fuel → read_lines fuel (length kvs) (encode_all kvs "") = Some ((λ kv, coerced_json (to_json kv)) <$> kvs).
Proof.
  intros Hf. induction kvs as [|kv kvs IH]; [done|]. cbn [length encode_all read_lines].
  rewrite encode_all_app, append_empty. unfold Encode. rewrite append_assoc, append_cons, append_empty.
  rewrite parse_Marshal by (done || (simpl; lia)). rewrite bind_Some. cbn [fst snd]. rewrite expect_first, bind_Some, IH.
  done.
Qed.

(** *** A worker that talks to the master *)
Section with_master.
Context {Conn : Type} (conn : Conn) (uid now : Z).

(** The master's socket can be dialled, and the calls are served. *)
Definition dials (network addr : string) (m : Master) : option Conn := Some conn.
Definition serves (c : Conn) (rpcname : string) (args : rpc_args) (reply : rpc_reply) (m : Master) :=
  Master_serve now rpcname args reply m.

(** The master after a worker at [host] registered. *)
Definition registered (host : string) (m : Master) : Master :=
  fst (RegisterWorker m (MkRegisterWorkerRequest host 0) (MkRegisterWorkerResponse "") now).

Lemma register_ok (host : string) (m : Master) :
  ∃ id, register dials serves uid host m = Ret (registered host m, id) ∧ ∃ w, Workers (registered host m) = Workers m ++ [w] ∧ Id w = id.
Proof. eexists. split; [reflexivity|]. by eexists. Qed.

(** No method has the name that [getTask] calls. *)
Lemma getTask_none (id : string) (m : Master) : getTask dials serves uid id m = Ret (m, zero_task).
Proof. reflexivity. Qed.
End with_master.

(** C40: the worker of the draft is registered but never gets a task: its
    call names a method that the master does not export, the error is
    ignored, and the worker goes on with the zero task.  So, whatever tasks
    the master has, they stay as they are, and the worker maps the file with
    the empty name.  When that cannot be opened, it dies; otherwise its
    intermediate file, read as JSON line by line, gives the pairs of the map
    function, each once and in the order of the keys (bytes that are no
    UTF-8 replaced). *)
Theorem worker_gets_no_task {Conn : Type} `{GoSort} (conn : Conn) (uid now : Z) (open_read : string → outcome string)
    (mapf : string → string → outcome (list KeyValue)) (host : string) (m : Master) :
  let m' := registered now host m in
  let worker := Worker (dials conn) (serves now) uid open_read mapf host m in
  Tasks m' = Tasks m ∧ (∃ w, Workers m' = Workers m ++ [w] ∧ Hostname w = host) ∧
  (open_read "" = Panic → worker = Panic) ∧
  ∀ content kvs, open_read "" = Ret content → mapf "" content = Ret kvs →
    ∃ sorted file, worker = Ret (m', ("mr-X-Y", file)) ∧ sorted ≡ₚ kvs ∧ key_sorted sorted ∧
      read_lines 5 (length kvs) file = Some ((λ kv, coerced_json (to_json kv)) <$> sorted).
Proof.
  intros m' worker. split; [done|]. split; [by eexists|].
  assert (worker = let! content := open_read "" in let! kvs := mapf "" content in
    Ret (m', ("mr-X-Y", encode_all (sort_Sort ByKey_Less kvs) ""))) as ->.
  { unfold worker, Worker. destruct (register_ok conn uid now host m) as (id & -> & _).
    by rewrite obind_Ret, getTask_none, obind_Ret. }
  split; [by intros ->|]. intros content kvs -> Hk. simpl. rewrite Hk. simpl.
  exists (sort_Sort ByKey_Less kvs), (encode_all (sort_Sort ByKey_Less kvs) "").
  pose proof (sort_Sort_perm ByKey_Less kvs) as Hp.
  rewrite <-(Permutation_length Hp), intermediate_file_reads_back by lia.
  split_and!; [done..|exact Hp|apply sort_ByKey_sorted|done].
Qed.

Lemma worker_gets_no_task_witness :
  let m := MkMaster [] [MkTask "pg.txt" "" 0 0] in
  let mapf f c := Ret [MkKeyValue "b" c; MkKeyValue "a" f] in
  Worker (W := Master) (dials tt) (serves 5) 7 (λ f, if bool_decide (f = "") then Panic else Ret "x")
    mapf "host" m (H := merge_sort_GoSort) = Panic ∧
  ∃ sorted file, Worker (W := Master) (dials tt) (serves 5) 7 Ret mapf "host" m (H := merge_sort_GoSort) =
      Ret (registered 5 "host" m, ("mr-X-Y", file)) ∧
    sorted ≡ₚ [MkKeyValue "b" ""; MkKeyValue "a" ""] ∧ key_sorted sorted ∧
    read_lines 5 2 file = Some ((λ kv, coerced_json (to_json kv)) <$> sorted).
Proof.
  intros m mapf. split.
  - apply (worker_gets_no_task (H := merge_sort_GoSort) tt 7 5
      (λ f, if bool_decide (f = "") then Panic else Ret "x") mapf "host" m).
    reflexivity.
  - exact (proj2 (proj2 (proj2 (worker_gets_no_task (H := merge_sort_GoSort) tt 7 5 Ret mapf "host" m))) "" _ eq_refl eq_refl).
Defined.
