(* ===== verification/Commands.v ===== *)
(** * The command line programs (main/diskvd.go, lockc.go, lockd.go, pbc.go, pbd.go, viewd.go)

    They parse their arguments and call packages (diskv, lockservice,
    pbservice, viewservice) that are not in the repository, whose functions
    are arguments here and act on a world [W].  [usage] prints and exits, which
    is [Panic]; a program that starts a server and then sleeps forever returns
    the world in which it sleeps.

    Here: the arguments that describe a configuration are parsed back to it,
    in any order, and a server starts exactly for the configurations that the
    program's test admits; what is no number counts as zero. *)
From Stdlib Require Import Ascii NArith.
From stdpp Require Import base gmap sets numbers strings pretty list.
From S2P Require Import Prelude Strconv.
Local Open Scope Z_scope.
Local Open Scope go_scope.

(** ** diskvd *)
Record diskvd_vars := MkVars {
  gid : Z;
  masters : list string;
  replicas : list string;
  me : Z;
  unreliable : bool;
  dir : string;
  restart : bool;
}.

Definition diskvd_init : diskvd_vars := MkVars (-1) [] [] (-1) false "" false.

(** One pair of arguments; the errors of the parsers are not looked at. *)
Definition diskvd_arg (a0 a1 : string) (v : diskvd_vars) : outcome diskvd_vars :=
  let '(MkVars gid masters replicas me unreliable dir restart) := v in
  if bool_decide (a0 = "-g") then
    let '(gid, _) := ParseInt a1 in Ret (MkVars gid masters replicas me unreliable dir restart)
  else if bool_decide (a0 = "-m") then Ret (MkVars gid (masters ++ [a1]) replicas me unreliable dir restart)
  else if bool_decide (a0 = "-s") then Ret (MkVars gid masters (replicas ++ [a1]) me unreliable dir restart)
  else if bool_decide (a0 = "-i") then
    let '(me, _) := Atoi a1 in Ret (MkVars gid masters replicas me unreliable dir restart)
  else if bool_decide (a0 = "-u") then
    let '(unreliable, _) := ParseBool a1 in Ret (MkVars gid masters replicas me unreliable dir restart)
  else if bool_decide (a0 = "-d") then Ret (MkVars gid masters replicas me unreliable a1 restart)
  else if bool_decide (a0 = "-r") then
    let '(restart, _) := ParseBool a1 in Ret (MkVars gid masters replicas me unreliable dir restart)
  else Panic.

(** The loop takes the arguments two by two; one that is left over is not
    looked at. *)
Fixpoint diskvd_loop (args : list string) (v : diskvd_vars) : outcome diskvd_vars :=
  match args with
  | a0 :: a1 :: args' => let! v := diskvd_arg a0 a1 v in diskvd_loop args' v
  | _ => Ret v
  end.

Definition diskvd_usage (v : diskvd_vars) : bool :=
  bool_decide (gid v < 0) || bool_decide (me v < 0) || bool_decide (zlen (masters v) < 1) ||
  bool_decide (me v >= zlen (replicas v)) || bool_decide (dir v = "").

Definition diskvd_main {W S : Type} (StartServer : Z → list string → list string → Z → string → bool → W → W * S)
    (Setunreliable : S → bool → W → W) (Args : list string) (w : W) : outcome W :=
  let! v := diskvd_loop (drop 1 Args) diskvd_init in
  if diskvd_usage v then Panic
  else
    let '(w, srv) := StartServer (gid v) (masters v) (replicas v) (me v) (dir v) (restart v) w in
    Ret (Setunreliable srv (unreliable v) w).

(** ** The clients and servers of the other services *)
Section services.
Context {W CK : Type}.

(** [ok] is printed. *)
Definition lockc_main (MakeClerk : string → string → CK) (Lock Unlock : CK → string → W → W * bool)
    (Args : list string) (w : W) : outcome (W * bool) :=
  match Args with
  | [_; flag; primary; backup; lockname] =>
      let ck := MakeClerk primary backup in
      if bool_decide (flag = "-l") then Ret (Lock ck lockname w)
      else if bool_decide (flag = "-u") then Ret (Unlock ck lockname w)
      else Panic
  | _ => Panic
  end.

Definition lockd_main (StartServer : string → string → bool → W → W) (Args : list string) (w : W) : outcome W :=
  match Args with
  | [_; flag; primary; backup] =>
      if bool_decide (flag = "-p") then Ret (StartServer primary backup true w)
      else if bool_decide (flag = "-b") then Ret (StartServer primary backup false w)
      else Panic
  | _ => Panic
  end.

(** The value read, which is printed, if the key is read. *)
Definition pbc_main (MakeClerk : string → string → CK) (Get : CK → string → W → W * string)
    (Put : CK → string → string → W → W) (Args : list string) (w : W) : outcome (W * option string) :=
  match Args with
  | [_; vshost; key] => let '(w, v) := Get (MakeClerk vshost "") key w in Ret (w, Some v)
  | [_; vshost; key; value] => Ret (Put (MakeClerk vshost "") key value w, None)
  | _ => Panic
  end.

Definition pbd_main (StartServer : string → string → W → W) (Args : list string) (w : W) : outcome W :=
  match Args with
  | [_; vshost; me] => Ret (StartServer vshost me w)
  | _ => Panic
  end.

Definition viewd_main (StartServer : string → W → W) (Args : list string) (w : W) : outcome W :=
  match Args with
  | [_; me] => Ret (StartServer me w)
  | _ => Panic
  end.
End services.

(** ** What the arguments of diskvd say *)

(** The flags, and the arguments that the tester makes of them. *)
Inductive flag :=
| FGid (z : Z)
| FMaster (port : string)
| FReplica (port : string)
| FMe (i : Z)
| FUnreliable (b : bool)
| FDir (d : string)
| FRestart (b : bool).

Definition FormatBool (b : bool) : string := if b then "true" else "false".

Definition flag_args (f : flag) : list string :=
  match f with
  | FGid z => ["-g"; Itoa z]
  | FMaster port => ["-m"; port]
  | FReplica port => ["-s"; port]
  | FMe i => ["-i"; Itoa i]
  | FUnreliable b => ["-u"; FormatBool b]
  | FDir d => ["-d"; d]
  | FRestart b => ["-r"; FormatBool b]
  end.

Definition set_flag (v : diskvd_vars) (f : flag) : diskvd_vars :=
  let '(MkVars gid masters replicas me unreliable dir restart) := v in
  match f with
  | FGid z => MkVars z masters replicas me unreliable dir restart
  | FMaster port => MkVars gid (masters ++ [port]) replicas me unreliable dir restart
  | FReplica port => MkVars gid masters (replicas ++ [port]) me unreliable dir restart
  | FMe i => MkVars gid masters replicas i unreliable dir restart
  | FUnreliable b => MkVars gid masters replicas me b dir restart
  | FDir d => MkVars gid masters replicas me unreliable d restart
  | FRestart b => MkVars gid masters replicas me unreliable dir b
  end.

(** Numbers are 64-bit. *)
Definition flag_fits (f : flag) : Prop :=
  match f with FGid z | FMe z => - 2 ^ 63 ≤ z < 2 ^ 63 | _ => True end.

#[export] Instance flag_fits_dec (f : flag) : Decision (flag_fits f).
Proof. destruct f; apply _. Defined.

Lemma diskvd_arg_flag (f : flag) (v : diskvd_vars) (rest : list string) :
  flag_fits f → diskvd_loop (flag_args f ++ rest) v = diskvd_loop rest (set_flag v f).
Proof.
  intros Hf. destruct v as [g ms rs i u d r], f as [z|port|port|z|b|d'|b]; simpl in *;
    unfold Atoi; rewrite ?ParseInt_Itoa by done; try done; by destruct b.
Qed.

Lemma diskvd_loop_flags (fs : list flag) (v : diskvd_vars) :
  Forall flag_fits fs → diskvd_loop (concat (flag_args <$> fs)) v = Ret (foldl set_flag v fs).
Proof.
  intros Hfs. revert v. induction Hfs as [|f fs Hf _ IH]; intros v; [done|]. csimpl.
  by rewrite diskvd_arg_flag, IH.
Qed.

Definition diskvd_admits (v : diskvd_vars) : Prop :=
  0 ≤ gid v ∧ 0 ≤ me v < zlen (replicas v) ∧ masters v ≠ [] ∧ dir v ≠ "".

Lemma diskvd_usage_false (v : diskvd_vars) : diskvd_usage v = false ↔ diskvd_admits v.
Proof.
  unfold diskvd_usage, diskvd_admits. rewrite !orb_false_iff, !bool_decide_eq_false.
  assert (¬ zlen (masters v) < 1 ↔ masters v ≠ []) as ->; [|naive_solver lia].
  destruct (masters v); simpl; [naive_solver lia|]. split; [done|lia].
Qed.

(** C39: the arguments of diskvd are parsed back: given the arguments of any
    sequence of flags, it starts its server exactly when the values that the
    flags set last (and the ports that they list, in order) are admitted, with
    just these values, and otherwise shows its usage and starts nothing; a
    trailing argument is ignored. *)
Theorem diskvd_parses {W S : Type} (StartServer : Z → list string → list string → Z → string → bool → W → W * S)
    (Setunreliable : S → bool → W → W) (prog : string) (fs : list flag) (w : W) :
  Forall flag_fits fs →
  let v := foldl set_flag diskvd_init fs in
  (diskvd_admits v →
    diskvd_main StartServer Setunreliable (prog :: concat (flag_args <$> fs)) w =
    Ret (let '(w, srv) := StartServer (gid v) (masters v) (replicas v) (me v) (dir v) (restart v) w in
         Setunreliable srv (unreliable v) w)) ∧
  (¬ diskvd_admits v → diskvd_main StartServer Setunreliable (prog :: concat (flag_args <$> fs)) w = Panic).
Proof.
  intros Hfs v. unfold diskvd_main. change (drop 1 (prog :: ?l)) with l. rewrite diskvd_loop_flags by done. fold v. simpl obind.
  rewrite <-diskvd_usage_false. split; intros Hv.
  - rewrite Hv. by destruct (StartServer _ _ _ _ _ _ _).
  - by destruct (diskvd_usage v).
Qed.

Definition demo_flags : list flag :=
  [FGid 100; FMaster "m0"; FMaster "m1"; FReplica "s0"; FReplica "s1"; FMe 1; FUnreliable true; FDir "/tmp/d"; FRestart false].

Lemma diskvd_parses_witness :
  diskvd_main (λ gid ms rs me dir restart _, ((gid, ms, rs, me, dir, restart, false), tt))
    (λ _ b w, let '(x, _) := w in (x, b)) ("diskvd" :: concat (flag_args <$> demo_flags)) (0, [], [], 0, "", false, false) =
  Ret (100, ["m0"; "m1"], ["s0"; "s1"], 1, "/tmp/d", false, true).
Proof.
  apply (diskvd_parses (λ gid ms rs me dir restart _, ((gid, ms, rs, me, dir, restart, false), tt))
    (λ _ b w, let '(x, _) := w in (x, b)) "diskvd" demo_flags (0, [], [], 0, "", false, false)).
  - apply (bool_decide_unpack _). vm_compute. exact I.
  - split; [vm_compute; discriminate|]. split; [split; [vm_compute; discriminate|reflexivity]|]. split; discriminate.
Defined.

(** what is no number counts as zero: diskvd given a group id and an index
    that do not parse starts the server 0 of group 0, although its test of the
    two was meant to refuse them. *)
Theorem diskvd_takes_no_number_for_zero {W S : Type}
    (StartServer : Z → list string → list string → Z → string → bool → W → W * S)
    (Setunreliable : S → bool → W → W) (prog g i m s d : string) (zg zi : Z) (w : W) :
  ParseInt g = (zg, Some ErrSyntax) → Atoi i = (zi, Some ErrSyntax) → d ≠ "" →
  diskvd_main StartServer Setunreliable [prog; "-g"; g; "-m"; m; "-s"; s; "-i"; i; "-d"; d] w =
  Ret (let '(w, srv) := StartServer 0 [m] [s] 0 d false w in Setunreliable srv false w).
Proof.
  intros Hg Hi Hd. pose proof (ParseInt_syntax g zg Hg) as ->. pose proof (ParseInt_syntax i zi Hi) as ->.
  unfold diskvd_main. simpl. rewrite Hg. simpl. rewrite Hi. simpl.
  assert (diskvd_usage (MkVars 0 [m] [s] 0 false d false) = false) as Hv by (by apply diskvd_usage_false; split_and!).
  rewrite Hv. simpl. by destruct (StartServer _ _ _ _ _ _ _).
Qed.

Lemma diskvd_takes_no_number_for_zero_witness :
  diskvd_main (λ gid ms rs me dir restart _, ((gid, me), tt)) (λ _ _ w, w)
    ["diskvd"; "-g"; "x"; "-m"; "m0"; "-s"; "s0"; "-i"; "y"; "-d"; "/tmp/d"] (5, 5) = Ret (0, 0).
Proof.
  apply (diskvd_takes_no_number_for_zero (λ gid ms rs me dir restart _, ((gid, me), tt)) (λ _ _ w, w)
    "diskvd" "x" "y" "m0" "s0" "/tmp/d" 0 0 (5, 5)); [reflexivity|reflexivity|discriminate].
Defined.
