(* ===== verification/Raft.v ===== *)
(** * Persister and the Raft peer (raft/persister.go, raft/raft.go)

    Persisters are shared by pointer between a peer and the test harness, so
    they live in a heap.  The peer is the lab's skeleton: its state is what
    [Make] sets, its handlers are empty, and what it answers is what the
    skeleton answers. *)
From stdpp Require Import base gmap sets numbers strings sorting list.
From S2P Require Import Prelude Labrpc.
Local Open Scope Z_scope.
Local Open Scope go_scope.

(** ** Persister *)
Abbreviation ploc := nat.

Record persister := MkPersisterState {
  ps_raftstate : bytes;
  ps_snapshot : bytes;
}.

Abbreviation pheap := (gmap ploc persister).

Section persister.
Implicit Types (H : pheap) (ps : ploc) (state snapshot : bytes).

Definition new_persister H (p : persister) : pheap * ploc := (<[fresh (dom H) := p]> H, fresh (dom H)).

Definition MakePersister H : pheap * ploc := new_persister H (MkPersisterState [] []).

(** The copy shares the byte slices, which nobody writes in place. *)
Definition Copy H ps : outcome (pheap * ploc) :=
  let! p := or_panic (H !! ps) in
  let '(H, np) := MakePersister H in
  Ret (<[np := MkPersisterState (ps_raftstate p) (ps_snapshot p)]> H, np).

Definition SaveRaftState H ps state : outcome pheap :=
  let! p := or_panic (H !! ps) in
  Ret (<[ps := MkPersisterState state (ps_snapshot p)]> H).

Definition ReadRaftState H ps : outcome bytes :=
  let! p := or_panic (H !! ps) in Ret (ps_raftstate p).

Definition RaftStateSize H ps : outcome Z :=
  let! p := or_panic (H !! ps) in Ret (zlen (ps_raftstate p)).

Definition SaveStateAndSnapshot H ps state snapshot : outcome pheap :=
  let! p := or_panic (H !! ps) in
  Ret (<[ps := MkPersisterState state snapshot]> H).

Definition ReadSnapshot H ps : outcome bytes :=
  let! p := or_panic (H !! ps) in Ret (ps_snapshot p).

Definition SnapshotSize H ps : outcome Z :=
  let! p := or_panic (H !! ps) in Ret (zlen (ps_snapshot p)).

End persister.

(** ** util.go *)
Definition Debug : Z := 0.

(** The line is logged if debugging is on, which it is not. *)
Definition DPrintf (line : string) (out : list string) : list string := if bool_decide (Debug > 0) then out ++ [line] else out.

(** ** The peer *)
Record ApplyMsg (V : Type) := MkApplyMsg {
  CommandValid : bool;
  Command : V;
  CommandIndex : Z;
}.
Arguments MkApplyMsg {V} _ _ _.
Arguments CommandValid {V} _.
Arguments Command {V} _.
Arguments CommandIndex {V} _.

Record Raft := MkRaft {
  rf_peers : list string;      (* the names of the ends *)
  rf_persister : ploc;
  rf_me : Z;
  rf_dead : Z;                 (* set by Kill() *)
}.

Definition GetState (rf : Raft) : Z * bool := (0, false).

Definition persist (rf : Raft) (H : pheap) : outcome pheap := Ret H.

Definition readPersist (rf : Raft) (data : bytes) : Raft := rf.

Record RequestVoteArgs := MkRequestVoteArgs {}.
Record RequestVoteReply := MkRequestVoteReply {}.

Definition RequestVote (rf : Raft) (args : RequestVoteArgs) (reply : RequestVoteReply)
    : Raft * RequestVoteReply := (rf, reply).

(** [call]: what [Call] on an end answers, and what it leaves in the reply. *)
Definition sendRequestVote (call : string → string → RequestVoteArgs → RequestVoteReply → bool * RequestVoteReply)
    (rf : Raft) (server : Z) (args : RequestVoteArgs) (reply : RequestVoteReply)
    : outcome (bool * RequestVoteReply) :=
  let! e := slice_get (rf_peers rf) server in
  Ret (call e "Raft.RequestVote" args reply).

Definition Raft_Start {V : Type} (rf : Raft) (command : V) : Z * Z * bool := (-1, -1, true).

Definition Raft_Kill (rf : Raft) : Raft := MkRaft (rf_peers rf) (rf_persister rf) (rf_me rf) 1.

(** Peers are shared by pointer too: between the harness and the services
    made of them. *)
Abbreviation rloc := nat.
Abbreviation rheap := (gmap rloc Raft).

Definition new_raft (P : rheap) (rf : Raft) : rheap * rloc := (<[fresh (dom P) := rf]> P, fresh (dom P)).

(** [rf.Kill()] through a pointer. *)
Definition Raft_KillAt (P : rheap) (l : rloc) : outcome rheap :=
  let! rf := or_panic (P !! l) in Ret (<[l := Raft_Kill rf]> P).

Definition Raft_killed (rf : Raft) : bool := bool_decide (rf_dead rf = 1).

Definition Raft_Make (H : pheap) (peers : list string) (me : Z) (ps : ploc) : outcome Raft :=
  let rf := MkRaft peers ps me 0 in
  let! data := ReadRaftState H ps in
  Ret (readPersist rf data).

(** ** Persister lemmas *)
Section persister_lemmas.
Implicit Types (H : pheap) (ps : ploc).

Lemma fresh_persister H : H !! fresh (dom H) = None.
Proof. apply not_elem_of_dom, is_fresh. Qed.

Lemma Copy_spec H ps p :
  H !! ps = Some p →
  ∃ H' np, Copy H ps = Ret (H', np) ∧ H !! np = None ∧ H' = <[np := p]> H.
Proof.
  intros Hp. unfold Copy, MakePersister, new_persister. rewrite Hp. simpl.
  eexists _, _. split; [done|]. split; [apply fresh_persister|].
  rewrite insert_insert_eq. by destruct p.
Qed.

End persister_lemmas.

(** what is saved is what is read, together or apart; a save leaves the
    other half, and every other persister, alone; a copy has the same
    contents, and from then on neither sees what is saved in the other. *)
Theorem persister_roundtrip (H : pheap) (ps : ploc) (p : persister) (state snapshot : bytes) :
  H !! ps = Some p →
  (∃ H1, SaveRaftState H ps state = Ret H1 ∧ ReadRaftState H1 ps = Ret state ∧
    ReadSnapshot H1 ps = Ret (ps_snapshot p) ∧ RaftStateSize H1 ps = Ret (zlen state) ∧
    ∀ q, q ≠ ps → H1 !! q = H !! q) ∧
  (∃ H2, SaveStateAndSnapshot H ps state snapshot = Ret H2 ∧ ReadRaftState H2 ps = Ret state ∧
    ReadSnapshot H2 ps = Ret snapshot ∧ SnapshotSize H2 ps = Ret (zlen snapshot) ∧
    ∀ q, q ≠ ps → H2 !! q = H !! q) ∧
  (∃ H3 np, Copy H ps = Ret (H3, np) ∧ H3 !! np = Some p ∧ H3 !! ps = Some p ∧
    ∃ H4, SaveStateAndSnapshot H3 ps state snapshot = Ret H4 ∧
      ReadRaftState H4 np = Ret (ps_raftstate p) ∧ ReadSnapshot H4 np = Ret (ps_snapshot p)).
Proof.
  intros Hp. unfold SaveRaftState, SaveStateAndSnapshot, ReadRaftState, ReadSnapshot,
    RaftStateSize, SnapshotSize. rewrite Hp. simpl. split_and!.
  - eexists. rewrite lookup_insert_eq. simpl. split_and!; try done.
    intros q Hq. by rewrite lookup_insert_ne.
  - eexists. rewrite lookup_insert_eq. simpl. split_and!; try done.
    intros q Hq. by rewrite lookup_insert_ne.
  - destruct (Copy_spec H ps p Hp) as (H3 & np & -> & Hnp & ->).
    assert (np ≠ ps) as Hne by congruence.
    eexists _, np. split; [done|]. rewrite lookup_insert_eq, lookup_insert_ne, Hp by done. simpl.
    split_and!; [done|done|]. eexists. split; [done|].
    rewrite lookup_insert_ne, lookup_insert_eq by done. done.
Qed.

Lemma persister_roundtrip_witness :
  ∃ H1, SaveRaftState {[7%nat := MkPersisterState [] [Byte.x02]]} 7 [Byte.x01] = Ret H1 ∧
    ReadRaftState H1 7 = Ret [Byte.x01] ∧ ReadSnapshot H1 7 = Ret [Byte.x02].
Proof.
  destruct (persister_roundtrip {[7%nat := MkPersisterState [] [Byte.x02]]} 7
    (MkPersisterState [] [Byte.x02]) [Byte.x01] []
    (lookup_singleton_eq 7%nat _)) as ((H1 & Hs & Hr & Hsn & _) & _).
  exists H1. split; [exact Hs|]. split; [exact Hr|exact Hsn].
Defined.
