(* ===== verification/RaftServer.v ===== *)
(** * Servers that run a Raft peer: the interface the harnesses rely on

    kvraft's [KVServer] and shardmaster's [ShardMaster] are started with the
    ends of their group, their index and a persister, own one Raft peer, and
    are killed together with it.  Two harnesses are written once against this
    interface. *)
From stdpp Require Import base gmap sets numbers strings sorting list.
From S2P Require Import Prelude Labrpc Raft.
Local Open Scope Z_scope.
Local Open Scope go_scope.

Class RaftServer (S : Type) := {
  rs_start : rheap → pheap → list string → Z → ploc → Z → outcome (rheap * S);
  rs_kill : rheap → S → outcome (rheap * S);
  rs_rf : S → rloc;
  rs_persister_in : ∀ P H servers me ps mrs, is_Some (H !! ps) → returns (rs_start P H servers me ps mrs);
  rs_start_new : ∀ P H servers me ps mrs P' s, rs_start P H servers me ps mrs = Ret (P', s) →
    P !! rs_rf s = None ∧ P' = <[rs_rf s := MkRaft servers ps me 0]> P;
  rs_kill_rf : ∀ P s rf, P !! rs_rf s = Some rf →
    ∃ s', rs_kill P s = Ret (<[rs_rf s := Raft_Kill rf]> P, s') ∧ rs_rf s' = rs_rf s;
}.

(** What the laws rest on. *)
Lemma Raft_Make_Ret (H : pheap) (servers : list string) (me : Z) (ps : ploc) :
  is_Some (H !! ps) → Raft_Make H servers me ps = Ret (MkRaft servers ps me 0).
Proof. intros [p Hp]. unfold Raft_Make, ReadRaftState. by rewrite Hp. Qed.

Lemma Raft_Make_inv (H : pheap) (servers : list string) (me : Z) (ps : ploc) rf :
  Raft_Make H servers me ps = Ret rf → rf = MkRaft servers ps me 0.
Proof. unfold Raft_Make. destruct (ReadRaftState H ps); simpl; [by intros [= <-]|done..]. Qed.

Lemma fresh_raft (P : rheap) : P !! fresh (dom P) = None.
Proof. apply not_elem_of_dom, is_fresh. Qed.
