(* ===== verification/Kvraft.v ===== *)
(** * kvraft: the key/value server and its clerk (kvraft/)

    The lab's skeleton: handlers and clerk methods without a body, the server
    with its Raft peer and its [dead] flag. *)
From stdpp Require Import base gmap sets numbers strings sorting list.
From S2P Require Import Prelude Labrpc Raft RaftServer.
From S2P Require Random.
Local Open Scope Z_scope.
Local Open Scope go_scope.

(** ** common.go *)
Definition OK : string := "OK".
Definition ErrNoKey : string := "ErrNoKey".
Definition ErrWrongLeader : string := "ErrWrongLeader".

Record PutAppendArgs := MkPutAppendArgs {
  pa_Key : string;
  pa_Value : string;
  pa_Op : string;
}.
Record PutAppendReply := MkPutAppendReply { par_Err : string }.
Record GetArgs := MkGetArgs { ga_Key : string }.
Record GetReply := MkGetReply {
  gr_Err : string;
  gr_Value : string;
}.

(** ** server.go *)

(** [DPrintf] has the text of raft's. *)
Definition Debug : Z := 0.
Definition DPrintf (line : string) (out : list string) : list string := if bool_decide (Debug > 0) then out ++ [line] else out.

Record KVServer := MkKVServer {
  kv_me : Z;
  kv_rf : rloc;
  kv_dead : Z;
  kv_maxraftstate : Z;
}.

Definition KVServer_Get (kv : KVServer) (args : GetArgs) (reply : GetReply) : KVServer * GetReply := (kv, reply).
Definition KVServer_PutAppend (kv : KVServer) (args : PutAppendArgs) (reply : PutAppendReply)
    : KVServer * PutAppendReply := (kv, reply).

Definition KVServer_Kill (P : rheap) (kv : KVServer) : outcome (rheap * KVServer) :=
  let kv := MkKVServer (kv_me kv) (kv_rf kv) 1 (kv_maxraftstate kv) in
  let! P := Raft_KillAt P (kv_rf kv) in
  Ret (P, kv).

Definition KVServer_killed (kv : KVServer) : bool := bool_decide (kv_dead kv = 1).

Definition StartKVServer (P : rheap) (H : pheap) (servers : list string) (me : Z) (ps : ploc)
    (maxraftstate : Z) : outcome (rheap * KVServer) :=
  let! rf := Raft_Make H servers me ps in
  let '(P, rl) := new_raft P rf in
  Ret (P, MkKVServer me rl 0 maxraftstate).

#[export] Program Instance KVServer_RaftServer : RaftServer KVServer := {|
  rs_start := StartKVServer;
  rs_kill := KVServer_Kill;
  rs_rf := kv_rf;
|}.
Next Obligation. intros P H servers me ps mrs Hp. unfold StartKVServer. rewrite Raft_Make_Ret by done. by eexists. Qed.
Next Obligation.
  intros P H servers me ps mrs P' s. unfold StartKVServer. destruct (Raft_Make _ _ _ _) as [rf| |] eqn:Hrf; [|done..].
  apply Raft_Make_inv in Hrf as ->. intros [= <- <-]. split; [apply fresh_raft|done].
Qed.
Next Obligation.
  intros P s rf Hrf. unfold KVServer_Kill, Raft_KillAt. simpl. rewrite Hrf. by eexists.
Qed.

(** ** client.go *)
Definition nrand : (Z → option Z) → outcome Z := Random.nrand.

Record Clerk := MkClerk { ck_servers : list string }.

Definition MakeClerk (servers : list string) : Clerk := MkClerk servers.
Definition Clerk_Get (ck : Clerk) (key : string) : string := "".
Definition Clerk_PutAppend (ck : Clerk) (key value op : string) : Clerk := ck.
Definition Clerk_Put (ck : Clerk) (key value : string) : Clerk := Clerk_PutAppend ck key value "Put".
Definition Clerk_Append (ck : Clerk) (key value : string) : Clerk := Clerk_PutAppend ck key value "Append".
