(* ===== verification/Shardmaster.v ===== *)
(** * shardmaster: the configuration service and its clerk (shardmaster/)

    The server is the lab's skeleton; the clerk is complete: every method
    tries each server in turn, and sleeps and starts over until one answers
    that is not the wrong leader.  [W] is the state of everything else; [Call]
    is [ClientEnd.Call] on an end, [Sleep] the 100 ms pause. *)
From stdpp Require Import base gmap sets numbers strings sorting list.
From S2P Require Import Prelude Labrpc Raft RaftServer.
From S2P Require Random.
Local Open Scope Z_scope.
Local Open Scope go_scope.

(** ** common.go *)
Definition NShards : Z := 10.

Record Config := MkConfig {
  Num : Z;
  Shards : list Z;                  (* an array of [NShards] *)
  Groups : gmap Z (list string);
}.
Definition zero_Config : Config := MkConfig 0 (replicate (Z.to_nat NShards) 0) ∅.

Record JoinArgs := MkJoinArgs { Servers : gmap Z (list string) }.
Record LeaveArgs := MkLeaveArgs { GIDs : list Z }.
Record MoveArgs := MkMoveArgs { mv_Shard : Z; mv_GID : Z }.
Record QueryArgs := MkQueryArgs { q_Num : Z }.

(** [JoinReply], [LeaveReply] and [MoveReply] have the same fields. *)
Record Reply := MkReply { WrongLeader : bool; rp_Err : string }.
Definition JoinReply : Type := Reply.
Definition LeaveReply : Type := Reply.
Definition MoveReply : Type := Reply.
Record QueryReply := MkQueryReply { q_WrongLeader : bool; q_Err : string; q_Config : Config }.

(** ** server.go *)
Record ShardMaster := MkShardMaster {
  sm_me : Z;
  sm_rf : rloc;
  sm_configs : list Config;
}.

Definition ShardMaster_Join (sm : ShardMaster) (args : JoinArgs) (reply : JoinReply) : ShardMaster * JoinReply := (sm, reply).
Definition ShardMaster_Leave (sm : ShardMaster) (args : LeaveArgs) (reply : LeaveReply) : ShardMaster * LeaveReply := (sm, reply).
Definition ShardMaster_Move (sm : ShardMaster) (args : MoveArgs) (reply : MoveReply) : ShardMaster * MoveReply := (sm, reply).
Definition ShardMaster_Query (sm : ShardMaster) (args : QueryArgs) (reply : QueryReply)
    : ShardMaster * QueryReply := (sm, reply).

Definition ShardMaster_Kill (P : rheap) (sm : ShardMaster) : outcome (rheap * ShardMaster) :=
  let! P := Raft_KillAt P (sm_rf sm) in Ret (P, sm).

Definition ShardMaster_Raft (sm : ShardMaster) : rloc := sm_rf sm.

Definition StartServer (P : rheap) (H : pheap) (servers : list string) (me : Z) (ps : ploc)
    : outcome (rheap * ShardMaster) :=
  let configs := [MkConfig 0 (replicate (Z.to_nat NShards) 0) ∅] in
  let! rf := Raft_Make H servers me ps in
  let '(P, rl) := new_raft P rf in
  Ret (P, MkShardMaster me rl configs).

#[export] Program Instance ShardMaster_RaftServer : RaftServer ShardMaster := {|
  rs_start P H servers me ps _ := StartServer P H servers me ps;
  rs_kill := ShardMaster_Kill;
  rs_rf := sm_rf;
|}.
Next Obligation. intros P H servers me ps mrs Hp. simpl. unfold StartServer. rewrite Raft_Make_Ret by done. by eexists. Qed.
Next Obligation.
  intros P H servers me ps mrs P' s. simpl. unfold StartServer.
  destruct (Raft_Make _ _ _ _) as [rf| |] eqn:Hrf; [|done..].
  apply Raft_Make_inv in Hrf as ->. intros [= <- <-]. split; [apply fresh_raft|done].
Qed.
Next Obligation.
  intros P s rf Hrf. unfold ShardMaster_Kill, Raft_KillAt. simpl. rewrite Hrf. by eexists.
Qed.

(** ** client.go *)
Definition nrand : (Z → option Z) → outcome Z := Random.nrand.

Record Clerk (E : Type) := MkClerk { ck_servers : list E }.
Arguments MkClerk {E} _.
Arguments ck_servers {E} _.

Definition MakeClerk {E : Type} (servers : list E) : Clerk E := MkClerk servers.

Section clerk.
Context {W E : Type} (Sleep : W → W).

(** The inner loop of a method: [Call] with the method's name and arguments
    applied, [wrong] the reply's [WrongLeader]. *)
Fixpoint try_servers {R : Type} (Call : W → E → W * bool * R) (wrong : R → bool) (servers : list E) (w : W)
    : W * option R :=
  match servers with
  | [] => (w, None)
  | srv :: servers' =>
      let '(w, ok, reply) := Call w srv in
      if ok && bool_decide (wrong reply = false) then (w, Some reply)
      else try_servers Call wrong servers' w
  end.

(** The outer loop, for [rounds] rounds. *)
Fixpoint clerk_loop {R : Type} (Call : W → E → W * bool * R) (wrong : R → bool) (servers : list E)
    (rounds : nat) (w : W) : outcome (W * R) :=
  match rounds with
  | O => NoFuel
  | S rounds' =>
      match try_servers Call wrong servers w with
      | (w, Some reply) => Ret (w, reply)
      | (w, None) => clerk_loop Call wrong servers rounds' (Sleep w)
      end
  end.

Definition Query (Call : W → E → string → QueryArgs → W * bool * QueryReply) (ck : Clerk E) (num : Z)
    (rounds : nat) (w : W) : outcome (W * Config) :=
  let args := MkQueryArgs num in
  let! ' (w, reply) := clerk_loop (λ w srv, Call w srv "ShardMaster.Query" args) q_WrongLeader
                         (ck_servers ck) rounds w in
  Ret (w, q_Config reply).

Definition Join (Call : W → E → string → JoinArgs → W * bool * Reply) (ck : Clerk E)
    (servers : gmap Z (list string)) (rounds : nat) (w : W) : outcome W :=
  let args := MkJoinArgs servers in
  let! ' (w, _) := clerk_loop (λ w srv, Call w srv "ShardMaster.Join" args) WrongLeader (ck_servers ck) rounds w in
  Ret w.

Definition Leave (Call : W → E → string → LeaveArgs → W * bool * Reply) (ck : Clerk E) (gids : list Z)
    (rounds : nat) (w : W) : outcome W :=
  let args := MkLeaveArgs gids in
  let! ' (w, _) := clerk_loop (λ w srv, Call w srv "ShardMaster.Leave" args) WrongLeader (ck_servers ck) rounds w in
  Ret w.

Definition Move (Call : W → E → string → MoveArgs → W * bool * Reply) (ck : Clerk E) (shard gid : Z)
    (rounds : nat) (w : W) : outcome W :=
  let args := MkMoveArgs shard gid in
  let! ' (w, _) := clerk_loop (λ w srv, Call w srv "ShardMaster.Move" args) WrongLeader (ck_servers ck) rounds w in
  Ret w.

(** ** What the loops do *)
Section loops.
Context {R : Type} (Call : W → E → W * bool * R) (wrong : R → bool) (servers : list E).

(** A call in [w] fails and leads to [w']; a round does, a number of rounds does. *)
Definition call_fails (e : E) (w w' : W) : Prop :=
  ∃ ok reply, Call w e = (w', ok, reply) ∧ (ok = false ∨ wrong reply = true).

Inductive calls_fail : list E → W → W → Prop :=
| calls_fail_nil w : calls_fail [] w w
| calls_fail_cons e es w w1 w2 : call_fails e w w1 → calls_fail es w1 w2 → calls_fail (e :: es) w w2.

Inductive rounds_fail : nat → W → W → Prop :=
| rounds_fail_O w : rounds_fail O w w
| rounds_fail_S k w w1 w2 : calls_fail servers w w1 → rounds_fail k (Sleep w1) w2 → rounds_fail (S k) w w2.

(** In [w] the round ends with the answer of a server. *)
Definition round_answers (w w' : W) (reply : R) : Prop :=
  ∃ es e es' w0, servers = es ++ e :: es' ∧ calls_fail es w w0 ∧ Call w0 e = (w', true, reply) ∧ wrong reply = false.

Lemma try_servers_spec (es : list E) (w : W) :
  match try_servers Call wrong es w with
  | (w', None) => calls_fail es w w'
  | (w', Some reply) => ∃ es1 e es2 w0, es = es1 ++ e :: es2 ∧ calls_fail es1 w w0 ∧
      Call w0 e = (w', true, reply) ∧ wrong reply = false
  end.
Proof.
  revert w. induction es as [|e es IH]; intros w; simpl; [constructor|].
  destruct (Call w e) as [[w1 ok] reply] eqn:Hc. destruct (_ && _) eqn:Hok.
  - apply andb_true_iff in Hok as [-> Hw%bool_decide_eq_true]. exists [], e, es, w. by split_and!; [|constructor|..].
  - assert (call_fails e w w1) as Hf.
    { exists ok, reply. split; [done|]. destruct ok; [right|by left]. simpl in Hok.
      by destruct (wrong reply). }
    specialize (IH w1). destruct (try_servers Call wrong es w1) as [w' [r|]].
    + destruct IH as (es1 & e' & es2 & w0 & -> & Hes & ? & ?). exists (e :: es1), e', es2, w0.
      split_and!; [done|by econstructor|done|done].
    + by econstructor.
Qed.

Lemma clerk_loop_spec (rounds : nat) (w : W) :
  match clerk_loop Call wrong servers rounds w with
  | Ret (w', reply) => ∃ k w0, (k < rounds)%nat ∧ rounds_fail k w w0 ∧ round_answers w0 w' reply
  | NoFuel => ∃ w', rounds_fail rounds w w'
  | Panic => False
  end.
Proof.
  revert w. induction rounds as [|rounds IH]; intros w; simpl; [eexists; constructor|].
  pose proof (try_servers_spec servers w) as Ht. destruct (try_servers Call wrong servers w) as [w1 [reply|]].
  - exists O, w. split; [lia|]. split; [constructor|done].
  - specialize (IH (Sleep w1)). destruct (clerk_loop _ _ _ _ _) as [[w' reply]| |]; [|done|].
    + destruct IH as (k & w0 & Hk & Hr & Ha). exists (S k), w0. split; [lia|]. split; [by econstructor|done].
    + destruct IH as [w' Hr]. exists w'. by econstructor.
Qed.

(** Calls are functions of the world, so an answer that is there is found. *)
Lemma call_fails_fun e w w1 w2 : call_fails e w w1 → call_fails e w w2 → w1 = w2.
Proof. intros (? & ? & H1 & _) (? & ? & H2 & _). congruence. Qed.

Lemma calls_fail_answer (es1 : list E) e es2 w w0 w' reply :
  calls_fail es1 w w0 → Call w0 e = (w', true, reply) → wrong reply = false →
  try_servers Call wrong (es1 ++ e :: es2) w = (w', Some reply).
Proof.
  induction 1 as [w|e1 es w w1 w2 (ok & r & Hc & Hf) Hes IH]; intros Hcall Hw; simpl.
  - by rewrite Hcall, bool_decide_eq_true_2.
  - rewrite Hc. destruct (ok && _) eqn:Hok; [|by apply IH].
    apply andb_true_iff in Hok as [-> Hr%bool_decide_eq_true]. destruct Hf; congruence.
Qed.

Lemma calls_fail_None w w' : calls_fail servers w w' → try_servers Call wrong servers w = (w', None).
Proof.
  induction 1 as [w|e1 es w w1 w2 (ok & r & Hc & Hf) Hes IH]; simpl; [done|].
  rewrite Hc. destruct (ok && _) eqn:Hok; [|done].
  apply andb_true_iff in Hok as [-> Hr%bool_decide_eq_true]. destruct Hf; congruence.
Qed.

Lemma clerk_loop_answers (rounds k : nat) w w0 w' reply :
  (k < rounds)%nat → rounds_fail k w w0 → round_answers w0 w' reply →
  clerk_loop Call wrong servers rounds w = Ret (w', reply).
Proof.
  intros Hk Hr (es1 & e & es2 & w1 & Hs & Hes & Hc & Hw). revert rounds Hk.
  induction Hr as [w|k w w2 w3 Hf Hr IH]; intros [|rounds] Hk; try lia; simpl.
  - pose proof (calls_fail_answer es1 e es2 w w1 w' reply Hes Hc Hw) as Ht. rewrite <-Hs in Ht. by rewrite Ht.
  - rewrite (calls_fail_None _ _ Hf). apply IH; [done|lia].
Qed.
End loops.
End clerk.

(** C33: [Query] returns a configuration exactly when, after some rounds in
    which every server failed or was the wrong leader, a server answers as
    leader with that configuration, the servers before it having failed; and
    as long as it has not returned, all its rounds have failed. *)
Theorem Query_answers {W E : Type} (Sleep : W → W)
    (Call : W → E → string → QueryArgs → W * bool * QueryReply) (ck : Clerk E) (num : Z) (rounds : nat) (w : W) :
  let call := λ w srv, Call w srv "ShardMaster.Query" (MkQueryArgs num) in
  (∀ w' c, Query Sleep Call ck num rounds w = Ret (w', c) ↔
    ∃ k w0 reply, (k < rounds)%nat ∧ rounds_fail Sleep call q_WrongLeader (ck_servers ck) k w w0 ∧
      round_answers call q_WrongLeader (ck_servers ck) w0 w' reply ∧ q_Config reply = c) ∧
  (¬ returns (Query Sleep Call ck num rounds w) ↔
    ∃ w', rounds_fail Sleep call q_WrongLeader (ck_servers ck) rounds w w').
Proof.
  intros call. unfold Query. pose proof (clerk_loop_spec Sleep call q_WrongLeader (ck_servers ck) rounds w) as Hs.
  change (λ w srv, Call w srv "ShardMaster.Query" (MkQueryArgs num)) with call.
  split.
  - intros w' c. split.
    + destruct (clerk_loop _ _ _ _ _ _) as [[w1 reply]| |]; [|done..]. intros [= <- <-].
      destruct Hs as (k & w0 & Hk & Hr & Ha). by exists k, w0, reply.
    + intros (k & w0 & reply & Hk & Hr & Ha & <-).
      by rewrite (clerk_loop_answers Sleep call q_WrongLeader (ck_servers ck) rounds k w w0 w' reply Hk Hr Ha).
  - split.
    + destruct (clerk_loop _ _ _ _ _ _) as [[w1 reply]| |]; [|done|done].
      intros Hn. destruct Hn. by eexists.
    + intros [w' Hr]. assert (clerk_loop Sleep call q_WrongLeader (ck_servers ck) rounds w = NoFuel) as ->.
      { clear Hs. induction Hr as [w|k w w2 w3 Hf Hr IH]; [done|]. simpl. by rewrite (calls_fail_None _ _ _ _ _ Hf). }
      by intros [? ?].
Qed.

Lemma shardmaster_demo_example :
  Query (λ n, n) (λ (w : nat) (e : nat) _ _, (S w, true, MkQueryReply (bool_decide (w < 4)%nat) "" (MkConfig (Z.of_nat e) [] ∅)))
    (MakeClerk [7%nat; 8%nat; 9%nat]) (-1) 3 0%nat = Ret (5%nat, MkConfig 8 [] ∅).
Proof. reflexivity. Qed.
