(* ===== verification/Shardkv.v ===== *)
(** * shardkv: the sharded key/value service and its clerk (shardkv/)

    The server is the lab's skeleton; the clerk is complete: it finds the shard
    of the key, tries the servers of the group its configuration gives, and
    asks the shardmaster for a new configuration when none of them answers.
    [make_end] is the callback that turns a server's name into an end. *)
From Stdlib Require Import Ascii NArith.
From stdpp Require Import base gmap sets numbers strings sorting list.
From S2P Require Import Prelude Labrpc Raft RaftServer.
From S2P Require Shardmaster Random.
Import Shardmaster (Config, Shards, Groups, zero_Config, NShards, QueryArgs, QueryReply, Query).
Local Open Scope Z_scope.
Local Open Scope go_scope.

(** ** common.go *)
Definition OK : string := "OK".
Definition ErrNoKey : string := "ErrNoKey".
Definition ErrWrongGroup : string := "ErrWrongGroup".
Definition ErrWrongLeader : string := "ErrWrongLeader".

Record PutAppendArgs := MkPutAppendArgs {
  pa_Key : string;
  pa_Value : string;
  pa_Op : string;
}.
Record PutAppendReply := MkPutAppendReply { par_Err : string }.
Record GetArgs := MkGetArgs { ga_Key : string }.
Record GetReply := MkGetReply {
  gr_Err : string;
  gr_Value : string;
}.

(** ** server.go; the callback [make_end] is the harness's *)
Record ShardKV := MkShardKV {
  skv_me : Z;
  skv_rf : rloc;
  skv_gid : Z;
  skv_masters : list string;
  skv_maxraftstate : Z;
}.

Definition ShardKV_Get (kv : ShardKV) (args : GetArgs) (reply : GetReply) : ShardKV * GetReply := (kv, reply).
Definition ShardKV_PutAppend (kv : ShardKV) (args : PutAppendArgs) (reply : PutAppendReply)
    : ShardKV * PutAppendReply := (kv, reply).

Definition ShardKV_Kill (P : rheap) (kv : ShardKV) : outcome (rheap * ShardKV) :=
  let! P := Raft_KillAt P (skv_rf kv) in Ret (P, kv).

Definition StartServer (P : rheap) (H : pheap) (servers : list string) (me : Z) (ps : ploc)
    (maxraftstate gid : Z) (masters : list string) : outcome (rheap * ShardKV) :=
  let! rf := Raft_Make H servers me ps in
  let '(P, rl) := new_raft P rf in
  Ret (P, MkShardKV me rl gid masters maxraftstate).

(** ** client.go *)
Definition nrand : (Z → option Z) → outcome Z := Random.nrand.


(** [int(key[0]) % NShards]; the first byte of a non-empty key. *)
Definition key2shard (key : string) : Z :=
  let shard := match key with String c _ => Z.of_N (N_of_ascii c) | EmptyString => 0 end in
  Z.rem shard NShards.

Record Clerk (E : Type) := MkClerk {
  ck_sm : Shardmaster.Clerk E;
  ck_config : Config;
}.
Arguments MkClerk {E} _ _.
Arguments ck_sm {E} _.
Arguments ck_config {E} _.

Definition MakeClerk {E : Type} (masters : list E) : Clerk E :=
  MkClerk (Shardmaster.MakeClerk masters) zero_Config.

Section clerk.
Context {W E : Type} (Sleep : W → W) (make_end : W → string → W * E).
Context (CallQuery : W → E → string → QueryArgs → W * bool * QueryReply).
Implicit Types (ck : Clerk E) (w : W).

(** What a reply makes of the loop over the servers: done, on to the next
    configuration, or on to the next server. *)
Inductive verdict (R : Type) := VReturn (r : R) | VBreak | VNext.
#[global] Arguments VReturn {R} _.
#[global] Arguments VBreak {R}.
#[global] Arguments VNext {R}.

Fixpoint try_group {A B : Type} (Call : W → E → W * bool * A) (judge : bool → A → verdict B)
    (servers : list string) (w : W) : W * option B :=
  match servers with
  | [] => (w, None)
  | s :: servers' =>
      let '(w, srv) := make_end w s in
      let '(w, ok, reply) := Call w srv in
      match judge ok reply with
      | VReturn r => (w, Some r)
      | VBreak => (w, None)
      | VNext => try_group Call judge servers' w
      end
  end.

(** The outer loop, for [rounds] rounds, each query of the shardmaster for
    [qrounds] rounds. *)
Fixpoint shard_loop {A B : Type} (Call : W → E → W * bool * A) (judge : bool → A → verdict B)
    (key : string) (qrounds rounds : nat) ck (w : W) : outcome (W * Clerk E * B) :=
  match rounds with
  | O => NoFuel
  | S rounds' =>
      let shard := key2shard key in
      let! gid := slice_get (Shards (ck_config ck)) shard in
      let '(w, r) := match Groups (ck_config ck) !! gid with
                     | Some servers => try_group Call judge servers w
                     | None => (w, None)
                     end in
      match r with
      | Some r => Ret (w, ck, r)
      | None =>
          let! ' (w, config) := Query Sleep CallQuery (ck_sm ck) (-1) qrounds (Sleep w) in
          shard_loop Call judge key qrounds rounds' (MkClerk (ck_sm ck) config) w
      end
  end.

Definition judge_get (ok : bool) (reply : GetReply) : verdict string :=
  if ok && (bool_decide (gr_Err reply = OK) || bool_decide (gr_Err reply = ErrNoKey)) then VReturn (gr_Value reply)
  else if ok && bool_decide (gr_Err reply = ErrWrongGroup) then VBreak
  else VNext.

Definition Get (Call : W → E → string → GetArgs → W * bool * GetReply) (key : string) (qrounds rounds : nat) ck (w : W)
    : outcome (W * Clerk E * string) :=
  let args := MkGetArgs key in
  shard_loop (λ w srv, Call w srv "ShardKV.Get" args) judge_get key qrounds rounds ck w.

Definition judge_put (ok : bool) (reply : PutAppendReply) : verdict unit :=
  if ok && bool_decide (par_Err reply = OK) then VReturn tt
  else if ok && bool_decide (par_Err reply = ErrWrongGroup) then VBreak
  else VNext.

Definition PutAppend (Call : W → E → string → PutAppendArgs → W * bool * PutAppendReply) (key value op : string)
    (qrounds rounds : nat) ck (w : W) : outcome (W * Clerk E * unit) :=
  let args := MkPutAppendArgs key value op in
  shard_loop (λ w srv, Call w srv "ShardKV.PutAppend" args) judge_put key qrounds rounds ck w.

Definition Put (Call : W → E → string → PutAppendArgs → W * bool * PutAppendReply) (key value : string) :=
  PutAppend Call key value "Put".
Definition Append (Call : W → E → string → PutAppendArgs → W * bool * PutAppendReply) (key value : string) :=
  PutAppend Call key value "Append".

(** ** What the loops do *)

(** The shard of a key is a shard. *)
Lemma key2shard_bounds (key : string) : 0 ≤ key2shard key < NShards.
Proof.
  unfold key2shard, NShards. destruct key as [|c key]; [done|].
  rewrite Z.rem_mod_nonneg by lia. apply Z.mod_pos_bound. lia.
Qed.

(** A configuration gives every shard a group. *)
Definition config_ok (c : Config) : Prop := zlen (Shards c) = NShards.

(** The servers that a configuration gives a key. *)
Definition servers_of (c : Config) (key : string) : list string :=
  match slice_get (Shards c) (key2shard key) with
  | Ret gid => default [] (Groups c !! gid)
  | _ => []
  end.

Lemma try_group_spec {A B : Type} (Call : W → E → W * bool * A) (judge : bool → A → verdict B)
    (servers : list string) w w' r :
  try_group Call judge servers w = (w', Some r) →
  ∃ s w0 w1 srv ok reply, s ∈ servers ∧ make_end w0 s = (w1, srv) ∧
    Call w1 srv = (w', ok, reply) ∧ judge ok reply = VReturn r.
Proof.
  revert w. induction servers as [|s servers IH]; intros w; simpl; [done|].
  destruct (make_end w s) as [w1 srv] eqn:He. destruct (Call w1 srv) as [[w2 ok] reply] eqn:Hc.
  destruct (judge ok reply) eqn:Hj; [|done|].
  - intros [= -> ->]. exists s, w, w1, srv, ok, reply. split; [left|done].
  - intros Ht. destruct (IH w2 Ht) as (s' & w0 & w1' & srv' & ok' & reply' & Hin & ?).
    exists s', w0, w1', srv', ok', reply'. split; [by right|done].
Qed.

Lemma shard_loop_spec {A B : Type} (Call : W → E → W * bool * A) (judge : bool → A → verdict B)
    (key : string) (qrounds rounds : nat) ck w :
  config_ok (ck_config ck) →
  (∀ w e w' reply, CallQuery w e "ShardMaster.Query" (Shardmaster.MkQueryArgs (-1)) = (w', true, reply) →
     config_ok (Shardmaster.q_Config reply)) →
  match shard_loop Call judge key qrounds rounds ck w with
  | Ret (w', ck', r) =>
      ck_sm ck' = ck_sm ck ∧ config_ok (ck_config ck') ∧
      (ck_config ck' = ck_config ck ∨
       ∃ w0 w1, Query Sleep CallQuery (ck_sm ck) (-1) qrounds w0 = Ret (w1, ck_config ck')) ∧
      ∃ s w0 w1 srv ok reply, s ∈ servers_of (ck_config ck') key ∧ make_end w0 s = (w1, srv) ∧
        Call w1 srv = (w', ok, reply) ∧ judge ok reply = VReturn r
  | Panic => False
  | NoFuel => True
  end.
Proof.
  intros Hck HQ. revert ck w Hck. induction rounds as [|rounds IH]; intros ck w Hck; simpl; [done|].
  destruct (slice_get_in_range (Shards (ck_config ck)) (key2shard key)) as (gid & Hgid & _).
  { rewrite Hck. apply key2shard_bounds. }
  rewrite Hgid. simpl.
  destruct (match Groups (ck_config ck) !! gid with
            | Some servers => try_group Call judge servers w
            | None => (w, None)
            end) as [w' [r|]] eqn:Ht.
  - split; [done|]. split; [done|]. split; [by left|].
    destruct (Groups (ck_config ck) !! gid) as [servers|] eqn:Hg; [|done].
    destruct (try_group_spec Call judge servers w w' r Ht) as (s & w0 & w1 & srv & ok & reply & Hin & ?).
    exists s, w0, w1, srv, ok, reply. split; [|done]. unfold servers_of. by rewrite Hgid, Hg.
  - pose proof (Shardmaster.clerk_loop_spec Sleep
      (λ w srv, CallQuery w srv "ShardMaster.Query" (Shardmaster.MkQueryArgs (-1)))
      Shardmaster.q_WrongLeader (Shardmaster.ck_servers (ck_sm ck)) qrounds (Sleep w')) as Hq.
    destruct (Query Sleep CallQuery (ck_sm ck) (-1) qrounds (Sleep w')) as [[w2 config]| |] eqn:Hquery; simpl;
      [|by unfold Query in Hquery; destruct (Shardmaster.clerk_loop _ _ _ _ _ _) as [[? ?]| |]|done].
    assert (config_ok config) as Hconfig.
    { unfold Query in Hquery. destruct (Shardmaster.clerk_loop _ _ _ _ _ _) as [[w3 reply]| |]; [|done..].
      injection Hquery as <- <-. destruct Hq as (k & w0 & _ & _ & (es & e & es' & w1 & _ & _ & Hc & _)).
      by eapply HQ. }
    specialize (IH (MkClerk (ck_sm ck) config) w2 Hconfig).
    destruct (shard_loop _ _ _ _ _ _ _) as [[[w4 ck'] r]| |]; [|done..].
    destruct IH as (Hsm & Hok & Hfrom & Hs). simpl in Hsm, Hfrom. split; [done|]. split; [done|]. split; [|done].
    right. destruct Hfrom as [->|Hfrom]; [by eexists _, _|done].
Qed.
End clerk.

(** C32: the shard of a key is always within the configuration's array; so if
    the shardmaster's configurations have ten shards, [Get] and [PutAppend]
    never panic, and when they return, the answer is that of a server of the
    group that owns the key's shard, in the configuration the clerk then
    holds, which is its old one or one that Query returned: OK or ErrNoKey
    for Get, OK for PutAppend. *)
Theorem shardkv_clerk_answers {W E : Type} (Sleep : W → W) (make_end : W → string → W * E)
    (CallQuery : W → E → string → QueryArgs → W * bool * QueryReply)
    (CallGet : W → E → string → GetArgs → W * bool * GetReply)
    (CallPut : W → E → string → PutAppendArgs → W * bool * PutAppendReply)
    (key value op : string) (qrounds rounds : nat) (ck : Clerk E) (w : W) :
  config_ok (ck_config ck) →
  (∀ w e w' reply, CallQuery w e "ShardMaster.Query" (Shardmaster.MkQueryArgs (-1)) = (w', true, reply) →
     config_ok (Shardmaster.q_Config reply)) →
  let answered_by (ck' : Clerk E) (s : string) :=
    s ∈ servers_of (ck_config ck') key ∧
    (ck_config ck' = ck_config ck ∨
     ∃ w0 w1, Query Sleep CallQuery (ck_sm ck) (-1) qrounds w0 = Ret (w1, ck_config ck')) in
  0 ≤ key2shard key < NShards ∧
  Get Sleep make_end CallQuery CallGet key qrounds rounds ck w ≠ Panic ∧
  PutAppend Sleep make_end CallQuery CallPut key value op qrounds rounds ck w ≠ Panic ∧
  (∀ w' ck' v, Get Sleep make_end CallQuery CallGet key qrounds rounds ck w = Ret (w', ck', v) →
    ∃ s w0 w1 srv err, answered_by ck' s ∧ make_end w0 s = (w1, srv) ∧ (err = OK ∨ err = ErrNoKey) ∧
      CallGet w1 srv "ShardKV.Get" (MkGetArgs key) = (w', true, MkGetReply err v)) ∧
  (∀ w' ck', PutAppend Sleep make_end CallQuery CallPut key value op qrounds rounds ck w = Ret (w', ck', tt) →
    ∃ s w0 w1 srv, answered_by ck' s ∧ make_end w0 s = (w1, srv) ∧
      CallPut w1 srv "ShardKV.PutAppend" (MkPutAppendArgs key value op) = (w', true, MkPutAppendReply OK)).
Proof.
  intros Hck HQ answered_by. split; [apply key2shard_bounds|].
  pose proof (shard_loop_spec Sleep make_end CallQuery
    (λ w srv, CallGet w srv "ShardKV.Get" (MkGetArgs key)) judge_get key qrounds rounds ck w Hck HQ) as HG.
  pose proof (shard_loop_spec Sleep make_end CallQuery
    (λ w srv, CallPut w srv "ShardKV.PutAppend" (MkPutAppendArgs key value op)) judge_put key qrounds rounds ck w
    Hck HQ) as HP.
  unfold Get, PutAppend. split_and!.
  - intros Heq. by rewrite Heq in HG.
  - intros Heq. by rewrite Heq in HP.
  - intros w' ck' v Heq. rewrite Heq in HG.
    destruct HG as (_ & _ & Hfrom & (s & w0 & w1 & srv & ok & [err v'] & Hin & Hme & Hc & Hj)).
    unfold judge_get in Hj. destruct ok; simpl in Hj; [|done].
    exists s, w0, w1, srv, err. split; [done|]. split; [done|].
    destruct (bool_decide (err = OK)) eqn:H1, (bool_decide (err = ErrNoKey)) eqn:H2,
      (bool_decide (err = ErrWrongGroup)); simpl in Hj; try done; injection Hj as <-;
      rewrite ?bool_decide_eq_true in *; auto.
  - intros w' ck' Heq. rewrite Heq in HP.
    destruct HP as (_ & _ & Hfrom & (s & w0 & w1 & srv & ok & [err] & Hin & Hme & Hc & Hj)).
    unfold judge_put in Hj. destruct ok; simpl in Hj; [|done].
    exists s, w0, w1, srv. split; [done|]. split; [done|].
    destruct (bool_decide (err = OK)) eqn:H1; simpl in Hj; [|by destruct (bool_decide (err = ErrWrongGroup))].
    apply bool_decide_eq_true in H1. by rewrite Hc, H1.
Qed.

(** A world that counts calls: the shardmaster knows group 1, whose server
    "s1" answers. *)
Definition demo_config : Config := Shardmaster.MkConfig 1 (replicate 10 1) {[1 := ["s0"; "s1"]]}.

Lemma shardkv_clerk_answers_witness :
  ∃ ck', Get (λ w : nat, w) (λ w s, (w, s))
      (λ w _ _ _, (S w, true, Shardmaster.MkQueryReply false "" demo_config))
      (λ w e _ _, (S w, bool_decide (e = "s1"), MkGetReply OK "v")) "k" 1 2 (MakeClerk ["m"]) O = Ret (3%nat, ck', "v") ∧
    ∃ s, s ∈ servers_of (ck_config ck') "k".
Proof.
  assert (∃ ck', Get (λ w : nat, w) (λ w s, (w, s))
      (λ w _ _ _, (S w, true, Shardmaster.MkQueryReply false "" demo_config))
      (λ w e _ _, (S w, bool_decide (e = "s1"), MkGetReply OK "v")) "k" 1 2 (MakeClerk ["m"]) O = Ret (3%nat, ck', "v"))
    as [ck' Hget] by (eexists; by vm_compute).
  exists ck'. split; [exact Hget|].
  destruct (shardkv_clerk_answers (λ w : nat, w) (λ w s, (w, s))
    (λ w _ _ _, (S w, true, Shardmaster.MkQueryReply false "" demo_config))
    (λ w e _ _, (S w, bool_decide (e = "s1"), MkGetReply OK "v"))
    (λ w _ _ _, (w, true, MkPutAppendReply OK)) "k" "v" "Put" 1 2 (MakeClerk ["m"]) O) as (_ & _ & _ & Hg & _).
  - done.
  - by intros w e w' reply [= <- <-].
  - destruct (Hg _ _ _ Hget) as (s & _ & _ & _ & _ & [Hin _] & _). by exists s.
Defined.
