(* ===== verification/KvConfig.v ===== *)
(** * The harness of a replicated service (kvraft/config.go, shardmaster/config.go)

    The two files differ in the type of the server only, so the harness is
    written once for a [RaftServer]; kvraft's is its instance at [KVServer]
    and shardmaster's at [ShardMaster].  Random names, random draws and what
    [GetState] answers are arguments. *)
From stdpp Require Import base gmap sets numbers strings sorting list.
From S2P Require Import Prelude Labrpc NetAdmin Raft RaftServer.
From S2P Require Random.
Local Open Scope Z_scope.
Local Open Scope go_scope.

(** ** Random names and seeds, and the time limit: the text is [Random]'s *)
Definition randstring : (list Z → list Z) → Z → outcome string := Random.randstring.
Definition makeSeed : (Z → option Z) → outcome Z := Random.makeSeed.
Definition checkTimeout : bool → Z → outcome unit := Random.checkTimeout.

(** ** [random_handles]: [draw i] is [rand.Intn(i+1)] *)
Definition swap {A : Type} (sa : list A) (i j : Z) : outcome (list A) :=
  let! x := slice_get sa j in
  let! y := slice_get sa i in
  let! sa := slice_set sa i x in
  slice_set sa j y.

Fixpoint random_handles_loop {A : Type} (draw : Z → Z) (ids : list Z) (sa : list A) : outcome (list A) :=
  match ids with
  | [] => Ret sa
  | i :: ids' => let! sa := swap sa i (draw i) in random_handles_loop draw ids' sa
  end.

Definition random_handles {A : Type} (draw : Z → Z) (kvh : list A) : outcome (list A) :=
  random_handles_loop draw (seqZ 0 (zlen kvh)) kvh.

(** ** The harness *)
Record config (S W A RT : Type) := MkConfig {
  k_net : Network string Z;
  k_srvs : gmap sloc (Server W A RT);
  k_n : Z;
  k_peers : rheap;
  k_heap : gmap nat S;                   (* the servers made so far *)
  k_servers : list (option nat);
  k_persisters : pheap;
  k_saved : list (option ploc);
  k_endnames : list (option (list string));
  k_clerks : gmap nat (list string);
  k_nextClientId : Z;
  k_maxraftstate : Z;
}.
Arguments MkConfig {S W A RT} _ _ _ _ _ _ _ _ _ _ _ _.
Arguments k_net {S W A RT} _.
Arguments k_srvs {S W A RT} _.
Arguments k_n {S W A RT} _.
Arguments k_peers {S W A RT} _.
Arguments k_heap {S W A RT} _.
Arguments k_servers {S W A RT} _.
Arguments k_persisters {S W A RT} _.
Arguments k_saved {S W A RT} _.
Arguments k_endnames {S W A RT} _.
Arguments k_clerks {S W A RT} _.
Arguments k_nextClientId {S W A RT} _.
Arguments k_maxraftstate {S W A RT} _.

Section kv_config.
Context {S W A RT : Type} `{RaftServer S}.
(** The services of a server: its own name, its methods, and its peer's. *)
Context (svc_name : string) (svc_methods : nat → list (rmethod W A RT)) (raft_methods : rloc → list (rmethod W A RT)).
Abbreviation config := (config S W A RT).
Abbreviation net := (Network string Z).
Implicit Types (cfg : config) (i j : Z) (rn : net).

Definition with_net cfg rn : config :=
  MkConfig rn (k_srvs cfg) (k_n cfg) (k_peers cfg) (k_heap cfg) (k_servers cfg) (k_persisters cfg) (k_saved cfg)
    (k_endnames cfg) (k_clerks cfg) (k_nextClientId cfg) (k_maxraftstate cfg).
Definition with_endnames cfg (l : list (option (list string))) : config :=
  MkConfig (k_net cfg) (k_srvs cfg) (k_n cfg) (k_peers cfg) (k_heap cfg) (k_servers cfg) (k_persisters cfg)
    (k_saved cfg) l (k_clerks cfg) (k_nextClientId cfg) (k_maxraftstate cfg).
Definition with_saved cfg (Hp : pheap) (l : list (option ploc)) : config :=
  MkConfig (k_net cfg) (k_srvs cfg) (k_n cfg) (k_peers cfg) (k_heap cfg) (k_servers cfg) Hp l
    (k_endnames cfg) (k_clerks cfg) (k_nextClientId cfg) (k_maxraftstate cfg).
Definition with_servers cfg (P : rheap) (hs : gmap nat S) (l : list (option nat)) : config :=
  MkConfig (k_net cfg) (k_srvs cfg) (k_n cfg) P hs l (k_persisters cfg) (k_saved cfg)
    (k_endnames cfg) (k_clerks cfg) (k_nextClientId cfg) (k_maxraftstate cfg).
Definition with_clerks cfg (cl : gmap nat (list string)) (next : Z) : config :=
  MkConfig (k_net cfg) (k_srvs cfg) (k_n cfg) (k_peers cfg) (k_heap cfg) (k_servers cfg) (k_persisters cfg)
    (k_saved cfg) (k_endnames cfg) cl next (k_maxraftstate cfg).
Definition with_srv cfg (srv : Server W A RT) : config * sloc :=
  let l := fresh (dom (k_srvs cfg)) in
  (MkConfig (k_net cfg) (<[l := srv]> (k_srvs cfg)) (k_n cfg) (k_peers cfg) (k_heap cfg) (k_servers cfg)
    (k_persisters cfg) (k_saved cfg) (k_endnames cfg) (k_clerks cfg) (k_nextClientId cfg) (k_maxraftstate cfg), l).

Definition endname cfg i j : outcome string :=
  let! row := slice_get (k_endnames cfg) i in
  let! names := or_panic row in
  slice_get names j.

(** ** Sizes: a nil persister panics *)
Fixpoint max_size (size : pheap → ploc → outcome Z) cfg (ids : list Z) (m : Z) : outcome Z :=
  match ids with
  | [] => Ret m
  | i :: ids' =>
      let! o := slice_get (k_saved cfg) i in
      let! ps := or_panic o in
      let! n := size (k_persisters cfg) ps in
      max_size size cfg ids' (if bool_decide (n > m) then n else m)
  end.

Definition LogSize cfg : outcome Z := max_size RaftStateSize cfg (seqZ 0 (k_n cfg)) 0.
Definition SnapshotSize cfg : outcome Z := max_size SnapshotSize cfg (seqZ 0 (k_n cfg)) 0.

(** ** Connections *)
Fixpoint connect_ends (name : Z → outcome string) (to : list Z) rn : outcome net :=
  match to with
  | [] => Ret rn
  | j :: to' => let! e := name j in connect_ends name to' (Enable rn e true)
  end.

Definition connectUnlocked cfg i (to : list Z) : outcome config :=
  (* outgoing socket files *)
  let! rn := connect_ends (λ j, endname cfg i j) to (k_net cfg) in
  (* incoming socket files *)
  let! rn := connect_ends (λ j, endname cfg j i) to rn in
  Ret (with_net cfg rn).

(** [row k]: the row tested for nil at position [k] of the list. *)
Fixpoint disconnect_ends cfg (row : Z → Z) (name : Z → outcome string) (k : Z) (from : list Z) rn : outcome net :=
  match from with
  | [] => Ret rn
  | j :: from' =>
      let! r := slice_get (k_endnames cfg) (row k) in
      match r with
      | Some _ => let! e := name j in disconnect_ends cfg row name (k + 1) from' (Enable rn e false)
      | None => disconnect_ends cfg row name (k + 1) from' rn
      end
  end.

(** The second loop tests [cfg.endnames[j]] and reads [cfg.endnames[from[j]]]. *)
Definition disconnectUnlocked cfg i (from : list Z) : outcome config :=
  let! rn := disconnect_ends cfg (λ _, i) (λ j, endname cfg i j) 0 from (k_net cfg) in
  let! rn := disconnect_ends cfg (λ k, k) (λ j, endname cfg j i) 0 from rn in
  Ret (with_net cfg rn).

Definition connect cfg i to : outcome config := connectUnlocked cfg i to.
Definition disconnect cfg i from : outcome config := disconnectUnlocked cfg i from.

Definition All cfg : list Z := seqZ 0 (k_n cfg).

Fixpoint ConnectAll_loop cfg (ids : list Z) : outcome config :=
  match ids with
  | [] => Ret cfg
  | i :: ids' => let! cfg := connectUnlocked cfg i (All cfg) in ConnectAll_loop cfg ids'
  end.

Definition ConnectAll cfg : outcome config := ConnectAll_loop cfg (seqZ 0 (k_n cfg)).

(** One loop of [partition]: [mine] is the list it runs over. *)
Fixpoint partition_loop cfg (ids mine others : list Z) : outcome config :=
  match ids with
  | [] => Ret cfg
  | i :: ids' =>
      let! cfg := disconnectUnlocked cfg i others in
      let! cfg := connectUnlocked cfg i mine in
      partition_loop cfg ids' mine others
  end.

Definition partition cfg (p1 p2 : list Z) : outcome config :=
  let! cfg := partition_loop cfg p1 p1 p2 in
  partition_loop cfg p2 p2 p1.

(** ** Clerks *)
Fixpoint set_ends (endnames : list string) (b : bool) (js : list Z) rn : outcome net :=
  match js with
  | [] => Ret rn
  | j :: js' => let! s := slice_get endnames j in set_ends endnames b js' (Enable rn s b)
  end.

(** An unknown clerk has a nil slice. *)
Definition ConnectClient cfg (ck : nat) (to : list Z) : outcome config :=
  let! rn := set_ends (default [] (k_clerks cfg !! ck)) true to (k_net cfg) in Ret (with_net cfg rn).
Definition DisconnectClient cfg (ck : nat) (from : list Z) : outcome config :=
  let! rn := set_ends (default [] (k_clerks cfg !! ck)) false from (k_net cfg) in Ret (with_net cfg rn).

(** The clerk is a new pointer; it gets the ends in a random order. *)
Definition makeClient cfg (names : list string) (draw : Z → Z) (to : list Z)
    : outcome (config * nat * list string) :=
  let! rn := make_ends names 0 (k_net cfg) in
  let cfg := with_net cfg rn in
  let! servers := random_handles draw names in
  let ck := fresh (dom (k_clerks cfg)) in
  let cfg := with_clerks cfg (<[ck := names]> (k_clerks cfg)) (k_nextClientId cfg + 1) in
  let! cfg := ConnectClient cfg ck to in
  Ret (cfg, ck, servers).

(** The files it removes are not there. *)
Definition deleteClient cfg (ck : nat) : config := with_clerks cfg (delete ck (k_clerks cfg)) (k_nextClientId cfg).

(** ** Servers *)
Definition kill_server cfg (l : nat) : outcome config :=
  let! s := or_panic (k_heap cfg !! l) in
  let! ' (P, s) := rs_kill (k_peers cfg) s in
  Ret (with_servers cfg P (<[l := s]> (k_heap cfg)) (k_servers cfg)).

Definition ShutdownServer cfg i : outcome config :=
  let! cfg := disconnectUnlocked cfg i (All cfg) in
  (* disable client connections to the server, before the new Persister *)
  let cfg := with_net cfg (DeleteServer (k_net cfg) i) in
  (* a fresh persister with the content of the old one *)
  let! s := slice_get (k_saved cfg) i in
  let! cfg := match s with
              | Some ps =>
                  let! ' (Hp, np) := Copy (k_persisters cfg) ps in
                  let! l := slice_set (k_saved cfg) i (Some np) in Ret (with_saved cfg Hp l)
              | None => Ret cfg
              end in
  let! kv := slice_get (k_servers cfg) i in
  match kv with
  | Some kv =>
      let! cfg := kill_server cfg kv in
      let! l := slice_set (k_servers cfg) i None in
      Ret (with_servers cfg (k_peers cfg) (k_heap cfg) l)
  | None => Ret cfg
  end.

Definition StartServer cfg i (names : list string) : outcome config :=
  (* a fresh set of outgoing ClientEnd names, and of ClientEnds *)
  let! l := slice_set (k_endnames cfg) i (Some names) in
  let cfg := with_endnames cfg l in
  let! rn := make_ends names 0 (k_net cfg) in
  let cfg := with_net cfg rn in
  (* a fresh persister with the content of the old one *)
  let! s := slice_get (k_saved cfg) i in
  let! ' (Hp, np) := match s with
                     | Some ps => Copy (k_persisters cfg) ps
                     | None => Ret (MakePersister (k_persisters cfg))
                     end in
  let! l := slice_set (k_saved cfg) i (Some np) in
  let cfg := with_saved cfg Hp l in
  let! ' (P, s) := rs_start (k_peers cfg) (k_persisters cfg) names i np (k_maxraftstate cfg) in
  let kv := fresh (dom (k_heap cfg)) in
  let! l := slice_set (k_servers cfg) i (Some kv) in
  let cfg := with_servers cfg P (<[kv := s]> (k_heap cfg)) l in
  let! kvsvc := MakeService svc_name (svc_methods kv) in
  let! rfsvc := MakeService "Raft" (raft_methods (rs_rf s)) in
  let '(cfg, srv) := with_srv cfg (AddService (AddService MakeServer kvsvc) rfsvc) in
  Ret (with_net cfg (AddServer (k_net cfg) i srv)).

(** [leads i]: what [GetState] of server [i]'s peer says; nil panics. *)
Fixpoint Leader_loop cfg (leads : Z → bool) (ids : list Z) : outcome (bool * Z) :=
  match ids with
  | [] => Ret (false, 0)
  | i :: ids' =>
      let! o := slice_get (k_servers cfg) i in
      let! _kv := or_panic o in
      if leads i then Ret (true, i) else Leader_loop cfg leads ids'
  end.

Definition Leader cfg (leads : Z → bool) : outcome (bool * Z) := Leader_loop cfg leads (seqZ 0 (k_n cfg)).

(** The loop of [make_partition]: [j] servers have been placed. *)
Fixpoint make_partition_loop (l : Z) (ids : list Z) (j : Z) (p1 p2 : list Z) : outcome (list Z * list Z) :=
  match ids with
  | [] => Ret (p1, p2)
  | i :: ids' =>
      if bool_decide (i ≠ l) then
        if bool_decide (j < zlen p1) then
          let! p1 := slice_set p1 j i in make_partition_loop l ids' (j + 1) p1 p2
        else
          let! p2 := slice_set p2 (j - zlen p1) i in make_partition_loop l ids' (j + 1) p1 p2
      else make_partition_loop l ids' j p1 p2
  end.

Definition make_partition cfg (leads : Z → bool) : outcome (list Z * list Z) :=
  let! ' (_, l) := Leader cfg leads in
  let p1 := replicate (Z.to_nat (Z.quot (k_n cfg) 2 + 1)) 0 in
  let p2 := replicate (Z.to_nat (Z.quot (k_n cfg) 2)) 0 in
  let! ' (p1, p2) := make_partition_loop l (seqZ 0 (k_n cfg)) 0 p1 p2 in
  let! p2 := slice_set p2 (zlen p2 - 1) l in
  Ret (p1, p2).

(** ** Start and end of a test *)
Fixpoint start_all cfg (ids : list Z) (names : Z → list string) : outcome config :=
  match ids with
  | [] => Ret cfg
  | i :: ids' => let! cfg := StartServer cfg i (names i) in start_all cfg ids' names
  end.

Definition make_config (n : Z) (unreliable : bool) (maxraftstate : Z) (names : Z → list string) : outcome config :=
  let nn := Z.to_nat n in
  let cfg := MkConfig MakeNetwork ∅ n ∅ ∅ (replicate nn None) ∅ (replicate nn None) (replicate nn None) ∅
               (n + 1000) maxraftstate in
  (* create a full set of servers *)
  let! cfg := start_all cfg (seqZ 0 n) names in
  let! cfg := ConnectAll cfg in
  Ret (with_net cfg (Reliable (k_net cfg) (negb unreliable))).

Fixpoint kill_all cfg (servers : list (option nat)) : outcome config :=
  match servers with
  | [] => Ret cfg
  | Some l :: servers' => let! cfg := kill_server cfg l in kill_all cfg servers'
  | None :: servers' => kill_all cfg servers'
  end.

(** [failed] and [elapsed]: whether the test failed, and for how long it runs. *)
Definition cleanup cfg (failed : bool) (elapsed : Z) : outcome config :=
  let! cfg := kill_all cfg (k_servers cfg) in
  let! rn := Cleanup (k_net cfg) in
  let! _ := checkTimeout failed elapsed in
  Ret (with_net cfg rn).

Definition rpcTotal cfg : Z := GetTotalCount (k_net cfg).

(** [ops] is a 32-bit counter. *)
Record stats := MkStats { rpcs0 : Z; ops : Z }.

Definition begin cfg : stats := MkStats (rpcTotal cfg) 0.
Definition op (s : stats) : stats := MkStats (rpcs0 s) (wrap_int 32 (ops s + 1)).
(** What is printed, if the test has not failed: peers, RPCs and operations. *)
Definition end_test cfg (s : stats) (failed : bool) (elapsed : Z) : outcome (option (Z * Z * Z)) :=
  let! _ := checkTimeout failed elapsed in
  Ret (if bool_decide (failed = false) then Some (k_n cfg, rpcTotal cfg - rpcs0 s, ops s) else None).

End kv_config.
