(* ===== verification/KvConfigProof.v ===== *)
(** * The service harness shuffles and partitions correctly

    Shuffled handles are a permutation; a partition leaves exactly the links
    within its parts; [make_partition] puts the leader in the smaller part of
    an odd number of servers. *)
From stdpp Require Import base gmap sets numbers strings sorting list.
From S2P Require Import Prelude Labrpc NetAdmin Raft RaftServer KvConfig.
Local Open Scope Z_scope.
Local Open Scope go_scope.

(** ** random_handles *)
Section random_handles.
Context {A : Type}.
Implicit Types (sa : list A).

Lemma swap_spec sa (i j : Z) :
  0 ≤ i < zlen sa → 0 ≤ j < zlen sa →
  ∃ sa', swap sa i j = Ret sa' ∧ sa' ≡ₚ sa.
Proof.
  intros Hi Hj. unfold swap.
  destruct (slice_get_in_range sa j Hj) as (x & -> & Hx).
  destruct (slice_get_in_range sa i Hi) as (y & -> & Hy). simpl.
  unfold slice_set. rewrite bool_decide_eq_true_2 by done. simpl.
  rewrite length_insert, bool_decide_eq_true_2 by done. eexists. split; [done|].
  destruct (decide (Z.to_nat i = Z.to_nat j)) as [Hij|Hij].
  - rewrite Hij in *. rewrite list_insert_insert_eq. assert (y = x) as -> by congruence.
    by rewrite list_insert_id.
  - clear Hi Hj. apply Permutation_inj. split; [by rewrite !length_insert|].
    exists (λ k, if decide (k = Z.to_nat i) then Z.to_nat j else if decide (k = Z.to_nat j) then Z.to_nat i else k).
    split.
    + intros k k'. repeat case_decide; congruence.
    + intros k. apply lookup_lt_Some in Hx as Hlx, Hy as Hly. case_decide as Hki; [|case_decide as Hkj].
      * rewrite Hki, list_lookup_insert_ne, list_lookup_insert_eq by done. done.
      * rewrite Hkj, list_lookup_insert_eq by (by rewrite length_insert). done.
      * by rewrite !list_lookup_insert_ne by done.
Qed.

Lemma random_handles_loop_spec (draw : Z → Z) (ids : list Z) sa :
  (∀ i, 0 ≤ i → 0 ≤ draw i ≤ i) → (∀ i, i ∈ ids → 0 ≤ i < zlen sa) →
  ∃ sa', random_handles_loop draw ids sa = Ret sa' ∧ sa' ≡ₚ sa.
Proof.
  intros Hd. revert sa. induction ids as [|i ids IH]; intros sa Hids; simpl; [by exists sa|].
  pose proof (Hids i ltac:(left)) as Hi. pose proof (Hd i ltac:(lia)).
  destruct (swap_spec sa i (draw i)) as (sa1 & -> & Hp); [lia|lia|]. simpl.
  destruct (IH sa1) as (sa' & -> & Hp'); [|exists sa'; split; [done|by rewrite Hp']].
  intros k Hk. rewrite Hp. apply Hids. by right.
Qed.
End random_handles.

(** [random_handles] never panics and returns a permutation of the
    handles, whatever the random numbers. *)
Theorem random_handles_permutes {A : Type} (draw : Z → Z) (kvh : list A) :
  (∀ i, 0 ≤ i → 0 ≤ draw i ≤ i) →
  ∃ sa, random_handles draw kvh = Ret sa ∧ sa ≡ₚ kvh.
Proof.
  intros Hd. apply random_handles_loop_spec; [done|]. intros i Hi%elem_of_seqZ. lia.
Qed.

Lemma random_handles_permutes_witness :
  ∃ sa, random_handles (λ i, i / 2) ["a"; "b"; "c"; "d"] = Ret sa ∧ sa ≡ₚ ["a"; "b"; "c"; "d"].
Proof.
  apply random_handles_permutes. intros i Hi. split; [by apply Z.div_pos|].
  apply Z.div_le_upper_bound; lia.
Defined.

(** ** make_partition *)
Section make_partition.
Implicit Types (l i : Z) (p : list Z).

(** The two arrays are one, filled from the left. *)
Lemma make_partition_loop_spec l (ids : list Z) (j : nat) p1 p2 :
  (j + length (filter (λ i, i ≠ l) ids) ≤ length p1 + length p2)%nat →
  ∃ p1' p2', make_partition_loop l ids (Z.of_nat j) p1 p2 = Ret (p1', p2') ∧ length p1' = length p1 ∧
    length p2' = length p2 ∧
    p1' ++ p2' = take j (p1 ++ p2) ++ filter (λ i, i ≠ l) ids ++
                 drop (j + length (filter (λ i, i ≠ l) ids)) (p1 ++ p2).
Proof.
  revert j p1 p2. induction ids as [|i ids IH]; intros j p1 p2 Hlen; simpl.
  { exists p1, p2. split_and!; [done..|]. by rewrite Nat.add_0_r, take_drop. }
  rewrite filter_cons in *. case_bool_decide as Hil; [rewrite decide_True in * by done|rewrite decide_False in * by (by intros ?)].
  - simpl in Hlen. set (k := length (filter (λ i, i ≠ l) ids)) in *.
    assert (∀ q, (j < length q)%nat →
      take (S j) (<[j := i]> q) ++ filter (λ i, i ≠ l) ids ++ drop (S j + k) (<[j := i]> q) =
      take j q ++ (i :: filter (λ i, i ≠ l) ids) ++ drop (j + S k) q) as Hq.
    { intros q Hj. rewrite (take_S_r _ _ i) by (by rewrite list_lookup_insert_eq).
      rewrite take_insert_ge, drop_insert_lt by lia. rewrite <-(assoc_L (++)). simpl.
      by replace (j + S k)%nat with (S (j + k)) by lia. }
    replace (Z.of_nat j + 1) with (Z.of_nat (S j)) by lia.
    case_bool_decide as Hj.
    + rewrite slice_set_nat by lia. simpl.
      destruct (IH (S j) (<[j := i]> p1) p2) as (p1' & p2' & -> & Hl1 & Hl2 & Happ).
      { rewrite length_insert. lia. }
      exists p1', p2'. rewrite length_insert in Hl1. split_and!; [done..|].
      rewrite Happ. rewrite <-insert_app_l by lia. apply Hq. rewrite length_app. lia.
    + replace (Z.of_nat j - zlen p1) with (Z.of_nat (j - length p1)) by lia.
      rewrite slice_set_nat by lia. simpl.
      destruct (IH (S j) p1 (<[(j - length p1)%nat := i]> p2)) as (p1' & p2' & -> & Hl1 & Hl2 & Happ).
      { rewrite length_insert. lia. }
      exists p1', p2'. rewrite length_insert in Hl2. split_and!; [done..|].
      rewrite Happ, <-insert_app_r. replace (length p1 + (j - length p1))%nat with j by lia.
      apply Hq. rewrite length_app. lia.
  - apply IH. done.
Qed.

Lemma filter_ne_length (n : nat) l :
  0 ≤ l < Z.of_nat n → length (filter (λ i, i ≠ l) (seqZ 0 (Z.of_nat n))) = (n - 1)%nat.
Proof.
  intros Hl. pose proof (filter_split (λ i, i = l) (seqZ 0 (Z.of_nat n))) as Hp.
  apply Permutation_length in Hp. rewrite length_app, length_seqZ, Nat2Z.id in Hp.
  assert (filter (λ i, i = l) (seqZ 0 (Z.of_nat n)) ≡ₚ [l]) as H1.
  { apply NoDup_Permutation; [apply NoDup_filter, NoDup_seqZ|apply NoDup_singleton|].
    intros x. rewrite list_elem_of_filter, elem_of_seqZ, list_elem_of_singleton. lia. }
  rewrite H1 in Hp. simpl in Hp. lia.
Qed.
End make_partition.

Section partition_theorem.
Context {S W A RT : Type}.
Implicit Types (cfg : config S W A RT) (i l : Z) (leads : Z → bool).

(** The server [make_partition] takes for the leader: the first that says so,
    or server 0. *)
Definition leader_of leads (n : Z) : Z :=
  match filter (λ i, leads i = true) (seqZ 0 n) with i :: _ => i | [] => 0 end.

Lemma Leader_loop_spec cfg leads (ids : list Z) :
  (∀ i, i ∈ ids → ∃ kv, slice_get (k_servers cfg) i = Ret (Some kv)) →
  Leader_loop cfg leads ids =
    Ret (match filter (λ i, leads i = true) ids with i :: _ => (true, i) | [] => (false, 0) end).
Proof.
  induction ids as [|i ids IH]; intros Hids; simpl; [done|].
  destruct (Hids i ltac:(left)) as [kv Hkv]. rewrite Hkv. simpl. rewrite filter_cons.
  destruct (leads i) eqn:Hi.
  - by rewrite decide_True by done.
  - rewrite decide_False by done. apply IH. intros; apply Hids; by right.
Qed.

Lemma leader_of_bounds leads n : 0 < n → 0 ≤ leader_of leads n < n.
Proof.
  intros Hn. unfold leader_of. destruct (filter _ _) as [|i l] eqn:Hf; [lia|].
  assert (i ∈ filter (λ i, leads i = true) (seqZ 0 n)) as Hi by (rewrite Hf; left).
  apply list_elem_of_filter in Hi as [_ Hi%elem_of_seqZ]. lia.
Qed.

Definition running cfg (n : nat) : Prop :=
  k_n cfg = Z.of_nat n ∧ ∀ i, 0 ≤ i < Z.of_nat n → ∃ kv, slice_get (k_servers cfg) i = Ret (Some kv).

Lemma make_partition_eq cfg leads (n : nat) :
  running cfg n →
  make_partition cfg leads =
    let l := leader_of leads (Z.of_nat n) in
    let! ' (p1, p2) := make_partition_loop l (seqZ 0 (Z.of_nat n)) 0
                         (replicate (n / 2 + 1) 0) (replicate (n / 2) 0) in
    let! p2 := slice_set p2 (zlen p2 - 1) l in Ret (p1, p2).
Proof.
  intros [Hn Hkv]. unfold make_partition, Leader. rewrite Hn.
  rewrite Leader_loop_spec by (intros i Hi%elem_of_seqZ; apply Hkv; lia). rewrite obind_Ret.
  assert (Z.quot (Z.of_nat n) 2 = Z.of_nat (n / 2)) as ->.
  { rewrite Z.quot_div_nonneg by lia. by rewrite Nat2Z.inj_div. }
  replace (Z.to_nat (Z.of_nat (n / 2) + 1)) with (n / 2 + 1)%nat by lia. rewrite Nat2Z.id.
  unfold leader_of. by destruct (filter _ (seqZ 0 (Z.of_nat n))).
Qed.

Lemma snoc_last_insert (p1 p2 q : list Z) (x y : Z) :
  p1 ++ p2 = q ++ [x] → p2 ≠ [] → p1 ++ <[(length p2 - 1)%nat := y]> p2 = q ++ [y].
Proof.
  intros Heq Hne. destruct p2 as [|z p2 _] using rev_ind; [done|]. clear Hne.
  rewrite (assoc_L (++)) in Heq. apply app_inj_tail in Heq as [<- <-].
  rewrite length_app. simpl. replace (length p2 + 1 - 1)%nat with (length p2 + 0)%nat by lia.
  by rewrite insert_app_r, (assoc_L (++)).
Qed.

(** The parts of any number of servers, written one after the other. *)
Lemma make_partition_parts cfg leads (n : nat) :
  running cfg n → (2 ≤ n)%nat →
  ∃ p1 p2, make_partition cfg leads = Ret (p1, p2) ∧ length p1 = (n / 2 + 1)%nat ∧ length p2 = (n / 2)%nat ∧
    last p2 = Some (leader_of leads (Z.of_nat n)) ∧
    p1 ++ p2 = filter (λ i, i ≠ leader_of leads (Z.of_nat n)) (seqZ 0 (Z.of_nat n)) ++
               (if Nat.even n then [0] else []) ++ [leader_of leads (Z.of_nat n)].
Proof.
  intros Hr Hn. rewrite (make_partition_eq cfg leads n Hr). cbv zeta.
  set (l := leader_of leads (Z.of_nat n)).
  assert (0 ≤ l < Z.of_nat n) as Hl by (apply leader_of_bounds; lia).
  pose proof (filter_ne_length n l Hl) as Hlen.
  assert (n / 2 + 1 + n / 2 = n - 1 + (if Nat.even n then 2 else 1))%nat as Hsize.
  { destruct (Nat.even n) eqn:He.
    - apply Nat.even_spec in He as [k ->]. rewrite (Nat.mul_comm 2 k), Nat.div_mul by lia. lia.
    - assert (Nat.odd n = true) as Ho by (by rewrite <-Nat.negb_even, He).
      apply Nat.odd_spec in Ho as [k ->]. replace ((2 * k + 1) / 2)%nat with k; [lia|].
      apply (Nat.div_unique _ 2 k 1); lia. }
  assert (1 ≤ n / 2)%nat as Hhalf by (apply Nat.div_le_lower_bound; lia).
  set (h := (n / 2)%nat) in *. clearbody h.
  destruct (make_partition_loop_spec l (seqZ 0 (Z.of_nat n)) 0 (replicate (h + 1) 0) (replicate h 0))
    as (p1 & p2 & Hloop & Hl1 & Hl2 & Happ).
  { rewrite !length_replicate, Hlen. destruct (Nat.even n); lia. }
  rewrite !length_replicate in Hl1, Hl2. change (Z.of_nat 0) with 0 in Hloop.
  rewrite Hloop, obind_Ret.
  replace (zlen p2 - 1) with (Z.of_nat (length p2 - 1)) by lia.
  rewrite slice_set_nat by lia. simpl.
  assert (p2 ≠ []) as Hne by (intros ->; simpl in Hl2; lia).
  eexists p1, _. split; [done|]. rewrite length_insert. split; [done|]. split; [done|]. split.
  { destruct p2 as [|z p2 _] using rev_ind; [done|]. rewrite length_app. simpl.
    replace (length p2 + 1 - 1)%nat with (length p2 + 0)%nat by lia. rewrite insert_app_r. simpl. by rewrite last_snoc. }
  rewrite (assoc_L (++)). apply (snoc_last_insert _ _ _ 0); [|done].
  rewrite Happ, take_0, app_nil_l, <-(assoc_L (++)). f_equal. simpl plus. rewrite Hlen.
  rewrite <-replicate_add, drop_replicate, Hsize.
  replace (n - 1 + (if Nat.even n then 2 else 1) - (n - 1))%nat with (if Nat.even n then 2 else 1)%nat by lia.
  by destruct (Nat.even n).
Qed.

Lemma others_perm (n : nat) l :
  0 ≤ l < Z.of_nat n → filter (λ i, i ≠ l) (seqZ 0 (Z.of_nat n)) ++ [l] ≡ₚ seqZ 0 (Z.of_nat n).
Proof.
  intros Hl. apply NoDup_Permutation; [|apply NoDup_seqZ|].
  - apply NoDup_app. split; [apply NoDup_filter, NoDup_seqZ|]. split; [|apply NoDup_singleton].
    intros x [Hne _]%list_elem_of_filter Hx%list_elem_of_singleton. done.
  - intros x. rewrite elem_of_app, list_elem_of_filter, list_elem_of_singleton, elem_of_seqZ.
    destruct (decide (x = l)); naive_solver lia.
Qed.
End partition_theorem.

(** with an odd number of running servers (at least three),
    [make_partition] splits them into two parts, the second smaller and with
    the leader last; with an even number it also leaves server 0 in the
    second part, where it may already be in the first. *)
Theorem make_partition_splits {S W A RT : Type} (cfg : config S W A RT) (leads : Z → bool) (n : nat) :
  running cfg n → (2 ≤ n)%nat →
  ∃ p1 p2, make_partition cfg leads = Ret (p1, p2) ∧
    length p1 = (n / 2 + 1)%nat ∧ length p2 = (n / 2)%nat ∧
    last p2 = Some (leader_of leads (Z.of_nat n)) ∧
    (Nat.odd n = true → p1 ++ p2 ≡ₚ seqZ 0 (Z.of_nat n)) ∧
    (Nat.even n = true → p1 ++ p2 ≡ₚ 0 :: seqZ 0 (Z.of_nat n)).
Proof.
  intros Hr Hn. destruct (make_partition_parts cfg leads n Hr Hn) as (p1 & p2 & Hm & Hl1 & Hl2 & Hlast & Happ).
  exists p1, p2. split_and!; [done..| |]; intros Ho; rewrite Happ.
  - rewrite <-Nat.negb_even in Ho. destruct (Nat.even n); [done|]. apply others_perm, leader_of_bounds. lia.
  - rewrite Ho. simpl. etransitivity; [symmetry; apply Permutation_middle|].
    apply perm_skip, others_perm, leader_of_bounds. lia.
Qed.

(** ** Links *)
Section links.
Context {S W A RT : Type}.
Implicit Types (cfg : config S W A RT) (a b i : Z) (n : nat).

(** The name of the end of [a] to [b]. *)
Definition end_of cfg a b : string := match endname cfg a b with Ret e => e | _ => "" end.

Definition in_range n a : Prop := 0 ≤ a < Z.of_nat n.

(** Every server has its ends, and they are all different. *)
Record wired cfg n : Prop := {
  wi_n : k_n cfg = Z.of_nat n;
  wi_row : ∀ a, in_range n a → ∃ row, slice_get (k_endnames cfg) a = Ret (Some row);
  wi_end : ∀ a b, in_range n a → in_range n b → endname cfg a b = Ret (end_of cfg a b);
  wi_inj : ∀ a b a' b', in_range n a → in_range n b → in_range n a' → in_range n b' →
    end_of cfg a b = end_of cfg a' b' → a = a' ∧ b = b';
}.

Definition link cfg a b : bool := enabled_of (k_net cfg) (end_of cfg a b).

Lemma wired_net cfg n rn : wired cfg n → wired (with_net cfg rn) n.
Proof. intros []. by split. Qed.

Lemma connect_ends_all (name : Z → outcome string) (nm : Z → string) (to : list Z) rn :
  (∀ j, j ∈ to → name j = Ret (nm j)) → connect_ends name to rn = Ret (enable_all rn (nm <$> to) true).
Proof.
  revert rn. induction to as [|j to IH]; intros rn Hn; simpl; [done|].
  rewrite (Hn j) by left. simpl. apply IH. intros; apply Hn; by right.
Qed.

Lemma disconnect_ends_all cfg n (row name_ : Z → Z) (name : Z → outcome string) (nm : Z → string) (from : list Z) k rn :
  wired cfg n → (∀ j, j ∈ from → name j = Ret (nm j)) →
  (∀ p, k ≤ p < k + zlen from → in_range n (row p)) →
  disconnect_ends cfg row name k from rn = Ret (enable_all rn (nm <$> from) false).
Proof.
  intros Hw. revert k rn. induction from as [|j from IH]; intros k rn Hn Hk; simpl; [done|].
  destruct (wi_row _ _ Hw (row k)) as [r ->]; [apply Hk; simpl; lia|]. simpl.
  rewrite (Hn j) by left. simpl. apply IH; [intros; apply Hn; by right|].
  intros p Hp. apply Hk. simpl. lia.
Qed.

(** The links of [i] with the servers of a list. *)
Definition touches i (js : list Z) a b : Prop := (a = i ∧ b ∈ js) ∨ (b = i ∧ a ∈ js).
#[local] Instance touches_dec i js a b : Decision (touches i js a b).
Proof. unfold touches. apply _. Defined.

Lemma set_links cfg n i (js : list Z) (v : bool) a b :
  wired cfg n → in_range n i → Forall (in_range n) js → in_range n a → in_range n b →
  enabled_of (enable_all (enable_all (k_net cfg) (end_of cfg i <$> js) v)
    ((λ j, end_of cfg j i) <$> js) v) (end_of cfg a b) =
  if decide (touches i js a b) then v else link cfg a b.
Proof.
  intros Hw Hi Hjs Ha Hb. rewrite Forall_forall in Hjs. rewrite !enable_all_enabled.
  assert (end_of cfg a b ∈ (λ j, end_of cfg j i) <$> js ↔ b = i ∧ a ∈ js) as Hin.
  { rewrite list_elem_of_fmap. split.
    - intros (j & Heq & Hj). destruct (wi_inj _ _ Hw a b j i) as [-> ->]; auto.
    - intros [-> Hj]. by exists a. }
  assert (end_of cfg a b ∈ end_of cfg i <$> js ↔ a = i ∧ b ∈ js) as Hout.
  { rewrite list_elem_of_fmap. split.
    - intros (j & Heq & Hj). destruct (wi_inj _ _ Hw a b i j) as [-> ->]; auto.
    - intros [-> Hj]. by exists b. }
  unfold touches, link. destruct (decide (end_of cfg a b ∈ (λ j, end_of cfg j i) <$> js)) as [H1|H1];
    [|destruct (decide (end_of cfg a b ∈ end_of cfg i <$> js)) as [H2|H2]];
    [rewrite decide_True by tauto|rewrite decide_True by tauto|rewrite decide_False by tauto]; done.
Qed.

Lemma connectUnlocked_spec cfg n i (to : list Z) :
  wired cfg n → in_range n i → Forall (in_range n) to →
  ∃ rn, connectUnlocked cfg i to = Ret (with_net cfg rn) ∧ net_rest rn = net_rest (k_net cfg) ∧
    rn_ends rn = rn_ends (k_net cfg) ∧ (∀ e, connection_of rn e = connection_of (k_net cfg) e) ∧
    ∀ a b, in_range n a → in_range n b →
      link (with_net cfg rn) a b = if decide (touches i to a b) then true else link cfg a b.
Proof.
  intros Hw Hi Hto. pose proof Hto as Hto'. rewrite Forall_forall in Hto'. unfold connectUnlocked.
  rewrite (connect_ends_all _ (end_of cfg i)) by (intros; apply (wi_end _ _ Hw); auto). simpl.
  rewrite (connect_ends_all _ (λ j, end_of cfg j i)) by (intros; apply (wi_end _ _ Hw); auto). simpl.
  eexists. split; [done|]. split; [by rewrite !enable_all_rest|]. split; [by rewrite !enable_all_ends|].
  split; [intros; by rewrite !enable_all_connection|].
  intros a b Ha Hb. by apply (set_links cfg n).
Qed.

Lemma disconnectUnlocked_spec cfg n i (from : list Z) :
  wired cfg n → in_range n i → Forall (in_range n) from → (length from ≤ n)%nat →
  ∃ rn, disconnectUnlocked cfg i from = Ret (with_net cfg rn) ∧ net_rest rn = net_rest (k_net cfg) ∧
    rn_ends rn = rn_ends (k_net cfg) ∧ (∀ e, connection_of rn e = connection_of (k_net cfg) e) ∧
    (∀ e, enabled_of rn e = true → enabled_of (k_net cfg) e = true) ∧
    ∀ a b, in_range n a → in_range n b →
      link (with_net cfg rn) a b = if decide (touches i from a b) then false else link cfg a b.
Proof.
  intros Hw Hi Hfrom Hlen. pose proof Hfrom as Hfrom'. rewrite Forall_forall in Hfrom'. unfold disconnectUnlocked.
  rewrite (disconnect_ends_all cfg n _ id _ (end_of cfg i)); [simpl|done| |done]; last first.
  { intros; apply (wi_end _ _ Hw); auto. }
  rewrite (disconnect_ends_all cfg n _ id _ (λ j, end_of cfg j i)); [simpl|done| |]; last first.
  { unfold in_range. lia. }
  { intros; apply (wi_end _ _ Hw); auto. }
  eexists. split; [done|]. split; [by rewrite !enable_all_rest|]. split; [by rewrite !enable_all_ends|].
  split; [intros; by rewrite !enable_all_connection|]. split.
  { intros e. rewrite !enable_all_enabled. by repeat case_decide. }
  intros a b Ha Hb. by apply (set_links cfg n).
Qed.

(** ** partition *)
Definition within (ids mine : list Z) a b : Prop := (a ∈ ids ∧ b ∈ mine) ∨ (b ∈ ids ∧ a ∈ mine).
#[local] Instance within_dec ids mine a b : Decision (within ids mine a b).
Proof. unfold within. apply _. Defined.

Lemma partition_loop_spec cfg n (ids mine others : list Z) :
  wired cfg n → (∀ i, i ∈ ids → i ∈ mine) → (∀ i, i ∈ mine → i ∈ others → False) →
  Forall (in_range n) mine → Forall (in_range n) others → (length others ≤ n)%nat →
  ∃ rn, partition_loop cfg ids mine others = Ret (with_net cfg rn) ∧ net_rest rn = net_rest (k_net cfg) ∧
    (∀ e, connection_of rn e = connection_of (k_net cfg) e) ∧
    ∀ a b, in_range n a → in_range n b →
      link (with_net cfg rn) a b =
        if decide (within ids mine a b) then true
        else if decide (within ids others a b) then false else link cfg a b.
Proof.
  intros Hw Hsub Hdisj Hmine Hothers Hlen. revert cfg Hw.
  induction ids as [|i ids IH]; intros cfg Hw; [|cbn [partition_loop]].
  { exists (k_net cfg). split; [by destruct cfg|]. do 2 (split; [done|]). intros a b _ _.
    rewrite !decide_False by (unfold within; set_solver). by destruct cfg. }
  assert (in_range n i) as Hi by (rewrite Forall_forall in Hmine; apply Hmine, Hsub; left).
  destruct (disconnectUnlocked_spec cfg n i others Hw Hi Hothers Hlen) as (rn1 & -> & Hr1 & _ & Hc1 & _ & Hl1). simpl.
  destruct (connectUnlocked_spec (with_net cfg rn1) n i mine) as (rn2 & -> & Hr2 & _ & Hc2 & Hl2); [by apply wired_net|done..|].
  simpl. destruct (IH (λ j Hj, Hsub j (list_elem_of_further _ _ _ Hj)) (with_net (with_net cfg rn1) rn2))
    as (rn & -> & Hr & Hc & Hl); [by apply wired_net, wired_net|].
  exists rn. split; [done|]. split; [by transitivity (net_rest rn2); [|transitivity (net_rest rn1)]|].
  split; [intros e; etransitivity; [apply Hc|]; etransitivity; [apply Hc2|apply Hc1]|]. intros a b Ha Hb.
  specialize (Hl a b Ha Hb). specialize (Hl2 a b Ha Hb). specialize (Hl1 a b Ha Hb).
  change (with_net (with_net (with_net cfg rn1) rn2) rn) with (with_net cfg rn) in Hl.
  change (with_net (with_net cfg rn1) rn2) with (with_net cfg rn2) in Hl, Hl2.
  rewrite Hl, Hl2, Hl1. clear -Hsub Hdisj.
  pose proof (Hdisj a). pose proof (Hdisj b). pose proof (Hsub i ltac:(left)) as Him.
  assert (a ∈ ids → a ∈ mine) by (intros; apply Hsub; by right).
  assert (b ∈ ids → b ∈ mine) by (intros; apply Hsub; by right).
  assert (within (i :: ids) mine a b ↔ touches i mine a b ∨ within ids mine a b) as Hm
    by (unfold within, touches; rewrite !elem_of_cons; tauto).
  assert (within (i :: ids) others a b ↔ touches i others a b ∨ within ids others a b) as Ho
    by (unfold within, touches; rewrite !elem_of_cons; tauto).
  assert (within ids others a b → touches i mine a b → False) as Hx.
  { unfold within, touches. intuition (subst; auto). }
  destruct (decide (within ids mine a b)); [by rewrite decide_True by tauto|].
  destruct (decide (within ids others a b)).
  { rewrite decide_False by tauto. by rewrite decide_True by tauto. }
  destruct (decide (touches i mine a b)); [by rewrite decide_True by tauto|].
  rewrite (decide_False (P := within (i :: ids) mine a b)) by tauto.
  destruct (decide (touches i others a b)); [by rewrite decide_True by tauto|by rewrite decide_False by tauto].
Qed.

Lemma partition_spec cfg n (p1 p2 : list Z) :
  wired cfg n → (∀ i, i ∈ p1 → i ∈ p2 → False) →
  Forall (in_range n) p1 → Forall (in_range n) p2 → (length p1 ≤ n)%nat → (length p2 ≤ n)%nat →
  ∃ rn, partition cfg p1 p2 = Ret (with_net cfg rn) ∧ net_rest rn = net_rest (k_net cfg) ∧
    (∀ e, connection_of rn e = connection_of (k_net cfg) e) ∧
    ∀ a b, in_range n a → in_range n b →
      link (with_net cfg rn) a b =
        if decide ((a ∈ p1 ∧ b ∈ p1) ∨ (a ∈ p2 ∧ b ∈ p2)) then true
        else if decide ((a ∈ p1 ∧ b ∈ p2) ∨ (a ∈ p2 ∧ b ∈ p1)) then false else link cfg a b.
Proof.
  intros Hw Hdisj H1 H2 Hlen1 Hlen2. unfold partition.
  destruct (partition_loop_spec cfg n p1 p1 p2 Hw (λ i Hi, Hi) Hdisj H1 H2 Hlen2) as (rn1 & -> & Hr1 & Hc1 & Hl1). simpl.
  destruct (partition_loop_spec (with_net cfg rn1) n p2 p2 p1) as (rn & -> & Hr & Hc & Hl); try done.
  { by apply wired_net. }
  { intros i Hi Hi'. by apply (Hdisj i). }
  exists rn. split; [done|]. split; [by transitivity (net_rest rn1)|].
  split; [intros e; etransitivity; [apply Hc|apply Hc1]|]. intros a b Ha Hb.
  specialize (Hl a b Ha Hb). specialize (Hl1 a b Ha Hb).
  change (with_net (with_net cfg rn1) rn) with (with_net cfg rn) in Hl. rewrite Hl, Hl1.
  pose proof (Hdisj a). pose proof (Hdisj b). unfold within.
  destruct (decide ((a ∈ p2 ∧ b ∈ p2) ∨ (b ∈ p2 ∧ a ∈ p2))) as [Hd|Hd]; [by rewrite decide_True by tauto|].
  destruct (decide ((a ∈ p2 ∧ b ∈ p1) ∨ (b ∈ p2 ∧ a ∈ p1))).
  { rewrite decide_False by tauto. by rewrite decide_True by tauto. }
  destruct (decide ((a ∈ p1 ∧ b ∈ p1) ∨ (b ∈ p1 ∧ a ∈ p1))); [by rewrite decide_True by tauto|].
  rewrite (decide_False (P := (a ∈ p1 ∧ b ∈ p1) ∨ (a ∈ p2 ∧ b ∈ p2))) by tauto.
  by rewrite !decide_False by tauto.
Qed.
End links.

(** Partitioning an odd number of servers as [make_partition] says leaves
    exactly the links between servers of the same part, so the leader reaches
    fewer servers than a majority, and the rest are a majority. *)
Lemma partition_isolates_leader {S W A RT : Type} (cfg : config S W A RT) (leads : Z → bool) (n : nat) :
  wired cfg n → running cfg n → (2 ≤ n)%nat → Nat.odd n = true →
  ∃ p1 p2 rn, make_partition cfg leads = Ret (p1, p2) ∧ p1 ++ p2 ≡ₚ seqZ 0 (Z.of_nat n) ∧
    partition cfg p1 p2 = Ret (with_net cfg rn) ∧
    (∀ a b, in_range n a → in_range n b → link (with_net cfg rn) a b = true ↔ (a ∈ p1 ↔ b ∈ p1)) ∧
    leader_of leads (Z.of_nat n) ∈ p2 ∧ (2 * length p2 < n < 2 * length p1)%nat ∧
    net_rest rn = net_rest (k_net cfg) ∧ ∀ e, connection_of rn e = connection_of (k_net cfg) e.
Proof.
  intros Hw Hr Hn Ho.
  destruct (make_partition_parts cfg leads n Hr Hn) as (p1 & p2 & Hm & Hl1 & Hl2 & Hlast & Happ).
  assert (p1 ++ p2 ≡ₚ seqZ 0 (Z.of_nat n)) as Hperm.
  { rewrite Happ. rewrite <-Nat.negb_even in Ho. destruct (Nat.even n); [done|].
    apply others_perm, leader_of_bounds. lia. }
  assert (∀ i, in_range n i ↔ i ∈ p1 ∨ i ∈ p2) as Hin.
  { intros i. rewrite <-elem_of_app, Hperm, elem_of_seqZ. unfold in_range. lia. }
  assert (∀ i, i ∈ p1 → i ∈ p2 → False) as Hdisj.
  { assert (NoDup (p1 ++ p2)) as Hnd by (rewrite Hperm; apply NoDup_seqZ).
    intros i. by apply NoDup_app_disjoint. }
  assert (length p1 + length p2 = n)%nat as Hlen.
  { rewrite <-length_app, Hperm, length_seqZ. lia. }
  destruct (partition_spec cfg n p1 p2) as (rn & Hp & Hrest & Hconn & Hlink); try done; try lia.
  { apply Forall_forall. intros i Hi. apply Hin. by left. }
  { apply Forall_forall. intros i Hi. apply Hin. by right. }
  exists p1, p2, rn. split_and!; [done..| | |lia|lia|done|done].
  - intros a b Ha Hb. rewrite (Hlink a b Ha Hb). apply Hin in Ha, Hb.
    pose proof (Hdisj a). pose proof (Hdisj b).
    repeat case_decide; split; done || tauto.
  - destruct p2 as [|z p2 _] using rev_ind; [done|]. rewrite last_snoc in Hlast. injection Hlast as ->. set_solver.
Qed.
