(* ===== verification/KvRestart.v ===== *)
(** * The service harness starts, shuts down and restarts servers

    [kinv] relates the harness' books to the network and the heaps; every
    server operation keeps it. *)
From stdpp Require Import base gmap sets numbers strings sorting list.
From S2P Require Import Prelude Labrpc LabrpcProof NetAdmin Raft RaftServer Kvraft KvConfig KvConfigProof.
Local Open Scope Z_scope.
Local Open Scope go_scope.

Section restart.
Context {S W A RT : Type} `{RaftServer S}.
Implicit Types (cfg : config S W A RT) (i j n : nat) (e : string) (names : list string).

Definition kcur cfg i j e : Prop :=
  ∃ row, k_endnames cfg !! i = Some (Some row) ∧ row !! j = Some e.

(** Server [kv] is there, and so is its peer. *)
Definition alive cfg (kv : nat) : Prop :=
  ∃ s, k_heap cfg !! kv = Some s ∧ is_Some (k_peers cfg !! rs_rf s).

Record kinv cfg n : Prop := {
  ki_n : k_n cfg = Z.of_nat n;
  ki_servers : length (k_servers cfg) = n;
  ki_saved : length (k_saved cfg) = n;
  ki_endnames : length (k_endnames cfg) = n;
  ki_rows : ∀ i row, k_endnames cfg !! i = Some (Some row) → length row = n;
  ki_inj : ∀ i j i' j' e, kcur cfg i j e → kcur cfg i' j' e → i = i' ∧ j = j';
  ki_ends : ∀ i j e, kcur cfg i j e → e ∈ rn_ends (k_net cfg);
  ki_conn : ∀ i j e, kcur cfg i j e → connection_of (k_net cfg) e = Some (Z.of_nat j);
  ki_persisters : ∀ i ps, k_saved cfg !! i = Some (Some ps) → is_Some (k_persisters cfg !! ps);
  ki_alive : ∀ i kv, k_servers cfg !! i = Some (Some kv) → alive cfg kv;
}.

Definition all_rows cfg n : Prop := ∀ i, (i < n)%nat → ∃ row, k_endnames cfg !! i = Some (Some row).

Lemma kendname_cur cfg i j e : endname cfg (Z.of_nat i) (Z.of_nat j) = Ret e ↔ kcur cfg i j e.
Proof.
  unfold endname, kcur. rewrite slice_get_nat. destruct (k_endnames cfg !! i) as [[row|]|]; simpl.
  - rewrite slice_get_nat, or_panic_Ret. naive_solver.
  - naive_solver.
  - naive_solver.
Qed.

Lemma end_of_cur cfg i j e : kcur cfg i j e → end_of cfg (Z.of_nat i) (Z.of_nat j) = e.
Proof. intros He%kendname_cur. unfold end_of. by rewrite He. Qed.

Lemma in_range_nat n (a : Z) : in_range n a → ∃ k : nat, a = Z.of_nat k ∧ (k < n)%nat.
Proof. unfold in_range. intros Ha. exists (Z.to_nat a). lia. Qed.

Lemma kinv_wired cfg n : kinv cfg n → all_rows cfg n → wired cfg n.
Proof.
  intros I Hrows.
  assert (∀ i j, (i < n)%nat → (j < n)%nat → ∃ e, kcur cfg i j e) as Hcur.
  { intros i j Hi Hj. destruct (Hrows i Hi) as [row Hrow].
    destruct (lookup_lt_is_Some_2 row j) as [e He]; [by rewrite (ki_rows _ _ I _ _ Hrow)|]. by exists e, row. }
  split; [apply (ki_n _ _ I)| | |].
  - intros a (k & -> & Hk)%in_range_nat. destruct (Hrows k Hk) as [row Hrow]. exists row. by rewrite slice_get_nat, Hrow.
  - intros a b (i & -> & Hi)%in_range_nat (j & -> & Hj)%in_range_nat. destruct (Hcur i j Hi Hj) as [e He].
    rewrite (end_of_cur cfg i j e He). by apply kendname_cur.
  - intros a b a' b' (i & -> & Hi)%in_range_nat (j & -> & Hj)%in_range_nat (i' & -> & Hi')%in_range_nat (j' & -> & Hj')%in_range_nat.
    destruct (Hcur i j Hi Hj) as [e He], (Hcur i' j' Hi' Hj') as [e' He'].
    rewrite (end_of_cur cfg i j e He), (end_of_cur cfg i' j' e' He'). intros <-.
    by destruct (ki_inj _ _ I _ _ _ _ _ He He') as [-> ->].
Qed.

Lemma kinv_net cfg n rn :
  kinv cfg n → rn_ends rn = rn_ends (k_net cfg) →
  (∀ e, connection_of rn e = connection_of (k_net cfg) e) → kinv (with_net cfg rn) n.
Proof.
  intros [] Hends Hconn. split; try done; simpl.
  - intros i j e Hc. rewrite Hends. by eapply ki_ends0.
  - intros i j e Hc. rewrite Hconn. by eapply ki_conn0.
Qed.

(** The content of the persister kept for a server. *)
Definition saved_state cfg i : option persister :=
  match k_saved cfg !! i with Some (Some ps) => k_persisters cfg !! ps | _ => None end.

(** ** StartServer *)

(** Whether the network is cleaned up, or holds replies back. *)
Definition quiet (rn : Network string Z) : bool * bool := (rn_done rn, rn_longReordering rn).

Lemma net_rest_quiet rn rn' : net_rest rn' = net_rest rn → quiet rn' = quiet rn.
Proof. unfold net_rest, quiet. congruence. Qed.

Lemma net_rest_reliable (rn rn' : Network string Z) : net_rest rn' = net_rest rn → rn_reliable rn' = rn_reliable rn.
Proof. unfold net_rest. congruence. Qed.

Record started cfg cfg' i names : Prop := {
  st_n : k_n cfg' = k_n cfg;
  st_endnames : k_endnames cfg' = <[i := Some names]> (k_endnames cfg);
  st_server : ∃ kv s np, k_servers cfg' = <[i := Some kv]> (k_servers cfg) ∧ k_heap cfg !! kv = None ∧
    k_heap cfg' = <[kv := s]> (k_heap cfg) ∧
    k_peers cfg !! rs_rf s = None ∧ k_peers cfg' = <[rs_rf s := MkRaft names np (Z.of_nat i) 0]> (k_peers cfg) ∧
    k_saved cfg' = <[i := Some np]> (k_saved cfg) ∧ k_persisters cfg !! np = None ∧
    k_persisters cfg' = <[np := default (MkPersisterState [] []) (saved_state cfg i)]> (k_persisters cfg);
  st_registered : ∃ sl srv, server_of (k_net cfg') (Z.of_nat i) = Some sl ∧ k_srvs cfg' !! sl = Some srv ∧
    k_srvs cfg !! sl = None;
  st_servers : ∀ snm, snm ≠ Z.of_nat i → server_of (k_net cfg') snm = server_of (k_net cfg) snm;
  st_enabled : ∀ e, enabled_of (k_net cfg') e = if decide (e ∈ names) then false else enabled_of (k_net cfg) e;
  st_ends : rn_ends (k_net cfg') = list_to_set names ∪ rn_ends (k_net cfg);
  st_old : ∀ e, e ∉ names → connection_of (k_net cfg') e = connection_of (k_net cfg) e;
  st_new : ∀ j e, names !! j = Some e → connection_of (k_net cfg') e = Some (Z.of_nat j);
  st_quiet : quiet (k_net cfg') = quiet (k_net cfg);
}.

(** Server [i] is the object [kv] with the state [s]: the services under its
    name are those of this object and of its peer, and the peer is not killed
    and has the persister [np], which is the one that the harness saved. *)
Record incarnation (svc_name : string) (svc_methods : nat → list (rmethod W A RT)) (raft_methods : rloc → list (rmethod W A RT))
    cfg i names (kv : nat) (s : S) (np : ploc) : Prop := {
  ru_server : k_servers cfg !! i = Some (Some kv);
  ru_state : k_heap cfg !! kv = Some s;
  ru_peer : k_peers cfg !! rs_rf s = Some (MkRaft names np (Z.of_nat i) 0);
  ru_saved : k_saved cfg !! i = Some (Some np);
  ru_services : ∃ sl svc rsvc, server_of (k_net cfg) (Z.of_nat i) = Some sl ∧
    MakeService svc_name (svc_methods kv) = Ret svc ∧ MakeService "Raft" (raft_methods (rs_rf s)) = Ret rsvc ∧
    k_srvs cfg !! sl = Some (AddService (AddService MakeServer svc) rsvc);
}.

Lemma kstart_persister cfg n i o :
  kinv cfg n → k_saved cfg !! i = Some o →
  ∃ np, match o with
        | Some ps => Copy (k_persisters cfg) ps
        | None => Ret (MakePersister (k_persisters cfg))
        end = Ret (<[np := default (MkPersisterState [] []) (saved_state cfg i)]> (k_persisters cfg), np) ∧
    k_persisters cfg !! np = None.
Proof.
  intros I Ho. unfold saved_state. rewrite Ho. destruct o as [ps|].
  - destruct (ki_persisters _ _ I i ps Ho) as [p Hp].
    destruct (Copy_spec _ ps p Hp) as (H1 & np & -> & Hf & ->). exists np. by rewrite Hp.
  - eexists. split; [done|]. apply fresh_persister.
Qed.

Lemma kcur_insert cfg cfg' n i names k j e :
  kinv cfg n → (i < n)%nat → k_endnames cfg' = <[i := Some names]> (k_endnames cfg) →
  kcur cfg' k j e ↔ (k = i ∧ names !! j = Some e) ∨ (k ≠ i ∧ kcur cfg k j e).
Proof.
  intros I Hi He. unfold kcur. rewrite He. destruct (decide (k = i)) as [->|Hne].
  - rewrite list_lookup_insert_eq by (by rewrite (ki_endnames _ _ I)). naive_solver.
  - rewrite list_lookup_insert_ne by done. naive_solver.
Qed.

(** The books are in order again after a start. *)
Lemma started_kinv cfg cfg' n i names :
  kinv cfg n → (i < n)%nat → length names = n → NoDup names → (∀ e, e ∈ names → e ∉ rn_ends (k_net cfg)) →
  started cfg cfg' i names → kinv cfg' n.
Proof.
  intros I Hi Hlen Hnd Hfresh Hst. destruct (st_server _ _ _ _ Hst) as (kv & s & np & Hsrv & Hkv & Hheap & Hrf & Hpeers & Hsaved & Hnp & Hpers).
  assert (∀ k j e, kcur cfg' k j e ↔ (k = i ∧ names !! j = Some e) ∨ (k ≠ i ∧ kcur cfg k j e)) as Hcur
    by (intros; apply (kcur_insert cfg _ n i names); [done..|apply (st_endnames _ _ _ _ Hst)]).
  assert (∀ k j e, kcur cfg k j e → e ∉ names) as Hold.
  { intros k j e Hk%(ki_ends _ _ I) Hin. by apply (Hfresh e Hin). }
  assert (∀ j e, names !! j = Some e → e ∈ names) as Hname by (intros j e; apply list_elem_of_lookup_2).
  split; rewrite ?(st_n _ _ _ _ Hst), ?Hsrv, ?Hsaved, ?(st_endnames _ _ _ _ Hst), ?length_insert; try apply I.
  - intros k row [(_ & [= <-] & _)|[_ Hk]]%list_lookup_insert_Some; [done|by eapply (ki_rows _ _ I)].
  - intros k j k' j' e. rewrite !Hcur. intros [[-> Hj]|[Hk Hj]] [[-> Hj']|[Hk' Hj']].
    + split; [done|]. by eapply NoDup_lookup.
    + destruct (Hold _ _ _ Hj'). by eapply Hname.
    + destruct (Hold _ _ _ Hj). by eapply Hname.
    + by eapply (ki_inj _ _ I).
  - intros k j e. rewrite Hcur, (st_ends _ _ _ _ Hst), elem_of_union, elem_of_list_to_set.
    intros [[_ Hj]|[_ Hj]]; [left; by eapply Hname|right; by eapply (ki_ends _ _ I)].
  - intros k j e. rewrite Hcur. intros [[_ Hj]|[_ Hj]]; [by apply (st_new _ _ _ _ Hst)|].
    rewrite (st_old _ _ _ _ Hst) by (by eapply Hold). by eapply (ki_conn _ _ I).
  - rewrite Hpers. intros k ps [(_ & [= <-] & _)|[_ Hk]]%list_lookup_insert_Some.
    + rewrite lookup_insert_eq. by eexists.
    + destruct (ki_persisters _ _ I _ _ Hk) as [p Hpp]. exists p. rewrite lookup_insert_ne; [done|congruence].
  - unfold alive. rewrite Hheap, Hpeers. intros k kv' [(_ & [= <-] & _)|[_ Hk]]%list_lookup_insert_Some.
    + exists s. rewrite !lookup_insert_eq. split; [done|by eexists].
    + destruct (ki_alive _ _ I _ _ Hk) as (s' & Hs' & [rf Hrf']). exists s'.
      rewrite !lookup_insert_ne by congruence. split; [done|by eexists].
Qed.

Lemma StartServer_spec (svc_name : string) (svc_methods : nat → list (rmethod W A RT)) (raft_methods : rloc → list (rmethod W A RT))
    cfg n i names :
  kinv cfg n → (i < n)%nat → length names = n → NoDup names → (∀ e, e ∈ names → e ∉ rn_ends (k_net cfg)) →
  ∃ cfg', StartServer svc_name svc_methods raft_methods cfg (Z.of_nat i) names = Ret cfg' ∧
    started cfg cfg' i names ∧ kinv cfg' n ∧
    ∃ kv s np, incarnation svc_name svc_methods raft_methods cfg' i names kv s np.
Proof.
  intros I Hi Hlen Hnd Hfresh. unfold StartServer.
  rewrite slice_set_nat by (by rewrite (ki_endnames _ _ I)). rewrite obind_Ret.
  destruct (make_ends_spec names 0 (k_net cfg) Hnd Hfresh) as (rn & Hrn & Hrest & Hends & Hen & Hco & Hnth).
  change (make_ends names 0 _) with (make_ends names (Z.of_nat 0) (k_net cfg)). rewrite Hrn. simpl.
  destruct (lookup_lt_is_Some_2 (k_saved cfg) i) as [o Ho]; [by rewrite (ki_saved _ _ I)|].
  rewrite slice_get_nat, Ho. simpl. destruct (kstart_persister cfg n i o I Ho) as (np & -> & Hnp). simpl.
  rewrite slice_set_nat by (by rewrite (ki_saved _ _ I)). simpl.
  set (Hp := <[np := _]> (k_persisters cfg)).
  destruct (rs_persister_in (k_peers cfg) Hp names (Z.of_nat i) np (k_maxraftstate cfg)) as [[P s] Hs].
  { unfold Hp. rewrite lookup_insert_eq. by eexists. }
  rewrite Hs. simpl. destruct (rs_start_new _ _ _ _ _ _ _ _ Hs) as [Hrf ->].
  rewrite slice_set_nat by (by rewrite (ki_servers _ _ I)). simpl.
  destruct (MakeService_returns svc_name (svc_methods (fresh (dom (k_heap cfg))))) as [svc Hsvc]. rewrite Hsvc. simpl.
  destruct (MakeService_returns "Raft" (raft_methods (rs_rf s))) as [rsvc Hrsvc]. rewrite Hrsvc. simpl.
  assert (k_heap cfg !! fresh (dom (k_heap cfg)) = None) as Hkv by apply not_elem_of_dom, is_fresh.
  assert (k_srvs cfg !! fresh (dom (k_srvs cfg)) = None) as Hsl by apply not_elem_of_dom, is_fresh.
  eexists. split; [done|]. match goal with |- started _ ?c _ _ ∧ _ => assert (started cfg c i names) as Hst end.
  { split; simpl; try done.
    - by eexists _, s, np.
    - eexists _, _. unfold AddServer. rewrite server_of_set, decide_True by done. split; [done|].
      split; [apply lookup_insert_eq|done].
    - intros snm Hsnm. unfold AddServer. rewrite server_of_set, decide_False by done.
      apply (net_rest_server_of _ _ snm Hrest).
    - exact (net_rest_quiet _ _ Hrest). }
  split; [done|]. split; [by apply (started_kinv cfg _ n i names)|].
  exists (fresh (dom (k_heap cfg))), s, np. split; simpl.
  - by rewrite list_lookup_insert_eq by (by rewrite (ki_servers _ _ I)).
  - apply lookup_insert_eq.
  - apply lookup_insert_eq.
  - by rewrite list_lookup_insert_eq by (by rewrite (ki_saved _ _ I)).
  - eexists _, svc, rsvc. unfold AddServer. rewrite server_of_set, decide_True by done.
    split_and!; [done|done|done|apply lookup_insert_eq].
Qed.

(** What was new in the start is what runs. *)
Lemma started_running cfg cfg' n i names svc_name svc_methods raft_methods kv s np :
  kinv cfg n → (i < n)%nat → started cfg cfg' i names →
  incarnation svc_name svc_methods raft_methods cfg' i names kv s np →
  k_heap cfg !! kv = None ∧ k_heap cfg' = <[kv := s]> (k_heap cfg) ∧
  k_peers cfg' = <[rs_rf s := MkRaft names np (Z.of_nat i) 0]> (k_peers cfg) ∧ k_peers cfg !! rs_rf s = None ∧
  k_persisters cfg !! np = None ∧
  k_persisters cfg' = <[np := default (MkPersisterState [] []) (saved_state cfg i)]> (k_persisters cfg).
Proof.
  intros I Hi Hst [Hserver Hstate _ Hsaved _].
  destruct (st_server _ _ _ _ Hst) as (kv' & s' & np' & Ek & Hkv & Eh & Hrf & Ep & Es & Hnp & Epers).
  rewrite Ek, list_lookup_insert_eq in Hserver by (by rewrite (ki_servers _ _ I)).
  rewrite Es, list_lookup_insert_eq in Hsaved by (by rewrite (ki_saved _ _ I)). simplify_eq.
  rewrite Eh, lookup_insert_eq in Hstate. by simplify_eq.
Qed.

(** ** ShutdownServer *)
Record stopped cfg cfg' i : Prop := {
  sp_endnames : k_endnames cfg' = k_endnames cfg;
  sp_servers : k_servers cfg' = <[i := None]> (k_servers cfg);
  sp_killed : ∀ kv, k_servers cfg !! i = Some (Some kv) →
    ∃ s rf, k_heap cfg' !! kv = Some s ∧ k_peers cfg' !! rs_rf s = Some rf ∧ Raft_killed rf = true;
  sp_deleted : ∀ snm, server_of (k_net cfg') snm =
    if decide (snm = Z.of_nat i) then None else server_of (k_net cfg) snm;
  sp_saved : saved_state cfg' i = saved_state cfg i;
  sp_fresh : ∀ ps, k_saved cfg' !! i = Some (Some ps) → k_persisters cfg !! ps = None;
  sp_persisters : k_persisters cfg ⊆ k_persisters cfg';
  sp_links : ∀ a b, link cfg' a b = enabled_of (k_net cfg') (end_of cfg a b);
  sp_ends : rn_ends (k_net cfg') = rn_ends (k_net cfg);
}.

(** The persister of a stopped server: a fresh copy, if there is one. *)
Lemma shutdown_persister cfg n i :
  kinv cfg n → (i < n)%nat →
  ∃ Hp l,
    (let! s := slice_get (k_saved cfg) (Z.of_nat i) in
     match s with
     | Some ps =>
         let! ' (Hp, np) := Copy (k_persisters cfg) ps in
         let! l := slice_set (k_saved cfg) (Z.of_nat i) (Some np) in Ret (with_saved cfg Hp l)
     | None => Ret cfg
     end) = Ret (with_saved cfg Hp l) ∧
    k_persisters cfg ⊆ Hp ∧ length l = n ∧
    saved_state (with_saved cfg Hp l) i = saved_state cfg i ∧
    (∀ ps, l !! i = Some (Some ps) → k_persisters cfg !! ps = None) ∧
    (∀ k ps, l !! k = Some (Some ps) → is_Some (Hp !! ps)).
Proof.
  intros I Hi. rewrite slice_get_nat.
  destruct (lookup_lt_is_Some_2 (k_saved cfg) i) as [o Ho]; [by rewrite (ki_saved _ _ I)|].
  rewrite Ho. simpl. destruct o as [ps|].
  - destruct (ki_persisters _ _ I i ps Ho) as [p Hp].
    destruct (Copy_spec _ ps p Hp) as (H1 & np & -> & Hf & ->). simpl.
    rewrite slice_set_nat by (by rewrite (ki_saved _ _ I)). simpl.
    eexists _, _. split; [done|]. split; [by apply insert_subseteq|].
    rewrite length_insert, (ki_saved _ _ I). split; [done|].
    assert (<[i := Some np]> (k_saved cfg) !! i = Some (Some np)) as Hl.
    { apply list_lookup_insert_eq. by rewrite (ki_saved _ _ I). }
    split_and!.
    + unfold saved_state. simpl. rewrite Hl, lookup_insert_eq, Ho. by rewrite Hp.
    + rewrite Hl. by intros ps' [= <-].
    + intros k ps' [(_ & [= <-] & _)|[_ Hk]]%list_lookup_insert_Some.
      * rewrite lookup_insert_eq. by eexists.
      * destruct (ki_persisters _ _ I _ _ Hk) as [p' Hp']. exists p'. rewrite lookup_insert_ne; [done|congruence].
  - exists (k_persisters cfg), (k_saved cfg). split; [by destruct cfg|]. split; [done|].
    split; [apply (ki_saved _ _ I)|]. split; [by destruct cfg|]. rewrite Ho. split; [done|].
    apply (ki_persisters _ _ I).
Qed.

Lemma alive_kill cfg kv s rf s' kv' :
  k_heap cfg !! kv = Some s → k_peers cfg !! rs_rf s = Some rf → rs_rf s' = rs_rf s → alive cfg kv' →
  alive (with_servers cfg (<[rs_rf s := Raft_Kill rf]> (k_peers cfg)) (<[kv := s']> (k_heap cfg)) (k_servers cfg)) kv'.
Proof.
  intros Hkv Hrf Hs' (s2 & Hs2 & [rf2 Hrf2]). unfold alive. simpl.
  destruct (decide (kv = kv')) as [<-|Hne].
  - exists s'. rewrite lookup_insert_eq. split; [done|]. rewrite Hs', lookup_insert_eq. by eexists.
  - exists s2. rewrite lookup_insert_ne by done. split; [done|].
    destruct (decide (rs_rf s = rs_rf s2)) as [->|Hne2].
    + rewrite lookup_insert_eq. by eexists.
    + rewrite lookup_insert_ne by done. by eexists.
Qed.

(** The network of a stopped server: its links are down, its name is gone. *)
Lemma shutdown_net cfg n i :
  kinv cfg n → all_rows cfg n → (i < n)%nat →
  ∃ rn, disconnectUnlocked cfg (Z.of_nat i) (All cfg) = Ret (with_net cfg rn) ∧
    let cfg1 := with_net cfg (DeleteServer rn (Z.of_nat i)) in
    kinv cfg1 n ∧ rn_ends (k_net cfg1) = rn_ends (k_net cfg) ∧
    (∀ snm, server_of (k_net cfg1) snm = if decide (snm = Z.of_nat i) then None else server_of (k_net cfg) snm) ∧
    ∀ a b, in_range n a → in_range n b →
      link cfg1 a b = if decide (a = Z.of_nat i ∨ b = Z.of_nat i) then false else link cfg a b.
Proof.
  intros I Hrows Hi. pose proof (kinv_wired cfg n I Hrows) as Hw.
  destruct (disconnectUnlocked_spec cfg n (Z.of_nat i) (All cfg) Hw) as (rn & -> & Hrest & Hends & Hco & Hen & Hlink).
  { unfold in_range. lia. }
  { unfold All. rewrite (ki_n _ _ I). apply Forall_forall. intros a Ha%elem_of_seqZ. unfold in_range. lia. }
  { unfold All. rewrite (ki_n _ _ I), length_seqZ. lia. }
  exists rn. split; [done|]. split; [by apply kinv_net|]. split; [done|]. split.
  - intros snm. unfold DeleteServer. cbn [k_net with_net]. rewrite server_of_set.
    by rewrite (net_rest_server_of _ _ snm Hrest).
  - intros a b Ha Hb. change (link (with_net cfg (DeleteServer rn (Z.of_nat i))) a b) with (link (with_net cfg rn) a b).
    rewrite (Hlink a b Ha Hb). unfold touches, All. rewrite (ki_n _ _ I).
    assert (∀ c, in_range n c → c ∈ seqZ 0 (Z.of_nat n)) as Hseq by (intros c Hc; apply elem_of_seqZ; unfold in_range in Hc; lia).
    pose proof (Hseq a Ha). pose proof (Hseq b Hb). repeat case_decide; tauto.
Qed.

Lemma ShutdownServer_spec cfg n i :
  kinv cfg n → all_rows cfg n → (i < n)%nat →
  ∃ cfg', ShutdownServer cfg (Z.of_nat i) = Ret cfg' ∧ stopped cfg cfg' i ∧ kinv cfg' n ∧
    ∀ a b, in_range n a → in_range n b →
      link cfg' a b = if decide (a = Z.of_nat i ∨ b = Z.of_nat i) then false else link cfg a b.
Proof.
  intros I Hrows Hi. unfold ShutdownServer.
  destruct (shutdown_net cfg n i I Hrows Hi) as (rn & -> & I1 & Hends & Hdeleted & Hlink).
  rewrite obind_Ret. set (cfg1 := with_net cfg (DeleteServer rn (Z.of_nat i))) in *.
  change (with_net (with_net cfg rn) _) with cfg1.
  destruct (shutdown_persister cfg1 n i I1 Hi) as (Hp & l & Hpers & Hsub & Hll & Hsaved & Hfresh & Hpok).
  rewrite <-obind_assoc. rewrite Hpers, obind_Ret.
  set (cfg2 := with_saved cfg1 Hp l).
  rewrite slice_get_nat. simpl.
  destruct (lookup_lt_is_Some_2 (k_servers cfg) i) as [o Ho]; [by rewrite (ki_servers _ _ I)|].
  rewrite Ho. simpl. destruct o as [kv|].
  - destruct (ki_alive _ _ I i kv Ho) as (s & Hs & [rf Hrf]).
    destruct (rs_kill_rf (k_peers cfg) s rf Hrf) as (s' & Hkill & Hs').
    unfold kill_server. simpl. rewrite Hs. simpl. rewrite Hkill. simpl.
    rewrite slice_set_nat by (by rewrite (ki_servers _ _ I)). simpl.
    eexists. split; [done|]. split_and!; [| |exact Hlink].
    + split; try done; simpl.
      intros kv' [= <-]%(eq_trans (eq_sym Ho)). exists s', (Raft_Kill rf).
      rewrite lookup_insert_eq. split; [done|]. rewrite Hs', lookup_insert_eq. split; [done|by apply bool_decide_eq_true_2].
    + destruct I1. split; simpl; try done.
      * by rewrite length_insert.
      * intros k kv' [(_ & ? & _)|[Hne Hk]]%list_lookup_insert_Some; [done|].
        pose proof (alive_kill cfg kv s rf s' kv' Hs Hrf Hs' (ki_alive _ _ I _ _ Hk)) as (s2 & Hs2 & Hrf2).
        by exists s2.
  - eexists. split; [done|]. split_and!; [| |exact Hlink].
    + split; try done; simpl.
      * by rewrite list_insert_id.
      * intros kv. by rewrite Ho.
    + destruct I1. by split.
Qed.

(** ** A whole group *)
(** The names drawn for [n] servers: all different. *)
Definition group_names (names : Z → list string) n : Prop :=
  (∀ i, (i < n)%nat → length (names (Z.of_nat i)) = n ∧ NoDup (names (Z.of_nat i))) ∧
  (∀ i j e, (i < n)%nat → (j < n)%nat → e ∈ names (Z.of_nat i) → e ∈ names (Z.of_nat j) → i = j).

(** The first [k] servers run. *)
Definition up_to cfg k : Prop :=
  ∀ i, (i < k)%nat →
    (∃ row, k_endnames cfg !! i = Some (Some row)) ∧ (∃ kv, k_servers cfg !! i = Some (Some kv)) ∧
    is_Some (server_of (k_net cfg) (Z.of_nat i)).

Lemma up_to_started cfg cfg' n names k :
  kinv cfg n → (k < n)%nat → started cfg cfg' k names → up_to cfg k → up_to cfg' (Datatypes.S k).
Proof.
  intros I Hk Hst Hup i Hi. destruct Hst as [_ Hrow (kv & s & np & Hsrv & _) (sl & srv & Hreg & _) Hothers _ _].
  rewrite Hrow, Hsrv. destruct (decide (i = k)) as [->|Hne].
  - rewrite !list_lookup_insert_eq by (rewrite ?(ki_endnames _ _ I), ?(ki_servers _ _ I); done).
    rewrite Hreg. by eauto.
  - rewrite !list_lookup_insert_ne by done. rewrite Hothers by lia. apply Hup. lia.
Qed.

Lemma service_start_all_spec (svc_name : string) (svc_methods : nat → list (rmethod W A RT)) (raft_methods : rloc → list (rmethod W A RT))
    cfg n k m (names : Z → list string) :
  kinv cfg n → (k + m = n)%nat → group_names names n → up_to cfg k →
  (∀ e, e ∈ rn_ends (k_net cfg) → ∃ i, (i < k)%nat ∧ e ∈ names (Z.of_nat i)) →
  ∃ cfg', start_all svc_name svc_methods raft_methods cfg (Z.of_nat <$> seq k m) names = Ret cfg' ∧
    kinv cfg' n ∧ up_to cfg' n ∧
    (∀ e, e ∈ rn_ends (k_net cfg') → ∃ i, (i < n)%nat ∧ e ∈ names (Z.of_nat i)) ∧
    quiet (k_net cfg') = quiet (k_net cfg).
Proof.
  intros I Hkm [Hlen Hdisj] Hup Hends. revert cfg k I Hkm Hup Hends.
  induction m as [|m IH]; intros cfg k I Hkm Hup Hends; csimpl.
  { exists cfg. replace n with k by lia. by replace n with k in I by lia. }
  destruct (Hlen k ltac:(lia)) as [Hl Hnd].
  destruct (StartServer_spec svc_name svc_methods raft_methods cfg n k (names (Z.of_nat k)) I) as (cfg1 & -> & Hst & I1 & _); [lia|done|done| |].
  { intros e He (i & Hi & He')%Hends. pose proof (Hdisj i k e ltac:(lia) ltac:(lia) He' He). lia. }
  rewrite obind_Ret, <-(st_quiet _ _ _ _ Hst). apply IH; [done|lia|apply (up_to_started cfg cfg1 n (names (Z.of_nat k))); done || lia|].
  intros e. rewrite (st_ends _ _ _ _ Hst), elem_of_union, elem_of_list_to_set.
  intros [He|(i & Hi & He)%Hends]; [exists k|exists i]; split; done || lia.
Qed.

Lemma ConnectAll_loop_spec cfg n (ids : list Z) :
  kinv cfg n → all_rows cfg n → Forall (in_range n) ids →
  ∃ rn, ConnectAll_loop cfg ids = Ret (with_net cfg rn) ∧ net_rest rn = net_rest (k_net cfg) ∧
    rn_ends rn = rn_ends (k_net cfg) ∧ kinv (with_net cfg rn) n ∧
    ∀ a b, in_range n a → in_range n b →
      link (with_net cfg rn) a b = if decide (a ∈ ids ∨ b ∈ ids) then true else link cfg a b.
Proof.
  intros I Hrows Hids. revert cfg I Hrows. induction Hids as [|i ids Hi _ IH]; intros cfg I Hrows; simpl.
  { exists (k_net cfg). split; [by destruct cfg|]. split; [done|]. split; [done|]. split; [by apply kinv_net|].
    intros a b _ _. by destruct cfg. }
  destruct (connectUnlocked_spec cfg n i (All cfg)) as (rn & -> & Hrest & Hends & Hco & Hlink).
  { by apply kinv_wired. }
  { done. }
  { unfold All. rewrite (ki_n _ _ I). apply Forall_forall. intros a Ha%elem_of_seqZ. unfold in_range. lia. }
  simpl. destruct (IH (with_net cfg rn)) as (rn' & -> & Hrest' & Hends' & I' & Hlink').
  { by apply kinv_net. }
  { done. }
  exists rn'. split; [done|]. split; [by rewrite Hrest'|]. split; [by rewrite Hends'|]. split; [done|]. intros a b Ha Hb.
  change (with_net (with_net cfg rn) rn') with (with_net cfg rn') in Hlink'.
  rewrite (Hlink' a b Ha Hb), (Hlink a b Ha Hb). unfold touches, All. rewrite (ki_n _ _ I).
  assert (∀ c, in_range n c → c ∈ seqZ 0 (Z.of_nat n)) as Hseq
    by (intros c Hc; apply elem_of_seqZ; unfold in_range in Hc; lia).
  pose proof (Hseq a Ha). pose proof (Hseq b Hb). pose proof (elem_of_cons ids a i). pose proof (elem_of_cons ids b i).
  destruct (decide (a ∈ ids ∨ b ∈ ids)); [by rewrite decide_True by tauto|].
  destruct (decide (a = i ∨ b = i)); [by rewrite !decide_True by tauto|by rewrite !decide_False by tauto].
Qed.

Lemma kinv_blank n (mrs : Z) :
  kinv (MkConfig MakeNetwork ∅ (Z.of_nat n) ∅ ∅ (replicate n None) ∅ (replicate n None) (replicate n None) ∅
          (Z.of_nat n + 1000) mrs : config S W A RT) n.
Proof.
  assert (∀ T i (x : T), replicate n None !! i = Some (Some x) → False) as Hnone.
  { intros T i x [? _]%lookup_replicate. done. }
  split; simpl; rewrite ?length_replicate; try done.
  - intros i row []%Hnone.
  - intros i j i' j' e (row & []%Hnone & _).
  - intros i j e (row & []%Hnone & _).
  - intros i j e (row & []%Hnone & _).
  - intros i ps []%Hnone.
  - intros i kv []%Hnone.
Qed.

(** Starting a stopped server: the links of the others stay, the server's own
    stay down. *)
Lemma restart_links cfg cfg1 cfg2 n i names :
  kinv cfg n → all_rows cfg n → (i < n)%nat → length names = n → (∀ e, e ∈ names → e ∉ rn_ends (k_net cfg)) →
  k_endnames cfg1 = k_endnames cfg →
  (∀ a b, in_range n a → in_range n b →
    enabled_of (k_net cfg1) (end_of cfg a b) = if decide (a = Z.of_nat i ∨ b = Z.of_nat i) then false else link cfg a b) →
  started cfg1 cfg2 i names →
  ∀ a b, in_range n a → in_range n b →
    link cfg2 a b = if decide (a = Z.of_nat i ∨ b = Z.of_nat i) then false else link cfg a b.
Proof.
  intros I Hrows Hi Hlen Hfresh Heq Hlink Hst a b Ha Hb. unfold link at 1. rewrite (st_enabled _ _ _ _ Hst).
  destruct (in_range_nat n a Ha) as (k & -> & Hk), (in_range_nat n b Hb) as (j & -> & Hj).
  assert (k_endnames cfg2 = <[i := Some names]> (k_endnames cfg)) as Hends
    by (by rewrite (st_endnames _ _ _ _ Hst), Heq).
  destruct (decide (k = i)) as [->|Hki].
  - rewrite (decide_True (P := Z.of_nat i = _ ∨ _)) by (by left).
    destruct (lookup_lt_is_Some_2 names j) as [e He]; [by rewrite Hlen|].
    rewrite (end_of_cur cfg2 i j e); [by rewrite decide_True by (by eapply list_elem_of_lookup_2)|].
    apply (kcur_insert cfg cfg2 n i names i j e I Hi Hends). by left.
  - destruct (Hrows k Hk) as [row Hrow].
    destruct (lookup_lt_is_Some_2 row j) as [e He]; [by rewrite (ki_rows _ _ I _ _ Hrow)|].
    assert (kcur cfg k j e) as Hcur by (by exists row).
    rewrite (end_of_cur cfg2 k j e) by (apply (kcur_insert cfg cfg2 n i names k j e I Hi Hends); by right).
    rewrite decide_False by (intros He'; exact (Hfresh e He' (ki_ends _ _ I _ _ _ Hcur))).
    rewrite <-(Hlink _ _ Ha Hb), (end_of_cur cfg k j e Hcur). done.
Qed.
End restart.

(** [make_config] starts a whole group: every server runs, is known to
    the network and has a persister; each server has its own ends, and every
    two are connected. *)
Lemma service_make_config_spec {S W A RT : Type} `{RaftServer S} (svc_name : string)
    (svc_methods : nat → list (rmethod W A RT)) (raft_methods : rloc → list (rmethod W A RT))
    (n : nat) (unreliable : bool) (maxraftstate : Z) (names : Z → list string) :
  group_names names n →
  ∃ cfg : config S W A RT,
    make_config svc_name svc_methods raft_methods (Z.of_nat n) unreliable maxraftstate names = Ret cfg ∧
    kinv cfg n ∧ all_rows cfg n ∧ wired cfg n ∧ running cfg n ∧
    (∀ i, (i < n)%nat → is_Some (server_of (k_net cfg) (Z.of_nat i))) ∧
    (∀ a b, in_range n a → in_range n b → link cfg a b = true) ∧
    (∀ e, e ∈ rn_ends (k_net cfg) → ∃ i, (i < n)%nat ∧ e ∈ names (Z.of_nat i)) ∧
    rn_reliable (k_net cfg) = negb unreliable ∧ quiet (k_net cfg) = (false, false).
Proof.
  intros Hnames. unfold make_config. rewrite Nat2Z.id, seqZ_seq.
  destruct (service_start_all_spec svc_name svc_methods raft_methods _ n 0 n names (kinv_blank n maxraftstate))
    as (cfg & -> & I & Hup & Hin & Hq); [done|done|intros i; lia|intros e []%not_elem_of_empty|].
  assert (all_rows cfg n) as Hrows by (intros i Hi; apply (Hup i Hi)).
  rewrite obind_Ret. unfold ConnectAll. rewrite (ki_n _ _ I).
  destruct (ConnectAll_loop_spec cfg n (seqZ 0 (Z.of_nat n)) I Hrows) as (rn & -> & Hrest & Hends & I' & Hlink).
  { apply Forall_forall. intros a Ha%elem_of_seqZ. unfold in_range. lia. }
  rewrite obind_Ret. set (cfg' := with_net _ _).
  assert (kinv cfg' n) as I2 by (by apply kinv_net).
  exists cfg'. split_and!; try done.
  - by apply kinv_wired.
  - split; [apply (ki_n _ _ I2)|]. intros a Ha. destruct (in_range_nat n a Ha) as (i & -> & Hi).
    destruct (Hup i Hi) as (_ & [kv Hkv] & _). exists kv. simpl. by rewrite slice_get_nat, Hkv.
  - intros i Hi. destruct (Hup i Hi) as (_ & _ & Hs). unfold cfg'. simpl.
    by rewrite <-(net_rest_server_of _ _ (Z.of_nat i) Hrest) in Hs.
  - intros a b Ha Hb. change (link cfg' a b) with (link (with_net cfg rn) a b). rewrite (Hlink a b Ha Hb).
    by rewrite decide_True by (left; apply elem_of_seqZ; unfold in_range in Ha; lia).
  - intros e He. apply Hin. rewrite <-Hends. exact He.
  - unfold quiet. simpl. change (quiet rn = (false, false)). by rewrite (net_rest_quiet _ _ Hrest).
Qed.

(** C29: a restart keeps what the server persisted, state and snapshot, and
    the new instance runs on it: after [ShutdownServer] and [StartServer] the
    old instance is killed and its name deleted from the network; the server
    is a new object, which alone serves the name again, and its peer, not
    killed, has the persister that the harness saved, which nobody had before
    and whose content is the old one; the server's links are down until it is
    connected, the links between the others are as before, and the books of
    the harness agree again. *)
Theorem restart_keeps_state {S W A RT : Type} `{RaftServer S} (svc_name : string)
    (svc_methods : nat → list (rmethod W A RT)) (raft_methods : rloc → list (rmethod W A RT))
    (cfg : config S W A RT) (n i : nat) (names : list string) :
  kinv cfg n → all_rows cfg n → (i < n)%nat →
  length names = n → NoDup names → (∀ e, e ∈ names → e ∉ rn_ends (k_net cfg)) →
  ∃ cfg1 cfg2 kv s np, ShutdownServer cfg (Z.of_nat i) = Ret cfg1 ∧
    StartServer svc_name svc_methods raft_methods cfg1 (Z.of_nat i) names = Ret cfg2 ∧
    kinv cfg2 n ∧
    server_of (k_net cfg1) (Z.of_nat i) = None ∧
    incarnation svc_name svc_methods raft_methods cfg2 i names kv s np ∧
    (∀ old, k_servers cfg !! i = Some (Some old) → old ≠ kv ∧
      ∃ s0 rf, k_heap cfg2 !! old = Some s0 ∧ k_peers cfg2 !! rs_rf s0 = Some rf ∧ Raft_killed rf = true) ∧
    k_persisters cfg !! np = None ∧
    k_persisters cfg2 !! np = Some (default (MkPersisterState [] []) (saved_state cfg i)) ∧
    k_persisters cfg ⊆ k_persisters cfg2 ∧
    ∀ a b, in_range n a → in_range n b →
      link cfg2 a b = if decide (a = Z.of_nat i ∨ b = Z.of_nat i) then false else link cfg a b.
Proof.
  intros I Hrows Hi Hlen Hnd Hfresh.
  destruct (ShutdownServer_spec cfg n i I Hrows Hi) as (cfg1 & -> & Hsp & I1 & Hlink).
  destruct (StartServer_spec svc_name svc_methods raft_methods cfg1 n i names I1 Hi Hlen Hnd)
    as (cfg2 & Hstart & Hst & I2 & kv & s & np & Hrun).
  { intros e. rewrite (sp_ends _ _ _ Hsp). apply Hfresh. }
  destruct (started_running _ _ n _ _ _ _ _ _ _ _ I1 Hi Hst Hrun) as (Hkv & Hheap & Hpeers & Hrf & Hnp & Hpers).
  exists cfg1, cfg2, kv, s, np. split_and!; [done|done|done| |done| | | | |].
  - rewrite (sp_deleted _ _ _ Hsp). by rewrite decide_True.
  - intros old Hold. destruct (sp_killed _ _ _ Hsp old Hold) as (s0 & rf & Hs & Hsrf & Hk). split; [congruence|].
    exists s0, rf. rewrite Hheap, Hpeers, !lookup_insert_ne by congruence. done.
  - destruct (k_persisters cfg !! np) as [p|] eqn:Hp; [|done].
    pose proof (lookup_weaken _ _ _ _ Hp (sp_persisters _ _ _ Hsp)). congruence.
  - by rewrite Hpers, lookup_insert_eq, <-(sp_saved _ _ _ Hsp).
  - etransitivity; [apply (sp_persisters _ _ _ Hsp)|]. rewrite Hpers. by apply insert_subseteq.
  - apply (restart_links cfg cfg1 cfg2 n i names); try done; [apply (sp_endnames _ _ _ Hsp)|].
    intros a b Ha Hb. rewrite <-(sp_links _ _ _ Hsp). by apply Hlink.
Qed.

(** ** A group of three kvraft servers *)
Abbreviation kv_config := (config KVServer unit unit unit).
Abbreviation no_methods := (λ _, []).

Definition demo_names (i : Z) : list string :=
  if bool_decide (i = 0) then ["00"; "01"; "02"]
  else if bool_decide (i = 1) then ["10"; "11"; "12"]
  else ["20"; "21"; "22"].

Lemma demo_group_names : group_names demo_names 3.
Proof.
  split.
  - intros i Hi. destruct i as [|[|[|]]]; [split; [done|compute_done]..|lia].
  - intros i j e Hi Hj He He'.
    destruct i as [|[|[|]]], j as [|[|[|]]]; try lia; exfalso;
      apply list_elem_of_In in He, He'; vm_compute in He, He'; intuition congruence.
Qed.

Abbreviation demo_made := (service_make_config_spec (S := KVServer) (W := unit) (A := unit) (RT := unit)
  "KVServer" no_methods no_methods 3 false (-1) demo_names demo_group_names).

Lemma make_partition_splits_witness :
  ∃ (cfg : kv_config) p1 p2,
    make_config "KVServer" no_methods no_methods (Z.of_nat 3) false (-1) demo_names = Ret cfg ∧
    make_partition cfg (λ i, bool_decide (i = 1)) = Ret (p1, p2) ∧ length p1 = 2%nat ∧ last p2 = Some 1.
Proof.
  destruct demo_made as (cfg & Hm & _ & _ & _ & Hr & _).
  destruct (make_partition_splits cfg (λ i, bool_decide (i = 1)) 3 Hr) as (p1 & p2 & Hp & Hl1 & _ & Hlast & _); [lia|].
  exists cfg, p1, p2. exact (conj Hm (conj Hp (conj Hl1 Hlast))).
Defined.

Lemma restart_keeps_state_witness :
  ∃ (cfg cfg1 cfg2 : kv_config) kv s np,
    make_config "KVServer" no_methods no_methods (Z.of_nat 3) false (-1) demo_names = Ret cfg ∧
    ShutdownServer cfg (Z.of_nat 1) = Ret cfg1 ∧
    StartServer "KVServer" no_methods no_methods cfg1 (Z.of_nat 1) ["x0"; "x1"; "x2"] = Ret cfg2 ∧ kinv cfg2 3 ∧
    incarnation "KVServer" no_methods no_methods cfg2 1 ["x0"; "x1"; "x2"] kv s np.
Proof.
  destruct demo_made as (cfg & Hm & I & Hrows & _ & _ & _ & _ & Hends & _).
  destruct (restart_keeps_state "KVServer" no_methods no_methods cfg 3 1 ["x0"; "x1"; "x2"] I Hrows)
    as (cfg1 & cfg2 & kv & s & np & H1 & H2 & I2 & _ & Hrun & _); [lia|reflexivity|compute_done| |].
  { intros e He (i & Hi & He')%Hends. destruct i as [|[|[|]]]; try lia;
    apply list_elem_of_In in He, He'; vm_compute in He, He'; intuition congruence. }
  exists cfg, cfg1, cfg2, kv, s, np. exact (conj Hm (conj H1 (conj H2 (conj I2 Hrun)))).
Defined.
