(* ===== verification/SmConfig.v ===== *)
(** * The harness of the configuration service (shardmaster/config.go)

    Its text is that of kvraft/config.go with [ShardMaster] for [KVServer],
    without the statistics and the snapshot size; so each operation is the one
    of [KvConfig] at the server of [Shardmaster].  [StartServer] there takes
    no [maxraftstate], and the server ignores it. *)
From stdpp Require Import base gmap sets numbers strings sorting list.
From S2P Require Import Prelude Labrpc LabrpcProof NetAdmin Raft RaftServer.
From S2P Require Shardmaster KvConfig Random.
From S2P Require Import KvConfigProof KvRestart.
Import Shardmaster (ShardMaster, Clerk, MakeClerk).
Local Open Scope Z_scope.
Local Open Scope go_scope.

#[local] Existing Instance Shardmaster.ShardMaster_RaftServer.

(** The text of [randstring] and [checkTimeout] is that of the other harnesses. *)
Definition randstring : (list Z → list Z) → Z → outcome string := Random.randstring.
Definition checkTimeout : bool → Z → outcome unit := Random.checkTimeout.

Definition random_handles {A : Type} : (Z → Z) → list A → outcome (list A) := KvConfig.random_handles.

Definition config (W A RT : Type) : Type := KvConfig.config ShardMaster W A RT.

Section sm_config.
Context {W A RT : Type}.
Context (sm_methods : nat → list (rmethod W A RT)) (raft_methods : rloc → list (rmethod W A RT)).
Abbreviation config := (config W A RT).
Implicit Types (cfg : config) (i : Z).

Definition LogSize : config → outcome Z := KvConfig.LogSize.

Definition connectUnlocked : config → Z → list Z → outcome config := KvConfig.connectUnlocked.
Definition connect : config → Z → list Z → outcome config := KvConfig.connect.
Definition disconnectUnlocked : config → Z → list Z → outcome config := KvConfig.disconnectUnlocked.
Definition disconnect : config → Z → list Z → outcome config := KvConfig.disconnect.
Definition All : config → list Z := KvConfig.All.
Definition ConnectAll : config → outcome config := KvConfig.ConnectAll.
Definition partition : config → list Z → list Z → outcome config := KvConfig.partition.

Definition ConnectClient : config → nat → list Z → outcome config := KvConfig.ConnectClient.
Definition DisconnectClient : config → nat → list Z → outcome config := KvConfig.DisconnectClient.

Definition makeClient cfg (names : list string) (draw : Z → Z) (to : list Z)
    : outcome (config * nat * Clerk string) :=
  let! ' (cfg, ck, servers) := KvConfig.makeClient cfg names draw to in
  Ret (cfg, ck, MakeClerk servers).

Definition deleteClient : config → nat → config := KvConfig.deleteClient.

Definition ShutdownServer : config → Z → outcome config := KvConfig.ShutdownServer.

Definition StartServer : config → Z → list string → outcome config :=
  KvConfig.StartServer "ShardMaster" sm_methods raft_methods.

Definition Leader : config → (Z → bool) → outcome (bool * Z) := KvConfig.Leader.

Definition make_partition : config → (Z → bool) → outcome (list Z * list Z) := KvConfig.make_partition.

Definition make_config (n : Z) (unreliable : bool) (names : Z → list string) : outcome config :=
  KvConfig.make_config "ShardMaster" sm_methods raft_methods n unreliable 0 names.

Definition cleanup : config → bool → Z → outcome config := KvConfig.cleanup.
End sm_config.

(** C30: a harness for an odd number of shardmasters starts, whatever names are
    drawn; then the partition that [make_partition] computes leaves exactly
    the links between servers of the same part, the leader (as [GetState]
    tells) being in the part that is less than a majority. *)
Theorem group_partitions {W A RT : Type} (sm_methods : nat → list (rmethod W A RT))
    (raft_methods : rloc → list (rmethod W A RT)) (n : nat) (unreliable : bool)
    (names : Z → list string) (leads : Z → bool) :
  group_names names n → (2 ≤ n)%nat → Nat.odd n = true →
  ∃ cfg p1 p2 rn, make_config sm_methods raft_methods (Z.of_nat n) unreliable names = Ret cfg ∧
    make_partition cfg leads = Ret (p1, p2) ∧ p1 ++ p2 ≡ₚ seqZ 0 (Z.of_nat n) ∧
    partition cfg p1 p2 = Ret (KvConfig.with_net cfg rn) ∧
    (∀ a b, in_range n a → in_range n b → link (KvConfig.with_net cfg rn) a b = true ↔ (a ∈ p1 ↔ b ∈ p1)) ∧
    leader_of leads (Z.of_nat n) ∈ p2 ∧ (2 * length p2 < n < 2 * length p1)%nat.
Proof.
  intros Hnames Hn Ho.
  destruct (service_make_config_spec (S := ShardMaster) "ShardMaster" sm_methods raft_methods n unreliable 0 names Hnames)
    as (cfg & Hm & _ & _ & Hw & Hr & _).
  destruct (partition_isolates_leader cfg leads n Hw Hr Hn Ho) as (p1 & p2 & rn & Hp & Hperm & Hpart & Hlink & Hlead & Hmin & _).
  by exists cfg, p1, p2, rn.
Qed.

Lemma group_partitions_witness :
  ∃ (cfg : config unit unit unit) p1 p2 rn,
    make_config no_methods no_methods (Z.of_nat 3) false demo_names = Ret cfg ∧
    make_partition cfg (λ i, bool_decide (i = 1)) = Ret (p1, p2) ∧ p1 ++ p2 ≡ₚ seqZ 0 (Z.of_nat 3) ∧
    partition cfg p1 p2 = Ret (KvConfig.with_net cfg rn) ∧
    (∀ a b, in_range 3 a → in_range 3 b → link (KvConfig.with_net cfg rn) a b = true ↔ (a ∈ p1 ↔ b ∈ p1)) ∧
    leader_of (λ i, bool_decide (i = 1)) (Z.of_nat 3) ∈ p2 ∧ (2 * length p2 < 3 < 2 * length p1)%nat.
Proof.
  apply (group_partitions no_methods no_methods 3 false demo_names (λ i, bool_decide (i = 1)) demo_group_names);
    [lia|reflexivity].
Defined.
