(* ===== verification/HarnessCalls.v ===== *)
(** * Calls on a partitioned service (labrpc and kvraft/config.go together)

    The harness of a replicated service makes a network, and the calls of its
    servers are executions of the step relation of that network.  Here: what
    [make_config], [make_partition] and [partition] leave behind separates the
    parts for the calls themselves, whatever the calls are, and leaves calls
    within a part unharmed.  The names of the ends may be those that
    [randstring] draws. *)
From stdpp Require Import base gmap sets numbers strings sorting list relations.
From S2P Require Import Prelude Strconv Labrpc LabrpcSteps LabrpcProof LabrpcCut NetAdmin Random Raft RaftServer.
From S2P Require Import Kvraft KvConfig KvConfigProof KvRestart.
Local Open Scope Z_scope.
Local Open Scope go_scope.

(** ** Names that are drawn at random *)

(** [reads i j]: what crypto/rand answers when server [i] draws the name of
    its end to server [j]; the names differ in their first 15 bytes. *)
Record good_draws (reads : nat → nat → list Z → list Z) (n : nat) : Prop := {
  gd_fills : ∀ i j, (i < n)%nat → (j < n)%nat → fills (reads i j);
  gd_distinct : ∀ i j i' j', (i < n)%nat → (j < n)%nat → (i' < n)%nat → (j' < n)%nat →
    take 15 (random_bytes (reads i j) 20) = take 15 (random_bytes (reads i' j') 20) → i = i' ∧ j = j';
}.

(** The names are what [randstring 20] returned. *)
Definition drawn (reads : nat → nat → list Z → list Z) (n : nat) (names : Z → list string) : Prop :=
  ∀ i, (i < n)%nat → length (names (Z.of_nat i)) = n ∧
    ∀ j e, names (Z.of_nat i) !! j = Some e → randstring (reads i j) 20 = Ret e.

Lemma drawn_inj reads n names i j i' j' e :
  good_draws reads n → drawn reads n names → (i < n)%nat → (i' < n)%nat →
  names (Z.of_nat i) !! j = Some e → names (Z.of_nat i') !! j' = Some e → i = i' ∧ j = j'.
Proof.
  intros [Hf Hd] Hn Hi Hi' Hj Hj'. destruct (Hn i Hi) as [Hl Hr], (Hn i' Hi') as [Hl' Hr'].
  pose proof (lookup_lt_Some _ _ _ Hj) as Hjn. pose proof (lookup_lt_Some _ _ _ Hj') as Hjn'. rewrite Hl in Hjn. rewrite Hl' in Hjn'.
  apply (Hd i j i' j'); [done..|].
  apply (randstring_eq (reads i j) (reads i' j') 5 e); [by apply Hf|by apply Hf|by apply Hr|by apply Hr'].
Qed.

Lemma drawn_group_names reads n names : good_draws reads n → drawn reads n names → group_names names n.
Proof.
  intros Hg Hn. split.
  - intros i Hi. split; [apply (Hn i Hi)|]. apply NoDup_alt. intros j j' e Hj Hj'.
    apply (drawn_inj reads n names i j i j' e Hg Hn Hi Hi Hj Hj').
  - intros i i' e Hi Hi' [j Hj]%list_elem_of_lookup [j' Hj']%list_elem_of_lookup.
    apply (drawn_inj reads n names i j i' j' e Hg Hn Hi Hi' Hj Hj').
Qed.

(** ** The servers' calls *)
Section calls.
Context {W A RT : Type} `{Gob A RT}.
Abbreviation sys := (sys string Z W A RT).
Abbreviation config := (config KVServer W A RT).
Implicit Types (cfg : config) (s : sys) (a b : Z) (e : string).

(** No call over [e] that is not answered yet ever will be, as long as the
    end is not enabled again. *)
Definition mute cfg e : Prop :=
  ∀ s s' i cl, s_net s = k_net cfg → s_calls s !! i = Some cl → unanswered e cl → steps (not_enabling e) s s' →
    ∃ cl', s_calls s' !! i = Some cl' ∧ ∀ v, cl_client cl' ≠ CRet (Some v).

(** So for the calls of [a] to [b]. *)
Definition separated cfg a b : Prop := mute cfg (end_of cfg a b).

(** A call of [a] to [b] never fails while nobody changes the network. *)
Definition communicates cfg a b : Prop :=
  ∀ s s' i svcMeth args rt, s_net s = k_net cfg →
    s_calls s !! i = Some (Call_begin (end_of cfg a b) svcMeth args rt) → steps no_admin s s' →
    ∃ cl', s_calls s' !! i = Some cl' ∧ cl_client cl' ≠ CRet None.

Lemma disabled_mute cfg e : enabled_of (k_net cfg) e = false → mute cfg e.
Proof.
  intros Hl s s' i cl Hs Hi Hu Hst. apply (disabled_end_calls e s s' i cl); [|done..].
  unfold disabled. by rewrite Hs.
Qed.

Lemma link_down_separates cfg a b : link cfg a b = false → separated cfg a b.
Proof. apply disabled_mute. Qed.

Lemma link_up_communicates cfg a b srv :
  link cfg a b = true → connection_of (k_net cfg) (end_of cfg a b) = Some b →
  server_of (k_net cfg) b = Some srv → rn_reliable (k_net cfg) = true → quiet (k_net cfg) = (false, false) →
  communicates cfg a b.
Proof.
  intros Hl Hc Hsrv Hrel Hq s s' i svcMeth args rt Hs Hi Hst. unfold quiet in Hq. injection Hq as Hdone Hlr.
  apply (good_path_calls s s' i (end_of cfg a b) b srv svcMeth args rt); [|done|done].
  split; [|by rewrite Hs]. unfold readEndnameInfo. rewrite Hs. unfold link in Hl. by rewrite Hl, Hc, Hsrv, Hrel, Hlr.
Qed.
End calls.

Lemma connection_of_end {W A RT : Type} (cfg : config KVServer W A RT) n a b :
  kinv cfg n → all_rows cfg n → in_range n a → in_range n b → connection_of (k_net cfg) (end_of cfg a b) = Some b.
Proof.
  intros I Hrows (i & -> & Hi)%in_range_nat (j & -> & Hj)%in_range_nat. destruct (Hrows i Hi) as [row Hrow].
  destruct (lookup_lt_is_Some_2 row j) as [e He]; [by rewrite (ki_rows _ _ I _ _ Hrow)|].
  assert (kcur cfg i j e) as Hcur by (by exists row). rewrite (end_of_cur cfg i j e Hcur). by apply (ki_conn _ _ I i).
Qed.

(** C10: a partition is a partition for the calls: a harness for an odd number
    of servers starts with names drawn by [randstring], and after
    [make_partition] and [partition] no server gets an answer from a server of
    the other part, however the calls run and whatever else the test does with
    the network (servers crash and restart, other ends change), as long as it
    does not enable the end again; calls within a part of a reliable network
    never fail; and the leader is in the minority. *)
Theorem partition_separates_calls {W A RT : Type} `{Gob A RT} (svc_methods : nat → list (rmethod W A RT))
    (raft_methods : rloc → list (rmethod W A RT)) (n : nat) (unreliable : bool) (maxraftstate : Z)
    (reads : nat → nat → list Z → list Z) (names : Z → list string) (leads : Z → bool) :
  good_draws reads n → drawn reads n names → (2 ≤ n)%nat → Nat.odd n = true →
  ∃ cfg p1 p2 rn,
    make_config "KVServer" svc_methods raft_methods (Z.of_nat n) unreliable maxraftstate names = Ret cfg ∧
    make_partition cfg leads = Ret (p1, p2) ∧ p1 ++ p2 ≡ₚ seqZ 0 (Z.of_nat n) ∧
    leader_of leads (Z.of_nat n) ∈ p2 ∧ (2 * length p2 < n)%nat ∧
    partition cfg p1 p2 = Ret (with_net cfg rn) ∧
    (∀ a b, in_range n a → in_range n b → ¬ (a ∈ p1 ↔ b ∈ p1) → separated (with_net cfg rn) a b) ∧
    (∀ a b, in_range n a → in_range n b → (a ∈ p1 ↔ b ∈ p1) → unreliable = false →
      communicates (with_net cfg rn) a b).
Proof.
  intros Hg Hd Hn Ho. pose proof (drawn_group_names reads n names Hg Hd) as Hnames.
  destruct (service_make_config_spec (S := KVServer) "KVServer" svc_methods raft_methods n unreliable maxraftstate names Hnames)
    as (cfg & Hm & I & Hrows & Hw & Hr & Hreg & _ & _ & Hrel & Hq).
  destruct (partition_isolates_leader cfg leads n Hw Hr Hn Ho)
    as (p1 & p2 & rn & Hp & Hperm & Hpart & Hlink & Hlead & Hmin & Hrest & Hconn).
  exists cfg, p1, p2, rn. split_and!; try done; [lia| |].
  - intros a b Ha Hb Hab. apply link_down_separates. apply not_true_is_false. by rewrite (Hlink a b Ha Hb).
  - intros a b Ha Hb Hab ->. destruct (in_range_nat n b Hb) as (j & -> & Hj). destruct (Hreg j Hj) as [srv Hsrv].
    apply (link_up_communicates _ _ _ srv); [by apply Hlink| | | |]; cbn [k_net with_net].
    + rewrite Hconn. by apply (connection_of_end cfg n).
    + by rewrite (net_rest_server_of _ _ _ Hrest).
    + rewrite (net_rest_reliable _ _ Hrest). done.
    + by rewrite (net_rest_quiet _ _ Hrest).
Qed.

(** C19: a restarted server is not heard twice: after [ShutdownServer] and
    [StartServer] no call that the old instance made, or still makes, over its
    ends is ever answered, unless somebody enables an end that the harness has
    forgotten; and the new instance's ends are down until it is connected. *)
Theorem old_instance_is_mute {W A RT : Type} `{Gob A RT} (svc_methods : nat → list (rmethod W A RT))
    (raft_methods : rloc → list (rmethod W A RT)) (cfg : config KVServer W A RT) (n i : nat) (names : list string) :
  kinv cfg n → all_rows cfg n → (i < n)%nat →
  length names = n → NoDup names → (∀ e, e ∈ names → e ∉ rn_ends (k_net cfg)) →
  ∃ cfg1 cfg2, ShutdownServer cfg (Z.of_nat i) = Ret cfg1 ∧
    StartServer "KVServer" svc_methods raft_methods cfg1 (Z.of_nat i) names = Ret cfg2 ∧
    (∀ b, in_range n b → mute cfg2 (end_of cfg (Z.of_nat i) b)) ∧
    (∀ b, in_range n b → separated cfg2 (Z.of_nat i) b ∧ end_of cfg2 (Z.of_nat i) b ≠ end_of cfg (Z.of_nat i) b).
Proof.
  intros I Hrows Hi Hlen Hnd Hfresh.
  destruct (ShutdownServer_spec cfg n i I Hrows Hi) as (cfg1 & -> & Hsp & I1 & Hlink).
  destruct (StartServer_spec "KVServer" svc_methods raft_methods cfg1 n i names I1 Hi Hlen Hnd) as (cfg2 & Hstart & Hst & I2 & _).
  { intros e. rewrite (sp_ends _ _ _ Hsp). apply Hfresh. }
  exists cfg1, cfg2. split; [done|]. split; [exact Hstart|].
  assert (∀ j, (j < n)%nat → ∃ e e', kcur cfg i j e ∧ kcur cfg2 i j e' ∧ e' ∈ names ∧ e ∉ names) as Hcur.
  { intros j Hj. destruct (Hrows i Hi) as [row Hrow].
    destruct (lookup_lt_is_Some_2 row j) as [e He]; [by rewrite (ki_rows _ _ I _ _ Hrow)|].
    destruct (lookup_lt_is_Some_2 names j) as [e' He']; [by rewrite Hlen|].
    assert (kcur cfg i j e) as Hc by (by exists row).
    exists e, e'. split; [done|]. split; [|split; [by eapply list_elem_of_lookup_2|]].
    - apply (kcur_insert cfg1 cfg2 n i names i j e' I1 Hi (st_endnames _ _ _ _ Hst)). by left.
    - intros Hin. exact (Hfresh e Hin (ki_ends _ _ I _ _ _ Hc)). }
  split; intros b Hb; pose proof Hb as (j & -> & Hj)%in_range_nat; destruct (Hcur j Hj) as (e & e' & Hc & Hc' & Hin & Hout).
  - apply disabled_mute. rewrite (end_of_cur cfg i j e Hc), (st_enabled _ _ _ _ Hst), decide_False by done.
    rewrite <-(end_of_cur cfg i j e Hc), <-(sp_links _ _ _ Hsp), Hlink by (done || (unfold in_range; lia)).
    by rewrite decide_True by (by left).
  - rewrite (end_of_cur cfg i j e Hc), (end_of_cur cfg2 i j e' Hc'). split; [|congruence].
    apply link_down_separates. unfold link. by rewrite (end_of_cur cfg2 i j e' Hc'), (st_enabled _ _ _ _ Hst), decide_True.
Qed.

(** ** Three servers *)
#[local] Instance unit_gob : Gob unit unit := {|
  gob_typeOf := λ _, tt;
  gob_encode := λ _, [];
  gob_decode := λ _ _, Some tt;
  gob_zero := λ _, tt;
|}.

Definition demo_reads (i j : nat) : list Z → list Z :=
  imap (λ k _, if bool_decide (k = 0%nat) then Z.of_nat (3 * i + j) mod 256 else 0).

Definition demo_drawn (i : Z) : list string :=
  (λ j, match randstring (demo_reads (Z.to_nat i) j) 20 with Ret e => e | _ => "" end) <$> seq 0 3.

Lemma demo_good_draws : good_draws demo_reads 3.
Proof.
  split.
  - intros i j _ _ b. split; [apply length_imap|]. apply Forall_lookup. intros k x. unfold demo_reads. rewrite list_lookup_imap.
    intros (y & _ & ->)%fmap_Some. unfold is_byte. case_bool_decide; [|lia]. apply Z.mod_pos_bound. lia.
  - intros i j i' j' Hi Hj Hi' Hj'. unfold random_bytes, demo_reads. simpl. intros [= Heq].
    rewrite !Z.mod_small in Heq by lia. lia.
Qed.

Lemma demo_drawn_ok : drawn demo_reads 3 demo_drawn.
Proof.
  intros i Hi. split; [done|]. intros j e. unfold demo_drawn. rewrite Nat2Z.id, list_lookup_fmap.
  destruct i as [|[|[|]]]; [..|lia]; destruct j as [|[|[|]]]; try done; vm_compute; intros [= <-]; reflexivity.
Qed.

Lemma partition_separates_calls_witness :
  ∃ (cfg : config KVServer unit unit unit) p1 p2 rn,
    make_config "KVServer" no_methods no_methods (Z.of_nat 3) false (-1) demo_drawn = Ret cfg ∧
    make_partition cfg (λ i, bool_decide (i = 1)) = Ret (p1, p2) ∧ leader_of (λ i, bool_decide (i = 1)) 3 ∈ p2 ∧
    partition cfg p1 p2 = Ret (with_net cfg rn) ∧
    ∀ a b, in_range 3 a → in_range 3 b → ¬ (a ∈ p1 ↔ b ∈ p1) → separated (with_net cfg rn) a b.
Proof.
  destruct (partition_separates_calls (W := unit) (A := unit) (RT := unit) no_methods no_methods 3 false (-1)
    demo_reads demo_drawn (λ i, bool_decide (i = 1)) demo_good_draws demo_drawn_ok)
    as (cfg & p1 & p2 & rn & Hm & Hmp & _ & Hl & _ & Hp & Hs & _); [lia|reflexivity|].
  exists cfg, p1, p2, rn. exact (conj Hm (conj Hmp (conj Hl (conj Hp Hs)))).
Defined.

Lemma old_instance_is_mute_witness :
  ∃ cfg cfg1 cfg2 : config KVServer unit unit unit,
    make_config "KVServer" no_methods no_methods (Z.of_nat 3) false (-1) demo_names = Ret cfg ∧
    ShutdownServer cfg (Z.of_nat 1) = Ret cfg1 ∧
    StartServer "KVServer" no_methods no_methods cfg1 (Z.of_nat 1) ["x0"; "x1"; "x2"] = Ret cfg2 ∧
    ∀ b, in_range 3 b → mute cfg2 (end_of cfg 1 b).
Proof.
  destruct demo_made as (cfg & Hm & I & Hrows & _ & _ & _ & _ & Hends & _).
  destruct (old_instance_is_mute no_methods no_methods cfg 3 1 ["x0"; "x1"; "x2"] I Hrows)
    as (cfg1 & cfg2 & H1 & H2 & Hmute & _); [lia|reflexivity|compute_done| |].
  { intros e He (i & Hi & He')%Hends. destruct i as [|[|[|]]]; try lia;
    apply list_elem_of_In in He, He'; vm_compute in He, He'; intuition congruence. }
  exists cfg, cfg1, cfg2. exact (conj Hm (conj H1 (conj H2 Hmute))).
Defined.
