(* ===== verification/ShardkvConfig.v ===== *)
(** * The harness of the sharded service (shardkv/config.go)

    Three shardmasters, three groups of [n] servers, and clerks, on one
    network whose servers have names.  Random names are arguments; so is the
    world of the shardmaster's clerk, as in [Shardmaster].  A slice that is
    nil is empty; [t.Fatalf] is [Panic]. *)
From stdpp Require Import base gmap sets numbers strings pretty sorting list.
From S2P Require Import Prelude Strconv Labrpc NetAdmin Raft.
From S2P Require Shardmaster Shardkv Random KvConfig.
Import Shardmaster (ShardMaster).
Import Shardkv (ShardKV, skv_rf, ShardKV_Kill).
Local Open Scope Z_scope.
Local Open Scope go_scope.

(** ** Random names and seeds, and the time limit: the text is [Random]'s *)
Definition randstring : (list Z → list Z) → Z → outcome string := Random.randstring.
Definition makeSeed : (Z → option Z) → outcome Z := Random.makeSeed.
Definition checkTimeout : bool → Z → outcome unit := Random.checkTimeout.

(** [random_handles] has the text of kvraft's; nothing calls it here. *)
Definition random_handles {A : Type} : (Z → Z) → list A → outcome (list A) := KvConfig.random_handles.

Record group := MkGroup {
  g_gid : Z;
  g_servers : list (option nat);
  g_saved : list (option ploc);
  g_endnames : list (list string);
  g_mendnames : list (list string);
}.

Record config (W A RT : Type) := MkConfig {
  sk_net : Network string string;
  sk_srvs : gmap sloc (Server W A RT);
  sk_peers : rheap;
  sk_persisters : pheap;
  sk_mheap : gmap nat ShardMaster;
  sk_kvheap : gmap nat ShardKV;
  sk_nmasters : Z;
  sk_masterservers : list (option nat);
  sk_mck : option (Shardmaster.Clerk string);
  sk_ngroups : Z;
  sk_n : Z;                               (* servers per k/v group *)
  sk_groups : list (option group);
  sk_clerks : gmap nat (list string);
  sk_nextClientId : Z;
  sk_maxraftstate : Z;
}.
Arguments MkConfig {W A RT} _ _ _ _ _ _ _ _ _ _ _ _ _ _ _.
Arguments sk_net {W A RT} _.
Arguments sk_srvs {W A RT} _.
Arguments sk_peers {W A RT} _.
Arguments sk_persisters {W A RT} _.
Arguments sk_mheap {W A RT} _.
Arguments sk_kvheap {W A RT} _.
Arguments sk_nmasters {W A RT} _.
Arguments sk_masterservers {W A RT} _.
Arguments sk_mck {W A RT} _.
Arguments sk_ngroups {W A RT} _.
Arguments sk_n {W A RT} _.
Arguments sk_groups {W A RT} _.
Arguments sk_clerks {W A RT} _.
Arguments sk_nextClientId {W A RT} _.
Arguments sk_maxraftstate {W A RT} _.

(** master server name for labrpc. *)
Definition mastername (i : Z) : string := "master" +:+ Itoa i.

(** shard server name for labrpc: the [i]th server of group [gid]. *)
Definition servername (gid i : Z) : string := "server-" +:+ Itoa gid +:+ "-" +:+ Itoa i.

Section shardkv_config.
Context {W A RT : Type}.
(** The methods of the two services and of a peer. *)
Context (skv_methods sm_methods : nat → list (rmethod W A RT)) (raft_methods : rloc → list (rmethod W A RT)).
Abbreviation config := (config W A RT).
Abbreviation net := (Network string string).
Implicit Types (cfg : config) (gi i j : Z) (rn : net) (gg : group).

Definition with_net cfg rn : config :=
  MkConfig rn (sk_srvs cfg) (sk_peers cfg) (sk_persisters cfg) (sk_mheap cfg) (sk_kvheap cfg) (sk_nmasters cfg)
    (sk_masterservers cfg) (sk_mck cfg) (sk_ngroups cfg) (sk_n cfg) (sk_groups cfg) (sk_clerks cfg)
    (sk_nextClientId cfg) (sk_maxraftstate cfg).
Definition with_persisters cfg (H : pheap) : config :=
  MkConfig (sk_net cfg) (sk_srvs cfg) (sk_peers cfg) H (sk_mheap cfg) (sk_kvheap cfg) (sk_nmasters cfg)
    (sk_masterservers cfg) (sk_mck cfg) (sk_ngroups cfg) (sk_n cfg) (sk_groups cfg) (sk_clerks cfg)
    (sk_nextClientId cfg) (sk_maxraftstate cfg).
Definition with_servers cfg (P : rheap) (hs : gmap nat ShardKV) : config :=
  MkConfig (sk_net cfg) (sk_srvs cfg) P (sk_persisters cfg) (sk_mheap cfg) hs (sk_nmasters cfg)
    (sk_masterservers cfg) (sk_mck cfg) (sk_ngroups cfg) (sk_n cfg) (sk_groups cfg) (sk_clerks cfg)
    (sk_nextClientId cfg) (sk_maxraftstate cfg).
Definition with_masters cfg (P : rheap) (hs : gmap nat ShardMaster) (l : list (option nat)) : config :=
  MkConfig (sk_net cfg) (sk_srvs cfg) P (sk_persisters cfg) hs (sk_kvheap cfg) (sk_nmasters cfg)
    l (sk_mck cfg) (sk_ngroups cfg) (sk_n cfg) (sk_groups cfg) (sk_clerks cfg)
    (sk_nextClientId cfg) (sk_maxraftstate cfg).
Definition with_groups cfg (l : list (option group)) : config :=
  MkConfig (sk_net cfg) (sk_srvs cfg) (sk_peers cfg) (sk_persisters cfg) (sk_mheap cfg) (sk_kvheap cfg)
    (sk_nmasters cfg) (sk_masterservers cfg) (sk_mck cfg) (sk_ngroups cfg) (sk_n cfg) l (sk_clerks cfg)
    (sk_nextClientId cfg) (sk_maxraftstate cfg).
Definition with_clerks cfg (cl : gmap nat (list string)) (next : Z) : config :=
  MkConfig (sk_net cfg) (sk_srvs cfg) (sk_peers cfg) (sk_persisters cfg) (sk_mheap cfg) (sk_kvheap cfg)
    (sk_nmasters cfg) (sk_masterservers cfg) (sk_mck cfg) (sk_ngroups cfg) (sk_n cfg) (sk_groups cfg) cl
    next (sk_maxraftstate cfg).
Definition with_srv cfg (srv : Server W A RT) : config * sloc :=
  let l := fresh (dom (sk_srvs cfg)) in
  (MkConfig (sk_net cfg) (<[l := srv]> (sk_srvs cfg)) (sk_peers cfg) (sk_persisters cfg) (sk_mheap cfg)
    (sk_kvheap cfg) (sk_nmasters cfg) (sk_masterservers cfg) (sk_mck cfg) (sk_ngroups cfg) (sk_n cfg)
    (sk_groups cfg) (sk_clerks cfg) (sk_nextClientId cfg) (sk_maxraftstate cfg), l).

(** [cfg.groups[gi]]; every use dereferences it. *)
Definition get_group cfg gi : outcome group :=
  let! o := slice_get (sk_groups cfg) gi in or_panic o.
Definition set_group cfg gi gg : outcome config :=
  let! l := slice_set (sk_groups cfg) gi (Some gg) in Ret (with_groups cfg l).

Definition set_endnames gg (l : list (list string)) : group :=
  MkGroup (g_gid gg) (g_servers gg) (g_saved gg) l (g_mendnames gg).
Definition set_mendnames gg (l : list (list string)) : group :=
  MkGroup (g_gid gg) (g_servers gg) (g_saved gg) (g_endnames gg) l.
Definition set_saved gg (l : list (option ploc)) : group :=
  MkGroup (g_gid gg) (g_servers gg) l (g_endnames gg) (g_mendnames gg).
Definition set_servers gg (l : list (option nat)) : group :=
  MkGroup (g_gid gg) l (g_saved gg) (g_endnames gg) (g_mendnames gg).

(** ** The size of the logs *)
Fixpoint checklogs_group cfg gg (ids : list Z) : outcome unit :=
  match ids with
  | [] => Ret tt
  | i :: ids' =>
      let! o := slice_get (g_saved gg) i in
      let! ps := or_panic o in
      let! raft := RaftStateSize (sk_persisters cfg) ps in
      let! snap := ReadSnapshot (sk_persisters cfg) ps in
      if bool_decide (sk_maxraftstate cfg >= 0) && bool_decide (raft > wrap_int 64 (8 * sk_maxraftstate cfg)) then Panic
      else if bool_decide (sk_maxraftstate cfg < 0) && bool_decide (zlen snap > 0) then Panic
      else checklogs_group cfg gg ids'
  end.

Fixpoint checklogs_loop cfg (gis : list Z) : outcome unit :=
  match gis with
  | [] => Ret tt
  | gi :: gis' =>
      (* the group is read inside the inner loop *)
      let! _ := if bool_decide (sk_n cfg > 0) then
                  let! gg := get_group cfg gi in checklogs_group cfg gg (seqZ 0 (sk_n cfg))
                else Ret tt in
      checklogs_loop cfg gis'
  end.

Definition checklogs cfg : outcome unit := checklogs_loop cfg (seqZ 0 (sk_ngroups cfg)).

(** ** Clerks *)
(** The callback that makes an end to a server; [name] is the random name. *)
Definition make_end (rn : net) (name servername : string) : outcome net :=
  let! rn := MakeEnd rn name in
  Ret (Enable (Connect rn name servername) name true).

(** [endnames] has [cfg.n] entries, and is filled up to [cfg.nmasters]. *)
Fixpoint client_ends (names : list string) (j : Z) (endnames : list string) rn : outcome (list string * net) :=
  match names with
  | [] => Ret (endnames, rn)
  | name :: names' =>
      let! endnames := slice_set endnames j name in
      let! rn := MakeEnd rn name in
      client_ends names' (j + 1) endnames (Enable (Connect rn name (mastername j)) name true)
  end.

(** [names]: one random name per shardmaster. *)
Definition makeClient cfg (names : list string) : outcome (config * nat * Shardkv.Clerk string) :=
  let! ' (endnames, rn) := client_ends names 0 (replicate (Z.to_nat (sk_n cfg)) "") (sk_net cfg) in
  let ck := fresh (dom (sk_clerks cfg)) in
  let cfg := with_net cfg rn in
  Ret (with_clerks cfg (<[ck := endnames]> (sk_clerks cfg)) (sk_nextClientId cfg + 1), ck, Shardkv.MakeClerk names).

(** The files it removes are not there. *)
Definition deleteClient cfg (ck : nat) : config := with_clerks cfg (delete ck (sk_clerks cfg)) (sk_nextClientId cfg).

(** ** Servers of a group *)
Fixpoint disable_ends (name : Z → outcome string) (js : list Z) rn : outcome net :=
  match js with
  | [] => Ret rn
  | j :: js' => let! e := name j in disable_ends name js' (Enable rn e false)
  end.

Definition ShutdownServer cfg gi i : outcome config :=
  let! gg := get_group cfg gi in
  (* prevent this server from sending *)
  let! rn := disable_ends (λ j, let! row := slice_get (g_endnames gg) i in slice_get row j)
               (seqZ 0 (zlen (g_servers gg))) (sk_net cfg) in
  let! row := slice_get (g_mendnames gg) i in
  let! rn := disable_ends (slice_get row) (seqZ 0 (zlen row)) rn in
  (* disable client connections to the server *)
  let cfg := with_net cfg (DeleteServer rn (servername (g_gid gg) i)) in
  (* a fresh persister with the content of the old one *)
  let! s := slice_get (g_saved gg) i in
  let! ' (H, gg) := match s with
                    | Some ps =>
                        let! ' (H, np) := Copy (sk_persisters cfg) ps in
                        let! l := slice_set (g_saved gg) i (Some np) in Ret (H, set_saved gg l)
                    | None => Ret (sk_persisters cfg, gg)
                    end in
  let cfg := with_persisters cfg H in
  let! kv := slice_get (g_servers gg) i in
  let! ' (cfg, gg) := match kv with
                      | Some l =>
                          let! kv := or_panic (sk_kvheap cfg !! l) in
                          let! ' (P, kv) := ShardKV_Kill (sk_peers cfg) kv in
                          let! ss := slice_set (g_servers gg) i None in
                          Ret (with_servers cfg P (<[l := kv]> (sk_kvheap cfg)), set_servers gg ss)
                      | None => Ret (cfg, gg)
                      end in
  set_group cfg gi gg.

Fixpoint ShutdownGroup_loop cfg gi (ids : list Z) : outcome config :=
  match ids with
  | [] => Ret cfg
  | i :: ids' => let! cfg := ShutdownServer cfg gi i in ShutdownGroup_loop cfg gi ids'
  end.

Definition ShutdownGroup cfg gi : outcome config := ShutdownGroup_loop cfg gi (seqZ 0 (sk_n cfg)).

(** [names], [mnames]: the random names of the ends to the group and to the
    shardmasters. *)
Definition StartServer cfg gi i (names mnames : list string) : outcome config :=
  let! gg := get_group cfg gi in
  (* a fresh set of outgoing ClientEnd names, and the connections to the group *)
  let! l := slice_set (g_endnames gg) i names in
  let gg := set_endnames gg l in
  let! rn := make_enabled_ends (servername (g_gid gg)) names 0 (sk_net cfg) in
  (* ends to talk to shardmaster service *)
  let! l := slice_set (g_mendnames gg) i mnames in
  let gg := set_mendnames gg l in
  let! rn := make_enabled_ends mastername mnames 0 rn in
  let cfg := with_net cfg rn in
  (* a fresh persister with the content of the old one *)
  let! s := slice_get (g_saved gg) i in
  let! ' (H, np) := match s with
                    | Some ps => Copy (sk_persisters cfg) ps
                    | None => Ret (MakePersister (sk_persisters cfg))
                    end in
  let! l := slice_set (g_saved gg) i (Some np) in
  let gg := set_saved gg l in
  let cfg := with_persisters cfg H in
  let! ' (P, kv) := Shardkv.StartServer (sk_peers cfg) H names i np (sk_maxraftstate cfg) (g_gid gg) mnames in
  let kl := fresh (dom (sk_kvheap cfg)) in
  let! l := slice_set (g_servers gg) i (Some kl) in
  let gg := set_servers gg l in
  let cfg := with_servers cfg P (<[kl := kv]> (sk_kvheap cfg)) in
  let! cfg := set_group cfg gi gg in
  let! kvsvc := MakeService "ShardKV" (skv_methods kl) in
  let! rfsvc := MakeService "Raft" (raft_methods (skv_rf kv)) in
  let '(cfg, srv) := with_srv cfg (AddService (AddService MakeServer kvsvc) rfsvc) in
  Ret (with_net cfg (AddServer (sk_net cfg) (servername (g_gid gg) i) srv)).

(** The names of each server of a group. *)
Fixpoint StartGroup_loop cfg gi (ids : list Z) (names mnames : Z → list string) : outcome config :=
  match ids with
  | [] => Ret cfg
  | i :: ids' =>
      let! cfg := StartServer cfg gi i (names i) (mnames i) in StartGroup_loop cfg gi ids' names mnames
  end.

Definition StartGroup cfg gi (names mnames : Z → list string) : outcome config :=
  StartGroup_loop cfg gi (seqZ 0 (sk_n cfg)) names mnames.

(** ** Shardmasters *)
Definition StartMasterServer cfg i (names : list string) : outcome config :=
  let! rn := make_enabled_ends mastername names 0 (sk_net cfg) in
  let cfg := with_net cfg rn in
  let '(H, p) := MakePersister (sk_persisters cfg) in
  let cfg := with_persisters cfg H in
  let! ' (P, sm) := Shardmaster.StartServer (sk_peers cfg) H names i p in
  let ml := fresh (dom (sk_mheap cfg)) in
  let! l := slice_set (sk_masterservers cfg) i (Some ml) in
  let cfg := with_masters cfg P (<[ml := sm]> (sk_mheap cfg)) l in
  let! msvc := MakeService "ShardMaster" (sm_methods ml) in
  let! rfsvc := MakeService "Raft" (raft_methods (Shardmaster.ShardMaster_Raft sm)) in
  let '(cfg, srv) := with_srv cfg (AddService (AddService MakeServer msvc) rfsvc) in
  Ret (with_net cfg (AddServer (sk_net cfg) (mastername i) srv)).

Definition shardclerk cfg (names : list string) : outcome (config * Shardmaster.Clerk string) :=
  let! rn := make_enabled_ends mastername names 0 (sk_net cfg) in
  Ret (with_net cfg rn, Shardmaster.MakeClerk names).

(** ** Joining and leaving *)
Fixpoint joinm_loop cfg (gis : list Z) (m : gmap Z (list string)) : outcome (gmap Z (list string)) :=
  match gis with
  | [] => Ret m
  | g :: gis' =>
      let! gg := get_group cfg g in
      let gid := g_gid gg in
      let servernames := (λ i, servername gid i) <$> seqZ 0 (sk_n cfg) in
      joinm_loop cfg gis' (<[gid := servernames]> m)
  end.

Fixpoint leavem_loop cfg (gis gids : list Z) : outcome (list Z) :=
  match gis with
  | [] => Ret gids
  | g :: gis' => let! gg := get_group cfg g in leavem_loop cfg gis' (gids ++ [g_gid gg])
  end.

Section masters_clerk.
Context {Wo : Type} (Sleep : Wo → Wo).
Context (CallJoin : Wo → string → string → Shardmaster.JoinArgs → Wo * bool * Shardmaster.Reply).
Context (CallLeave : Wo → string → string → Shardmaster.LeaveArgs → Wo * bool * Shardmaster.Reply).

Definition joinm cfg (gis : list Z) (rounds : nat) (w : Wo) : outcome Wo :=
  let! m := joinm_loop cfg gis ∅ in
  let! mck := or_panic (sk_mck cfg) in
  Shardmaster.Join Sleep CallJoin mck m rounds w.

Definition join cfg gi (rounds : nat) (w : Wo) : outcome Wo := joinm cfg [gi] rounds w.

Definition leavem cfg (gis : list Z) (rounds : nat) (w : Wo) : outcome Wo :=
  let! gids := leavem_loop cfg gis [] in
  let! mck := or_panic (sk_mck cfg) in
  Shardmaster.Leave Sleep CallLeave mck gids rounds w.

Definition leave cfg gi (rounds : nat) (w : Wo) : outcome Wo := leavem cfg [gi] rounds w.
End masters_clerk.

(** ** Start and end of a test *)
(** The random names of a run. *)
Record draws := MkDraws {
  d_masters : Z → list string;
  d_clerk : list string;
  d_ends : Z → Z → list string;
  d_mends : Z → Z → list string;
}.

Fixpoint start_masters cfg (ids : list Z) (names : Z → list string) : outcome config :=
  match ids with
  | [] => Ret cfg
  | i :: ids' => let! cfg := StartMasterServer cfg i (names i) in start_masters cfg ids' names
  end.

Fixpoint start_groups cfg (gis : list Z) (d : draws) : outcome config :=
  match gis with
  | [] => Ret cfg
  | gi :: gis' =>
      let nn := Z.to_nat (sk_n cfg) in
      let gg := MkGroup (100 + gi) (replicate nn None) (replicate nn None) (replicate nn [])
                  (replicate (Z.to_nat (sk_nmasters cfg)) []) in
      let! cfg := set_group cfg gi gg in
      let! cfg := StartGroup_loop cfg gi (seqZ 0 (sk_n cfg)) (d_ends d gi) (d_mends d gi) in
      start_groups cfg gis' d
  end.

Definition make_config (n : Z) (unreliable : bool) (maxraftstate : Z) (d : draws) : outcome config :=
  let cfg := MkConfig MakeNetwork ∅ ∅ ∅ ∅ ∅ 3 (replicate 3 None) None 0 0 [] ∅ 0 maxraftstate in
  (* master *)
  let! cfg := start_masters cfg (seqZ 0 3) (d_masters d) in
  let! ' (cfg, mck) := shardclerk cfg (d_clerk d) in
  let cfg := MkConfig (sk_net cfg) (sk_srvs cfg) (sk_peers cfg) (sk_persisters cfg) (sk_mheap cfg) (sk_kvheap cfg)
               (sk_nmasters cfg) (sk_masterservers cfg) (Some mck) 3 n (replicate 3 None) ∅ 0 (sk_maxraftstate cfg) in
  let! cfg := start_groups cfg (seqZ 0 3) d in
  let cfg := with_clerks cfg ∅ (sk_n cfg + 1000) in
  Ret (with_net cfg (Reliable (sk_net cfg) (negb unreliable))).

Fixpoint shutdown_groups cfg (gis : list Z) : outcome config :=
  match gis with
  | [] => Ret cfg
  | gi :: gis' => let! cfg := ShutdownGroup cfg gi in shutdown_groups cfg gis'
  end.

(** [failed] and [elapsed]: whether the test failed, and for how long it runs. *)
Definition cleanup cfg (failed : bool) (elapsed : Z) : outcome config :=
  let! cfg := shutdown_groups cfg (seqZ 0 (sk_ngroups cfg)) in
  let! rn := Cleanup (sk_net cfg) in
  let! _ := checkTimeout failed elapsed in
  Ret (with_net cfg rn).

End shardkv_config.
