(* ===== verification/ShardkvConfigProof.v ===== *)
(** * The sharded service's harness keeps its servers apart

    Names of servers are different for different servers; [sinv] says what is
    well formed; starting a server and shutting one down keep it, and what
    they do to the network and the heaps is stated for each. *)
From Stdlib Require Import Ascii NArith.
From stdpp Require Import base gmap sets numbers strings pretty sorting list.
From S2P Require Import Prelude Strconv Labrpc LabrpcProof NetAdmin Raft.
From S2P Require RaftServer Shardmaster Shardkv.
From S2P Require Import ShardkvConfig.
Import Shardmaster (ShardMaster).
Import Shardkv (ShardKV, skv_rf, ShardKV_Kill).
Local Open Scope Z_scope.
Local Open Scope go_scope.

(** ** Names *)
Section names.
Implicit Types (s x y : string) (a b i gid : Z).

Fixpoint no_dash s : bool :=
  match s with
  | EmptyString => true
  | String c s' => bool_decide (c ≠ "-"%char) && no_dash s'
  end.

Lemma no_dash_digits ds : Forall is_digit ds → no_dash (digits_string ds) = true.
Proof.
  induction 1 as [|d ds Hd _ IH]; [done|]. simpl. rewrite IH, andb_true_r. apply bool_decide_eq_true.
  intros Heq. pose proof (byte_of_digit d Hd) as Hb. rewrite Heq in Hb. change (45 = 48 + Z.of_N d) in Hb. lia.
Qed.

Lemma Itoa_nonempty a : Itoa a ≠ "".
Proof. destruct (Itoa_digits a) as ([|d ds] & _ & ? & [(_ & -> & _)|(_ & -> & _)]); done. Qed.

(** A number is digits, or a dash and digits. *)
Lemma Itoa_shape a : no_dash (Itoa a) = true ∨ ∃ s, Itoa a = "-" +:+ s ∧ no_dash s = true.
Proof.
  destruct (Itoa_digits a) as (ds & Hds & _ & [(_ & -> & _)|(_ & -> & _)]); [left; by apply no_dash_digits|right].
  eexists. split; [done|]. by apply no_dash_digits.
Qed.

Lemma no_dash_split s s' x y :
  no_dash s = true → no_dash s' = true → s +:+ "-" +:+ x = s' +:+ "-" +:+ y → s = s' ∧ x = y.
Proof.
  revert s'. induction s as [|c s IH]; intros [|c' s']; simpl no_dash; rewrite ?append_cons, ?append_empty.
  - intros _ _ [= ->]. done.
  - intros _ [Hc _]%andb_true_iff [= <- _]. by apply bool_decide_eq_true in Hc.
  - intros [Hc _]%andb_true_iff _ [= -> _]. by apply bool_decide_eq_true in Hc.
  - intros [_ Hs]%andb_true_iff [_ Hs']%andb_true_iff [= -> Heq].
    by destruct (IH s' Hs Hs' Heq) as [-> ->].
Qed.

Lemma no_dash_first s s' x y :
  no_dash s = true → s +:+ "-" +:+ x = ("-" +:+ s') +:+ "-" +:+ y → s = "".
Proof.
  destruct s as [|c s]; [done|]. intros [Hc _]%andb_true_iff.
  rewrite !append_cons, append_empty. intros [= -> _]. by apply bool_decide_eq_true in Hc.
Qed.

Lemma Itoa_split a b x y : Itoa a +:+ "-" +:+ x = Itoa b +:+ "-" +:+ y → a = b ∧ x = y.
Proof.
  intros Heq. cut (Itoa a = Itoa b ∧ x = y); [intros [H ->]; split; [by apply (inj pretty) in H|done]|].
  pose proof (Itoa_nonempty a) as Hna. pose proof (Itoa_nonempty b) as Hnb.
  destruct (Itoa_shape a) as [Ha|(s & Hs & Ha)], (Itoa_shape b) as [Hb|(s' & Hs' & Hb)].
  - by apply no_dash_split.
  - rewrite Hs' in Heq. by apply no_dash_first in Heq.
  - rewrite Hs in Heq. symmetry in Heq. by apply no_dash_first in Heq.
  - rewrite Hs, Hs' in Heq |- *. rewrite !append_cons, !append_empty in Heq. injection Heq as Heq.
    by destruct (no_dash_split s s' x y Ha Hb Heq) as [-> ->].
Qed.

Lemma servername_inj gid i gid' i' : servername gid i = servername gid' i' → gid = gid' ∧ i = i'.
Proof.
  unfold servername. intros Heq%(inj (String.append _)). destruct (Itoa_split _ _ _ _ Heq) as [-> Hi]. by apply (inj pretty) in Hi.
Qed.

Lemma mastername_servername i gid i' : mastername i ≠ servername gid i'.
Proof. done. Qed.

Lemma mastername_inj i i' : mastername i = mastername i' → i = i'.
Proof. unfold mastername. intros Hi%(inj (String.append _)). by apply (inj pretty) in Hi. Qed.
End names.

(** ** Well-formedness *)
Section harness.
Context {W A RT : Type}.
Implicit Types (cfg : config W A RT) (gg : group) (gi i j k n : nat) (e : string) (names mnames : list string).

Definition group_at cfg gi : option group := sk_groups cfg !! gi ≫= id.
Definition row_at cfg gi i : list string := default [] (group_at cfg gi ≫= λ gg, g_endnames gg !! i).
Definition mrow_at cfg gi i : list string := default [] (group_at cfg gi ≫= λ gg, g_mendnames gg !! i).
Definition saved_at cfg gi i : option ploc := group_at cfg gi ≫= λ gg, g_saved gg !! i ≫= id.
Definition server_at cfg gi i : option nat := group_at cfg gi ≫= λ gg, g_servers gg !! i ≫= id.

(** All the ends of a server: to its group, and to the shardmasters. *)
Definition ends_at cfg gi i : list string := row_at cfg gi i ++ mrow_at cfg gi i.

Definition gid_of gi : Z := 100 + Z.of_nat gi.
Definition name_of gi i : string := servername (gid_of gi) (Z.of_nat i).

Definition shaped gg gi n : Prop :=
  g_gid gg = gid_of gi ∧ length (g_servers gg) = n ∧ length (g_saved gg) = n ∧
  length (g_endnames gg) = n ∧ length (g_mendnames gg) = 3%nat.

(** A server that runs. *)
Record up cfg n gi i (kl : nat) : Prop := {
  up_row : length (row_at cfg gi i) = n;
  up_mrow : length (mrow_at cfg gi i) = 3%nat;
  up_alive : ∃ kv, sk_kvheap cfg !! kl = Some kv ∧ is_Some (sk_peers cfg !! skv_rf kv);
  up_saved : is_Some (saved_at cfg gi i);
  up_registered : is_Some (server_of (sk_net cfg) (name_of gi i));
  up_enabled : ∀ e, e ∈ ends_at cfg gi i → enabled_of (sk_net cfg) e = true;
}.

Record sinv cfg n : Prop := {
  si_n : sk_n cfg = Z.of_nat n;
  si_shape : ∀ gi gg, group_at cfg gi = Some gg → shaped gg gi n;
  si_ends : ∀ gi i e, e ∈ ends_at cfg gi i → e ∈ rn_ends (sk_net cfg);
  si_inj : ∀ gi i k gi' i' k' e, ends_at cfg gi i !! k = Some e → ends_at cfg gi' i' !! k' = Some e →
    gi = gi' ∧ i = i' ∧ k = k';
  si_row : ∀ gi i j e, row_at cfg gi i !! j = Some e → connection_of (sk_net cfg) e = Some (name_of gi j);
  si_mrow : ∀ gi i j e, mrow_at cfg gi i !! j = Some e →
    connection_of (sk_net cfg) e = Some (mastername (Z.of_nat j));
  si_saved : ∀ gi i ps, saved_at cfg gi i = Some ps → is_Some (sk_persisters cfg !! ps);
  si_up : ∀ gi i kl, server_at cfg gi i = Some kl → up cfg n gi i kl;
}.

(** ** Access to the groups *)
Lemma get_group_at cfg gi gg : group_at cfg gi = Some gg → get_group cfg (Z.of_nat gi) = Ret gg.
Proof.
  unfold group_at, get_group. rewrite slice_get_nat. destruct (sk_groups cfg !! gi); simpl; [|done]. by intros ->.
Qed.

Lemma set_group_lt cfg gi gg' :
  (gi < length (sk_groups cfg))%nat →
  ∃ cfg', set_group cfg (Z.of_nat gi) gg' = Ret cfg' ∧ cfg' = with_groups cfg (<[gi := Some gg']> (sk_groups cfg)) ∧
    ∀ gi', group_at cfg' gi' = if decide (gi' = gi) then Some gg' else group_at cfg gi'.
Proof.
  intros Hgi. unfold group_at, set_group. rewrite slice_set_nat by done. simpl. eexists. split; [done|]. split; [done|].
  intros gi'. simpl. case_decide as Heq; [by rewrite Heq, list_lookup_insert_eq|by rewrite list_lookup_insert_ne].
Qed.

Lemma group_at_lt cfg gi gg : group_at cfg gi = Some gg → (gi < length (sk_groups cfg))%nat.
Proof. unfold group_at. destruct (sk_groups cfg !! gi) eqn:Hgi; [|done]. intros _. by eapply lookup_lt_Some. Qed.

(** The fields of a group of which entry [i] was changed. *)
Definition set_entry gg i (kl : option nat) (ps : option ploc) names mnames : group :=
  MkGroup (g_gid gg) (<[i := kl]> (g_servers gg)) (<[i := ps]> (g_saved gg)) (<[i := names]> (g_endnames gg))
    (<[i := mnames]> (g_mendnames gg)).

Lemma shaped_set_entry gg gi n i kl ps names mnames : shaped gg gi n → shaped (set_entry gg i kl ps names mnames) gi n.
Proof. intros (? & ? & ? & ? & ?). unfold shaped. simpl. by rewrite !length_insert. Qed.

Section set_entry.
Context cfg cfg' n gi i gg (kl : option nat) (ps : option ploc) names mnames.
Context (Hgg : group_at cfg gi = Some gg) (Hshape : shaped gg gi n) (Hi : (i < n)%nat) (Hi3 : (i < 3)%nat).
Context (Hgroups : ∀ gi', group_at cfg' gi' =
  if decide (gi' = gi) then Some (set_entry gg i kl ps names mnames) else group_at cfg gi').

#[local] Ltac entry :=
  intros gi' i'; rewrite Hgroups; destruct (decide (gi' = gi)) as [->|]; simpl;
    [|rewrite decide_False by tauto; done];
    rewrite Hgg; simpl; destruct (decide (i' = i)) as [->|];
    [rewrite decide_True, list_lookup_insert_eq by (done || lia); done
    |rewrite decide_False by tauto; by rewrite list_lookup_insert_ne].

Lemma row_set_entry gi' i' : row_at cfg' gi' i' = if decide (gi' = gi ∧ i' = i) then names else row_at cfg gi' i'.
Proof using All. unfold row_at. destruct Hshape as (_ & _ & _ & Hl & _). revert gi' i'. entry. Qed.

Lemma mrow_set_entry gi' i' : mrow_at cfg' gi' i' = if decide (gi' = gi ∧ i' = i) then mnames else mrow_at cfg gi' i'.
Proof using All. unfold mrow_at. destruct Hshape as (_ & _ & _ & _ & Hl). revert gi' i'. entry. Qed.

Lemma saved_set_entry gi' i' : saved_at cfg' gi' i' = if decide (gi' = gi ∧ i' = i) then ps else saved_at cfg gi' i'.
Proof using All. unfold saved_at. destruct Hshape as (_ & _ & Hl & _). revert gi' i'. entry. Qed.

Lemma server_set_entry gi' i' : server_at cfg' gi' i' = if decide (gi' = gi ∧ i' = i) then kl else server_at cfg gi' i'.
Proof using All. unfold server_at. destruct Hshape as (_ & Hl & _). revert gi' i'. entry. Qed.

Lemma shape_set_entry gi' gg' :
  (∀ gi gg, group_at cfg gi = Some gg → shaped gg gi n) → group_at cfg' gi' = Some gg' → shaped gg' gi' n.
Proof using All.
  intros Hall. rewrite Hgroups. case_decide as Heq; [|apply Hall].
  intros [= <-]. rewrite Heq. by apply shaped_set_entry.
Qed.
End set_entry.

(** ** StartServer *)
Definition saved_state cfg gi i : option persister := saved_at cfg gi i ≫= λ ps, sk_persisters cfg !! ps.

Record kv_started cfg cfg' gi i names mnames : Prop := {
  ks_n : sk_n cfg' = sk_n cfg;
  ks_state : ∃ gg kl kv np, group_at cfg gi = Some gg ∧
    (∀ gi', group_at cfg' gi' =
      if decide (gi' = gi) then Some (set_entry gg i (Some kl) (Some np) names mnames) else group_at cfg gi') ∧
    sk_kvheap cfg !! kl = None ∧ sk_kvheap cfg' = <[kl := kv]> (sk_kvheap cfg) ∧
    sk_peers cfg !! skv_rf kv = None ∧
    sk_peers cfg' = <[skv_rf kv := MkRaft names np (Z.of_nat i) 0]> (sk_peers cfg) ∧
    sk_persisters cfg !! np = None ∧
    sk_persisters cfg' = <[np := default (MkPersisterState [] []) (saved_state cfg gi i)]> (sk_persisters cfg);
  ks_ends : rn_ends (sk_net cfg') = list_to_set mnames ∪ (list_to_set names ∪ rn_ends (sk_net cfg));
  ks_enabled : ∀ e, enabled_of (sk_net cfg') e = if decide (e ∈ names ++ mnames) then true else enabled_of (sk_net cfg) e;
  ks_old : ∀ e, e ∉ names ++ mnames → connection_of (sk_net cfg') e = connection_of (sk_net cfg) e;
  ks_names : ∀ j e, names !! j = Some e → connection_of (sk_net cfg') e = Some (name_of gi j);
  ks_mnames : ∀ j e, mnames !! j = Some e → connection_of (sk_net cfg') e = Some (mastername (Z.of_nat j));
  ks_registered : is_Some (server_of (sk_net cfg') (name_of gi i));
  ks_servers : ∀ snm, snm ≠ name_of gi i → server_of (sk_net cfg') snm = server_of (sk_net cfg) snm;
  ks_rest : rn_reliable (sk_net cfg') = rn_reliable (sk_net cfg);
}.

Lemma kv_start_persister cfg n gi i gg o :
  sinv cfg n → group_at cfg gi = Some gg → g_saved gg !! i = Some o →
  ∃ np, match o with
        | Some ps => Copy (sk_persisters cfg) ps
        | None => Ret (MakePersister (sk_persisters cfg))
        end = Ret (<[np := default (MkPersisterState [] []) (saved_state cfg gi i)]> (sk_persisters cfg), np) ∧
    sk_persisters cfg !! np = None.
Proof.
  intros I Hgg Ho. assert (saved_at cfg gi i = o) as Hs by (unfold saved_at; rewrite Hgg; simpl; by rewrite Ho).
  unfold saved_state. rewrite Hs. destruct o as [ps|]; simpl.
  - destruct (si_saved _ _ I gi i ps Hs) as [p Hp].
    destruct (Copy_spec _ ps p Hp) as (H1 & np & -> & Hf & ->). exists np. by rewrite Hp.
  - eexists. split; [done|]. apply fresh_persister.
Qed.

(** Two batches of new ends. *)
Lemma start_ends gi (rn : Network string string) names mnames :
  NoDup (names ++ mnames) → (∀ e, e ∈ names ++ mnames → e ∉ rn_ends rn) →
  ∃ rn1 rn2, make_enabled_ends (servername (gid_of gi)) names 0 rn = Ret rn1 ∧
    make_enabled_ends mastername mnames 0 rn1 = Ret rn2 ∧ net_rest rn2 = net_rest rn ∧
    rn_ends rn2 = list_to_set mnames ∪ (list_to_set names ∪ rn_ends rn) ∧
    (∀ e, enabled_of rn2 e = if decide (e ∈ names ++ mnames) then true else enabled_of rn e) ∧
    (∀ e, e ∉ names ++ mnames → connection_of rn2 e = connection_of rn e) ∧
    (∀ j e, names !! j = Some e → connection_of rn2 e = Some (name_of gi j)) ∧
    (∀ j e, mnames !! j = Some e → connection_of rn2 e = Some (mastername (Z.of_nat j))).
Proof.
  intros (Hnd1 & Hdisj & Hnd2)%NoDup_app Hfresh.
  destruct (make_enabled_ends_spec (servername (gid_of gi)) names 0 rn Hnd1)
    as (rn1 & Hrn1 & Hrest1 & Hends1 & Hen1 & Hco1 & Hnth1).
  { intros e He. apply Hfresh, elem_of_app. by left. }
  destruct (make_enabled_ends_spec mastername mnames 0 rn1 Hnd2) as (rn2 & Hrn2 & Hrest2 & Hends2 & Hen2 & Hco2 & Hnth2).
  { intros e He. rewrite Hends1, elem_of_union, elem_of_list_to_set. intros [Hin|Hin]; [by apply (Hdisj e)|].
    apply (Hfresh e); [apply elem_of_app; by right|done]. }
  exists rn1, rn2. split_and!; [done|done|by rewrite Hrest2|by rewrite Hends2, Hends1| | | |].
  - intros e. rewrite Hen2, Hen1. destruct (decide (e ∈ mnames)) as [Hm|Hm].
    { by rewrite decide_True by (apply elem_of_app; by right). }
    destruct (decide (e ∈ names)) as [Hn|Hn]; [by rewrite decide_True by (apply elem_of_app; by left)|].
    rewrite decide_False; [done|]. by intros [?|?]%elem_of_app.
  - intros e He. rewrite not_elem_of_app in He. destruct He as [He1 He2]. by rewrite Hco2, Hco1.
  - intros j e He. rewrite Hco2; [by apply Hnth1|]. apply Hdisj. by eapply list_elem_of_lookup_2.
  - intros j e He. by apply Hnth2.
Qed.

Lemma kv_StartServer_returns (skv_methods : nat → list (rmethod W A RT)) (raft_methods : rloc → list (rmethod W A RT))
    cfg n gi i gg names mnames :
  sinv cfg n → group_at cfg gi = Some gg → (i < n)%nat → (i < 3)%nat →
  NoDup (names ++ mnames) → (∀ e, e ∈ names ++ mnames → e ∉ rn_ends (sk_net cfg)) →
  ∃ cfg', StartServer skv_methods raft_methods cfg (Z.of_nat gi) (Z.of_nat i) names mnames = Ret cfg' ∧
    kv_started cfg cfg' gi i names mnames.
Proof.
  intros I Hgg Hi Hi3 Hnd Hfresh. pose proof (si_shape _ _ I _ _ Hgg) as (Hgid & Hl1 & Hl2 & Hl3 & Hl4).
  unfold StartServer. rewrite (get_group_at cfg gi gg Hgg), obind_Ret.
  rewrite slice_set_nat by lia. rewrite obind_Ret. cbn [g_gid set_endnames]. rewrite Hgid.
  destruct (start_ends gi (sk_net cfg) names mnames Hnd Hfresh)
    as (rn1 & rn2 & -> & Hrn2 & Hrest & Hends & Hen & Hco & Hn & Hm).
  rewrite obind_Ret. cbn [g_mendnames set_endnames]. rewrite slice_set_nat by lia. rewrite obind_Ret, Hrn2, obind_Ret.
  cbn [g_saved set_endnames set_mendnames].
  destruct (lookup_lt_is_Some_2 (g_saved gg) i) as [o Ho]; [lia|].
  rewrite slice_get_nat, Ho. cbn [or_panic]. rewrite obind_Ret.
  destruct (kv_start_persister cfg n gi i gg o I Hgg Ho) as (np & Hcopy & Hnp).
  cbn [sk_persisters with_net]. rewrite Hcopy, obind_Ret. rewrite slice_set_nat by lia. rewrite obind_Ret.
  unfold Shardkv.StartServer. rewrite RaftServer.Raft_Make_Ret by (rewrite lookup_insert_eq; by eexists).
  rewrite obind_Ret. simpl. rewrite slice_set_nat by lia. simpl.
  match goal with |- context [set_group ?c _ ?g] => destruct (set_group_lt c gi g (group_at_lt cfg gi gg Hgg)) as (cfg1 & -> & Hcfg1 & Hat) end.
  rewrite obind_Ret.
  destruct (MakeService_returns "ShardKV" (skv_methods (fresh (dom (sk_kvheap cfg))))) as [svc ->]. rewrite obind_Ret.
  destruct (MakeService_returns "Raft" (raft_methods (fresh (dom (sk_peers cfg))))) as [rsvc ->]. rewrite obind_Ret.
  rewrite Hgid. eexists. split; [done|].
  assert (sk_net cfg1 = rn2) as Hnet by (by rewrite Hcfg1).
  split; simpl; rewrite ?Hnet; try done.
  - by rewrite Hcfg1.
  - exists gg. rewrite Hcfg1. simpl. eexists _, _, np. split; [done|]. rewrite Hcfg1 in Hat.
    split; [exact Hat|]. split; [apply not_elem_of_dom, is_fresh|]. split; [done|].
    split; [apply RaftServer.fresh_raft|done].
  - unfold AddServer. rewrite server_of_set, decide_True by done. by eexists.
  - intros snm Hsnm. unfold AddServer. rewrite server_of_set, decide_False by done.
    by apply net_rest_server_of.
  - unfold net_rest in Hrest. by injection Hrest.
Qed.

(** A running server goes on running when the rest of the harness grows. *)
Lemma up_mono cfg cfg' n gi i kl :
  up cfg n gi i kl →
  row_at cfg' gi i = row_at cfg gi i → mrow_at cfg' gi i = mrow_at cfg gi i → saved_at cfg' gi i = saved_at cfg gi i →
  (∀ kl kv, sk_kvheap cfg !! kl = Some kv → ∃ kv', sk_kvheap cfg' !! kl = Some kv' ∧ skv_rf kv' = skv_rf kv) →
  (∀ rl, is_Some (sk_peers cfg !! rl) → is_Some (sk_peers cfg' !! rl)) →
  server_of (sk_net cfg') (name_of gi i) = server_of (sk_net cfg) (name_of gi i) →
  (∀ e, e ∈ ends_at cfg gi i → enabled_of (sk_net cfg') e = enabled_of (sk_net cfg) e) →
  up cfg' n gi i kl.
Proof.
  intros [Hrow Hmrow (kv & Hkv & Hrf) Hsaved Hreg Hen] Er Em Es Hheap Hpeers Hsrv Henabled.
  split; rewrite ?Er, ?Em, ?Es, ?Hsrv; try done.
  - destruct (Hheap _ _ Hkv) as (kv' & Hkv' & Hrf'). exists kv'. split; [done|]. rewrite Hrf'. by apply Hpeers.
  - unfold ends_at. rewrite Er, Em. intros e He. rewrite Henabled by done. by apply Hen.
Qed.

Lemma name_of_inj gi i gi' i' : name_of gi i = name_of gi' i' → gi = gi' ∧ i = i'.
Proof. unfold name_of, gid_of. intros [? ?]%servername_inj. lia. Qed.

Lemma kv_started_sinv cfg cfg' n gi i names mnames :
  sinv cfg n → (i < n)%nat → (i < 3)%nat → length names = n → length mnames = 3%nat →
  NoDup (names ++ mnames) → (∀ e, e ∈ names ++ mnames → e ∉ rn_ends (sk_net cfg)) →
  kv_started cfg cfg' gi i names mnames → sinv cfg' n.
Proof.
  intros I Hi Hi3 Hln Hlm Hnd Hfresh K.
  destruct (ks_state _ _ _ _ _ _ K) as (gg & kl & kv & np & Hgg & Hat & Hkl & Hheap & Hrl & Hpeers & Hnp & Hpers).
  pose proof (si_shape _ _ I _ _ Hgg) as Hshape.
  pose proof (row_set_entry _ _ n _ _ _ _ _ _ _ Hgg Hshape Hi Hi3 Hat) as Hrow.
  pose proof (mrow_set_entry _ _ n _ _ _ _ _ _ _ Hgg Hshape Hi Hi3 Hat) as Hmrow.
  pose proof (saved_set_entry _ _ n _ _ _ _ _ _ _ Hgg Hshape Hi Hi3 Hat) as Hsaved.
  pose proof (server_set_entry _ _ n _ _ _ _ _ _ _ Hgg Hshape Hi Hi3 Hat) as Hserver.
  assert (∀ gi' i', ends_at cfg' gi' i' = if decide (gi' = gi ∧ i' = i) then names ++ mnames else ends_at cfg gi' i') as Hends.
  { intros gi' i'. unfold ends_at. rewrite Hrow, Hmrow. by case_decide. }
  assert (∀ gi' i' e, e ∈ ends_at cfg gi' i' → e ∉ names ++ mnames) as Hold.
  { intros gi' i' e He%(si_ends _ _ I) Hin. by apply (Hfresh e Hin). }
  split.
  - rewrite (ks_n _ _ _ _ _ _ K). apply (si_n _ _ I).
  - intros gi' gg'. eapply shape_set_entry; [exact Hgg|exact Hshape|exact Hi|exact Hi3|exact Hat|apply (si_shape _ _ I)].
  - intros gi' i' e. rewrite Hends, (ks_ends _ _ _ _ _ _ K), !elem_of_union, !elem_of_list_to_set.
    case_decide; [rewrite elem_of_app; tauto|]. intros He%(si_ends _ _ I). tauto.
  - intros gi1 i1 k1 gi2 i2 k2 e. rewrite !Hends.
    destruct (decide (gi1 = gi ∧ i1 = i)) as [[-> ->]|H1], (decide (gi2 = gi ∧ i2 = i)) as [[-> ->]|H2]; intros E1 E2.
    + split; [done|]. split; [done|]. by eapply NoDup_lookup.
    + destruct (Hold gi2 i2 e); by eapply list_elem_of_lookup_2.
    + destruct (Hold gi1 i1 e); by eapply list_elem_of_lookup_2.
    + by eapply (si_inj _ _ I).
  - intros gi' i' j e. rewrite Hrow. case_decide as Hd; [destruct Hd as [-> ->]; apply (ks_names _ _ _ _ _ _ K)|].
    intros He. rewrite (ks_old _ _ _ _ _ _ K); [by eapply (si_row _ _ I)|].
    apply (Hold gi' i'), elem_of_app. left. by eapply list_elem_of_lookup_2.
  - intros gi' i' j e. rewrite Hmrow. case_decide; [apply (ks_mnames _ _ _ _ _ _ K)|].
    intros He. rewrite (ks_old _ _ _ _ _ _ K); [by eapply (si_mrow _ _ I)|].
    apply (Hold gi' i'), elem_of_app. right. by eapply list_elem_of_lookup_2.
  - intros gi' i' ps. rewrite Hsaved, Hpers. case_decide.
    + intros [= <-]. rewrite lookup_insert_eq. by eexists.
    + intros Hs%(si_saved _ _ I). rewrite lookup_insert_is_Some. destruct (decide (np = ps)); auto.
  - intros gi' i' kl'. rewrite Hserver. case_decide as Hd.
    + destruct Hd as [-> ->]. intros [= <-].
      split; rewrite ?Hrow, ?Hmrow, ?Hsaved, ?Hends, ?decide_True by done; try done.
      * exists kv. rewrite Hheap, Hpeers, !lookup_insert_eq. split; [done|by eexists].
      * apply (ks_registered _ _ _ _ _ _ K).
      * intros e He. by rewrite (ks_enabled _ _ _ _ _ _ K), decide_True.
    + intros Hup%(si_up _ _ I). apply (up_mono cfg); rewrite ?Hrow, ?Hmrow, ?Hsaved, ?decide_False by done; try done.
      * intros kl2 kv2 Hkv2. exists kv2. rewrite Hheap, lookup_insert_ne by congruence. done.
      * intros rl Hrl2. rewrite Hpeers. rewrite lookup_insert_is_Some. destruct (decide (skv_rf kv = rl)); auto.
      * apply (ks_servers _ _ _ _ _ _ K). intros [? ?]%name_of_inj. tauto.
      * intros e He. rewrite (ks_enabled _ _ _ _ _ _ K), decide_False; [done|]. by eapply Hold.
Qed.

(** ** ShutdownServer *)
Lemma disable_ends_all (name : Z → outcome string) (row : list string) k (rn : Network string string) :
  (∀ j e, row !! j = Some e → name (Z.of_nat (k + j)) = Ret e) →
  disable_ends name (Z.of_nat <$> seq k (length row)) rn = Ret (enable_all rn row false).
Proof.
  revert k rn. induction row as [|e row IH]; intros k rn Hname; csimpl; [done|].
  rewrite <-(Nat.add_0_r k) at 1. rewrite (Hname O e eq_refl), obind_Ret.
  apply IH. intros j e' He'. rewrite <-(Hname (Datatypes.S j) e' He'). f_equal. lia.
Qed.

Record kv_stopped cfg cfg' gi i : Prop := {
  kp_n : sk_n cfg' = sk_n cfg;
  kp_state : ∃ gg ps, group_at cfg gi = Some gg ∧
    (∀ gi', group_at cfg' gi' =
      if decide (gi' = gi) then Some (set_entry gg i None ps (row_at cfg gi i) (mrow_at cfg gi i)) else group_at cfg gi') ∧
    (∀ np, ps = Some np → sk_persisters cfg !! np = None ∧ is_Some (sk_persisters cfg' !! np));
  kp_saved : saved_state cfg' gi i = saved_state cfg gi i;
  kp_persisters : sk_persisters cfg ⊆ sk_persisters cfg';
  kp_killed : ∀ kl, server_at cfg gi i = Some kl →
    ∃ kv rf, sk_kvheap cfg' !! kl = Some kv ∧ sk_peers cfg' !! skv_rf kv = Some rf ∧ Raft_killed rf = true;
  kp_heap : ∀ kl kv, sk_kvheap cfg !! kl = Some kv → ∃ kv', sk_kvheap cfg' !! kl = Some kv' ∧ skv_rf kv' = skv_rf kv;
  kp_peers : ∀ rl, is_Some (sk_peers cfg !! rl) → is_Some (sk_peers cfg' !! rl);
  kp_ends : rn_ends (sk_net cfg') = rn_ends (sk_net cfg);
  kp_connections : ∀ e, connection_of (sk_net cfg') e = connection_of (sk_net cfg) e;
  kp_enabled : ∀ e, enabled_of (sk_net cfg') e = if decide (e ∈ ends_at cfg gi i) then false else enabled_of (sk_net cfg) e;
  kp_servers : ∀ snm, server_of (sk_net cfg') snm =
    if decide (snm = name_of gi i) then None else server_of (sk_net cfg) snm;
}.

(** The persister of the stopped server: a fresh copy, if there is one. *)
Lemma kv_stop_persister cfg n gi i gg :
  sinv cfg n → group_at cfg gi = Some gg → (i < n)%nat →
  ∃ H ps,
    (let! s := slice_get (g_saved gg) (Z.of_nat i) in
     match s with
     | Some ps =>
         let! ' (H, np) := Copy (sk_persisters cfg) ps in
         let! l := slice_set (g_saved gg) (Z.of_nat i) (Some np) in Ret (H, set_saved gg l)
     | None => Ret (sk_persisters cfg, gg)
     end) = Ret (H, set_saved gg (<[i := ps]> (g_saved gg))) ∧
    (∀ np, ps = Some np → sk_persisters cfg !! np = None ∧ is_Some (H !! np)) ∧
    sk_persisters cfg ⊆ H ∧ ps ≫= (λ ps, H !! ps) = saved_state cfg gi i.
Proof.
  intros I Hgg Hi. pose proof (si_shape _ _ I _ _ Hgg) as (_ & _ & Hl & _).
  destruct (lookup_lt_is_Some_2 (g_saved gg) i) as [o Ho]; [lia|].
  assert (saved_at cfg gi i = o) as Hs by (unfold saved_at; rewrite Hgg; simpl; by rewrite Ho).
  unfold saved_state. rewrite slice_get_nat, Ho, Hs. simpl. destruct o as [ps|]; simpl.
  - destruct (si_saved _ _ I gi i ps Hs) as [p Hp].
    destruct (Copy_spec _ ps p Hp) as (H1 & np & -> & Hf & ->). simpl.
    rewrite slice_set_nat by lia. simpl. eexists _, (Some np). split; [done|].
    split; [intros np' [= <-]; rewrite lookup_insert_eq; eauto|].
    split; [by apply insert_subseteq|]. simpl. by rewrite lookup_insert_eq, Hp.
  - exists (sk_persisters cfg), None. split; [|done].
    rewrite list_insert_id by done. by destruct gg.
Qed.

(** Killing the server, if it runs. *)
Lemma kv_stop_server cfg (c : config W A RT) n gi i gg gg1 :
  sinv cfg n → group_at cfg gi = Some gg → (i < n)%nat →
  sk_kvheap c = sk_kvheap cfg → sk_peers c = sk_peers cfg → g_servers gg1 = g_servers gg →
  ∃ P hs,
    (let! kv := slice_get (g_servers gg1) (Z.of_nat i) in
     match kv with
     | Some l =>
         let! kv := or_panic (sk_kvheap c !! l) in
         let! ' (P, kv) := ShardKV_Kill (sk_peers c) kv in
         let! ss := slice_set (g_servers gg1) (Z.of_nat i) None in
         Ret (with_servers c P (<[l := kv]> (sk_kvheap c)), set_servers gg1 ss)
     | None => Ret (c, gg1)
     end) = Ret (with_servers c P hs, set_servers gg1 (<[i := None]> (g_servers gg))) ∧
    (∀ kl, server_at cfg gi i = Some kl →
      ∃ kv rf, hs !! kl = Some kv ∧ P !! skv_rf kv = Some rf ∧ Raft_killed rf = true) ∧
    (∀ kl kv, sk_kvheap cfg !! kl = Some kv → ∃ kv', hs !! kl = Some kv' ∧ skv_rf kv' = skv_rf kv) ∧
    (∀ rl, is_Some (sk_peers cfg !! rl) → is_Some (P !! rl)).
Proof.
  intros I Hgg Hi Hheap Hpeers Hss. pose proof (si_shape _ _ I _ _ Hgg) as (_ & Hl & _).
  destruct (lookup_lt_is_Some_2 (g_servers gg) i) as [o Ho]; [lia|].
  assert (server_at cfg gi i = o) as Hserver by (unfold server_at; rewrite Hgg; simpl; by rewrite Ho).
  rewrite Hss, Hheap, Hpeers, slice_get_nat, Ho. cbn [or_panic]. rewrite obind_Ret. destruct o as [kl|].
  - destruct (up_alive _ _ _ _ _ (si_up _ _ I _ _ _ Hserver)) as (kv & Hkv & [rf Hrf]).
    rewrite Hkv. simpl. unfold ShardKV_Kill, Raft_KillAt. rewrite Hrf. simpl. rewrite slice_set_nat by lia. simpl.
    eexists _, _. split; [done|]. split_and!.
    + intros kl' [= <-]%(eq_trans (eq_sym Hserver)). exists kv, (Raft_Kill rf). rewrite !lookup_insert_eq. done.
    + intros kl' kv' Hkv'. destruct (decide (kl = kl')) as [<-|Hne].
      * exists kv. rewrite lookup_insert_eq. split; [done|congruence].
      * exists kv'. by rewrite lookup_insert_ne.
    + intros rl Hrl. rewrite lookup_insert_is_Some. destruct (decide (skv_rf kv = rl)); auto.
  - exists (sk_peers cfg), (sk_kvheap cfg). split; [|split_and!; [congruence|naive_solver|done]].
    rewrite <-Hss, <-Hheap, <-Hpeers, list_insert_id by (by rewrite Hss). by destruct c, gg1.
Qed.

Lemma kv_ShutdownServer_returns cfg n gi i gg :
  sinv cfg n → group_at cfg gi = Some gg → (i < n)%nat → (i < 3)%nat → length (row_at cfg gi i) = n →
  ∃ cfg', ShutdownServer cfg (Z.of_nat gi) (Z.of_nat i) = Ret cfg' ∧ kv_stopped cfg cfg' gi i.
Proof.
  intros I Hgg Hi Hi3 Hrow. pose proof (si_shape _ _ I _ _ Hgg) as (Hgid & Hl1 & Hl2 & Hl3 & Hl4).
  unfold ShutdownServer. rewrite (get_group_at cfg gi gg Hgg), obind_Ret.
  destruct (lookup_lt_is_Some_2 (g_endnames gg) i) as [row Er]; [lia|].
  destruct (lookup_lt_is_Some_2 (g_mendnames gg) i) as [mrow Em]; [lia|].
  assert (row_at cfg gi i = row) as Hr by (unfold row_at; rewrite Hgg; simpl; by rewrite Er).
  assert (mrow_at cfg gi i = mrow) as Hm by (unfold mrow_at; rewrite Hgg; simpl; by rewrite Em).
  rewrite Hl1, seqZ_seq. rewrite Hr in Hrow. rewrite <-Hrow.
  rewrite disable_ends_all by (intros j e He; rewrite slice_get_nat, Er; simpl; by rewrite slice_get_nat, He).
  rewrite obind_Ret, slice_get_nat, Em. cbn [or_panic]. rewrite obind_Ret, seqZ_seq.
  rewrite disable_ends_all by (intros j e He; rewrite slice_get_nat; simpl; by rewrite He). rewrite obind_Ret.
  destruct (kv_stop_persister cfg n gi i gg I Hgg Hi) as (H & ps & Hpers & Hfresh & Hsub & Hsaved).
  cbn [sk_persisters with_net]. rewrite <-obind_assoc, Hpers, obind_Ret, <-obind_assoc.
  match goal with |- context [with_servers ?c _ _] =>
    destruct (kv_stop_server cfg c n gi i gg (set_saved gg (<[i := ps]> (g_saved gg))) I Hgg Hi eq_refl eq_refl eq_refl)
      as (P & hs & Hstop & Hkilled & Hheap & Hpeers) end.
  rewrite Hstop, obind_Ret.
  match goal with |- context [set_group ?c _ ?g] => destruct (set_group_lt c gi g (group_at_lt cfg gi gg Hgg)) as (cfg1 & -> & Hcfg1 & Hat) end.
  exists cfg1. split; [done|].
  assert (set_servers (set_saved gg (<[i := ps]> (g_saved gg))) (<[i := None]> (g_servers gg)) =
          set_entry gg i None ps row mrow) as Hset.
  { unfold set_entry, set_servers, set_saved. simpl. f_equal; symmetry; by apply list_insert_id. }
  assert (saved_at cfg1 gi i = ps) as Hs1.
  { unfold saved_at. rewrite Hat, decide_True by done. simpl.
    rewrite list_lookup_insert_eq by lia. done. }
  assert (sk_persisters cfg1 = H ∧ sk_kvheap cfg1 = hs ∧ sk_peers cfg1 = P ∧ sk_n cfg1 = sk_n cfg ∧
    sk_net cfg1 = DeleteServer (enable_all (enable_all (sk_net cfg) row false) mrow false) (name_of gi i))
    as (Eh & Ehs & Ep & En & Enet) by (rewrite Hcfg1, Hgid; done).
  split; rewrite ?Eh, ?Ehs, ?Ep, ?Enet; try done.
  - exists gg, ps. rewrite Hr, Hm, <-Hset. split; [done|]. split; [exact Hat|done].
  - unfold saved_state at 1. by rewrite Hs1, Eh.
  - simpl. by rewrite !enable_all_ends.
  - intros e. unfold DeleteServer. change (connection_of (set_server ?r _ _) e) with (connection_of r e).
    by rewrite !enable_all_connection.
  - intros e. unfold DeleteServer. change (enabled_of (set_server ?r _ _) e) with (enabled_of r e).
    unfold ends_at. rewrite Hr, Hm, !enable_all_enabled.
    destruct (decide (e ∈ mrow)); [by rewrite decide_True by (apply elem_of_app; by right)|].
    destruct (decide (e ∈ row)); [by rewrite decide_True by (apply elem_of_app; by left)|].
    rewrite decide_False; [done|]. by intros [?|?]%elem_of_app.
  - intros snm. unfold DeleteServer. rewrite server_of_set. case_decide; [done|].
    apply net_rest_server_of. by rewrite !enable_all_rest.
Qed.


Lemma kv_stopped_sinv cfg cfg' n gi i :
  sinv cfg n → (i < n)%nat → (i < 3)%nat → kv_stopped cfg cfg' gi i →
  sinv cfg' n ∧ server_at cfg' gi i = None ∧
  (∀ gi' i', (gi' = gi ∧ i' = i → False) → server_at cfg' gi' i' = server_at cfg gi' i') ∧
  (∀ gi' i', ends_at cfg' gi' i' = ends_at cfg gi' i').
Proof.
  intros I Hi Hi3 K. destruct (kp_state _ _ _ _ K) as (gg & ps & Hgg & Hat & Hps).
  pose proof (si_shape _ _ I _ _ Hgg) as Hshape.
  pose proof (row_set_entry _ _ n _ _ _ _ _ _ _ Hgg Hshape Hi Hi3 Hat) as Hrow.
  pose proof (mrow_set_entry _ _ n _ _ _ _ _ _ _ Hgg Hshape Hi Hi3 Hat) as Hmrow.
  pose proof (saved_set_entry _ _ n _ _ _ _ _ _ _ Hgg Hshape Hi Hi3 Hat) as Hsaved.
  pose proof (server_set_entry _ _ n _ _ _ _ _ _ _ Hgg Hshape Hi Hi3 Hat) as Hserver.
  assert (∀ gi' i', row_at cfg' gi' i' = row_at cfg gi' i') as Hrow'.
  { intros gi' i'. rewrite Hrow. case_decide as Hd; [by destruct Hd as [-> ->]|done]. }
  assert (∀ gi' i', mrow_at cfg' gi' i' = mrow_at cfg gi' i') as Hmrow'.
  { intros gi' i'. rewrite Hmrow. case_decide as Hd; [by destruct Hd as [-> ->]|done]. }
  assert (∀ gi' i', ends_at cfg' gi' i' = ends_at cfg gi' i') as Hends.
  { intros gi' i'. unfold ends_at. by rewrite Hrow', Hmrow'. }
  split; [|split_and!; [by rewrite Hserver, decide_True|by intros; rewrite Hserver, decide_False|done]].
  split.
  - rewrite (kp_n _ _ _ _ K). apply (si_n _ _ I).
  - intros gi' gg'. eapply shape_set_entry; [exact Hgg|exact Hshape|exact Hi|exact Hi3|exact Hat|apply (si_shape _ _ I)].
  - intros gi' i' e. rewrite Hends, (kp_ends _ _ _ _ K). apply (si_ends _ _ I).
  - intros gi1 i1 k1 gi2 i2 k2 e. rewrite !Hends. apply (si_inj _ _ I).
  - intros gi' i' j e. rewrite Hrow', (kp_connections _ _ _ _ K). apply (si_row _ _ I).
  - intros gi' i' j e. rewrite Hmrow', (kp_connections _ _ _ _ K). apply (si_mrow _ _ I).
  - intros gi' i' p. rewrite Hsaved. case_decide; [by intros [_ Hp]%Hps|].
    intros [x Hx]%(si_saved _ _ I). exists x. eapply lookup_weaken; [exact Hx|apply (kp_persisters _ _ _ _ K)].
  - intros gi' i' kl. rewrite Hserver. case_decide as Hd; [done|]. intros Hup%(si_up _ _ I).
    apply (up_mono cfg); try done.
    + by rewrite Hsaved, decide_False.
    + apply (kp_heap _ _ _ _ K).
    + apply (kp_peers _ _ _ _ K).
    + rewrite (kp_servers _ _ _ _ K), decide_False; [done|]. intros [? ?]%name_of_inj. tauto.
    + intros e He. rewrite (kp_enabled _ _ _ _ K), decide_False; [done|]. intros He'.
      apply list_elem_of_lookup in He as [k He], He' as [k' He']. destruct Hd.
      by destruct (si_inj _ _ I _ _ _ _ _ _ _ He He') as (-> & -> & _).
Qed.

End harness.

(** shutting down a running server of a group isolates it and nothing
    else: its ends are disabled and its name is gone from the network, the
    instance is killed, its persister is replaced by a fresh copy; every other
    server of every group still runs, registered and with all its ends
    enabled, and the harness is well formed again. *)
Theorem ShutdownServer_isolates {W A RT : Type} (cfg : config W A RT) (n gi i kl : nat) :
  sinv cfg n → (i < n)%nat → (i < 3)%nat → server_at cfg gi i = Some kl →
  ∃ cfg', ShutdownServer cfg (Z.of_nat gi) (Z.of_nat i) = Ret cfg' ∧ sinv cfg' n ∧
    server_at cfg' gi i = None ∧ server_of (sk_net cfg') (name_of gi i) = None ∧
    (∀ e, e ∈ ends_at cfg gi i → enabled_of (sk_net cfg') e = false) ∧
    (∃ kv rf, sk_kvheap cfg' !! kl = Some kv ∧ sk_peers cfg' !! skv_rf kv = Some rf ∧ Raft_killed rf = true) ∧
    saved_state cfg' gi i = saved_state cfg gi i ∧
    (∃ ps, saved_at cfg' gi i = Some ps ∧ sk_persisters cfg !! ps = None) ∧
    ∀ gi' i' kl', (gi' = gi ∧ i' = i → False) → server_at cfg gi' i' = Some kl' →
      server_at cfg' gi' i' = Some kl' ∧ up cfg' n gi' i' kl'.
Proof.
  intros I Hi Hi3 Hkl.
  destruct (group_at cfg gi) as [gg|] eqn:Hgg; [|by unfold server_at in Hkl; rewrite Hgg in Hkl].
  destruct (kv_ShutdownServer_returns cfg n gi i gg I Hgg Hi Hi3) as (cfg' & -> & K).
  { apply (up_row _ _ _ _ _ (si_up _ _ I _ _ _ Hkl)). }
  destruct (kv_stopped_sinv cfg cfg' n gi i I Hi Hi3 K) as (I' & Hnone & Hothers & _).
  exists cfg'. split_and!; [done|done|done| | | | | |].
  - by rewrite (kp_servers _ _ _ _ K), decide_True.
  - intros e He. by rewrite (kp_enabled _ _ _ _ K), decide_True.
  - by apply (kp_killed _ _ _ _ K).
  - apply (kp_saved _ _ _ _ K).
  - destruct (kp_state _ _ _ _ K) as (gg' & ps & Hgg' & Hat & Hps).
    pose proof (saved_set_entry _ _ n _ _ _ _ _ _ _ Hgg' (si_shape _ _ I _ _ Hgg') Hi Hi3 Hat gi i) as Hs.
    rewrite decide_True in Hs by done. destruct (up_saved _ _ _ _ _ (si_up _ _ I _ _ _ Hkl)) as [p Hp].
    destruct (si_saved _ _ I _ _ _ Hp) as [x Hx]. pose proof (kp_saved _ _ _ _ K) as Heq.
    unfold saved_state in Heq. rewrite Hp, Hs in Heq. simpl in Heq. rewrite Hx in Heq.
    destruct ps as [ps|]; [|done]. exists ps. split; [done|]. by apply Hps.
  - intros gi' i' kl' Hne Hkl'. rewrite Hothers by done. split; [done|].
    apply (si_up _ _ I'). by rewrite Hothers.
Qed.
