(* ===== verification/ShardkvStart.v ===== *)
(** * Starting the sharded service's harness

    With different random names, [make_config] starts three shardmasters and
    three groups of up to three servers; the sizes of its arrays admit no
    other number of servers per group once a clerk is made. *)
From stdpp Require Import base gmap sets numbers strings sorting list.
From S2P Require Import Prelude Strconv Labrpc LabrpcProof NetAdmin Raft.
From S2P Require RaftServer Shardmaster Shardkv.
From S2P Require Import ShardkvConfig ShardkvConfigProof.
Local Open Scope Z_scope.
Local Open Scope go_scope.

(** Names that are yet to be used. *)
Definition unused (rn : Network string string) (l : list string) : Prop :=
  NoDup l ∧ ∀ e, e ∈ l → e ∉ rn_ends rn.

Lemma unused_fst (rn : Network string string) (l rest : list string) : unused rn (l ++ rest) → unused rn l.
Proof. intros [(Hl & _)%NoDup_app Hf]. split; [done|]. intros e He. apply Hf, elem_of_app. by left. Qed.

Lemma unused_snd (rn rn' : Network string string) (l rest : list string) :
  unused rn (l ++ rest) → (∀ e, e ∈ rn_ends rn' → e ∈ l ∨ e ∈ rn_ends rn) → unused rn' rest.
Proof.
  intros [(_ & Hdisj & Hr)%NoDup_app Hf] Hends. split; [done|].
  intros e He [Hin|Hin]%Hends; [by apply (Hdisj e)|]. apply (Hf e); [apply elem_of_app; by right|done].
Qed.

Section start.
Context {W A RT : Type}.
Implicit Types (cfg : config W A RT) (gg : group) (gi i j k n : nat) (e : string) (names mnames rest : list string).

Definition masters_up cfg i : Prop := ∀ j, (j < i)%nat → is_Some (server_of (sk_net cfg) (mastername (Z.of_nat j))).

(** ** Shardmasters *)
Lemma StartMasterServer_returns (sm_methods : nat → list (rmethod W A RT)) (raft_methods : rloc → list (rmethod W A RT))
    cfg i names rest :
  (i < length (sk_masterservers cfg))%nat → unused (sk_net cfg) (names ++ rest) → masters_up cfg i →
  ∃ cfg', StartMasterServer sm_methods raft_methods cfg (Z.of_nat i) names = Ret cfg' ∧
    unused (sk_net cfg') rest ∧ masters_up cfg' (S i) ∧
    length (sk_masterservers cfg') = length (sk_masterservers cfg) ∧ sk_nmasters cfg' = sk_nmasters cfg ∧
    sk_maxraftstate cfg' = sk_maxraftstate cfg.
Proof.
  intros Hi Hun Hup. unfold StartMasterServer.
  destruct (unused_fst _ _ _ Hun) as [Hnd Hfresh].
  destruct (make_enabled_ends_spec mastername names 0 (sk_net cfg) Hnd Hfresh) as (rn & Hrn & Hrest & Hends & _).
  change (Z.of_nat 0) with 0 in Hrn. rewrite Hrn, obind_Ret.
  assert (unused rn rest) as Hun'.
  { apply (unused_snd _ rn _ _ Hun). intros e. by rewrite Hends, elem_of_union, elem_of_list_to_set. }
  unfold Shardmaster.StartServer, MakePersister, new_persister. cbn zeta beta iota.
  rewrite RaftServer.Raft_Make_Ret by (rewrite lookup_insert_eq; by eexists).
  rewrite obind_Ret. simpl. rewrite slice_set_nat by done. simpl.
  destruct (MakeService_returns "ShardMaster" (sm_methods (fresh (dom (sk_mheap cfg))))) as [svc ->]. rewrite obind_Ret.
  destruct (MakeService_returns "Raft" (raft_methods (fresh (dom (sk_peers cfg))))) as [rsvc ->]. rewrite obind_Ret.
  eexists. split; [done|]. split; [done|]. split; [|simpl; by rewrite length_insert].
  intros j Hj. unfold AddServer. simpl. rewrite server_of_set. case_decide as Heq; [by eexists|].
  rewrite (net_rest_server_of _ _ _ Hrest). apply Hup. destruct (decide (j = i)) as [->|]; [done|lia].
Qed.

Lemma start_masters_returns (sm_methods : nat → list (rmethod W A RT)) (raft_methods : rloc → list (rmethod W A RT))
    cfg k m (names : Z → list string) rest :
  (k + m = length (sk_masterservers cfg))%nat → masters_up cfg k →
  unused (sk_net cfg) (concat ((λ i : nat, names (Z.of_nat i)) <$> seq k m) ++ rest) →
  ∃ cfg', start_masters sm_methods raft_methods cfg (Z.of_nat <$> seq k m) names = Ret cfg' ∧
    unused (sk_net cfg') rest ∧ masters_up cfg' (k + m) ∧ sk_nmasters cfg' = sk_nmasters cfg ∧
    sk_maxraftstate cfg' = sk_maxraftstate cfg.
Proof.
  revert cfg k. induction m as [|m IH]; intros cfg k Hkm Hup; csimpl; rewrite ?Nat.add_0_r; [by exists cfg|].
  rewrite <-(assoc_L (++)). intros Hun.
  destruct (StartMasterServer_returns sm_methods raft_methods cfg k (names (Z.of_nat k)) _ ltac:(lia) Hun Hup)
    as (cfg1 & -> & Hun1 & Hup1 & Hl1 & Hn1 & Hm1).
  rewrite obind_Ret. destruct (IH cfg1 (S k)) as (cfg' & -> & Hun' & Hup' & Hn' & Hm'); [lia|done|done|].
  exists cfg'. replace (k + S m)%nat with (S k + m)%nat by lia. split; [done|]. split; [done|]. split; [done|]. split; congruence.
Qed.

(** ** Sizes: what any start that returns tells *)
Lemma set_group_Ret cfg (gi : Z) gg cfg' :
  set_group cfg gi gg = Ret cfg' →
  cfg' = with_groups cfg (<[Z.to_nat gi := Some gg]> (sk_groups cfg)) ∧ 0 ≤ gi < zlen (sk_groups cfg).
Proof. unfold set_group. intros Hs. inv_ret. apply slice_set_Ret in Hv as [Hgi ->]. done. Qed.

Lemma get_group_set cfg (gi : Z) gg :
  0 ≤ gi < zlen (sk_groups cfg) → get_group (with_groups cfg (<[Z.to_nat gi := Some gg]> (sk_groups cfg))) gi = Ret gg.
Proof.
  intros Hgi. unfold get_group, slice_get. rewrite bool_decide_eq_true_2 by lia. simpl.
  by rewrite list_lookup_insert_eq by lia.
Qed.

Lemma StartServer_sizes (skv_methods : nat → list (rmethod W A RT)) (raft_methods : rloc → list (rmethod W A RT))
    cfg (gi i : Z) names mnames cfg' :
  StartServer skv_methods raft_methods cfg gi i names mnames = Ret cfg' →
  sk_n cfg' = sk_n cfg ∧ sk_nmasters cfg' = sk_nmasters cfg ∧ length (sk_groups cfg') = length (sk_groups cfg) ∧
  ∃ gg gg', get_group cfg gi = Ret gg ∧ get_group cfg' gi = Ret gg' ∧
    length (g_mendnames gg') = length (g_mendnames gg) ∧ 0 ≤ i < zlen (g_mendnames gg).
Proof.
  unfold StartServer. intros Hs.
  repeat first [progress inv_ret | match goal with H : match ?p with (_, _) => _ end = Ret _ |- _ => destruct p end].
  match goal with H : set_group _ _ _ = Ret ?c |- _ => apply set_group_Ret in H as [-> Hgi] end. simpl in Hgi.
  match goal with H : slice_set (g_mendnames _) _ _ = Ret _ |- _ => apply slice_set_Ret in H as [Hi ->] end.
  subst cfg'. simpl. rewrite length_insert. split_and!; [done|done|done|].
  eexists _, _. split; [done|]. split; [by apply (get_group_set cfg)|]. simpl. by rewrite length_insert.
Qed.

(** ** Groups *)

(** A group in the books, of which the first [k] servers run. *)
Definition group_up cfg gi k : Prop :=
  (∃ gg, group_at cfg gi = Some gg) ∧ ∀ i, (i < k)%nat → is_Some (server_at cfg gi i).

Lemma kv_started_up cfg cfg' n gi i names mnames :
  sinv cfg n → (i < n)%nat → (i < 3)%nat → kv_started cfg cfg' gi i names mnames →
  is_Some (server_at cfg' gi i) ∧ (∀ gi' i', is_Some (server_at cfg gi' i') → is_Some (server_at cfg' gi' i')) ∧
  (∀ gi', is_Some (group_at cfg gi') → is_Some (group_at cfg' gi')) ∧
  (∀ gi', gi' ≠ gi → group_at cfg' gi' = group_at cfg gi').
Proof.
  intros I Hi Hi3 K. destruct (ks_state _ _ _ _ _ _ K) as (gg & kl & kv & np & Hgg & Hat & _).
  pose proof (server_set_entry _ _ n _ _ _ _ _ _ _ Hgg (si_shape _ _ I _ _ Hgg) Hi Hi3 Hat) as Hserver.
  split; [rewrite Hserver, decide_True by done; by eexists|]. split.
  - intros gi' i' Hs. rewrite Hserver. case_decide; [by eexists|done].
  - split; intros gi' Hs; rewrite Hat; case_decide; (by eexists) || done.
Qed.

Lemma StartGroup_loop_returns (skv_methods : nat → list (rmethod W A RT)) (raft_methods : rloc → list (rmethod W A RT))
    cfg n gi k m (names mnames : Z → list string) rest :
  sinv cfg n → (n ≤ 3)%nat → (k + m = n)%nat → group_up cfg gi k →
  (∀ i, (i < n)%nat → length (names (Z.of_nat i)) = n ∧ length (mnames (Z.of_nat i)) = 3%nat) →
  unused (sk_net cfg) (concat ((λ i : nat, names (Z.of_nat i) ++ mnames (Z.of_nat i)) <$> seq k m) ++ rest) →
  ∃ cfg', StartGroup_loop skv_methods raft_methods cfg (Z.of_nat gi) (Z.of_nat <$> seq k m) names mnames = Ret cfg' ∧
    sinv cfg' n ∧ group_up cfg' gi n ∧ unused (sk_net cfg') rest ∧
    (∀ gi' k', group_up cfg gi' k' → group_up cfg' gi' k') ∧
    (∀ gi', gi' ≠ gi → group_at cfg' gi' = group_at cfg gi') ∧
    (∀ j : Z, is_Some (server_of (sk_net cfg) (mastername j)) → is_Some (server_of (sk_net cfg') (mastername j))) ∧
    length (sk_groups cfg') = length (sk_groups cfg) ∧ sk_nmasters cfg' = sk_nmasters cfg.
Proof.
  intros I Hn3 Hkm Hup Hlens. revert cfg k I Hkm Hup. induction m as [|m IH]; intros cfg k I Hkm Hup; csimpl.
  { intros Hun. exists cfg. replace n with k in * by lia. split_and!; done || apply I. }
  rewrite <-(assoc_L (++)). intros Hun. destruct (unused_fst _ _ _ Hun) as [Hnd Hfresh].
  assert (k < n)%nat as Hk by lia. assert (k < 3)%nat as Hk3 by lia.
  destruct Hup as [[gg Hgg] Hup]. destruct (Hlens k ltac:(lia)) as [Hl1 Hl2].
  destruct (kv_StartServer_returns skv_methods raft_methods cfg n gi k gg (names (Z.of_nat k)) (mnames (Z.of_nat k))
    I Hgg Hk Hk3 Hnd Hfresh) as (cfg1 & Hst & K). rewrite Hst, obind_Ret.
  pose proof (kv_started_sinv _ _ n _ _ _ _ I Hk Hk3 Hl1 Hl2 Hnd Hfresh K) as I1.
  destruct (kv_started_up _ _ n _ _ _ _ I Hk Hk3 K) as (Hnew & Hold & Hgroups & Hother).
  apply StartServer_sizes in Hst as (_ & Hnm & Hlen & _).
  destruct (IH cfg1 (S k) I1 ltac:(lia)) as (cfg' & -> & I' & Hup' & Hun' & Hkeep & Hother' & Hmasters & Hlen' & Hnm').
  { split; [apply Hgroups; by eexists|]. intros i Hi.
    destruct (decide (i = k)) as [->|]; [done|apply Hold, Hup; lia]. }
  { apply (unused_snd _ _ _ _ Hun). intros e. rewrite (ks_ends _ _ _ _ _ _ K), !elem_of_union, !elem_of_list_to_set, elem_of_app. tauto. }
  exists cfg'. split_and!; try done; try congruence.
  - intros gi' k' [[gg' Hgg'] Hk']. apply Hkeep. split; [apply Hgroups; by eexists|]. intros i Hi. by apply Hold, Hk'.
  - intros gi' Hne. by rewrite Hother', Hother.
  - intros j Hj. apply Hmasters. rewrite (ks_servers _ _ _ _ _ _ K); [done|]. apply mastername_servername.
Qed.

(** A new group, none of whose servers runs. *)
Definition blank_group (gi : Z) n : group :=
  MkGroup (100 + gi) (replicate n None) (replicate n None) (replicate n []) (replicate 3 []).

Lemma replicate_lookup_default {B : Type} n (x : B) i : default x (replicate n x !! i) = x.
Proof. destruct (replicate n x !! i) eqn:Hi; [|done]. by apply lookup_replicate in Hi as [-> _]. Qed.

Lemma replicate_lookup_join {B : Type} n i : (replicate n (None : option B) !! i) ≫= id = None.
Proof. destruct (replicate n None !! i) eqn:Hi; [|done]. by apply lookup_replicate in Hi as [-> _]. Qed.

Lemma set_blank_group cfg n gi :
  sinv cfg n → (gi < length (sk_groups cfg))%nat → group_at cfg gi = None →
  ∃ cfg', set_group cfg (Z.of_nat gi) (blank_group (Z.of_nat gi) n) = Ret cfg' ∧ sinv cfg' n ∧ group_up cfg' gi 0 ∧
    sk_net cfg' = sk_net cfg ∧ (∀ gi' k', group_up cfg gi' k' → group_up cfg' gi' k') ∧
    (∀ gi', gi' ≠ gi → group_at cfg' gi' = group_at cfg gi') ∧
    length (sk_groups cfg') = length (sk_groups cfg) ∧ sk_n cfg' = sk_n cfg ∧ sk_nmasters cfg' = sk_nmasters cfg.
Proof.
  intros I Hgi Hnone. destruct (set_group_lt cfg gi (blank_group (Z.of_nat gi) n) Hgi) as (cfg' & Hset & Hcfg' & Hat).
  exists cfg'. split; [done|].
  assert (∀ gi' i, row_at cfg' gi' i = row_at cfg gi' i) as Hrow.
  { intros gi' i. unfold row_at. rewrite Hat. case_decide as Hd; [|done]. rewrite Hd, Hnone. apply replicate_lookup_default. }
  assert (∀ gi' i, mrow_at cfg' gi' i = mrow_at cfg gi' i) as Hmrow.
  { intros gi' i. unfold mrow_at. rewrite Hat. case_decide as Hd; [|done]. rewrite Hd, Hnone.
    apply (replicate_lookup_default 3). }
  assert (∀ gi' i, saved_at cfg' gi' i = saved_at cfg gi' i) as Hsaved.
  { intros gi' i. unfold saved_at. rewrite Hat. case_decide as Hd; [|done]. rewrite Hd, Hnone. apply replicate_lookup_join. }
  assert (∀ gi' i, server_at cfg' gi' i = server_at cfg gi' i) as Hserver.
  { intros gi' i. unfold server_at. rewrite Hat. case_decide as Hd; [|done]. rewrite Hd, Hnone. apply replicate_lookup_join. }
  assert (∀ gi' i, ends_at cfg' gi' i = ends_at cfg gi' i) as Hends by (intros; unfold ends_at; by rewrite Hrow, Hmrow).
  split.
  { split; rewrite Hcfg'; simpl; try apply I; rewrite <-Hcfg'.
    - intros gi' gg'. rewrite Hat. case_decide as Hd; [|apply (si_shape _ _ I)].
      intros [= <-]. unfold shaped. simpl. rewrite !length_replicate, Hd. done.
    - intros gi' i e. rewrite Hends. apply (si_ends _ _ I).
    - intros gi1 i1 k1 gi2 i2 k2 e. rewrite !Hends. apply (si_inj _ _ I).
    - intros gi' i j e. rewrite Hrow. apply (si_row _ _ I).
    - intros gi' i j e. rewrite Hmrow. apply (si_mrow _ _ I).
    - intros gi' i ps. rewrite Hsaved. apply (si_saved _ _ I).
    - intros gi' i kl. rewrite Hserver. intros Hup%(si_up _ _ I).
      apply (up_mono cfg); try done; rewrite Hcfg'; simpl; [naive_solver|done..]. }
  split_and!.
  - split; [rewrite Hat, decide_True by done; by eexists|]. intros i; lia.
  - by rewrite Hcfg'.
  - intros gi' k' [[gg Hgg] Hk]. split.
    + rewrite Hat. case_decide; by eexists.
    + intros i Hi. rewrite Hserver. by apply Hk.
  - intros gi' Hne. by rewrite Hat, decide_False.
  - rewrite Hcfg'. simpl. by rewrite length_insert.
  - by rewrite Hcfg'.
  - by rewrite Hcfg'.
Qed.

(** The names of a group, and all the names of a run. *)
Definition group_draws (d : draws) n gi : list string :=
  concat ((λ i : nat, d_ends d (Z.of_nat gi) (Z.of_nat i) ++ d_mends d (Z.of_nat gi) (Z.of_nat i)) <$> seq 0 n).

Definition all_draws (d : draws) n : list string :=
  concat ((λ i : nat, d_masters d (Z.of_nat i)) <$> seq 0 3) ++ d_clerk d ++ concat (group_draws d n <$> seq 0 3).

Definition draws_lengths (d : draws) n : Prop :=
  ∀ gi i, (i < n)%nat →
    length (d_ends d (Z.of_nat gi) (Z.of_nat i)) = n ∧ length (d_mends d (Z.of_nat gi) (Z.of_nat i)) = 3%nat.

Lemma start_groups_returns (skv_methods : nat → list (rmethod W A RT)) (raft_methods : rloc → list (rmethod W A RT))
    cfg n k m (d : draws) rest :
  sinv cfg n → (n ≤ 3)%nat → (k + m = length (sk_groups cfg))%nat → sk_nmasters cfg = 3 →
  (∀ gi, (gi < k)%nat → group_up cfg gi n) → (∀ gi, (k ≤ gi)%nat → group_at cfg gi = None) →
  draws_lengths d n → unused (sk_net cfg) (concat (group_draws d n <$> seq k m) ++ rest) →
  ∃ cfg', start_groups skv_methods raft_methods cfg (Z.of_nat <$> seq k m) d = Ret cfg' ∧ sinv cfg' n ∧
    (∀ gi, (gi < k + m)%nat → group_up cfg' gi n) ∧ unused (sk_net cfg') rest ∧
    (∀ j : Z, is_Some (server_of (sk_net cfg) (mastername j)) → is_Some (server_of (sk_net cfg') (mastername j))) ∧
    sk_nmasters cfg' = 3.
Proof.
  intros I Hn3 Hkm Hnm Hup Hnone Hlens. revert cfg k I Hkm Hnm Hup Hnone.
  induction m as [|m IH]; intros cfg k I Hkm Hnm Hup Hnone; csimpl.
  { intros Hun. exists cfg. rewrite Nat.add_0_r. done. }
  rewrite <-(assoc_L (++)). intros Hun. rewrite Hnm, (si_n _ _ I), Nat2Z.id.
  destruct (set_blank_group cfg n k I) as (cfg1 & Hset & I1 & Hup1 & Hnet1 & Hkeep1 & Hother1 & Hlen1 & Hn1 & Hnm1);
    [lia|by apply Hnone|].
  change (Z.to_nat 3) with 3%nat. unfold blank_group in Hset. rewrite Hset, obind_Ret, (si_n _ _ I1), seqZ_seq.
  destruct (StartGroup_loop_returns skv_methods raft_methods cfg1 n k 0 n (d_ends d (Z.of_nat k)) (d_mends d (Z.of_nat k))
    (concat (group_draws d n <$> seq (S k) m) ++ rest) I1 Hn3 eq_refl Hup1)
    as (cfg2 & -> & I2 & Hup2 & Hun2 & Hkeep2 & Hother2 & Hmasters2 & Hlen2 & Hnm2).
  { intros i Hi. by apply Hlens. }
  { by rewrite Hnet1. }
  rewrite obind_Ret. destruct (IH cfg2 (S k)) as (cfg' & -> & I' & Hup' & Hun' & Hmasters' & Hnm'); try done.
  { lia. }
  { congruence. }
  { intros gi Hgi. destruct (decide (gi = k)) as [->|]; [done|]. apply Hkeep2, Hkeep1, Hup. lia. }
  { intros gi Hgi. rewrite Hother2, Hother1 by lia. apply Hnone. lia. }
  exists cfg'. replace (k + S m)%nat with (S k + m)%nat by lia. split_and!; try done.
  intros j Hj. apply Hmasters', Hmasters2. by rewrite Hnet1.
Qed.

(** Well-formedness does not look at the clerks and the faults of the network. *)
Lemma sinv_reliable cfg n cl next b :
  sinv cfg n → sinv (with_net (with_clerks cfg cl next) (Reliable (sk_net cfg) b)) n.
Proof.
  intros []. split; try assumption.
  intros gi i kl Hkl. apply (up_mono cfg); try done; [by apply si_up|naive_solver].
Qed.

Lemma sinv_no_groups cfg n : sk_n cfg = Z.of_nat n → (∀ gi, group_at cfg gi = None) → sinv cfg n.
Proof.
  intros Hn Hnone.
  assert (∀ gi i, row_at cfg gi i = []) as Hrow by (intros; unfold row_at; by rewrite Hnone).
  assert (∀ gi i, mrow_at cfg gi i = []) as Hmrow by (intros; unfold mrow_at; by rewrite Hnone).
  assert (∀ gi i, ends_at cfg gi i = []) as Hends by (intros; unfold ends_at; by rewrite Hrow, Hmrow).
  split; try done; intros *; rewrite ?Hnone, ?Hends, ?Hrow, ?Hmrow; try done.
  - by intros ?%not_elem_of_nil.
  - unfold saved_at. by rewrite Hnone.
  - unfold server_at. by rewrite Hnone.
Qed.

(** [make_config] with all its names different starts everything. *)
Lemma make_config_starts (skv_methods sm_methods : nat → list (rmethod W A RT))
    (raft_methods : rloc → list (rmethod W A RT)) n (unreliable : bool) (maxraftstate : Z) (d : draws) rest :
  (n ≤ 3)%nat → draws_lengths d n → NoDup (all_draws d n ++ rest) →
  ∃ cfg : config W A RT,
    make_config skv_methods sm_methods raft_methods (Z.of_nat n) unreliable maxraftstate d = Ret cfg ∧
    sinv cfg n ∧ (∀ gi, (gi < 3)%nat → group_up cfg gi n) ∧ masters_up cfg 3 ∧ sk_nmasters cfg = 3 ∧
    rn_reliable (sk_net cfg) = negb unreliable ∧ unused (sk_net cfg) rest.
Proof.
  intros Hn3 Hlens Hnd. unfold make_config.
  set (cfg0 := MkConfig _ _ _ _ _ _ _ _ _ _ _ _ _ _ _).
  assert (unused (sk_net cfg0) (all_draws d n ++ rest)) as Hun.
  { split; [done|]. intros e _. apply not_elem_of_empty. }
  unfold all_draws in Hun. rewrite <-!(assoc_L (++)) in Hun.
  assert (masters_up cfg0 0) as Hup0 by (intros j; lia).
  destruct (start_masters_returns sm_methods raft_methods cfg0 0 3 (d_masters d)
    (d_clerk d ++ concat (group_draws d n <$> seq 0 3) ++ rest) eq_refl Hup0 Hun) as (cfg1 & Hm & Hun1 & Hup1 & Hnm1 & _).
  change (seqZ 0 3) with (Z.of_nat <$> seq 0 3). rewrite Hm, obind_Ret. unfold shardclerk.
  destruct (unused_fst _ _ _ Hun1) as [Hcnd Hcf].
  destruct (make_enabled_ends_spec mastername (d_clerk d) 0 (sk_net cfg1) Hcnd Hcf) as (rn & Hrn & Hrest & Hends & _).
  change (Z.of_nat 0) with 0 in Hrn. rewrite Hrn. cbn [obind]. cbn zeta.
  set (cfg2 := MkConfig _ _ _ _ _ _ _ _ _ _ _ _ _ _ _).
  assert (∀ gi, group_at cfg2 gi = None) as Hnone.
  { intros gi. unfold group_at, cfg2. cbn [sk_groups]. apply (replicate_lookup_join 3). }
  assert (sinv cfg2 n) as I2 by (by apply sinv_no_groups).
  destruct (start_groups_returns skv_methods raft_methods cfg2 n 0 3 d rest I2 Hn3 eq_refl Hnm1)
    as (cfg3 & Hg & I3 & Hup3 & Hun3 & Hmasters & Hnm3); try done.
  { intros gi; lia. }
  { apply (unused_snd (sk_net cfg1) rn (d_clerk d)); [done|].
    intros e. by rewrite Hends, elem_of_union, elem_of_list_to_set. }
  rewrite Hg, obind_Ret. eexists. split; [done|]. split; [by apply (sinv_reliable cfg3 n)|].
  split; [exact Hup3|]. split; [|done]. intros j Hj. apply Hmasters. unfold cfg2. cbn [sk_net].
  rewrite (net_rest_server_of _ _ _ Hrest). by apply Hup1.
Qed.

(** ** The sizes that work *)
Lemma StartGroup_loop_sizes (skv_methods : nat → list (rmethod W A RT)) (raft_methods : rloc → list (rmethod W A RT))
    cfg (gi : Z) (ids : list Z) (names mnames : Z → list string) cfg' gg :
  StartGroup_loop skv_methods raft_methods cfg gi ids names mnames = Ret cfg' → get_group cfg gi = Ret gg →
  sk_n cfg' = sk_n cfg ∧ sk_nmasters cfg' = sk_nmasters cfg ∧ ∀ i : Z, i ∈ ids → i < zlen (g_mendnames gg).
Proof.
  revert cfg gg. induction ids as [|i ids IH]; intros cfg gg; cbn [StartGroup_loop].
  { intros [= ->] _. split; [done|]. split; [done|]. by intros i ?%not_elem_of_nil. }
  intros Hs Hgg. apply obind_Ret_inv in Hs as (cfg1 & Hst & Hs).
  apply StartServer_sizes in Hst as (Hn & Hnm & _ & gg0 & gg1 & Hgg0 & Hgg1 & Hlen & Hi).
  rewrite Hgg in Hgg0. injection Hgg0 as <-. destruct (IH cfg1 gg1 Hs Hgg1) as (Hn' & Hnm' & Hall).
  split; [congruence|]. split; [congruence|]. intros k [->|Hk]%elem_of_cons; [lia|]. rewrite <-Hlen. by apply Hall.
Qed.

Lemma start_groups_sizes (skv_methods : nat → list (rmethod W A RT)) (raft_methods : rloc → list (rmethod W A RT))
    cfg (gis : list Z) (d : draws) cfg' :
  start_groups skv_methods raft_methods cfg gis d = Ret cfg' → 0 ≤ sk_nmasters cfg →
  sk_n cfg' = sk_n cfg ∧ sk_nmasters cfg' = sk_nmasters cfg ∧ (gis ≠ [] → sk_n cfg ≤ sk_nmasters cfg).
Proof.
  intros Hs Hnm. revert cfg Hs Hnm. induction gis as [|gi gis IH]; intros cfg; cbn [start_groups]; [by intros [= ->]|].
  intros Hs Hnm. apply obind_Ret_inv in Hs as (cfg1 & Hset & Hs). apply set_group_Ret in Hset as [-> Hgi].
  apply obind_Ret_inv in Hs as (cfg2 & Hloop & Hs).
  apply StartGroup_loop_sizes with (2 := get_group_set cfg gi _ Hgi) in Hloop as (Hn & Hnm2 & Hall).
  destruct (IH cfg2 Hs) as (Hn' & Hnm' & _); [by rewrite Hnm2|]. simpl in Hn, Hnm2.
  split; [congruence|]. split; [congruence|]. intros _. simpl in Hall. rewrite length_replicate in Hall.
  destruct (decide (sk_n cfg ≤ 0)); [lia|].
  specialize (Hall (sk_n cfg - 1)). rewrite elem_of_seqZ in Hall. lia.
Qed.

Lemma start_masters_sizes (sm_methods : nat → list (rmethod W A RT)) (raft_methods : rloc → list (rmethod W A RT))
    cfg (ids : list Z) (names : Z → list string) cfg' :
  start_masters sm_methods raft_methods cfg ids names = Ret cfg' → sk_nmasters cfg' = sk_nmasters cfg.
Proof.
  revert cfg. induction ids as [|i ids IH]; intros cfg; cbn [start_masters]; [by intros [= ->]|].
  intros Hs. apply obind_Ret_inv in Hs as (cfg1 & Hst & Hs). rewrite (IH cfg1 Hs). clear -Hst. unfold StartMasterServer in Hst.
  repeat first [progress inv_ret | match goal with H : match ?p with (_, _) => _ end = Ret _ |- _ => destruct p end].
  by subst cfg1.
Qed.

Lemma make_config_sizes (skv_methods sm_methods : nat → list (rmethod W A RT))
    (raft_methods : rloc → list (rmethod W A RT)) (n : Z) (unreliable : bool) (maxraftstate : Z) (d : draws) cfg :
  make_config skv_methods sm_methods raft_methods n unreliable maxraftstate d = Ret cfg →
  sk_n cfg = n ∧ sk_nmasters cfg = 3 ∧ n ≤ 3.
Proof.
  unfold make_config. intros Hs. apply obind_Ret_inv in Hs as (cfg1 & Hm & Hs).
  apply start_masters_sizes in Hm. apply obind_Ret_inv in Hs as ([cfg2 mck] & Hc & Hs).
  unfold shardclerk in Hc. apply obind_Ret_inv in Hc as (rn & _ & [= <- <-]).
  apply obind_Ret_inv in Hs as (cfg3 & Hg & [= <-]).
  apply start_groups_sizes in Hg as (Hn & Hnm & Hle); [|simpl; by rewrite Hm]. simpl in *.
  rewrite Hm in *. split; [done|]. split; [done|]. by apply Hle.
Qed.

(** A clerk's ends fit the array exactly if it is not shorter. *)
Lemma client_ends_size names (j : Z) (endnames : list string) (rn : Network string string) r :
  client_ends names j endnames rn = Ret r → 0 ≤ j → names ≠ [] → j + zlen names ≤ zlen endnames.
Proof.
  revert j endnames rn. induction names as [|e names IH]; intros j endnames rn; simpl; [done|].
  intros Hs Hj _. apply obind_Ret_inv in Hs as (l & Hl & Hs). apply slice_set_Ret in Hl as [Hb ->].
  apply obind_Ret_inv in Hs as (rn1 & _ & Hs). destruct names as [|e' names']; [simpl; lia|].
  apply IH in Hs; [|lia|done]. rewrite length_insert in Hs. simpl in *. lia.
Qed.

Lemma client_ends_returns names j (endnames : list string) (rn : Network string string) :
  unused rn names → (j + length names ≤ length endnames)%nat → returns (client_ends names (Z.of_nat j) endnames rn).
Proof.
  revert j endnames rn. induction names as [|e names IH]; intros j endnames rn Hun Hl; simpl; [by eexists|].
  simpl in Hl. rewrite slice_set_nat by lia. rewrite obind_Ret.
  destruct (MakeEnd_fresh rn e) as (rn1 & Hrn1 & Hends1 & _); [apply Hun; left|].
  rewrite Hrn1, obind_Ret. replace (Z.of_nat j + 1) with (Z.of_nat (S j)) by lia. apply IH.
  - apply (unused_snd rn _ [e] names Hun). intros e'. simpl. rewrite Hends1, elem_of_union, elem_of_singleton, list_elem_of_singleton. done.
  - rewrite length_insert. lia.
Qed.

(** ** Restarts *)
Record restart := MkRestart { r_gi : nat; r_i : nat; r_names : list string; r_mnames : list string }.

Fixpoint run_restarts (skv_methods : nat → list (rmethod W A RT)) (raft_methods : rloc → list (rmethod W A RT))
    cfg (ops : list restart) : outcome (config W A RT) :=
  match ops with
  | [] => Ret cfg
  | r :: ops' =>
      let! cfg := ShutdownServer cfg (Z.of_nat (r_gi r)) (Z.of_nat (r_i r)) in
      let! cfg := StartServer skv_methods raft_methods cfg (Z.of_nat (r_gi r)) (Z.of_nat (r_i r)) (r_names r) (r_mnames r) in
      run_restarts skv_methods raft_methods cfg ops'
  end.

Definition restart_ok n (r : restart) : Prop :=
  (r_gi r < 3)%nat ∧ (r_i r < n)%nat ∧ length (r_names r) = n ∧ length (r_mnames r) = 3%nat.

Definition restart_draws (r : restart) : list string := r_names r ++ r_mnames r.

Definition all_up cfg n : Prop := (∀ gi, (gi < 3)%nat → group_up cfg gi n) ∧ masters_up cfg 3.

Lemma restart_one (skv_methods : nat → list (rmethod W A RT)) (raft_methods : rloc → list (rmethod W A RT))
    cfg n (r : restart) rest :
  sinv cfg n → all_up cfg n → (n ≤ 3)%nat → restart_ok n r → unused (sk_net cfg) (restart_draws r ++ rest) →
  ∃ cfg1 cfg2, ShutdownServer cfg (Z.of_nat (r_gi r)) (Z.of_nat (r_i r)) = Ret cfg1 ∧
    StartServer skv_methods raft_methods cfg1 (Z.of_nat (r_gi r)) (Z.of_nat (r_i r)) (r_names r) (r_mnames r) = Ret cfg2 ∧
    sinv cfg2 n ∧ all_up cfg2 n ∧ unused (sk_net cfg2) rest.
Proof.
  destruct r as [gi i names mnames]. unfold restart_ok, restart_draws. simpl.
  intros I [Hup Hmasters] Hn3 (Hgi & Hi & Hl1 & Hl2) Hun. assert (i < 3)%nat as Hi3 by lia.
  destruct (Hup gi Hgi) as [[gg Hgg] Hs]. destruct (Hs i Hi) as [kl Hkl].
  destruct (kv_ShutdownServer_returns cfg n gi i gg I Hgg Hi Hi3) as (cfg1 & Hstop & K1).
  { apply (up_row _ _ _ _ _ (si_up _ _ I _ _ _ Hkl)). }
  destruct (kv_stopped_sinv cfg cfg1 n gi i I Hi Hi3 K1) as (I1 & _ & Hothers & _).
  destruct (kp_state _ _ _ _ K1) as (gg0 & ps & _ & Hat & _).
  pose proof (Hat gi) as Hgg1. rewrite decide_True in Hgg1 by done.
  assert (unused (sk_net cfg1) ((names ++ mnames) ++ rest)) as Hun1.
  { destruct Hun as [Hnd Hf]. split; [done|]. intros e. rewrite (kp_ends _ _ _ _ K1). apply Hf. }
  destruct (unused_fst _ _ _ Hun1) as [Hnd Hfresh].
  destruct (kv_StartServer_returns skv_methods raft_methods cfg1 n gi i _ names mnames I1 Hgg1 Hi Hi3 Hnd Hfresh)
    as (cfg2 & Hstart & K2).
  pose proof (kv_started_sinv _ _ n _ _ _ _ I1 Hi Hi3 Hl1 Hl2 Hnd Hfresh K2) as I2.
  destruct (kv_started_up _ _ n _ _ _ _ I1 Hi Hi3 K2) as (Hnew & Hold & Hgroups & _).
  exists cfg1, cfg2. split_and!; [done|done|done| |].
  - split.
    + intros gi' Hgi'. destruct (Hup gi' Hgi') as [[gg' Hgg'] Hs']. split.
      * apply Hgroups. rewrite Hat. case_decide; by eexists.
      * intros i' Hi'. destruct (decide (gi' = gi ∧ i' = i)) as [[-> ->]|Hne]; [done|].
        apply Hold. rewrite Hothers by done. by apply Hs'.
    + intros j Hj. rewrite (ks_servers _ _ _ _ _ _ K2), (kp_servers _ _ _ _ K1), decide_False
        by apply mastername_servername. by apply Hmasters.
  - apply (unused_snd _ _ _ _ Hun1). intros e.
    rewrite (ks_ends _ _ _ _ _ _ K2), !elem_of_union, !elem_of_list_to_set, elem_of_app. tauto.
Qed.

Lemma run_restarts_returns (skv_methods : nat → list (rmethod W A RT)) (raft_methods : rloc → list (rmethod W A RT))
    cfg n (ops : list restart) :
  sinv cfg n → all_up cfg n → (n ≤ 3)%nat → Forall (restart_ok n) ops →
  unused (sk_net cfg) (concat (restart_draws <$> ops)) →
  ∃ cfg', run_restarts skv_methods raft_methods cfg ops = Ret cfg' ∧ sinv cfg' n ∧ all_up cfg' n.
Proof.
  intros I Hup Hn3 Hops. revert cfg I Hup. induction Hops as [|r ops Hr _ IH]; intros cfg I Hup; csimpl; [by exists cfg|].
  intros Hun. destruct (restart_one skv_methods raft_methods cfg n r _ I Hup Hn3 Hr Hun)
    as (cfg1 & cfg2 & -> & Hst & I2 & Hup2 & Hun2).
  rewrite obind_Ret, Hst, obind_Ret. by apply IH.
Qed.

End start.

(** C31: the harness is well formed from [make_config] on and through any
    sequence of restarts of its servers: nothing panics, no two servers share
    an end, the ends of server [i] of a group lead to the servers of its group
    and to the shardmasters by name, the books agree with the network, and in
    the end every server of every group runs, is registered under its name,
    and has all its ends enabled. *)
Theorem harness_well_formed {W A RT : Type} (skv_methods sm_methods : nat → list (rmethod W A RT))
    (raft_methods : rloc → list (rmethod W A RT)) (n : nat) (unreliable : bool) (maxraftstate : Z)
    (d : draws) (ops : list restart) :
  (n ≤ 3)%nat → draws_lengths d n → Forall (restart_ok n) ops →
  NoDup (all_draws d n ++ concat (restart_draws <$> ops)) →
  ∃ cfg cfg', make_config skv_methods sm_methods raft_methods (Z.of_nat n) unreliable maxraftstate d = Ret cfg ∧
    sinv cfg n ∧ run_restarts skv_methods raft_methods cfg ops = Ret cfg' ∧ sinv cfg' n ∧ masters_up cfg' 3 ∧
    ∀ gi i, (gi < 3)%nat → (i < n)%nat → ∃ kl, server_at cfg' gi i = Some kl ∧ up cfg' n gi i kl.
Proof.
  intros Hn3 Hlens Hops Hnd.
  destruct (make_config_starts skv_methods sm_methods raft_methods n unreliable maxraftstate d _ Hn3 Hlens Hnd)
    as (cfg & Hm & I & Hup & Hmasters & _ & _ & Hun).
  destruct (run_restarts_returns skv_methods raft_methods cfg n ops I (conj Hup Hmasters) Hn3 Hops Hun)
    as (cfg' & Hr & I' & Hup' & Hmasters').
  exists cfg, cfg'. split_and!; try done.
  intros gi i Hgi Hi. destruct (Hup' gi Hgi) as [_ Hs]. destruct (Hs i Hi) as [kl Hkl].
  exists kl. split; [done|]. by apply (si_up _ _ I').
Qed.

(** C34: the arrays of the harness admit exactly three servers per group: with
    names that are all different, [make_config n] returns and a clerk can be
    made if and only if [n] is 3; with more servers it panics at the fourth
    server's ends to the shardmasters, with fewer at the clerk's. *)
Theorem harness_size {W A RT : Type} (skv_methods sm_methods : nat → list (rmethod W A RT))
    (raft_methods : rloc → list (rmethod W A RT)) (n : nat) (unreliable : bool) (maxraftstate : Z)
    (d : draws) (names : list string) :
  draws_lengths d n → length names = 3%nat → NoDup (all_draws d n ++ names) →
  (∃ cfg, make_config skv_methods sm_methods raft_methods (Z.of_nat n) unreliable maxraftstate d = Ret cfg ∧
     returns (makeClient cfg names)) ↔ n = 3%nat.
Proof.
  intros Hlens Hl Hnd. split.
  - intros (cfg & Hm%make_config_sizes & [r Hr]). destruct Hm as (Hn & _ & Hle). unfold makeClient in Hr.
    apply obind_Ret_inv in Hr as (e & He & _). apply client_ends_size in He; [|done|by destruct names].
    rewrite Hn, length_replicate, Nat2Z.id, Hl in He. lia.
  - intros ->. destruct (make_config_starts skv_methods sm_methods raft_methods 3 unreliable maxraftstate d names)
      as (cfg & Hm & I & _ & _ & _ & _ & Hun); [done|done|done|].
    exists cfg. split; [done|]. unfold makeClient.
    destruct (client_ends_returns names 0 (replicate (Z.to_nat (sk_n cfg)) "") (sk_net cfg) Hun) as [[l rn] Hc].
    { rewrite (si_n _ _ I), length_replicate. lia. }
    change (Z.of_nat 0) with 0 in Hc. rewrite Hc. by eexists.
Qed.

(** ** Joining: the shardmaster is told the names of the running servers *)
Section joining.
Context {W A RT : Type}.
Implicit Types (cfg : config W A RT) (gi n : nat) (gis : list nat).

Lemma joinm_loop_spec cfg n gis (m : gmap Z (list string)) :
  sinv cfg n → Forall (λ gi, is_Some (group_at cfg gi)) gis →
  ∃ m', joinm_loop cfg (Z.of_nat <$> gis) m = Ret m' ∧
    ∀ gi, m' !! gid_of gi = if decide (gi ∈ gis) then Some (name_of gi <$> seq 0 n) else m !! gid_of gi.
Proof.
  intros I Hgis. revert m. induction Hgis as [|gi gis [gg Hgg] _ IH]; intros m; csimpl; [by exists m|].
  rewrite (get_group_at cfg gi gg Hgg), obind_Ret. destruct (si_shape _ _ I _ _ Hgg) as (-> & _).
  rewrite (si_n _ _ I), seqZ_seq, <-list_fmap_compose.
  destruct (IH (<[gid_of gi := name_of gi <$> seq 0 n]> m)) as (m' & Hm & Hm'). exists m'. split; [exact Hm|].
  intros gi'. rewrite Hm'. destruct (decide (gi' ∈ gis)); [by rewrite decide_True by (by right)|].
  destruct (decide (gi' = gi)) as [->|Hne]; [by rewrite decide_True by left; rewrite lookup_insert_eq|].
  rewrite decide_False by (by intros [?|?]%elem_of_cons). rewrite lookup_insert_ne; [done|]. unfold gid_of. lia.
Qed.

(** What [joinm] sends: for each group its id, with the names under which its
    servers are registered, in order. *)
Lemma joinm_names cfg n gis :
  sinv cfg n → all_up cfg n → Forall (λ gi, (gi < 3)%nat) gis →
  ∃ m, joinm_loop cfg (Z.of_nat <$> gis) ∅ = Ret m ∧
    ∀ gi, gi ∈ gis → m !! gid_of gi = Some (name_of gi <$> seq 0 n) ∧
      ∀ s, s ∈ name_of gi <$> seq 0 n → is_Some (server_of (sk_net cfg) s).
Proof.
  intros I [Hup _] Hgis. rewrite Forall_forall in Hgis.
  destruct (joinm_loop_spec cfg n gis ∅ I) as (m & Hm & Hat).
  { apply Forall_forall. intros gi Hgi. destruct (Hup gi (Hgis gi Hgi)) as [[gg Hgg] _]. by exists gg. }
  exists m. split; [done|]. intros gi Hgi. rewrite Hat, decide_True by done. split; [done|].
  intros s (i & -> & Hi%elem_of_seq)%list_elem_of_fmap.
  destruct (Hup gi (Hgis gi Hgi)) as [_ Hs]. destruct (Hs i ltac:(lia)) as [kl Hkl].
  apply (up_registered _ _ _ _ _ (si_up _ _ I _ _ _ Hkl)).
Qed.

Lemma leavem_loop_spec cfg n gis (gids : list Z) :
  sinv cfg n → Forall (λ gi, is_Some (group_at cfg gi)) gis →
  leavem_loop cfg (Z.of_nat <$> gis) gids = Ret (gids ++ (gid_of <$> gis)).
Proof.
  intros I Hgis. revert gids. induction Hgis as [|gi gis [gg Hgg] _ IH]; intros gids; csimpl; [by rewrite app_nil_r|].
  rewrite (get_group_at cfg gi gg Hgg), obind_Ret, IH. destruct (si_shape _ _ I _ _ Hgg) as (-> & _).
  by rewrite <-(assoc_L (++)).
Qed.
End joining.

(** ** A run with three servers per group *)
Definition demo_ends (p : string) (i : Z) : list string := (λ j, p +:+ Itoa i +:+ Itoa j) <$> [0; 1; 2].

Definition demo_draws : draws :=
  MkDraws (demo_ends "m") (demo_ends "c" 0) (λ gi, demo_ends ("e" +:+ Itoa gi)) (λ gi, demo_ends ("f" +:+ Itoa gi)).

Abbreviation no_methods := (λ _, []).

Lemma demo_lengths : draws_lengths demo_draws 3.
Proof. intros gi i Hi. split; reflexivity. Qed.

Lemma harness_size_witness :
  ∃ cfg : config unit unit unit,
    make_config no_methods no_methods no_methods (Z.of_nat 3) false 1000 demo_draws = Ret cfg ∧
    returns (makeClient cfg (demo_ends "k" 0)).
Proof.
  apply (harness_size no_methods no_methods no_methods 3 false 1000 demo_draws (demo_ends "k" 0) demo_lengths eq_refl);
    [|reflexivity].
  apply (bool_decide_unpack _). vm_compute. exact I.
Defined.

Lemma harness_well_formed_witness :
  ∃ cfg cfg' : config unit unit unit,
    make_config no_methods no_methods no_methods (Z.of_nat 3) false 1000 demo_draws = Ret cfg ∧
    run_restarts no_methods no_methods cfg [MkRestart 1 2 (demo_ends "x" 0) (demo_ends "y" 0)] = Ret cfg' ∧ sinv cfg' 3.
Proof.
  destruct (harness_well_formed (W := unit) (A := unit) (RT := unit) no_methods no_methods no_methods 3 false 1000
    demo_draws [MkRestart 1 2 (demo_ends "x" 0) (demo_ends "y" 0)]) as (cfg & cfg' & Hm & _ & Hr & I & _).
  - lia.
  - apply demo_lengths.
  - apply Forall_singleton. unfold restart_ok. simpl. lia.
  - apply (bool_decide_unpack _). vm_compute. exact Logic.I.
  - exists cfg, cfg'. exact (conj Hm (conj Hr I)).
Defined.

Lemma ShutdownServer_isolates_witness :
  ∃ cfg cfg' : config unit unit unit,
    make_config no_methods no_methods no_methods (Z.of_nat 3) false 1000 demo_draws = Ret cfg ∧
    ShutdownServer cfg (Z.of_nat 1) (Z.of_nat 2) = Ret cfg' ∧ sinv cfg' 3 ∧
    server_of (sk_net cfg') (name_of 1 2) = None.
Proof.
  destruct (make_config_starts (W := unit) (A := unit) (RT := unit) no_methods no_methods no_methods 3 false 1000
    demo_draws []) as (cfg & Hm & I & Hup & _).
  - lia.
  - apply demo_lengths.
  - apply (bool_decide_unpack _). vm_compute. exact Logic.I.
  - destruct (Hup 1%nat ltac:(lia)) as [_ Hs]. destruct (Hs 2%nat ltac:(lia)) as [kl Hkl].
    destruct (ShutdownServer_isolates cfg 3 1 2 kl I ltac:(lia) ltac:(lia) Hkl) as (cfg' & Hstop & I' & _ & Hreg & _).
    exists cfg, cfg'. exact (conj Hm (conj Hstop (conj I' Hreg))).
Defined.
