(* ===== verification/RaftConfig.v ===== *)
(** * The Raft test harness (raft/config.go)

    [config] starts, crashes, connects and disconnects peers on the simulated
    network, collects what they commit and checks it.  Random end names are
    arguments; what the peers answer at each look is an argument of the checks
    that poll them. *)
From stdpp Require Import base gmap sets numbers strings sorting list.
From S2P Require Import Prelude Labrpc NetAdmin Raft.
From S2P Require Random.
Local Open Scope Z_scope.
Local Open Scope go_scope.

(** ** Random names and seeds, and the time limit: the text is [Random]'s *)
Definition randstring : (list Z → list Z) → Z → outcome string := Random.randstring.
Definition makeSeed : (Z → option Z) → outcome Z := Random.makeSeed.
Definition checkTimeout : bool → Z → outcome unit := Random.checkTimeout.

Abbreviation net := (Network string Z).

(** The log of a peer: a map from index to committed value. *)
Abbreviation rlog V := (gmap Z V).

Record config (V W A RT : Type) := MkConfig {
  c_net : net;
  c_srvs : gmap sloc (Server W A RT);      (* the servers made so far *)
  c_n : Z;
  c_peers : rheap;                         (* the peers made so far *)
  c_rafts : list (option rloc);
  c_connected : list bool;
  c_saved : list (option ploc);
  c_persisters : pheap;
  c_endnames : list (option (list string));
  c_logs : list (rlog V);
  c_maxIndex : Z;
}.
Arguments MkConfig {V W A RT} _ _ _ _ _ _ _ _ _ _ _.
Arguments c_net {V W A RT} _.
Arguments c_srvs {V W A RT} _.
Arguments c_n {V W A RT} _.
Arguments c_peers {V W A RT} _.
Arguments c_rafts {V W A RT} _.
Arguments c_connected {V W A RT} _.
Arguments c_saved {V W A RT} _.
Arguments c_persisters {V W A RT} _.
Arguments c_endnames {V W A RT} _.
Arguments c_logs {V W A RT} _.
Arguments c_maxIndex {V W A RT} _.

Section raft_config.
Context {V W A RT : Type} `{EqDecision V}.
(** The methods of a peer, as [labrpc.MakeService] finds them. *)
Context (raft_methods : rloc → list (rmethod W A RT)).
Abbreviation config := (config V W A RT).
Implicit Types (cfg : config) (i j : Z) (rn : net).

Definition with_net cfg rn : config :=
  MkConfig rn (c_srvs cfg) (c_n cfg) (c_peers cfg) (c_rafts cfg) (c_connected cfg) (c_saved cfg) (c_persisters cfg)
    (c_endnames cfg) (c_logs cfg) (c_maxIndex cfg).
Definition with_connected cfg (l : list bool) : config :=
  MkConfig (c_net cfg) (c_srvs cfg) (c_n cfg) (c_peers cfg) (c_rafts cfg) l (c_saved cfg) (c_persisters cfg)
    (c_endnames cfg) (c_logs cfg) (c_maxIndex cfg).
Definition with_rafts cfg (P : rheap) (l : list (option rloc)) : config :=
  MkConfig (c_net cfg) (c_srvs cfg) (c_n cfg) P l (c_connected cfg) (c_saved cfg) (c_persisters cfg)
    (c_endnames cfg) (c_logs cfg) (c_maxIndex cfg).
Definition with_saved cfg (l : list (option ploc)) (H : pheap) : config :=
  MkConfig (c_net cfg) (c_srvs cfg) (c_n cfg) (c_peers cfg) (c_rafts cfg) (c_connected cfg) l H
    (c_endnames cfg) (c_logs cfg) (c_maxIndex cfg).
Definition with_endnames cfg (l : list (option (list string))) : config :=
  MkConfig (c_net cfg) (c_srvs cfg) (c_n cfg) (c_peers cfg) (c_rafts cfg) (c_connected cfg) (c_saved cfg)
    (c_persisters cfg) l (c_logs cfg) (c_maxIndex cfg).
Definition with_logs cfg (l : list (rlog V)) (m : Z) : config :=
  MkConfig (c_net cfg) (c_srvs cfg) (c_n cfg) (c_peers cfg) (c_rafts cfg) (c_connected cfg) (c_saved cfg)
    (c_persisters cfg) (c_endnames cfg) l m.
Definition with_server cfg (srv : Server W A RT) : config * sloc :=
  let l := fresh (dom (c_srvs cfg)) in
  (MkConfig (c_net cfg) (<[l := srv]> (c_srvs cfg)) (c_n cfg) (c_peers cfg) (c_rafts cfg) (c_connected cfg)
    (c_saved cfg) (c_persisters cfg) (c_endnames cfg) (c_logs cfg) (c_maxIndex cfg), l).

(** [cfg.endnames[i][j]]; a nil row panics. *)
Definition endname cfg i j : outcome string :=
  let! row := slice_get (c_endnames cfg) i in
  let! names := or_panic row in
  slice_get names j.

(** ** [connect] and [disconnect] *)

(** One loop of [connect]: [name j] is the end of the loop's direction. *)
Fixpoint connect_loop cfg (name : Z → outcome string) (js : list Z) rn : outcome net :=
  match js with
  | [] => Ret rn
  | j :: js' =>
      let! cj := slice_get (c_connected cfg) j in
      if (cj : bool) then
        let! e := name j in connect_loop cfg name js' (Enable rn e true)
      else connect_loop cfg name js' rn
  end.

Definition connect cfg i : outcome config :=
  let! l := slice_set (c_connected cfg) i true in
  let cfg := with_connected cfg l in
  (* outgoing ClientEnds *)
  let! rn := connect_loop cfg (λ j, endname cfg i j) (seqZ 0 (c_n cfg)) (c_net cfg) in
  (* incoming ClientEnds *)
  let! rn := connect_loop cfg (λ j, endname cfg j i) (seqZ 0 (c_n cfg)) rn in
  Ret (with_net cfg rn).

(** One loop of [disconnect]: [row j] is the row that is tested for nil. *)
Fixpoint disconnect_loop cfg (row : Z → Z) (name : Z → outcome string) (js : list Z) rn : outcome net :=
  match js with
  | [] => Ret rn
  | j :: js' =>
      let! r := slice_get (c_endnames cfg) (row j) in
      match r with
      | Some _ => let! e := name j in disconnect_loop cfg row name js' (Enable rn e false)
      | None => disconnect_loop cfg row name js' rn
      end
  end.

Definition disconnect cfg i : outcome config :=
  let! l := slice_set (c_connected cfg) i false in
  let cfg := with_connected cfg l in
  let! rn := disconnect_loop cfg (λ _, i) (λ j, endname cfg i j) (seqZ 0 (c_n cfg)) (c_net cfg) in
  let! rn := disconnect_loop cfg (λ j, j) (λ j, endname cfg j i) (seqZ 0 (c_n cfg)) rn in
  Ret (with_net cfg rn).

(** ** [crash1] and [start1] *)

Definition crash1 cfg i : outcome config :=
  let! cfg := disconnect cfg i in
  let cfg := with_net cfg (DeleteServer (c_net cfg) i) in
  (* a fresh persister with the content of the old one *)
  let! s := slice_get (c_saved cfg) i in
  let! cfg := match s with
              | Some ps =>
                  let! ' (H, np) := Copy (c_persisters cfg) ps in
                  let! l := slice_set (c_saved cfg) i (Some np) in Ret (with_saved cfg l H)
              | None => Ret cfg
              end in
  let! rf := slice_get (c_rafts cfg) i in
  let! cfg := match rf with
              | Some rf =>
                  let! P := Raft_KillAt (c_peers cfg) rf in
                  let! l := slice_set (c_rafts cfg) i None in Ret (with_rafts cfg P l)
              | None => Ret cfg
              end in
  let! s := slice_get (c_saved cfg) i in
  match s with
  | Some ps =>
      let! raftlog := ReadRaftState (c_persisters cfg) ps in
      let '(H, np) := MakePersister (c_persisters cfg) in
      let! H := SaveRaftState H np raftlog in
      let! l := slice_set (c_saved cfg) i (Some np) in
      Ret (with_saved cfg l H)
  | None => Ret cfg
  end.

(** [names]: the [n] random names. *)
Definition start1 cfg i (names : list string) : outcome config :=
  let! cfg := crash1 cfg i in
  let! l := slice_set (c_endnames cfg) i (Some names) in
  let cfg := with_endnames cfg l in
  let! rn := make_ends names 0 (c_net cfg) in
  let cfg := with_net cfg rn in
  (* a fresh persister *)
  let! s := slice_get (c_saved cfg) i in
  let! ' (H, np) := match s with
                    | Some ps => Copy (c_persisters cfg) ps
                    | None => Ret (MakePersister (c_persisters cfg))
                    end in
  let! l := slice_set (c_saved cfg) i (Some np) in
  let cfg := with_saved cfg l H in
  let! rf := Raft_Make (c_persisters cfg) names i np in
  let '(P, rl) := new_raft (c_peers cfg) rf in
  let! l := slice_set (c_rafts cfg) i (Some rl) in
  let cfg := with_rafts cfg P l in
  let! svc := MakeService "Raft" (raft_methods rl) in
  let '(cfg, srv) := with_server cfg (AddService MakeServer svc) in
  Ret (with_net cfg (AddServer (c_net cfg) i srv)).

Definition setunreliable cfg (unrel : bool) : config := with_net cfg (Reliable (c_net cfg) (negb unrel)).
Definition setlongreordering cfg (longrel : bool) : config :=
  with_net cfg (LongReordering (c_net cfg) longrel).
Definition rpcCount cfg (server : Z) : outcome Z := GetCount (c_net cfg) (c_srvs cfg) server.
Definition rpcTotal cfg : Z := GetTotalCount (c_net cfg).
Definition bytesTotal cfg : Z := GetTotalBytes (c_net cfg).

Fixpoint start_all cfg (ids : list Z) (names : Z → list string) : outcome config :=
  match ids with
  | [] => Ret cfg
  | i :: ids' =>
      let! l := slice_set (c_logs cfg) i ∅ in
      let cfg := with_logs cfg l (c_maxIndex cfg) in
      let! cfg := start1 cfg i (names i) in start_all cfg ids' names
  end.

Fixpoint connect_all cfg (ids : list Z) : outcome config :=
  match ids with
  | [] => Ret cfg
  | i :: ids' => let! cfg := connect cfg i in connect_all cfg ids'
  end.

Definition make_config (n : Z) (unreliable : bool) (names : Z → list string) : outcome config :=
  let cfg := MkConfig MakeNetwork ∅ n ∅ (replicate (Z.to_nat n) None) (replicate (Z.to_nat n) false)
               (replicate (Z.to_nat n) None) ∅ (replicate (Z.to_nat n) None)
               (replicate (Z.to_nat n) ∅) 0 in
  let cfg := setunreliable cfg unreliable in
  let cfg := with_net cfg (LongDelays (c_net cfg) true) in
  (* create a full set of Rafts. *)
  let! cfg := start_all cfg (seqZ 0 n) names in
  (* connect everyone *)
  connect_all cfg (seqZ 0 n).

(** Every peer that runs is killed; the network is closed. *)
Fixpoint kill_all (rafts : list (option rloc)) (P : rheap) : outcome rheap :=
  match rafts with
  | [] => Ret P
  | Some rf :: rafts' => let! P := Raft_KillAt P rf in kill_all rafts' P
  | None :: rafts' => kill_all rafts' P
  end.

(** [failed] and [elapsed]: whether the test failed, and for how long it runs. *)
Definition cleanup cfg (failed : bool) (elapsed : Z) : outcome config :=
  let! P := kill_all (c_rafts cfg) (c_peers cfg) in
  let cfg := with_rafts cfg P (c_rafts cfg) in
  let! rn := Cleanup (c_net cfg) in
  let! _ := checkTimeout failed elapsed in
  Ret (with_net cfg rn).

(** ** What the peers commit *)

(** One message from the channel of peer [i]: the body of the applier's loop,
    whose error is fatal ([log.Fatalf] exits). *)
Definition conflicts (logs : list (rlog V)) (idx : Z) (v : V) : bool :=
  existsb (λ l, match l !! idx with Some old => bool_decide (old ≠ v) | None => false end) logs.

Definition applier_step cfg i (m : ApplyMsg V) : outcome config :=
  if negb (CommandValid m) then Ret cfg
  else
    let v := Command m in
    let idx := CommandIndex m in
    let err_msg := conflicts (c_logs cfg) idx v in
    let! l := slice_get (c_logs cfg) i in
    let prevok := bool_decide (is_Some (l !! (idx - 1))) in
    let! logs := slice_set (c_logs cfg) i (<[idx := v]> l) in
    let cfg := with_logs cfg logs (if bool_decide (idx > c_maxIndex cfg) then idx else c_maxIndex cfg) in
    if err_msg || (bool_decide (idx > 1) && negb prevok) then Panic else Ret cfg.

(** The messages of all appliers, in the order in which they take the lock. *)
Fixpoint applier cfg (ms : list (Z * ApplyMsg V)) : outcome config :=
  match ms with
  | [] => Ret cfg
  | (i, m) :: ms' => let! cfg := applier_step cfg i m in applier cfg ms'
  end.

(** [applyErr] stays empty, since its only assignment follows a [Fatalf]. *)
Fixpoint nCommitted_loop (logs : list (rlog V)) (ids : list Z) (index count : Z) (cmd : option V)
    : outcome (Z * option V) :=
  match ids with
  | [] => Ret (count, cmd)
  | i :: ids' =>
      let! l := slice_get logs i in
      match l !! index with
      | Some cmd1 =>
          if bool_decide (count > 0 ∧ cmd ≠ Some cmd1) then Panic
          else nCommitted_loop logs ids' index (count + 1) (Some cmd1)
      | None => nCommitted_loop logs ids' index count cmd
      end
  end.

Definition nCommitted cfg (index : Z) : outcome (Z * option V) :=
  nCommitted_loop (c_logs cfg) (seqZ 0 (zlen (c_rafts cfg))) index 0 None.

(** ** What the peers say

    [st i] is what [GetState] of peer [i] answers at one look; the method does
    not dereference its receiver, so that a nil peer answers too. *)

Fixpoint collect_leaders cfg (st : Z → Z * bool) (ids : list Z) (leaders : gmap Z (list Z))
    : outcome (gmap Z (list Z)) :=
  match ids with
  | [] => Ret leaders
  | i :: ids' =>
      let! c := slice_get (c_connected cfg) i in
      if (c : bool) then
        let '(term, leader) := st i in
        if (leader : bool) then
          collect_leaders cfg st ids' (<[term := default [] (leaders !! term) ++ [i]]> leaders)
        else collect_leaders cfg st ids' leaders
      else collect_leaders cfg st ids' leaders
  end.

(** The loop over the map, in the order in which Go visits it. *)
Fixpoint last_term (ls : list (Z * list Z)) (lastTermWithLeader : Z) : outcome Z :=
  match ls with
  | [] => Ret lastTermWithLeader
  | (term, l) :: ls' =>
      if bool_decide (zlen l > 1) then Panic
      else last_term ls' (if bool_decide (term > lastTermWithLeader) then term else lastTermWithLeader)
  end.

(** [range]: the order of a map's entries; [looks]: the answers of each round. *)
Context (range : gmap Z (list Z) → list (Z * list Z)).

Fixpoint checkOneLeader_loop cfg (looks : list (Z → Z * bool)) : outcome Z :=
  match looks with
  | [] => Panic
  | st :: looks' =>
      let! leaders := collect_leaders cfg st (seqZ 0 (c_n cfg)) ∅ in
      let! lastTermWithLeader := last_term (range leaders) (-1) in
      if bool_decide (leaders ≠ ∅) then slice_get (default [] (leaders !! lastTermWithLeader)) 0
      else checkOneLeader_loop cfg looks'
  end.

Definition checkOneLeader cfg (look : nat → Z → Z * bool) : outcome Z :=
  checkOneLeader_loop cfg (look <$> seq 0 10).

Fixpoint checkTerms_loop cfg (st : Z → Z * bool) (ids : list Z) (term : Z) : outcome Z :=
  match ids with
  | [] => Ret term
  | i :: ids' =>
      let! c := slice_get (c_connected cfg) i in
      if (c : bool) then
        let xterm := fst (st i) in
        if bool_decide (term = -1) then checkTerms_loop cfg st ids' xterm
        else if bool_decide (term ≠ xterm) then Panic
        else checkTerms_loop cfg st ids' term
      else checkTerms_loop cfg st ids' term
  end.

Definition checkTerms cfg (st : Z → Z * bool) : outcome Z :=
  checkTerms_loop cfg st (seqZ 0 (c_n cfg)) (-1).

Fixpoint checkNoLeader_loop cfg (st : Z → Z * bool) (ids : list Z) : outcome unit :=
  match ids with
  | [] => Ret tt
  | i :: ids' =>
      let! c := slice_get (c_connected cfg) i in
      if (c && snd (st i))%bool then Panic else checkNoLeader_loop cfg st ids'
  end.

Definition checkNoLeader cfg (st : Z → Z * bool) : outcome unit :=
  checkNoLeader_loop cfg st (seqZ 0 (c_n cfg)).

(** ** Waiting for agreement

    [look k] is the harness and the answers of the peers at iteration [k];
    [look 30] is the last look.  The result is -1 or the command. *)
Inductive wait_result := MovedOn | Cmd (cmd : option V).

Fixpoint wait_loop (look : nat → config * (Z → Z * bool)) (index n startTerm : Z) (iters k : nat)
    : outcome (option wait_result) :=
  match iters with
  | O => Ret None
  | S iters' =>
      let '(cfg, st) := look k in
      let! ' (nd, _) := nCommitted cfg index in
      if bool_decide (nd >= n) then Ret None
      else if bool_decide (startTerm > -1) &&
              existsb (λ i, bool_decide (fst (st i) > startTerm)) (seqZ 0 (zlen (c_rafts cfg)))
      then Ret (Some MovedOn)
      else wait_loop look index n startTerm iters' (S k)
  end.

Definition wait (look : nat → config * (Z → Z * bool)) (index n startTerm : Z) : outcome wait_result :=
  let! r := wait_loop look index n startTerm 30 0 in
  match r with
  | Some r => Ret r
  | None =>
      let! ' (nd, cmd) := nCommitted (fst (look 30%nat)) index in
      if bool_decide (nd < n) then Panic else Ret (Cmd cmd)
  end.

(** ** [one]: a complete agreement

    One pass of its loop sees the harness and the answer of [Start] at each
    peer tried, then the harness at each look of the two seconds; the passes
    are those the ten seconds allow. *)
Record pass := MkPass {
  pass_cfg : Z → config;                 (* when peer [starts] is tried *)
  pass_start : Z → Z * bool;             (* index and isLeader of [rf.Start(cmd)] *)
  pass_looks : list config;
}.

Fixpoint find_leader (p : pass) (n : Z) (k : nat) (starts : Z) : outcome (Z * Z) :=
  match k with
  | O => Ret (starts, -1)
  | S k' =>
      let starts := Z.rem (starts + 1) n in
      let cfg := pass_cfg p starts in
      let! c := slice_get (c_connected cfg) starts in
      let! rf := if (c : bool) then slice_get (c_rafts cfg) starts else Ret None in
      match rf with
      | Some _ =>
          let '(index1, ok) := pass_start p starts in
          if (ok : bool) then Ret (starts, index1) else find_leader p n k' starts
      | None => find_leader p n k' starts
      end
  end.

Fixpoint await (looks : list config) (index : Z) (cmd : V) (expectedServers : Z) : outcome bool :=
  match looks with
  | [] => Ret false
  | cfg :: looks' =>
      let! ' (nd, cmd1) := nCommitted cfg index in
      if bool_decide (nd > 0 ∧ nd >= expectedServers) && bool_decide (cmd1 = Some cmd) then Ret true
      else await looks' index cmd expectedServers
  end.

Fixpoint one (n : Z) (cmd : V) (expectedServers : Z) (retry : bool) (ps : list pass) (starts : Z)
    : outcome Z :=
  match ps with
  | [] => Panic
  | p :: ps' =>
      let! ' (starts, index) := find_leader p n (Z.to_nat n) starts in
      if bool_decide (index ≠ -1) then
        let! ok := await (pass_looks p) index cmd expectedServers in
        if (ok : bool) then Ret index
        else if negb retry then Panic
        else one n cmd expectedServers retry ps' starts
      else one n cmd expectedServers retry ps' starts
  end.

(** ** The statistics of a test *)
Record stats := MkStats {
  rpcs0 : Z;
  cmds0 : Z;
  bytes0 : Z;
  maxIndex0 : Z;
}.

Definition begin cfg : stats := MkStats (rpcTotal cfg) 0 (bytesTotal cfg) (c_maxIndex cfg).

(** What is printed, if the test has not failed: peers, RPCs, bytes and
    agreements since [begin]. *)
Definition end_ cfg (s : stats) (failed : bool) (elapsed : Z) : outcome (option (Z * Z * Z * Z)) :=
  let! _ := checkTimeout failed elapsed in
  Ret (if bool_decide (failed = false)
       then Some (c_n cfg, rpcTotal cfg - rpcs0 s, wrap_int 64 (bytesTotal cfg - bytes0 s), c_maxIndex cfg - maxIndex0 s)
       else None).

End raft_config.
