(* ===== verification/RaftConfigProof.v ===== *)
(** * The Raft harness keeps its network in step with its books

    [links_ok]: an end of the current generation is enabled exactly when both
    its peers are connected, it leads to the peer it was made for, and every
    other end is disabled.  Every operation of the harness keeps it. *)
From stdpp Require Import base gmap sets numbers strings sorting list.
From S2P Require Import Prelude Labrpc LabrpcProof NetAdmin Raft RaftConfig.
Local Open Scope Z_scope.
Local Open Scope go_scope.

Section links.
Context {V W A RT : Type}.
Implicit Types (cfg : config V W A RT) (i j : nat) (e : string).

(** [e] is the end of [i] to [j] in the current generation. *)
Definition cur cfg i j e : Prop :=
  ∃ row, c_endnames cfg !! i = Some (Some row) ∧ row !! j = Some e.
Definition conn cfg i : Prop := c_connected cfg !! i = Some true.
Definition started cfg i : Prop := ∃ row, c_endnames cfg !! i = Some (Some row).

#[export] Instance conn_dec cfg i : Decision (conn cfg i).
Proof. unfold conn. apply _. Defined.
#[export] Instance started_dec cfg i : Decision (started cfg i).
Proof.
  destruct (c_endnames cfg !! i) as [[row|]|] eqn:Hi; [left; by exists row|right|right];
    intros [row' Hr]; congruence.
Defined.

Record shape_ok cfg (n : nat) : Prop := {
  so_n : c_n cfg = Z.of_nat n;
  so_rafts : length (c_rafts cfg) = n;
  so_connected : length (c_connected cfg) = n;
  so_saved : length (c_saved cfg) = n;
  so_endnames : length (c_endnames cfg) = n;
  so_logs : length (c_logs cfg) = n;
  so_rows : ∀ i row, c_endnames cfg !! i = Some (Some row) → length row = n;
  so_conn : ∀ i, conn cfg i → started cfg i;
  so_persisters : ∀ i ps, c_saved cfg !! i = Some (Some ps) → is_Some (c_persisters cfg !! ps);
  so_peers : ∀ i rl, c_rafts cfg !! i = Some (Some rl) → is_Some (c_peers cfg !! rl);
}.

Record links_ok cfg : Prop := {
  lo_inj : ∀ i j i' j' e, cur cfg i j e → cur cfg i' j' e → i = i' ∧ j = j';
  lo_ends : ∀ i j e, cur cfg i j e → e ∈ rn_ends (c_net cfg);
  lo_conn : ∀ i j e, cur cfg i j e → connection_of (c_net cfg) e = Some (Z.of_nat j);
  lo_enabled : ∀ e, enabled_of (c_net cfg) e = true ↔ ∃ i j, cur cfg i j e ∧ conn cfg i ∧ conn cfg j;
}.

Lemma links_ok_ext cfg cfg' :
  links_ok cfg → c_endnames cfg' = c_endnames cfg → c_connected cfg' = c_connected cfg →
  rn_ends (c_net cfg') = rn_ends (c_net cfg) →
  (∀ e, enabled_of (c_net cfg') e = enabled_of (c_net cfg) e) →
  (∀ e, connection_of (c_net cfg') e = connection_of (c_net cfg) e) → links_ok cfg'.
Proof.
  intros [Hinj Hends Hconn Hen] He Hc Hn Hen' Hco'.
  assert (∀ i j e, cur cfg' i j e ↔ cur cfg i j e) as Hcur by (unfold cur; by rewrite He).
  split.
  - intros i j i' j' e. rewrite !Hcur. apply Hinj.
  - intros i j e. rewrite Hcur, Hn. apply Hends.
  - intros i j e. rewrite Hcur, Hco'. apply Hconn.
  - intros e. rewrite Hen', Hen. unfold conn. rewrite Hc. by setoid_rewrite Hcur.
Qed.

Lemma endname_cur cfg i j e : endname cfg (Z.of_nat i) (Z.of_nat j) = Ret e ↔ cur cfg i j e.
Proof.
  unfold endname, cur. rewrite slice_get_nat. destruct (c_endnames cfg !! i) as [[row|]|]; simpl.
  - rewrite slice_get_nat, or_panic_Ret. naive_solver.
  - naive_solver.
  - naive_solver.
Qed.

Lemma cur_exists cfg n i j : shape_ok cfg n → started cfg i → (j < n)%nat → ∃ e, cur cfg i j e.
Proof.
  intros Hs [row Hrow] Hj. destruct (lookup_lt_is_Some_2 row j) as [e He].
  { by rewrite (so_rows _ _ Hs _ _ Hrow). }
  by exists e, row.
Qed.

Lemma cur_lt cfg n i j e : shape_ok cfg n → cur cfg i j e → (i < n)%nat ∧ (j < n)%nat.
Proof.
  intros Hs (row & Hrow & He). split.
  - rewrite <-(so_endnames _ _ Hs). by eapply lookup_lt_Some.
  - rewrite <-(so_rows _ _ Hs _ _ Hrow). by eapply lookup_lt_Some.
Qed.

Lemma conn_lt cfg n i : shape_ok cfg n → conn cfg i → (i < n)%nat.
Proof. intros Hs Hi. rewrite <-(so_connected _ _ Hs). by eapply lookup_lt_Some. Qed.

Lemma cur_fun cfg i j e e' : cur cfg i j e → cur cfg i j e' → e = e'.
Proof. intros (row & Hr & He) (row' & Hr' & He'). congruence. Qed.

(** ** The two loops *)

(** The name a loop reads, where there is one. *)
Definition read_name (name : Z → outcome string) (j : nat) : string :=
  match name (Z.of_nat j) with Ret e => e | _ => "" end.

Lemma connect_loop_all cfg (name : Z → outcome string) (js : list nat) rn :
  (∀ j, j ∈ js → (j < length (c_connected cfg))%nat ∧ (conn cfg j → returns (name (Z.of_nat j)))) →
  connect_loop cfg name (Z.of_nat <$> js) rn =
    Ret (enable_all rn (read_name name <$> filter (conn cfg) js) true).
Proof.
  revert rn. induction js as [|j js IH]; intros rn Hjs; [done|]. simpl.
  destruct (Hjs j) as [Hlen Hname]; [left|]. rewrite slice_get_nat.
  destruct (lookup_lt_is_Some_2 _ _ Hlen) as [b Hb]. rewrite Hb. simpl.
  rewrite filter_cons. destruct b.
  - rewrite decide_True by done. destruct Hname as [e He]; [done|].
    rewrite He. simpl. rewrite IH by (intros; apply Hjs; by right).
    unfold read_name at 2. by rewrite He.
  - rewrite decide_False by (unfold conn; congruence). apply IH. intros; apply Hjs; by right.
Qed.

Lemma disconnect_loop_all cfg (row : Z → Z) (rowN : nat → nat) (name : Z → outcome string) (js : list nat) rn :
  (∀ j, row (Z.of_nat j) = Z.of_nat (rowN j)) →
  (∀ j, j ∈ js → (rowN j < length (c_endnames cfg))%nat ∧
                 (started cfg (rowN j) → returns (name (Z.of_nat j)))) →
  disconnect_loop cfg row name (Z.of_nat <$> js) rn =
    Ret (enable_all rn (read_name name <$> filter (λ j, started cfg (rowN j)) js) false).
Proof.
  intros Hrow. revert rn. induction js as [|j js IH]; intros rn Hjs; [done|]. simpl.
  destruct (Hjs j) as [Hlen Hname]; [left|]. rewrite Hrow, slice_get_nat.
  destruct (lookup_lt_is_Some_2 _ _ Hlen) as [b Hb]. rewrite Hb. simpl.
  rewrite filter_cons. destruct b as [r|].
  - rewrite decide_True by (by exists r). destruct Hname as [e He]; [by exists r|].
    rewrite He. simpl. rewrite IH by (intros; apply Hjs; by right).
    unfold read_name at 2. by rewrite He.
  - rewrite decide_False by (intros [r Hr]; congruence). apply IH. intros; apply Hjs; by right.
Qed.

(** The ends that a loop over every peer touches. *)
Lemma read_names_out cfg n i (P : nat → Prop) `{∀ j, Decision (P j)} e :
  shape_ok cfg n → started cfg i →
  e ∈ read_name (λ k : Z, endname cfg (Z.of_nat i) k) <$> filter P (seq 0 n) ↔ ∃ j, P j ∧ cur cfg i j e.
Proof.
  intros Hs Hi. rewrite list_elem_of_fmap. split.
  - intros (j & -> & [HP Hj%elem_of_seq]%list_elem_of_filter). exists j. split; [done|].
    destruct (cur_exists cfg n i j) as [e He]; [done..|lia|]. unfold read_name.
    by rewrite (proj2 (endname_cur cfg i j e) He).
  - intros (j & HP & He). exists j. split.
    + unfold read_name. by rewrite (proj2 (endname_cur cfg i j e) He).
    + rewrite list_elem_of_filter, elem_of_seq. apply (cur_lt _ n) in He; [|done]. split; [done|lia].
Qed.

Lemma read_names_in cfg n i (P : nat → Prop) `{∀ j, Decision (P j)} e :
  shape_ok cfg n → (i < n)%nat → (∀ j, P j → started cfg j) →
  e ∈ read_name (λ k : Z, endname cfg k (Z.of_nat i)) <$> filter P (seq 0 n) ↔ ∃ j, P j ∧ cur cfg j i e.
Proof.
  intros Hs Hi HPs. rewrite list_elem_of_fmap. split.
  - intros (j & -> & [HP Hj%elem_of_seq]%list_elem_of_filter). exists j. split; [done|].
    destruct (cur_exists cfg n j i) as [e He]; [by auto..|]. unfold read_name.
    by rewrite (proj2 (endname_cur cfg j i e) He).
  - intros (j & HP & He). exists j. split.
    + unfold read_name. by rewrite (proj2 (endname_cur cfg j i e) He).
    + rewrite list_elem_of_filter, elem_of_seq. apply (cur_lt _ n) in He; [|done]. split; [done|lia].
Qed.

(** ** connect and disconnect *)

Lemma conn_insert cfg i k (b : bool) :
  (i < length (c_connected cfg))%nat →
  conn (with_connected cfg (<[i := b]> (c_connected cfg))) k ↔ if decide (k = i) then b = true else conn cfg k.
Proof.
  intros Hi. unfold conn. simpl. case_decide as Hk.
  - rewrite Hk, list_lookup_insert_eq by done. naive_solver.
  - by rewrite list_lookup_insert_ne.
Qed.

Lemma shape_connected cfg n i (b : bool) :
  shape_ok cfg n → (i < n)%nat → (b = true → started cfg i) →
  shape_ok (with_connected cfg (<[i := b]> (c_connected cfg))) n.
Proof.
  intros Hs Hi Hb. destruct Hs; split; simpl; try done.
  - by rewrite length_insert.
  - intros k Hk. rewrite conn_insert in Hk by congruence. case_decide as Hki; [|by apply so_conn0].
    rewrite Hki. by apply Hb.
Qed.

Lemma shape_net cfg n rn : shape_ok cfg n → shape_ok (with_net cfg rn) n.
Proof. intros []. by split. Qed.

(** [connect] changes the book of connections and the network's ends. *)
Lemma connect_spec cfg n i :
  shape_ok cfg n → links_ok cfg → (i < n)%nat → started cfg i →
  ∃ rn, connect cfg (Z.of_nat i) = Ret (with_net (with_connected cfg (<[i := true]> (c_connected cfg))) rn) ∧
    net_rest rn = net_rest (c_net cfg) ∧ rn_ends rn = rn_ends (c_net cfg) ∧
    links_ok (with_net (with_connected cfg (<[i := true]> (c_connected cfg))) rn).
Proof.
  intros Hs Hl Hi Hst. unfold connect. rewrite slice_set_nat by (by rewrite (so_connected _ _ Hs)).
  simpl. set (cfg1 := with_connected cfg _).
  assert (shape_ok cfg1 n) as Hs1 by (by apply shape_connected).
  change (c_n cfg) with (c_n cfg1). rewrite (so_n _ _ Hs1), seqZ_seq.
  assert (∀ k, k ∈ seq 0 n → (k < length (c_connected cfg1))%nat) as Hlen.
  { intros k Hk%elem_of_seq. rewrite (so_connected _ _ Hs1). lia. }
  rewrite connect_loop_all; simpl; last first.
  { intros k Hk. split; [by apply Hlen|]. intros _. apply elem_of_seq in Hk.
    destruct (cur_exists cfg1 n i k) as [e He]; [done..|lia|]. exists e. by apply endname_cur. }
  rewrite connect_loop_all; simpl; last first.
  { intros k Hk. split; [by apply Hlen|]. intros Hc%(so_conn _ _ Hs1).
    destruct (cur_exists cfg1 n k i) as [e He]; [done..|]. exists e. by apply endname_cur. }
  eexists. split; [done|]. rewrite !enable_all_rest, !enable_all_ends. split_and!; [done..|].
  destruct Hl as [Hinj Hends Hconn Hen]. split; simpl; [done|..].
  - intros k j e. rewrite !enable_all_ends. apply Hends.
  - intros k j e. rewrite !enable_all_connection. apply Hconn.
  - intros e. rewrite !enable_all_enabled.
    pose proof (read_names_in cfg1 n i (conn cfg1) e Hs1 Hi (so_conn _ _ Hs1)) as Hins.
    pose proof (read_names_out cfg1 n i (conn cfg1) e Hs1 Hst) as Houts.
    change (cur cfg1) with (cur cfg) in *.
    assert (∀ k, conn cfg1 k ↔ k = i ∨ conn cfg k) as Hc1.
    { intros k. unfold cfg1. rewrite conn_insert by (by rewrite (so_connected _ _ Hs)).
      case_decide; naive_solver. }
    change (conn (with_net cfg1 _)) with (conn cfg1).
    case_decide as Hin; [rewrite Hins in Hin|case_decide as Hout; [rewrite Houts in Hout|]].
    + split; [intros _|done]. destruct Hin as (j & Hj & He). exists j, i. rewrite !Hc1. naive_solver.
    + split; [intros _|done]. destruct Hout as (j & Hj & He). exists i, j. rewrite !Hc1. naive_solver.
    + rewrite Hen. split; intros (k & j & He & Hk & Hj); exists k, j; split; try done.
      * rewrite !Hc1. auto.
      * split; [destruct (proj1 (Hc1 k) Hk) as [->|]|destruct (proj1 (Hc1 j) Hj) as [->|]]; try done.
        -- destruct Hout. apply Houts. by exists j.
        -- destruct Hin. apply Hins. by exists k.
Qed.

Lemma disconnect_spec cfg n i :
  shape_ok cfg n → links_ok cfg → (i < n)%nat →
  ∃ rn, disconnect cfg (Z.of_nat i) = Ret (with_net (with_connected cfg (<[i := false]> (c_connected cfg))) rn) ∧
    net_rest rn = net_rest (c_net cfg) ∧ rn_ends rn = rn_ends (c_net cfg) ∧
    links_ok (with_net (with_connected cfg (<[i := false]> (c_connected cfg))) rn).
Proof.
  intros Hs Hl Hi. unfold disconnect. rewrite slice_set_nat by (by rewrite (so_connected _ _ Hs)).
  simpl. set (cfg1 := with_connected cfg _).
  assert (shape_ok cfg1 n) as Hs1 by (by apply shape_connected).
  change (c_n cfg) with (c_n cfg1). rewrite (so_n _ _ Hs1), seqZ_seq.
  rewrite (disconnect_loop_all _ _ (λ _, i)); simpl; [|done|]; last first.
  { intros k Hk%elem_of_seq. split; [by rewrite (so_endnames _ _ Hs)|]. intros Hst.
    destruct (cur_exists cfg1 n i k) as [e He]; [done..|lia|]. exists e. by apply endname_cur. }
  rewrite (disconnect_loop_all _ _ (λ k, k)); simpl; [|done|]; last first.
  { intros k Hk%elem_of_seq. split; [rewrite (so_endnames _ _ Hs); lia|]. intros Hst.
    destruct (cur_exists cfg1 n k i) as [e He]; [done..|]. exists e. by apply endname_cur. }
  eexists. split; [done|]. rewrite !enable_all_rest, !enable_all_ends. split_and!; [done..|].
  destruct Hl as [Hinj Hends Hconn Hen]. split; simpl; [done|..].
  - intros k j e. rewrite !enable_all_ends. apply Hends.
  - intros k j e. rewrite !enable_all_connection. apply Hconn.
  - intros e. rewrite !enable_all_enabled.
    pose proof (read_names_in cfg1 n i (started cfg1) e Hs1 Hi (λ k Hk, Hk)) as Hins.
    change (cur cfg1) with (cur cfg) in *.
    assert (∀ k, conn cfg1 k ↔ k ≠ i ∧ conn cfg k) as Hc1.
    { intros k. unfold cfg1. rewrite conn_insert by (by rewrite (so_connected _ _ Hs)).
      case_decide; naive_solver. }
    change (conn (with_net cfg1 _)) with (conn cfg1).
    assert (∀ k j, cur cfg k j e → ∀ k' j', cur cfg k' j' e → k = k' ∧ j = j') as Hinj' by eauto.
    case_decide as Hin; [rewrite Hins in Hin|rewrite Hins in Hin; case_decide as Hout].
    + split; [done|]. destruct Hin as (j & Hj & He). intros (k & j' & He' & Hk & Hj').
      rewrite Hc1 in Hj'. destruct Hj' as [? _]. destruct (Hinj' _ _ He _ _ He'). congruence.
    + split; [done|]. apply list_elem_of_fmap in Hout as (j & -> & [Hst Hj%elem_of_seq]%list_elem_of_filter).
      destruct (cur_exists cfg1 n i j) as [e He]; [done..|lia|]. unfold read_name.
      rewrite (proj2 (endname_cur cfg1 i j e) He). intros (k & j' & He' & Hk & Hj').
      rewrite Hc1 in Hk. destruct Hk as [? _]. destruct (Hinj i j k j' e He He'). congruence.
    + rewrite Hen. split; intros (k & j & He & Hk & Hj); exists k, j; rewrite !Hc1 in *; [|naive_solver].
      split_and!; try done; intros ->.
      * assert (started cfg1 i) as Hst by (by apply (so_conn _ _ Hs)).
        apply Hout, (read_names_out cfg1 n i (λ _, started cfg1 i) e Hs1 Hst). by exists j.
      * apply Hin. exists k. split; [|done]. by apply (so_conn _ _ Hs).
Qed.

(** ** crash1 and start1 *)

(** The content of the persister that is kept for [i]. *)
Definition saved_state cfg i : option persister :=
  match c_saved cfg !! i with Some (Some ps) => c_persisters cfg !! ps | _ => None end.

(** What a restart keeps of it: the Raft state without the snapshot. *)
Definition keep_state (p : persister) : persister := MkPersisterState (ps_raftstate p) [].

Record crashed cfg cfg' i : Prop := {
  cr_n : c_n cfg' = c_n cfg;
  cr_endnames : c_endnames cfg' = c_endnames cfg;
  cr_logs : c_logs cfg' = c_logs cfg;
  cr_srvs : c_srvs cfg' = c_srvs cfg;
  cr_connected : c_connected cfg' = <[i := false]> (c_connected cfg);
  cr_rafts : c_rafts cfg' = <[i := None]> (c_rafts cfg);
  cr_killed : ∀ rl, c_rafts cfg !! i = Some (Some rl) →
    ∃ rf, c_peers cfg' !! rl = Some rf ∧ Raft_killed rf = true;
  cr_peers : ∀ rl, c_rafts cfg !! i ≠ Some (Some rl) → c_peers cfg' !! rl = c_peers cfg !! rl;
  cr_servers : ∀ snm, server_of (c_net cfg') snm =
    if decide (snm = Z.of_nat i) then None else server_of (c_net cfg) snm;
  cr_ends : rn_ends (c_net cfg') = rn_ends (c_net cfg);
  cr_others : ∀ k, k ≠ i → c_saved cfg' !! k = c_saved cfg !! k;
  cr_saved : saved_state cfg' i = keep_state <$> saved_state cfg i;
  cr_fresh : ∀ ps, c_saved cfg' !! i = Some (Some ps) → c_persisters cfg !! ps = None;
  cr_persisters : c_persisters cfg ⊆ c_persisters cfg';
}.

(** The persisters of a crash: a copy, then a fresh one with the Raft state. *)
Lemma crash_persisters (H : pheap) ps p :
  H !! ps = Some p →
  ∃ H1 np1 H2 np2, Copy H ps = Ret (H1, np1) ∧ ReadRaftState H1 np1 = Ret (ps_raftstate p) ∧
    MakePersister H1 = (H2, np2) ∧ SaveRaftState H2 np2 (ps_raftstate p) = Ret (<[np2 := keep_state p]> H2) ∧
    H !! np2 = None ∧ H ⊆ <[np2 := keep_state p]> H2.
Proof.
  intros Hp. destruct (Copy_spec H ps p Hp) as (H1 & np1 & -> & Hf & ->).
  eexists _, np1, _, _. split; [done|]. unfold ReadRaftState. rewrite lookup_insert_eq. split; [done|].
  split; [done|]. unfold SaveRaftState. rewrite lookup_insert_eq. simpl. split; [done|].
  pose proof (fresh_persister (<[np1:=p]> H)) as Hf2.
  assert (H !! fresh (dom (<[np1:=p]> H)) = None) as Hf3.
  { apply lookup_insert_None in Hf2. naive_solver. }
  split; [done|]. rewrite insert_insert_eq.
  etransitivity; [by apply (insert_subseteq H np1 p)|]. by apply insert_subseteq.
Qed.

(** The peer of a crash: it is killed and forgotten. *)
Lemma crash_peer cfg i :
  (i < length (c_rafts cfg))%nat →
  (∀ rl, c_rafts cfg !! i = Some (Some rl) → is_Some (c_peers cfg !! rl)) →
  ∃ o P, slice_get (c_rafts cfg) (Z.of_nat i) = Ret o ∧
    match o with
    | Some rf =>
        let! P := Raft_KillAt (c_peers cfg) rf in
        let! l := slice_set (c_rafts cfg) (Z.of_nat i) None in Ret (with_rafts cfg P l)
    | None => Ret cfg
    end = Ret (with_rafts cfg P (<[i := None]> (c_rafts cfg))) ∧
    (∀ rl, c_rafts cfg !! i = Some (Some rl) → ∃ rf, P !! rl = Some rf ∧ Raft_killed rf = true) ∧
    (∀ rl, c_rafts cfg !! i ≠ Some (Some rl) → P !! rl = c_peers cfg !! rl).
Proof.
  intros Hi Hpeer. rewrite slice_get_nat.
  destruct (lookup_lt_is_Some_2 (c_rafts cfg) i Hi) as [o Ho].
  rewrite Ho. exists o. simpl. destruct o as [rl|].
  - destruct (Hpeer rl Ho) as [rf Hrf]. unfold Raft_KillAt. rewrite Hrf. simpl.
    rewrite slice_set_nat by done. simpl. eexists. do 2 (split; [done|]).
    split; [intros ? [= <-]|intros rl' Hne].
    + rewrite lookup_insert_eq. eexists. split; [done|]. by apply bool_decide_eq_true_2.
    + rewrite lookup_insert_ne by congruence. done.
  - exists (c_peers cfg). rewrite list_insert_id by done. do 2 (split; [by destruct cfg|]).
    split; [done|]. intros; done.
Qed.

(** The whole of [crash1] after [disconnect], by the two cases of [saved]. *)
Lemma crash1_eq cfg cfg1 n i :
  shape_ok cfg1 n → (i < n)%nat → disconnect cfg (Z.of_nat i) = Ret cfg1 →
  ∃ P l H, crash1 cfg (Z.of_nat i) =
      Ret (with_saved (with_rafts (with_net cfg1 (DeleteServer (c_net cfg1) (Z.of_nat i))) P
             (<[i := None]> (c_rafts cfg1))) l H) ∧
    (∀ rl, c_rafts cfg1 !! i = Some (Some rl) → ∃ rf, P !! rl = Some rf ∧ Raft_killed rf = true) ∧
    (∀ rl, c_rafts cfg1 !! i ≠ Some (Some rl) → P !! rl = c_peers cfg1 !! rl) ∧
    c_persisters cfg1 ⊆ H ∧
    ((c_saved cfg1 !! i = Some None ∧ l = c_saved cfg1 ∧ H = c_persisters cfg1) ∨
     ∃ ps p np, c_saved cfg1 !! i = Some (Some ps) ∧ c_persisters cfg1 !! ps = Some p ∧
       c_persisters cfg1 !! np = None ∧ H !! np = Some (keep_state p) ∧
       l = <[i := Some np]> (c_saved cfg1)).
Proof.
  intros Hs Hi Hd. unfold crash1. rewrite Hd. simpl.
  set (cfg2 := with_net cfg1 _).
  assert (shape_ok cfg2 n) as Hs2 by (by apply shape_net).
  destruct (lookup_lt_is_Some_2 (c_saved cfg1) i) as [o Ho]; [by rewrite (so_saved _ _ Hs)|].
  rewrite slice_get_nat, Ho. simpl. destruct o as [ps|].
  - destruct (so_persisters _ _ Hs i ps Ho) as [p Hp].
    destruct (crash_persisters _ ps p Hp) as (H1 & np1 & H2 & np2 & -> & Hread & Hmk & Hsave & Hnp2 & Hsub).
    simpl. rewrite slice_set_nat by (by rewrite (so_saved _ _ Hs)). simpl.
    destruct (crash_peer (with_saved cfg2 (<[i := Some np1]> (c_saved cfg1)) H1) i)
      as (o & P & Hget & Hkill & HP1 & HP2);
      [simpl; by rewrite (so_rafts _ _ Hs)|apply (so_peers _ _ Hs)|].
    simpl in Hget, Hkill. rewrite Hget. simpl. rewrite Hkill. simpl.
    rewrite slice_get_nat, list_lookup_insert_eq by (by rewrite (so_saved _ _ Hs)). simpl.
    rewrite Hread. simpl. injection Hmk as HmkH Hmkn. rewrite HmkH, Hmkn, Hsave. simpl.
    rewrite slice_set_nat by (by rewrite length_insert, (so_saved _ _ Hs)). simpl.
    eexists P, _, _. split; [done|]. split_and!; [done..|].
    right. exists ps, p, np2. rewrite list_insert_insert_eq, lookup_insert_eq. done.
  - destruct (crash_peer cfg2 i) as (o & P & Hget & Hkill & HP1 & HP2);
      [simpl; by rewrite (so_rafts _ _ Hs)|apply (so_peers _ _ Hs)|].
    rewrite obind_Ret, Hget, obind_Ret, Hkill, obind_Ret.
    rewrite slice_get_nat. simpl. rewrite Ho. exists P, (c_saved cfg1), (c_persisters cfg1).
    split; [done|]. split_and!; [done..|]. by left.
Qed.

Lemma links_ok_delete cfg cfg' :
  links_ok cfg → c_endnames cfg' = c_endnames cfg → c_connected cfg' = c_connected cfg →
  (∃ snm o, c_net cfg' = set_server (c_net cfg) snm o) → links_ok cfg'.
Proof. intros Hl He Hc (snm & o & Hn). apply (links_ok_ext cfg); try done; intros; by rewrite Hn. Qed.

Lemma crash1_spec cfg n i :
  shape_ok cfg n → links_ok cfg → (i < n)%nat →
  ∃ cfg', crash1 cfg (Z.of_nat i) = Ret cfg' ∧ crashed cfg cfg' i ∧ links_ok cfg' ∧ shape_ok cfg' n.
Proof.
  intros Hs Hl Hi. destruct (disconnect_spec cfg n i Hs Hl Hi) as (rn & Hd & Hrest & Hends & Hl1).
  set (cfg1 := with_net (with_connected cfg _) rn) in *.
  assert (shape_ok cfg1 n) as Hs1 by (by apply shape_net, shape_connected).
  destruct (crash1_eq cfg cfg1 n i Hs1 Hi Hd) as (P & l & H & -> & HP1 & HP2 & Hsub & Hcases).
  eexists. split; [done|]. split_and!.
  - split; simpl; try done.
    + intros snm. unfold DeleteServer. rewrite server_of_set.
      by rewrite (net_rest_server_of _ _ snm Hrest).
    + intros k Hk. destruct Hcases as [(_ & -> & _)|(ps & p & np & _ & _ & _ & _ & ->)]; [done|].
      by rewrite list_lookup_insert_ne.
    + unfold saved_state. simpl.
      destruct Hcases as [(Hnone & -> & ->)|(ps & p & np & Hps & Hp & Hnp & HH & ->)]; simpl in *.
      * by rewrite Hnone.
      * rewrite list_lookup_insert_eq by (by rewrite (so_saved _ _ Hs)). by rewrite Hps, Hp, HH.
    + intros ps'. destruct Hcases as [(Hnone & -> & ->)|(ps & p & np & Hps & Hp & Hnp & HH & ->)];
        simpl in *; [by rewrite Hnone|].
      rewrite list_lookup_insert_eq by (by rewrite (so_saved _ _ Hs)). by intros [= <-].
  - eapply (links_ok_delete cfg1); [done..|]. by eexists _, _.
  - destruct Hs1. split; simpl; try done.
    + by rewrite length_insert.
    + destruct Hcases as [(_ & -> & _)|(ps & p & np & _ & _ & _ & _ & ->)]; by rewrite ?length_insert.
    + intros k ps'. destruct Hcases as [(_ & -> & ->)|(ps & p & np & _ & _ & _ & HH & ->)].
      * apply so_persisters0.
      * intros [(-> & [= ->] & _)|[_ Hk]]%list_lookup_insert_Some; [by eexists|].
        destruct (so_persisters0 _ _ Hk) as [p' Hp']. exists p'. by eapply lookup_weaken.
    + intros k rl [(_ & ? & _)|[Hk Hrl]]%list_lookup_insert_Some; [done|].
      destruct (decide (c_rafts cfg1 !! i = Some (Some rl))) as [Hc|Hc].
      * destruct (HP1 _ Hc) as (rf & -> & _). by eexists.
      * rewrite HP2 by done. by apply so_peers0 with k.
Qed.

(** A new row of fresh names keeps the links, if its peer is not connected. *)
Lemma links_ok_renew cfg cfg' n i (names : list string) :
  shape_ok cfg n → links_ok cfg → (i < n)%nat → ¬ conn cfg i →
  NoDup names → (∀ e, e ∈ names → e ∉ rn_ends (c_net cfg)) →
  c_endnames cfg' = <[i := Some names]> (c_endnames cfg) → c_connected cfg' = c_connected cfg →
  rn_ends (c_net cfg') = list_to_set names ∪ rn_ends (c_net cfg) →
  (∀ e, enabled_of (c_net cfg') e = if decide (e ∈ names) then false else enabled_of (c_net cfg) e) →
  (∀ e, e ∉ names → connection_of (c_net cfg') e = connection_of (c_net cfg) e) →
  (∀ k e, names !! k = Some e → connection_of (c_net cfg') e = Some (Z.of_nat k)) →
  links_ok cfg'.
Proof.
  intros Hs [Hinj Hends Hconn Hen] Hi Hnc Hnd Hfresh He' Hc' Hends' Hen' Hco' Hnth.
  assert (∀ k j e, cur cfg' k j e ↔ (k = i ∧ names !! j = Some e) ∨ (k ≠ i ∧ cur cfg k j e)) as Hcur.
  { intros k j e. unfold cur. rewrite He'. destruct (decide (k = i)) as [Hk|Hk].
    - rewrite Hk, list_lookup_insert_eq by (by rewrite (so_endnames _ _ Hs)). naive_solver.
    - rewrite list_lookup_insert_ne by done. naive_solver. }
  assert (∀ k j e, cur cfg k j e → e ∉ names) as Hold.
  { intros k j e Hk%Hends Hin. by apply (Hfresh e Hin). }
  assert (∀ k, conn cfg' k ↔ conn cfg k) as Hcc by (unfold conn; by rewrite Hc').
  split.
  - intros k j k' j' e. rewrite !Hcur. intros [[-> Hj]|[Hk Hj]] [[-> Hj']|[Hk' Hj']].
    + split; [done|]. by eapply NoDup_lookup.
    + destruct (Hold _ _ _ Hj'). by eapply list_elem_of_lookup_2.
    + destruct (Hold _ _ _ Hj). by eapply list_elem_of_lookup_2.
    + by eapply Hinj.
  - intros k j e. rewrite Hcur, Hends', elem_of_union, elem_of_list_to_set.
    intros [[_ Hj]|[_ Hj]]; [left; by eapply list_elem_of_lookup_2|right; by eapply Hends].
  - intros k j e. rewrite Hcur. intros [[_ Hj]|[_ Hj]]; [by apply Hnth|].
    rewrite Hco' by (by eapply Hold). by eapply Hconn.
  - intros e. rewrite Hen'. setoid_rewrite Hcur. setoid_rewrite Hcc. case_decide as Hin.
    + split; [done|]. intros (k & j & [[-> _]|[_ Hj]] & Hk & _); [done|]. by destruct (Hold _ _ _ Hj).
    + rewrite Hen. split; intros (k & j & Hk & Hck & Hcj); exists k, j.
      * split; [|done]. right. split; [|done]. by intros ->.
      * destruct Hk as [[-> _]|[_ Hk]]; done.
Qed.

Record restarted cfg cfg' i (names : list string) : Prop := {
  rs_n : c_n cfg' = c_n cfg;
  rs_endnames : c_endnames cfg' = <[i := Some names]> (c_endnames cfg);
  rs_logs : c_logs cfg' = c_logs cfg;
  rs_connected : c_connected cfg' = <[i := false]> (c_connected cfg);
  rs_peer : ∃ rl np, c_rafts cfg' = <[i := Some rl]> (c_rafts cfg) ∧
    c_peers cfg' !! rl = Some (MkRaft names np (Z.of_nat i) 0) ∧
    c_saved cfg' !! i = Some (Some np) ∧ c_persisters cfg !! np = None;
  rs_killed : ∀ rl, c_rafts cfg !! i = Some (Some rl) →
    ∃ rf, c_peers cfg' !! rl = Some rf ∧ Raft_killed rf = true;
  rs_saved : saved_state cfg' i = Some (default (MkPersisterState [] []) (keep_state <$> saved_state cfg i));
  rs_others : ∀ k, k ≠ i → c_saved cfg' !! k = c_saved cfg !! k;
  rs_persisters : c_persisters cfg ⊆ c_persisters cfg';
  rs_server : ∃ sl srv, server_of (c_net cfg') (Z.of_nat i) = Some sl ∧ c_srvs cfg !! sl = None ∧
    c_srvs cfg' = <[sl := srv]> (c_srvs cfg);
  rs_servers : ∀ snm, snm ≠ Z.of_nat i → server_of (c_net cfg') snm = server_of (c_net cfg) snm;
  rs_ends : rn_ends (c_net cfg') = list_to_set names ∪ rn_ends (c_net cfg);
}.

Lemma start_persister cfg n i o :
  shape_ok cfg n → c_saved cfg !! i = Some o →
  ∃ np, match o with
        | Some ps => Copy (c_persisters cfg) ps
        | None => Ret (MakePersister (c_persisters cfg))
        end = Ret (<[np := default (MkPersisterState [] []) (saved_state cfg i)]> (c_persisters cfg), np) ∧
    c_persisters cfg !! np = None.
Proof.
  intros Hs Ho. unfold saved_state. rewrite Ho. destruct o as [ps|].
  - destruct (so_persisters _ _ Hs i ps Ho) as [p Hp].
    destruct (Copy_spec _ ps p Hp) as (H1 & np & -> & Hf & ->). exists np. by rewrite Hp.
  - eexists. split; [done|]. apply fresh_persister.
Qed.

(** A row, a persister and a peer are renewed. *)
Lemma shape_ok_renew cfg cfg' n i names np p rl rf :
  shape_ok cfg n → (i < n)%nat → length names = n →
  c_persisters cfg !! np = None → c_peers cfg !! rl = None →
  c_n cfg' = c_n cfg → c_connected cfg' = c_connected cfg → c_logs cfg' = c_logs cfg →
  c_endnames cfg' = <[i := Some names]> (c_endnames cfg) →
  c_saved cfg' = <[i := Some np]> (c_saved cfg) → c_persisters cfg' = <[np := p]> (c_persisters cfg) →
  c_rafts cfg' = <[i := Some rl]> (c_rafts cfg) → c_peers cfg' = <[rl := rf]> (c_peers cfg) →
  shape_ok cfg' n.
Proof.
  intros [] Hi Hlen Hnp Hrl Hn Hc Hl He Hs Hps Hr Hp.
  split; rewrite ?Hn, ?Hc, ?Hl, ?He, ?Hs, ?Hps, ?Hr, ?Hp, ?length_insert; try done.
  - intros k row [(_ & [= <-] & _)|[_ Hk]]%list_lookup_insert_Some; [done|by eapply so_rows0].
  - intros k Hk. unfold conn in Hk. rewrite Hc in Hk. destruct (so_conn0 k Hk) as [row Hrow].
    unfold started. rewrite He. destruct (decide (i = k)) as [<-|Hne].
    + rewrite list_lookup_insert_eq by (by rewrite so_endnames0). by eexists.
    + rewrite list_lookup_insert_ne by done. by eexists.
  - intros k ps [(_ & [= <-] & _)|[_ Hk]]%list_lookup_insert_Some.
    + rewrite lookup_insert_eq. by eexists.
    + destruct (so_persisters0 _ _ Hk) as [q Hq]. exists q. rewrite lookup_insert_ne; [done|congruence].
  - intros k rl' [(_ & [= <-] & _)|[_ Hk]]%list_lookup_insert_Some.
    + rewrite lookup_insert_eq. by eexists.
    + destruct (so_peers0 _ _ Hk) as [q Hq]. exists q. rewrite lookup_insert_ne; [done|congruence].
Qed.

Lemma start1_spec (raft_methods : rloc → list (rmethod W A RT)) cfg n i (names : list string) :
  shape_ok cfg n → links_ok cfg → (i < n)%nat →
  length names = n → NoDup names → (∀ e, e ∈ names → e ∉ rn_ends (c_net cfg)) →
  ∃ cfg', start1 raft_methods cfg (Z.of_nat i) names = Ret cfg' ∧ restarted cfg cfg' i names ∧
    links_ok cfg' ∧ shape_ok cfg' n.
Proof.
  intros Hs Hl Hi Hlen Hnd Hfresh.
  destruct (crash1_spec cfg n i Hs Hl Hi) as (cfg1 & Hcr & C & Hl1 & Hs1).
  unfold start1. rewrite Hcr, obind_Ret. clear Hcr.
  rewrite slice_set_nat by (by rewrite (so_endnames _ _ Hs1)). rewrite obind_Ret.
  destruct (make_ends_spec names 0 (c_net cfg1) Hnd) as (rn & Hrn & Hrest & Hends & Hen & Hco & Hnth).
  { intros e He. rewrite (cr_ends _ _ _ C). by apply Hfresh. }
  change (make_ends names 0 _) with (make_ends names (Z.of_nat 0) (c_net cfg1)).
  rewrite Hrn. simpl. rewrite slice_get_nat.
  destruct (lookup_lt_is_Some_2 (c_saved cfg1) i) as [o Ho]; [by rewrite (so_saved _ _ Hs1)|].
  rewrite Ho. simpl. destruct (start_persister cfg1 n i o Hs1 Ho) as (np & -> & Hnp).
  simpl. rewrite slice_set_nat by (by rewrite (so_saved _ _ Hs1)). simpl.
  unfold Raft_Make, ReadRaftState. rewrite lookup_insert_eq. simpl. unfold readPersist.
  rewrite slice_set_nat by (by rewrite (so_rafts _ _ Hs1)). simpl.
  destruct (MakeService_returns "Raft" (raft_methods (fresh (dom (c_peers cfg1))))) as [svc ->]. simpl.
  assert (c_peers cfg1 !! fresh (dom (c_peers cfg1)) = None) as Hrl by apply not_elem_of_dom, is_fresh.
  assert (c_srvs cfg !! fresh (dom (c_srvs cfg1)) = None) as Hsl.
  { rewrite (cr_srvs _ _ _ C). apply not_elem_of_dom, is_fresh. }
  eexists. split; [done|]. split_and!.
  - destruct C. split; simpl; try done.
    + congruence.
    + eexists _, np. split; [by rewrite cr_rafts0, list_insert_insert_eq|].
      split; [by rewrite lookup_insert_eq|].
      split; [by rewrite list_lookup_insert_eq by (by rewrite (so_saved _ _ Hs1))|].
      by eapply lookup_weaken_None.
    + intros rl Hrl0. destruct (cr_killed0 rl Hrl0) as (rf & Hrf & Hk). exists rf.
      rewrite lookup_insert_ne by congruence. done.
    + unfold saved_state at 1. simpl. rewrite list_lookup_insert_eq by (by rewrite (so_saved _ _ Hs1)).
      by rewrite lookup_insert_eq, cr_saved0.
    + intros k Hk. rewrite list_lookup_insert_ne by done. by apply cr_others0.
    + etransitivity; [done|]. by apply insert_subseteq.
    + eexists _, _. unfold AddServer. rewrite server_of_set, decide_True by done.
      rewrite <-cr_srvs0. split; [done|]. split; [by apply not_elem_of_dom, is_fresh|done].
    + intros snm Hsnm. unfold AddServer. rewrite server_of_set, decide_False by done.
      rewrite (net_rest_server_of _ _ snm Hrest), cr_servers0. by rewrite decide_False.
    + by rewrite Hends, cr_ends0.
  - eapply (links_ok_renew cfg1 _ n i names); try done.
    + unfold conn. rewrite (cr_connected _ _ _ C), list_lookup_insert_eq; [done|].
      by rewrite (so_connected _ _ Hs).
    + intros e He. rewrite (cr_ends _ _ _ C). by apply Hfresh.
  - by eapply (shape_ok_renew cfg1 _ n i names np).
Qed.

(** ** make_config *)
Context (raft_methods : rloc → list (rmethod W A RT)).

Lemma shape_logs cfg n l m : shape_ok cfg n → length l = n → shape_ok (with_logs cfg l m) n.
Proof. intros [] Hl. by split. Qed.

Lemma links_logs cfg l m : links_ok cfg → links_ok (with_logs cfg l m).
Proof. intros Hl. by apply (links_ok_ext cfg). Qed.

Lemma start_all_spec cfg n (ks : list nat) (names : Z → list string) :
  shape_ok cfg n → links_ok cfg → Forall (λ k, k < n)%nat ks →
  (∀ k : Z, length (names k) = n) → NoDup (concat (names <$> (Z.of_nat <$> ks))) →
  (∀ e, e ∈ concat (names <$> (Z.of_nat <$> ks)) → e ∉ rn_ends (c_net cfg)) →
  ∃ cfg', start_all raft_methods cfg (Z.of_nat <$> ks) names = Ret cfg' ∧ shape_ok cfg' n ∧
    links_ok cfg' ∧ ∀ i, started cfg i ∨ i ∈ ks → started cfg' i.
Proof.
  revert cfg. induction ks as [|k ks IH]; intros cfg Hs Hl Hlt Hlen Hnd Hfresh; csimpl.
  { exists cfg. split_and!; [done..|]. intros i [?|?%not_elem_of_nil]; done. }
  apply Forall_cons in Hlt as [Hk Hlt]. csimpl in *.
  apply NoDup_app in Hnd as (Hndk & Hdisj & Hnd).
  rewrite slice_set_nat by (by rewrite (so_logs _ _ Hs)). simpl.
  destruct (start1_spec raft_methods (with_logs cfg (<[k := ∅]> (c_logs cfg)) (c_maxIndex cfg)) n k
    (names (Z.of_nat k))) as (cfg1 & -> & R & Hl1 & Hs1); [|by apply links_logs|done|by auto|done|..].
  { apply shape_logs; [done|]. by rewrite length_insert, (so_logs _ _ Hs). }
  { intros e He. apply Hfresh. set_solver. }
  rewrite obind_Ret. destruct (IH cfg1 Hs1 Hl1 Hlt Hlen Hnd) as (cfg' & -> & Hs' & Hl' & Hst).
  { intros e He. rewrite (rs_ends _ _ _ _ R), not_elem_of_union, elem_of_list_to_set. simpl.
    split; [|apply Hfresh; set_solver]. intros Hin. by apply (Hdisj e). }
  exists cfg'. split_and!; [done..|]. intros i Hi. apply Hst.
  destruct (decide (i = k)) as [->|Hne].
  - left. eexists. rewrite (rs_endnames _ _ _ _ R). simpl.
    by rewrite list_lookup_insert_eq by (by rewrite (so_endnames _ _ Hs)).
  - destruct Hi as [[row Hrow]|Hi]; [|right; set_solver].
    left. exists row. rewrite (rs_endnames _ _ _ _ R). simpl. by rewrite list_lookup_insert_ne.
Qed.

Lemma connect_all_spec cfg n (ks : list nat) :
  shape_ok cfg n → links_ok cfg → Forall (λ k, k < n ∧ started cfg k)%nat ks →
  ∃ cfg', connect_all cfg (Z.of_nat <$> ks) = Ret cfg' ∧ shape_ok cfg' n ∧ links_ok cfg' ∧
    c_endnames cfg' = c_endnames cfg ∧ ∀ i, conn cfg i ∨ i ∈ ks → conn cfg' i.
Proof.
  revert cfg. induction ks as [|k ks IH]; intros cfg Hs Hl Hks; csimpl.
  { exists cfg. split_and!; [done..|]. intros i [?|?%not_elem_of_nil]; done. }
  apply Forall_cons in Hks as [[Hk Hst] Hks].
  destruct (connect_spec cfg n k Hs Hl Hk Hst) as (rn & -> & _ & _ & Hl1). simpl.
  assert (shape_ok (with_connected cfg (<[k := true]> (c_connected cfg))) n) as Hs1
    by (by apply shape_connected).
  destruct (IH (with_net (with_connected cfg (<[k := true]> (c_connected cfg))) rn)) as (cfg' & -> & Hs' & Hl' & He & Hc);
    [by apply shape_net|done|done|].
  exists cfg'. split_and!; [done..|]. intros i Hi. apply Hc.
  destruct (decide (i = k)) as [->|Hne].
  - left. unfold conn. simpl. by rewrite list_lookup_insert_eq by (by rewrite (so_connected _ _ Hs)).
  - destruct Hi as [Hi|Hi]; [|right; set_solver].
    left. unfold conn. simpl. by rewrite list_lookup_insert_ne.
Qed.

Lemma make_config_spec (n : nat) (unreliable : bool) (names : Z → list string) :
  (∀ k : Z, length (names k) = n) → NoDup (concat (names <$> seqZ 0 (Z.of_nat n))) →
  ∃ cfg, make_config raft_methods (V := V) (Z.of_nat n) unreliable names = Ret cfg ∧ shape_ok cfg n ∧
    links_ok cfg ∧ ∀ i, (i < n)%nat → conn cfg i.
Proof.
  intros Hlen Hnd. unfold make_config. rewrite seqZ_seq in *. rewrite Nat2Z.id.
  set (cfg0 := with_net _ _).
  assert (shape_ok cfg0 n) as Hs0.
  { split; simpl; rewrite ?length_replicate; try done; try (by intros i x [? _]%lookup_replicate).
    unfold conn. simpl. by intros i [? _]%lookup_replicate. }
  assert (links_ok cfg0) as Hl0.
  { assert (∀ i j e, ¬ cur cfg0 i j e) as Hc by (intros i j e (row & [? _]%lookup_replicate & _); done).
    split; try (intros; exfalso; by eapply Hc). intros e. split; [done|].
    intros (i & j & Hi & _). by destruct (Hc i j e). }
  destruct (start_all_spec cfg0 n (seq 0 n) names) as (cfg1 & -> & Hs1 & Hl1 & Hst1); try done.
  { apply Forall_forall. intros k Hk%elem_of_seq. lia. }
  simpl. destruct (connect_all_spec cfg1 n (seq 0 n)) as (cfg' & Hc & Hs' & Hl' & _ & Hconn); try done.
  { apply Forall_forall. intros k Hk. split; [apply elem_of_seq in Hk; lia|]. apply Hst1. by right. }
  rewrite Hc. exists cfg'. split_and!; [done..|]. intros i Hi. apply Hconn. right.
  apply elem_of_seq. lia.
Qed.

(** ** Any use of the harness *)
Inductive hop := HConnect (i : nat) | HDisconnect (i : nat) | HCrash (i : nat) | HStart (i : nat) (names : list string).

Definition hstep cfg (op : hop) : outcome (config V W A RT) :=
  match op with
  | HConnect i => connect cfg (Z.of_nat i)
  | HDisconnect i => disconnect cfg (Z.of_nat i)
  | HCrash i => crash1 cfg (Z.of_nat i)
  | HStart i names => start1 raft_methods cfg (Z.of_nat i) names
  end.

(** The peer exists, and random names are new. *)
Definition valid_op cfg (n : nat) (op : hop) : Prop :=
  match op with
  | HConnect i => (i < n)%nat ∧ started cfg i
  | HDisconnect i | HCrash i => (i < n)%nat
  | HStart i names => (i < n)%nat ∧ length names = n ∧ NoDup names ∧
      ∀ e, e ∈ names → e ∉ rn_ends (c_net cfg)
  end.

Fixpoint run_ops cfg (ops : list hop) : outcome (config V W A RT) :=
  match ops with
  | [] => Ret cfg
  | op :: ops' => let! cfg := hstep cfg op in run_ops cfg ops'
  end.

Fixpoint valid_ops cfg (n : nat) (ops : list hop) : Prop :=
  match ops with
  | [] => True
  | op :: ops' => valid_op cfg n op ∧ ∀ cfg', hstep cfg op = Ret cfg' → valid_ops cfg' n ops'
  end.

Lemma hstep_ok cfg n op :
  shape_ok cfg n → links_ok cfg → valid_op cfg n op →
  ∃ cfg', hstep cfg op = Ret cfg' ∧ shape_ok cfg' n ∧ links_ok cfg'.
Proof.
  intros Hs Hl. destruct op as [i|i|i|i names]; simpl.
  - intros [Hi Hst]. destruct (connect_spec cfg n i Hs Hl Hi Hst) as (rn & -> & _ & _ & Hl1).
    eexists. split; [done|]. split; [by apply shape_net, shape_connected|done].
  - intros Hi. destruct (disconnect_spec cfg n i Hs Hl Hi) as (rn & -> & _ & _ & Hl1).
    eexists. split; [done|]. split; [by apply shape_net, shape_connected|done].
  - intros Hi. destruct (crash1_spec cfg n i Hs Hl Hi) as (cfg' & -> & _ & ? & ?). by exists cfg'.
  - intros (Hi & Hlen & Hnd & Hf).
    destruct (start1_spec raft_methods cfg n i names Hs Hl Hi Hlen Hnd Hf) as (cfg' & -> & _ & ? & ?).
    by exists cfg'.
Qed.

Lemma run_ops_ok cfg n (ops : list hop) :
  shape_ok cfg n → links_ok cfg → valid_ops cfg n ops →
  ∃ cfg', run_ops cfg ops = Ret cfg' ∧ shape_ok cfg' n ∧ links_ok cfg'.
Proof.
  revert cfg. induction ops as [|op ops IH]; intros cfg Hs Hl Hv; simpl; [by exists cfg|].
  destruct Hv as [Hv Hrest]. destruct (hstep_ok cfg n op Hs Hl Hv) as (cfg1 & Hstep & Hs1 & Hl1).
  rewrite Hstep. simpl. by apply IH; auto.
Qed.

End links.

(** C22: [make_config] returns a harness where every peer is connected, and
    however the test then connects, disconnects, crashes and restarts peers,
    an end is enabled exactly when it is the current end of a connected peer
    to a connected peer, and it leads to that peer. *)
Theorem harness_links {V W A RT : Type} (raft_methods : rloc → list (rmethod W A RT)) (n : nat)
    (unreliable : bool) (names : Z → list string) :
  (∀ k : Z, length (names k) = n) → NoDup (concat (names <$> seqZ 0 (Z.of_nat n))) →
  ∃ cfg, make_config raft_methods (V := V) (Z.of_nat n) unreliable names = Ret cfg ∧
    (∀ i, (i < n)%nat → conn cfg i) ∧
    ∀ ops, valid_ops raft_methods cfg n ops →
      ∃ cfg', run_ops raft_methods cfg ops = Ret cfg' ∧
        (∀ e, enabled_of (c_net cfg') e = true ↔ ∃ i j, cur cfg' i j e ∧ conn cfg' i ∧ conn cfg' j) ∧
        (∀ i j e, cur cfg' i j e → connection_of (c_net cfg') e = Some (Z.of_nat j)) ∧
        (∀ i j, conn cfg' i → (j < n)%nat → ∃ e, cur cfg' i j e).
Proof.
  intros Hlen Hnd. destruct (make_config_spec (V := V) raft_methods n unreliable names Hlen Hnd)
    as (cfg & Hm & Hs & Hl & Hc).
  exists cfg. split_and!; [done..|]. intros ops Hv.
  destruct (run_ops_ok raft_methods cfg n ops Hs Hl Hv) as (cfg' & Hr & Hs' & [_ _ Hconn Hen]).
  exists cfg'. split_and!; [done..|]. intros i j Hi Hj.
  apply (cur_exists cfg' n); [done|by apply (so_conn _ _ Hs')|done].
Qed.

(** C23: [start1] isolates the previous instance of a peer: it is killed, its
    ends and its persister are never used again, and the new instance starts
    from the last saved Raft state (without a snapshot), disconnected, on new
    ends, a new persister and a new server. *)
Theorem start1_isolates {V W A RT : Type} (raft_methods : rloc → list (rmethod W A RT))
    (cfg : config V W A RT) (n i : nat) (names : list string) :
  shape_ok cfg n → links_ok cfg → (i < n)%nat →
  length names = n → NoDup names → (∀ e, e ∈ names → e ∉ rn_ends (c_net cfg)) →
  ∃ cfg', start1 raft_methods cfg (Z.of_nat i) names = Ret cfg' ∧ restarted cfg cfg' i names ∧
    (∀ j e, cur cfg i j e → enabled_of (c_net cfg') e = false) ∧
    (∀ e, e ∈ names → enabled_of (c_net cfg') e = false).
Proof.
  intros Hs Hl Hi Hlen Hnd Hfresh.
  destruct (start1_spec raft_methods cfg n i names Hs Hl Hi Hlen Hnd Hfresh) as (cfg' & Hst & R & Hl' & Hs').
  assert (¬ conn cfg' i) as Hnc.
  { unfold conn. rewrite (rs_connected _ _ _ _ R), list_lookup_insert_eq; [done|].
    by rewrite (so_connected _ _ Hs). }
  assert (∀ k j e, cur cfg' k j e → e ∈ names → k = i) as Hnew.
  { intros k j e Hk [j' Hj']%list_elem_of_lookup. eapply (lo_inj _ Hl' k j i j' e Hk).
    exists names. rewrite (rs_endnames _ _ _ _ R), list_lookup_insert_eq; [done|].
    by rewrite (so_endnames _ _ Hs). }
  exists cfg'. split_and!; [done..| |].
  - intros j e He. apply not_true_iff_false. rewrite (lo_enabled _ Hl').
    intros (k & j' & Hk & Hck & Hcj). destruct (decide (k = i)) as [->|Hne]; [done|].
    destruct Hk as (row & Hrow & Hj'). rewrite (rs_endnames _ _ _ _ R), list_lookup_insert_ne in Hrow by done.
    destruct (lo_inj _ Hl i j k j' e He) as [Heq _]; [by exists row|congruence].
  - intros e He. apply not_true_iff_false. rewrite (lo_enabled _ Hl').
    intros (k & j' & Hk & Hck & _). by rewrite (Hnew k j' e Hk He) in Hck.
Qed.

(** Two peers. *)
Definition demo_names (k : Z) : list string :=
  if bool_decide (k = 0) then ["a"; "b"] else ["c"; "d"].

Abbreviation demo_make :=
  (make_config (V := Z) (W := unit) (A := Z) (RT := unit) (λ _, []) (Z.of_nat 2) false demo_names).

Lemma demo_fresh :
  (let! cfg := demo_make in Ret (bool_decide (Forall (λ e, e ∉ rn_ends (c_net cfg)) ["e"; "f"]))) = Ret true.
Proof. by vm_compute. Qed.

Lemma harness_links_witness :
  ∃ cfg cfg', demo_make = Ret cfg ∧ conn cfg 1 ∧
    run_ops (λ _, []) cfg [HDisconnect 0; HCrash 1] = Ret cfg' ∧
    ∀ e, enabled_of (c_net cfg') e = true ↔ ∃ i j, cur cfg' i j e ∧ conn cfg' i ∧ conn cfg' j.
Proof.
  destruct (harness_links (V := Z) (W := unit) (A := Z) (RT := unit) (λ _, []) 2 false demo_names)
    as (cfg & Hm & Hc & Hops).
  { intros k. unfold demo_names. by case_bool_decide. }
  { compute_done. }
  destruct (Hops [HDisconnect 0; HCrash 1]) as (cfg' & Hr & Hen & _).
  { simpl. split; [lia|]. intros cfg1 _. split; [lia|done]. }
  exists cfg, cfg'. split; [exact Hm|]. split; [apply Hc; lia|]. by split.
Defined.

Lemma start1_isolates_witness :
  ∃ cfg cfg', demo_make = Ret cfg ∧ start1 (λ _, []) cfg (Z.of_nat 0) ["e"; "f"] = Ret cfg' ∧
    (∀ j e, cur cfg 0 j e → enabled_of (c_net cfg') e = false) ∧
    enabled_of (c_net cfg') "f" = false.
Proof.
  destruct (make_config_spec (V := Z) (W := unit) (A := Z) (RT := unit) (λ _, []) 2 false demo_names)
    as (cfg & Hm & Hs & Hl & _).
  { intros k. unfold demo_names. by case_bool_decide. }
  { compute_done. }
  pose proof demo_fresh as Hf. rewrite Hm in Hf. injection Hf as Hf.
  apply bool_decide_eq_true in Hf. rewrite Forall_forall in Hf.
  destruct (start1_isolates (λ _, []) cfg 2 0 ["e"; "f"] Hs Hl) as (cfg' & Hst & _ & Hold & Hnew);
    [lia|done|compute_done|exact Hf|].
  exists cfg, cfg'. split; [exact Hm|]. split_and!; [exact Hst|exact Hold|]. apply Hnew. right. left.
Defined.
