(* ===== verification/RaftChecks.v ===== *)
(** * What the checks of the Raft harness establish

    The applier's log checks, [nCommitted], [checkOneLeader], [checkTerms],
    [wait] and [one] of raft/config.go. *)
From stdpp Require Import base gmap sets numbers strings sorting list.
From S2P Require Import Prelude Labrpc NetAdmin Raft RaftConfig RaftConfigProof.
Local Open Scope Z_scope.
Local Open Scope go_scope.

Section applier.
Context {V W A RT : Type} `{EqDecision V}.
Implicit Types (cfg : config V W A RT) (logs : list (rlog V)) (l : rlog V) (v : V).

(** No two peers committed different values at an index. *)
Definition logs_agree logs : Prop :=
  ∀ i j l l' idx v v', logs !! i = Some l → logs !! j = Some l' →
    l !! idx = Some v → l' !! idx = Some v' → v = v'.

(** Each peer committed its entries in order. *)
Definition logs_contiguous logs : Prop :=
  ∀ i l idx, logs !! i = Some l → is_Some (l !! idx) → 1 < idx → is_Some (l !! (idx - 1)).

Definition logs_below logs (m : Z) : Prop :=
  ∀ i l idx, logs !! i = Some l → is_Some (l !! idx) → idx ≤ m.

Lemma conflicts_true logs idx v :
  conflicts logs idx v = true ↔ ∃ j l old, logs !! j = Some l ∧ l !! idx = Some old ∧ old ≠ v.
Proof.
  unfold conflicts. rewrite existsb_exists. setoid_rewrite <-list_elem_of_In. split.
  - intros (l & [j Hj]%list_elem_of_lookup & Hl). destruct (l !! idx) as [old|] eqn:Ho; [|done].
    apply bool_decide_eq_true in Hl. by exists j, l, old.
  - intros (j & l & old & Hj & Ho & Hne). exists l. split; [by eapply list_elem_of_lookup_2|].
    rewrite Ho. by apply bool_decide_eq_true.
Qed.

Lemma conflicts_false logs idx v :
  conflicts logs idx v = false ↔ ∀ j l old, logs !! j = Some l → l !! idx = Some old → old = v.
Proof.
  rewrite <-not_true_iff_false, conflicts_true. split.
  - intros Hn j l old Hj Ho. destruct (decide (old = v)) as [|Hne]; [done|].
    destruct Hn. by exists j, l, old.
  - intros Hall (j & l & old & Hj & Ho & Hne). by destruct (Hne (Hall j l old Hj Ho)).
Qed.

Lemma applier_step_Ret cfg (i : nat) (m : ApplyMsg V) cfg' l :
  CommandValid m = true → c_logs cfg !! i = Some l →
  applier_step cfg (Z.of_nat i) m = Ret cfg' ↔
    conflicts (c_logs cfg) (CommandIndex m) (Command m) = false ∧
    (1 < CommandIndex m → is_Some (l !! (CommandIndex m - 1))) ∧
    cfg' = with_logs cfg (<[i := <[CommandIndex m := Command m]> l]> (c_logs cfg))
             (Z.max (c_maxIndex cfg) (CommandIndex m)).
Proof.
  intros Hv Hl. unfold applier_step. rewrite Hv. simpl. rewrite slice_get_nat, Hl. simpl.
  rewrite slice_set_nat by (by eapply lookup_lt_Some). simpl.
  replace (if bool_decide (CommandIndex m > c_maxIndex cfg) then CommandIndex m else c_maxIndex cfg)
    with (Z.max (c_maxIndex cfg) (CommandIndex m)) by (case_bool_decide; lia).
  destruct (conflicts _ _ _); simpl; [naive_solver|].
  destruct (decide (1 < CommandIndex m)) as [Hi|Hi];
    [rewrite bool_decide_eq_true_2 by lia|rewrite bool_decide_eq_false_2 by lia]; simpl; [|naive_solver].
  case_bool_decide; simpl; naive_solver.
Qed.

Definition logs_ok cfg : Prop :=
  logs_agree (c_logs cfg) ∧ logs_contiguous (c_logs cfg) ∧ logs_below (c_logs cfg) (c_maxIndex cfg).

Lemma applier_step_ok cfg (i : nat) (m : ApplyMsg V) cfg' :
  applier_step cfg (Z.of_nat i) m = Ret cfg' → logs_ok cfg → logs_ok cfg'.
Proof.
  intros Hstep (Ha & Hc & Hb).
  destruct (CommandValid m) eqn:Hv; [|unfold applier_step in Hstep; rewrite Hv in Hstep; by injection Hstep as <-].
  destruct (c_logs cfg !! i) as [l|] eqn:Hl; last first.
  { unfold applier_step in Hstep. rewrite Hv in Hstep. simpl in Hstep. by rewrite slice_get_nat, Hl in Hstep. }
  apply (applier_step_Ret cfg i m cfg' l Hv Hl) in Hstep as (Hcf & Hprev & ->).
  rewrite conflicts_false in Hcf. set (idx := CommandIndex m) in *. set (v := Command m) in *.
  assert (∀ j lj k u, <[i := <[idx := v]> l]> (c_logs cfg) !! j = Some lj → lj !! k = Some u →
    (k = idx ∧ u = v) ∨ ∃ lj', c_logs cfg !! j = Some lj' ∧ lj' !! k = Some u) as Hold.
  { intros j lj k u [(<- & <- & _)|[_ Hj]]%list_lookup_insert_Some Hk; [|right; by exists lj].
    apply lookup_insert_Some in Hk as [[<- <-]|[_ Hk]]; [by left|right; by exists l]. }
  split_and!; simpl.
  - intros j j' lj lj' k u u' Hj Hj' Hk Hk'.
    destruct (Hold _ _ _ _ Hj Hk) as [[-> ->]|(l1 & H1 & Hk1)],
      (Hold _ _ _ _ Hj' Hk') as [[? ->]|(l2 & H2 & Hk2)]; [done|..].
    + symmetry. by eapply Hcf.
    + subst k. by eapply Hcf.
    + by eapply (Ha j j').
  - intros j lj k Hj Hk Hlt. apply list_lookup_insert_Some in Hj as [(<- & <- & _)|[_ Hj]]; [|by eapply Hc].
    rewrite lookup_insert_is_Some'. destruct (decide (k = idx)) as [->|Hne]; [right; by apply Hprev|].
    rewrite lookup_insert_ne in Hk by done. right. by apply (Hc i l k Hl Hk).
  - intros j lj k Hj [u Hk]. destruct (Hold _ _ _ _ Hj Hk) as [[-> _]|(l1 & H1 & Hk1)]; [lia|].
    specialize (Hb j l1 k H1 ltac:(by eexists)). lia.
Qed.

Lemma applier_ok cfg (ms : list (nat * ApplyMsg V)) cfg' :
  applier cfg (prod_map Z.of_nat id <$> ms) = Ret cfg' → logs_ok cfg → logs_ok cfg'.
Proof.
  revert cfg. induction ms as [|[i m] ms IH]; intros cfg Hm Hok; csimpl in *; [by injection Hm as <-|].
  simpl in Hm. inv_ret. eapply IH; [done|]. by eapply applier_step_ok.
Qed.

(** ** nCommitted *)

(** Peer [i] committed [v] at [index]. *)
Definition holds logs (index i : Z) v : Prop := ∃ l, slice_get logs i = Ret l ∧ l !! index = Some v.

Definition holder logs (index i : Z) : Prop :=
  match slice_get logs i with Ret l => is_Some (l !! index) | _ => False end.
#[export] Instance holder_dec logs index i : Decision (holder logs index i).
Proof. unfold holder. destruct (slice_get logs i); apply _. Defined.

Lemma holder_holds logs index i : holder logs index i ↔ ∃ v, holds logs index i v.
Proof.
  unfold holder, holds. destruct (slice_get logs i) as [l| |]; split; try done.
  - intros [v Hv]. by exists v, l.
  - intros (v & l' & [= <-] & Hv). by exists v.
  - by intros (v & l' & ? & _).
  - by intros (v & l' & ? & _).
Qed.

Lemma nCommitted_loop_spec logs (ids : list Z) (index count : Z) (cmd : option V) :
  0 ≤ count → (∀ i, i ∈ ids → 0 ≤ i < zlen logs) →
  (count > 0 ↔ is_Some cmd) →
  match nCommitted_loop logs ids index count cmd with
  | Ret (nd, cmd') =>
      nd = count + zlen (filter (holder logs index) ids) ∧
      (∀ i v, i ∈ ids → holds logs index i v → cmd' = Some v) ∧ (is_Some cmd → cmd' = cmd) ∧
      (nd > 0 ↔ is_Some cmd') ∧ (∀ v, cmd' = Some v → cmd = Some v ∨ ∃ i, i ∈ ids ∧ holds logs index i v)
  | Panic => ∃ v v', v ≠ v' ∧ (∃ i, i ∈ ids ∧ holds logs index i v') ∧
      (cmd = Some v ∨ ∃ i, i ∈ ids ∧ holds logs index i v)
  | NoFuel => False
  end.
Proof.
  revert count cmd. induction ids as [|i ids IH]; intros count cmd Hc Hids Hcmd; simpl.
  { split_and!; [lia|set_solver|done|done|by left]. }
  destruct (slice_get_in_range logs i) as (l & Hl & _); [apply Hids; left|].
  assert (∀ j, j ∈ ids → 0 ≤ j < zlen logs) as Hids' by (intros; apply Hids; by right).
  rewrite Hl. simpl. rewrite filter_cons. destruct (l !! index) as [cmd1|] eqn:Hidx.
  - assert (holds logs index i cmd1) as Hi by (by exists l).
    rewrite decide_True by (apply holder_holds; by exists cmd1).
    case_bool_decide as Hconf.
    { destruct Hconf as [Hpos Hne]. apply Hcmd in Hpos as [v ->]. exists v, cmd1.
      split; [congruence|]. split; [exists i; by split; [left|]|by left]. }
    specialize (IH (count + 1) (Some cmd1) ltac:(lia) Hids' ltac:(split; [by eexists|lia])).
    destruct (nCommitted_loop _ _ _ _ _) as [[nd cmd']| |]; [|..|done].
    + destruct IH as (-> & Hall & Hkeep & Hpos & Hfrom). rewrite (Hkeep ltac:(by eexists)) in *.
      split_and!; [simpl; lia| | |done|].
      * intros j u [->|Hj]%elem_of_cons Hu; [|by eapply Hall].
        destruct Hu as (l' & Hl' & Hu). congruence.
      * intros [v ->]. assert (count > 0) as Hgt by (apply Hcmd; by eexists). 
        destruct (decide (Some v = Some cmd1)) as [<-|Hne]; [done|]. by destruct Hconf.
      * intros u [= <-]. right. exists i. by split; [left|].
    + destruct IH as (v & v' & Hne & (j & Hj & Hv') & Hv). exists v, v'. split; [done|].
      split; [exists j; by split; [right|]|]. right.
      destruct Hv as [[= <-]|(k & Hk & Hv)]; [exists i|exists k]; (split; [by constructor|done]).
  - rewrite decide_False by (rewrite holder_holds; intros (u & l' & Hl' & Hu); congruence).
    specialize (IH count cmd Hc Hids' Hcmd).
    destruct (nCommitted_loop _ _ _ _ _) as [[nd cmd']| |]; [|..|done].
    + destruct IH as (-> & Hall & Hkeep & Hpos & Hfrom). split_and!; [done| |done|done|].
      * intros j u [->|Hj]%elem_of_cons Hu; [|by eapply Hall].
        destruct Hu as (l' & Hl' & Hu). congruence.
      * intros v Hv. destruct (Hfrom v Hv) as [?|(j & Hj & ?)]; [by left|right].
        exists j. by split; [right|].
    + destruct IH as (v & v' & Hne & (j & Hj & Hv') & Hv). exists v, v'. split; [done|].
      split; [exists j; by split; [right|]|].
      destruct Hv as [?|(k & Hk & Hv)]; [by left|right; exists k; by split; [right|]].
Qed.

(** The peers that committed an entry at [index], by position. *)
Definition holders logs (index : Z) : list Z := filter (holder logs index) (seqZ 0 (zlen logs)).

Lemma nCommitted_Ret cfg index nd cmd :
  length (c_rafts cfg) = length (c_logs cfg) → nCommitted cfg index = Ret (nd, cmd) →
  nd = zlen (holders (c_logs cfg) index) ∧ (∀ i v, holds (c_logs cfg) index i v → cmd = Some v) ∧
  (nd > 0 ↔ is_Some cmd).
Proof.
  intros Hlen Hn. unfold nCommitted in Hn. rewrite Hlen in Hn.
  pose proof (nCommitted_loop_spec (c_logs cfg) (seqZ 0 (zlen (c_logs cfg))) index 0 None) as Hs.
  rewrite Hn in Hs. destruct Hs as (-> & Hall & _ & Hpos & _); [lia| |by split; [lia|intros [? ?]]|].
  { intros i Hi%elem_of_seqZ. lia. }
  split_and!; [done| |done]. intros i v Hi. apply (Hall i); [|done].
  destruct Hi as (l & [Hi Hl]%slice_get_Ret & _). apply lookup_lt_Some in Hl. apply elem_of_seqZ. lia.
Qed.

Lemma holds_lookup logs index i v : holds logs index i v → ∃ (k : nat) l, logs !! k = Some l ∧ l !! index = Some v.
Proof. intros (l & [_ Hl]%slice_get_Ret & Hv). by eexists _, l. Qed.

Lemma nCommitted_agree cfg index :
  length (c_rafts cfg) = length (c_logs cfg) → logs_agree (c_logs cfg) →
  ∃ cmd, nCommitted cfg index = Ret (zlen (holders (c_logs cfg) index), cmd) ∧
    (∀ v, cmd = Some v ↔ ∃ i, holds (c_logs cfg) index i v).
Proof.
  intros Hlen Ha. unfold nCommitted. rewrite Hlen.
  pose proof (nCommitted_loop_spec (c_logs cfg) (seqZ 0 (zlen (c_logs cfg))) index 0 None) as Hs.
  destruct (nCommitted_loop _ _ _ _ _) as [[nd cmd]| |].
  - destruct Hs as (-> & Hall & _ & Hpos & Hfrom); [lia| |by split; [lia|intros [? ?]]|].
    { intros i Hi%elem_of_seqZ. lia. }
    exists cmd. split; [done|]. intros v. split.
    + intros Hv. destruct (Hfrom v Hv) as [?|(i & _ & Hi)]; [done|by exists i].
    + intros (i & Hi). apply (Hall i); [|done].
      destruct Hi as (l & [Hi Hl]%slice_get_Ret & _). apply lookup_lt_Some in Hl. apply elem_of_seqZ. lia.
  - destruct Hs as (v & v' & Hne & (i & _ & Hi) & [?|(j & _ & Hj)]); [lia| |by split; [lia|intros [? ?]]|done|].
    { intros i Hi%elem_of_seqZ. lia. }
    apply holds_lookup in Hi as (k & l & Hk & Hv'), Hj as (k' & l' & Hk' & Hv).
    destruct Hne. by eapply (Ha k' k).
  - destruct Hs; [lia| |by split; [lia|intros [? ?]]]. intros i Hi%elem_of_seqZ. lia.
Qed.
End applier.

(** ** Leaders *)
Section leaders.
Context {V W A RT : Type} (range : gmap Z (list Z) → list (Z * list Z)).
Context (range_perm : ∀ m, range m ≡ₚ map_to_list m).
Implicit Types (cfg : config V W A RT) (st : Z → Z * bool) (i j t : Z).

(** Peer [i] is connected and says that it leads term [t]. *)
Definition claims cfg st i t : Prop :=
  slice_get (c_connected cfg) i = Ret true ∧ st i = (t, true).

Definition claimsb cfg st t i : bool :=
  match slice_get (c_connected cfg) i with Ret c => c && bool_decide (st i = (t, true)) | _ => false end.

Lemma claimsb_claims cfg st t i : claimsb cfg st t i = true ↔ claims cfg st i t.
Proof.
  unfold claimsb, claims. destruct (slice_get (c_connected cfg) i) as [[|]| |]; simpl;
    rewrite ?bool_decide_eq_true; naive_solver.
Qed.

(** Nobody leads; [i] leads the last of the terms that are led, and no term
    is led twice. *)
Definition quiet cfg st (n : Z) : Prop := ∀ i t, 0 ≤ i < n → ¬ claims cfg st i t.
Definition one_each cfg st (n : Z) : Prop :=
  ∀ i j t, 0 ≤ i < n → 0 ≤ j < n → claims cfg st i t → claims cfg st j t → i = j.
Definition elected cfg st (n : Z) i : Prop :=
  0 ≤ i < n ∧ one_each cfg st n ∧
  ∃ t, claims cfg st i t ∧ ∀ j t', 0 ≤ j < n → claims cfg st j t' → t' ≤ t.

Definition led cfg st (ids : list Z) t : list Z := filter (λ i, claimsb cfg st t i = true) ids.

(** Entry [t] of the map holds the peers that lead [t], and is there if there
    are any. *)
Definition leaders_of (leaders : gmap Z (list Z)) (f : Z → list Z) : Prop :=
  ∀ t, leaders !! t = if decide (f t = []) then None else Some (f t).

Lemma collect_leaders_spec cfg st (ids : list Z) (leaders : gmap Z (list Z)) (f : Z → list Z) :
  (∀ i, i ∈ ids → 0 ≤ i < zlen (c_connected cfg)) → leaders_of leaders f →
  ∃ leaders', collect_leaders cfg st ids leaders = Ret leaders' ∧
    leaders_of leaders' (λ t, f t ++ led cfg st ids t).
Proof.
  revert leaders f. induction ids as [|i ids IH]; intros leaders f Hids Hf; simpl.
  { exists leaders. split; [done|]. intros t. by rewrite app_nil_r. }
  destruct (slice_get_in_range (c_connected cfg) i) as (c & Hc & _); [apply Hids; left|].
  assert (∀ j, j ∈ ids → 0 ≤ j < zlen (c_connected cfg)) as Hids' by (intros; apply Hids; by right).
  rewrite Hc. simpl.
  assert (∀ t, led cfg st (i :: ids) t =
    (if decide (c = true ∧ st i = (t, true)) then [i] else []) ++ led cfg st ids t) as Hled.
  { intros t. unfold led. rewrite filter_cons.
    assert (claimsb cfg st t i = true ↔ c = true ∧ st i = (t, true)) as Hci.
    { rewrite claimsb_claims. unfold claims. rewrite Hc. naive_solver. }
    by destruct (decide (c = true ∧ st i = (t, true))) as [Hd|Hd];
      [rewrite decide_True by (by apply Hci)|rewrite decide_False by (by rewrite Hci)]. }
  destruct c; [destruct (st i) as [term [|]] eqn:Hst|].
  - destruct (IH (<[term := default [] (leaders !! term) ++ [i]]> leaders)
      (λ t, f t ++ if decide (t = term) then [i] else []) Hids') as (leaders' & -> & Hl).
    { intros t. destruct (decide (t = term)) as [->|Hne].
      - rewrite lookup_insert_eq, Hf.
        rewrite (decide_False (P := _ ++ [i] = [])) by (by destruct (f term)).
        destruct (decide (f term = [])) as [Hfe|Hfe]; simpl; [by rewrite Hfe|done].
      - rewrite lookup_insert_ne by done. by rewrite app_nil_r, Hf. }
    exists leaders'. split; [done|]. intros t. rewrite (Hl t), Hled, <-(assoc_L (++)).
    assert ((if decide (t = term) then [i] else []) =
      (if decide (true = true ∧ (term, true) = (t, true)) then [i] else [])) as ->; [|done].
    repeat case_decide; naive_solver.
  - destruct (IH leaders f Hids' Hf) as (leaders' & -> & Hl). exists leaders'. split; [done|].
    intros t. rewrite (Hl t), Hled. rewrite (decide_False (P := true = true ∧ _)) by naive_solver. done.
  - destruct (IH leaders f Hids' Hf) as (leaders' & -> & Hl). exists leaders'. split; [done|].
    intros t. rewrite (Hl t), Hled. rewrite (decide_False (P := false = true ∧ _)) by naive_solver. done.
Qed.

Definition short (ls : list (Z * list Z)) : Prop := Forall (λ p, zlen (snd p) ≤ 1) ls.

Lemma last_term_short (ls : list (Z * list Z)) (m : Z) :
  short ls →
  ∃ m', last_term ls m = Ret m' ∧ m ≤ m' ∧ (∀ t l, (t, l) ∈ ls → t ≤ m') ∧
    (m' = m ∨ ∃ l, (m', l) ∈ ls).
Proof.
  intros Hs. revert m. induction Hs as [|[t l] ls Hlen Hs IH]; intros m; simpl.
  { exists m. split_and!; [done|lia| |by left]. by intros t l ?%not_elem_of_nil. }
  simpl in Hlen. rewrite bool_decide_eq_false_2 by lia.
  destruct (IH (if bool_decide (t > m) then t else m)) as (m' & -> & Hle & Hmax & Hin).
  exists m'. split; [done|].
  assert (m ≤ m' ∧ t ≤ m') as [Hm Ht] by (case_bool_decide; lia).
  split; [done|]. split.
  + intros t' l' [[= -> ->]|Hin']%elem_of_cons; [done|by eapply Hmax].
  + destruct Hin as [->|[l' Hl']]; [|right; exists l'; by right].
    case_bool_decide; [right; exists l; left|by left].
Qed.

Lemma last_term_long (ls : list (Z * list Z)) (m : Z) : ¬ short ls → last_term ls m = Panic.
Proof.
  revert m. induction ls as [|[t l] ls IH]; intros m Hs; simpl; [by destruct Hs; constructor|].
  case_bool_decide as Hlen; [done|]. apply IH. intros Hs'. apply Hs. constructor; [simpl; lia|done].
Qed.

Lemma elem_of_led cfg st n t i : i ∈ led cfg st (seqZ 0 n) t ↔ 0 ≤ i < n ∧ claims cfg st i t.
Proof.
  unfold led. rewrite list_elem_of_filter, claimsb_claims, elem_of_seqZ.
  split; [intros [? ?]|intros [? ?]]; (split; [|done || lia]); (done || lia).
Qed.

Lemma led_short cfg st n t :
  zlen (led cfg st (seqZ 0 n) t) ≤ 1 ↔
  ∀ i j, i ∈ led cfg st (seqZ 0 n) t → j ∈ led cfg st (seqZ 0 n) t → i = j.
Proof.
  assert (NoDup (led cfg st (seqZ 0 n) t)) as Hnd by apply NoDup_filter, NoDup_seqZ.
  destruct (led cfg st (seqZ 0 n) t) as [|i [|j l]]; simpl.
  - split; [set_solver|lia].
  - split; [|lia]. intros _ k k' ->%list_elem_of_singleton ->%list_elem_of_singleton. done.
  - split; [lia|]. intros Heq. apply NoDup_cons in Hnd as [Hni _]. destruct Hni.
    rewrite (Heq i j) by (repeat constructor). left.
Qed.

(** One round of the loop. *)
Lemma leader_round cfg st (n : Z) (looks : list (Z → Z * bool)) :
  c_n cfg = n → zlen (c_connected cfg) = n →
  (∀ i t, 0 ≤ i < n → claims cfg st i t → 0 ≤ t) →
  (quiet cfg st n ∧ checkOneLeader_loop range cfg (st :: looks) = checkOneLeader_loop range cfg looks) ∨
  (∃ i, ¬ quiet cfg st n ∧ elected cfg st n i ∧ checkOneLeader_loop range cfg (st :: looks) = Ret i) ∨
  (¬ quiet cfg st n ∧ ¬ one_each cfg st n ∧ checkOneLeader_loop range cfg (st :: looks) = Panic).
Proof.
  intros Hn Hlen Hpos. simpl. rewrite Hn.
  destruct (collect_leaders_spec cfg st (seqZ 0 n) ∅ (λ _, [])) as (leaders & -> & Hl).
  { intros i Hi%elem_of_seqZ. lia. }
  { intros t. by rewrite decide_True. }
  simpl in Hl. simpl.
  assert (∀ t l, (t, l) ∈ range leaders ↔ l = led cfg st (seqZ 0 n) t ∧ l ≠ []) as Hrange.
  { intros t l. rewrite range_perm, elem_of_map_to_list, (Hl t). case_decide; naive_solver. }
  destruct (decide (Forall (λ p, zlen (snd p) ≤ 1) (range leaders))) as [Hall|Hall].
  - pose proof (last_term_short (range leaders) (-1) Hall) as Hlt.
    assert (one_each cfg st n) as Hone.
    { intros i j t Hi Hj Hci Hcj. apply (proj1 (led_short cfg st n t)); [|by apply elem_of_led..].
      rewrite Forall_forall in Hall. apply (Hall (t, led cfg st (seqZ 0 n) t)), Hrange.
      split; [done|]. intros Hnil. apply (not_elem_of_nil i). rewrite <-Hnil. by apply elem_of_led. }
    destruct Hlt as (m & -> & Hm & Hmax & Hin). simpl. case_bool_decide as Hemp.
    + right. left. destruct Hin as [->|[l Hin]].
      { destruct (map_choose leaders Hemp) as (t & l & Htl).
        assert ((t, l) ∈ range leaders) as Hr by (by rewrite range_perm, elem_of_map_to_list).
        pose proof (Hmax t l Hr). apply Hrange in Hr as [-> Hne].
        destruct (led cfg st (seqZ 0 n) t) as [|i ?] eqn:Hled; [done|].
        assert (i ∈ led cfg st (seqZ 0 n) t) as [Hi Hc]%elem_of_led by (rewrite Hled; left).
        specialize (Hpos i t Hi Hc). lia. }
      apply Hrange in Hin as [-> Hne]. rewrite (Hl m), decide_False by done. simpl.
      destruct (led cfg st (seqZ 0 n) m) as [|i ?] eqn:Hled; [done|].
      assert (i ∈ led cfg st (seqZ 0 n) m) as [Hi Hc]%elem_of_led by (rewrite Hled; left).
      exists i. split; [intros Hq; by apply (Hq i m)|]. split; [|done].
      split; [done|]. split; [done|]. exists m. split; [done|]. intros j t Hj Hcj.
      apply (Hmax t (led cfg st (seqZ 0 n) t)), Hrange. split; [done|]. intros Hnil.
      apply (not_elem_of_nil j). rewrite <-Hnil. by apply elem_of_led.
    + left. split; [|done]. intros i t Hi Hc.
      specialize (Hl t). rewrite Hemp, lookup_empty in Hl. case_decide as Hnil; [|done].
      apply (not_elem_of_nil i). rewrite <-Hnil. by apply elem_of_led.
  - rewrite last_term_long by done. right. right.
    apply not_Forall_Exists in Hall; [|apply _]. apply Exists_exists in Hall as ([t l] & Hin & Hlong).
    apply Hrange in Hin as [-> Hne]. simpl in Hlong. split_and!; [|intros Hone|done].
    + intros Hq. destruct (led cfg st (seqZ 0 n) t) as [|i ?] eqn:Hled; [done|].
      assert (i ∈ led cfg st (seqZ 0 n) t) as [Hi Hc]%elem_of_led by (rewrite Hled; left).
      by apply (Hq i t).
    + destruct Hlong. apply led_short. intros i j [Hi Hci]%elem_of_led [Hj Hcj]%elem_of_led.
      by eapply Hone.
Qed.

Lemma elected_unique cfg st n i j : elected cfg st n i → elected cfg st n j → i = j.
Proof.
  intros (Hi & Hone & t & Hc & Hmax) (Hj & _ & t' & Hc' & Hmax').
  pose proof (Hmax j t' Hj Hc'). pose proof (Hmax' i t Hi Hc).
  assert (t = t') as <- by lia. by eapply Hone.
Qed.

Lemma checkOneLeader_loop_spec cfg (n : Z) (looks : list (Z → Z * bool)) i :
  c_n cfg = n → zlen (c_connected cfg) = n →
  (∀ st j t, st ∈ looks → 0 ≤ j < n → claims cfg st j t → 0 ≤ t) →
  checkOneLeader_loop range cfg looks = Ret i ↔
  ∃ looks1 st looks2, looks = looks1 ++ st :: looks2 ∧ Forall (λ st', quiet cfg st' n) looks1 ∧
    elected cfg st n i.
Proof.
  intros Hn Hlen. induction looks as [|st looks IH]; intros Hpos.
  { split; [done|]. intros (l1 & ? & ? & ? & _). by destruct l1. }
  assert (∀ i, elected cfg st n i → ¬ quiet cfg st n) as Heq.
  { intros k (Hk & _ & t & Hc & _) Hq. by apply (Hq k t). }
  destruct (leader_round cfg st n looks Hn Hlen) as [[Hq ->]|[(k & Hnq & He & ->)|(Hnq & Hno & ->)]].
  - intros k t. apply Hpos. left.
  - rewrite IH by (intros; eapply Hpos; [by right|done..]). split.
    + intros (l1 & st' & l2 & -> & Hl1 & He). exists (st :: l1), st', l2.
      split_and!; [done|by constructor|done].
    + intros ([|st1 l1] & st' & l2 & Hl & Hl1 & He); injection Hl as -> ->.
      * by destruct (Heq i).
      * apply Forall_cons in Hl1 as [_ Hl1]. by exists l1, st', l2.
  - split.
    + intros [= <-]. by exists [], st, looks.
    + intros ([|st1 l1] & st' & l2 & Hl & Hl1 & He'); injection Hl as -> ->.
      * f_equal. by eapply elected_unique.
      * by apply Forall_cons in Hl1 as [? _].
  - split; [done|]. intros ([|st1 l1] & st' & l2 & Hl & Hl1 & He'); injection Hl as -> ->.
    + by destruct He' as (_ & ? & _).
    + by apply Forall_cons in Hl1 as [? _].
Qed.
End leaders.

(** ** Terms *)
Section terms.
Context {V W A RT : Type}.
Implicit Types (cfg : config V W A RT) (st : Z → Z * bool) (i t : Z).

Definition online cfg i : Prop := slice_get (c_connected cfg) i = Ret true.

Lemma checkTerms_loop_spec cfg st (ids : list Z) term t :
  (∀ i, i ∈ ids → 0 ≤ i < zlen (c_connected cfg)) → -1 ≤ term →
  (∀ i, i ∈ ids → online cfg i → 0 ≤ fst (st i)) →
  checkTerms_loop cfg st ids term = Ret t ↔
    (∀ i, i ∈ ids → online cfg i → fst (st i) = t) ∧ (term ≠ -1 → t = term) ∧
    (term = -1 → (∀ i, i ∈ ids → ¬ online cfg i) → t = -1).
Proof.
  revert term. induction ids as [|i ids IH]; intros term Hids Hterm Hpos; simpl.
  { split; [intros [= <-]; split_and!; [set_solver|done|done]|]. intros (_ & Hne & Heq). f_equal.
    destruct (decide (term = -1)) as [->|Hn]; symmetry; [apply Heq; set_solver|by apply Hne]. }
  destruct (slice_get_in_range (c_connected cfg) i) as (c & Hc & _); [apply Hids; left|].
  rewrite Hc. simpl. setoid_rewrite elem_of_cons.
  assert (∀ term', -1 ≤ term' → checkTerms_loop cfg st ids term' = Ret t ↔ _) as IH'
    by (intros term' Ht'; apply (IH term'); [intros; apply Hids; by right|done|intros; apply Hpos; [by right|done]]).
  destruct c.
  - assert (online cfg i) as Hi by done. pose proof (Hpos i ltac:(left) Hi) as Hp.
    case_bool_decide as Ht; [|case_bool_decide as Hx].
    + rewrite IH' by lia. split.
      * intros (Hall & Hne & _). split_and!; [|done|intros _ Hno; by destruct (Hno i ltac:(by left))].
        intros j [->|Hj] Hon; [symmetry; apply Hne; lia|by apply Hall].
      * intros (Hall & _ & Hno). split_and!; [intros j Hj; apply Hall; by right| |lia].
        intros _. symmetry. apply Hall; [by left|done].
    + split; [done|]. intros (Hall & Hne & _). destruct Hx. rewrite (Hall i ltac:(by left) Hi).
      symmetry. by apply Hne.
    + rewrite IH' by done. split.
      * intros (Hall & Hne & Heq). split_and!; [|done|done].
        intros j [->|Hj] Hon; [rewrite <-Hx; symmetry; by apply Hne|by apply Hall].
      * intros (Hall & Hne & Heq). split_and!; [intros j Hj; apply Hall; by right|done|done].
  - assert (¬ online cfg i) as Hi by (unfold online; congruence). rewrite IH' by done. split.
    + intros (Hall & Hne & Heq). split_and!; [|done|].
      * intros j [->|Hj]; [done|by apply Hall].
      * intros Ht Hno. apply Heq; [done|]. intros j Hj. apply Hno. by right.
    + intros (Hall & Hne & Heq). split_and!; [intros j Hj; apply Hall; by right|done|].
      intros Ht Hno. apply Heq; [done|]. intros j [->|Hj]; [done|by apply Hno].
Qed.

Lemma checkNoLeader_loop_spec cfg st (ids : list Z) :
  (∀ i, i ∈ ids → 0 ≤ i < zlen (c_connected cfg)) →
  checkNoLeader_loop cfg st ids = Ret tt ↔ ∀ i t, i ∈ ids → ¬ claims cfg st i t.
Proof.
  induction ids as [|i ids IH]; intros Hids; simpl.
  { split; [|done]. by intros _ i t ?%not_elem_of_nil. }
  destruct (slice_get_in_range (c_connected cfg) i) as (c & Hc & _); [apply Hids; left|].
  rewrite Hc. simpl. setoid_rewrite elem_of_cons. destruct (c && snd (st i))%bool eqn:Hb.
  - split; [done|]. intros Hall. apply andb_true_iff in Hb as [-> Hs].
    destruct (st i) as [t b] eqn:Hst. simpl in Hs. subst b. destruct (Hall i t ltac:(by left)).
    by split.
  - rewrite IH by (intros; apply Hids; by right). split.
    + intros Hall j t [->|Hj]; [|by apply Hall]. intros [Hon Hst].
      rewrite Hc in Hon. injection Hon as ->. by rewrite Hst in Hb.
    + intros Hall j t Hj. apply Hall. by right.
Qed.
End terms.

(** ** Waiting *)
Section waiting.
Context {V W A RT : Type} `{EqDecision V}.
Implicit Types (look : nat → config V W A RT * (Z → Z * bool)) (index n startTerm : Z).

Lemma wait_loop_moved look index n startTerm (iters k : nat) :
  ∀ r, wait_loop look index n startTerm iters k = Ret (Some r) →
  r = MovedOn ∧ startTerm > -1 ∧ ∃ k', (k ≤ k' < k + iters)%nat ∧ ∃ i, fst (snd (look k') i) > startTerm.
Proof.
  revert k. induction iters as [|iters IH]; intros k r; simpl; [done|].
  destruct (look k) as [cfg st] eqn:Hk. intros Hr. inv_ret. destruct v as [nd x].
  case_bool_decide; [done|]. destruct (_ && _) eqn:Hb.
  - injection Hk0 as <-. apply andb_true_iff in Hb as [Hst Hex]. apply bool_decide_eq_true in Hst.
    split; [done|]. split; [done|]. exists k. split; [lia|].
    apply existsb_exists in Hex as (i & _ & Hi%bool_decide_eq_true). exists i. by rewrite Hk.
  - destruct (IH (S k) r Hk0) as (-> & ? & k' & ? & ?). split; [done|]. split; [done|].
    exists k'. split; [lia|done].
Qed.

Lemma find_leader_spec (p : pass (V := V) (W := W) (A := A) (RT := RT)) n (k : nat) (starts starts' index : Z) :
  find_leader p n k starts = Ret (starts', index) → index ≠ -1 →
  pass_start p starts' = (index, true) ∧ online (pass_cfg p starts') starts' ∧
  ∃ rf, slice_get (c_rafts (pass_cfg p starts')) starts' = Ret (Some rf).
Proof.
  revert starts. induction k as [|k IH]; intros starts Hf Hne; simpl in Hf; [by injection Hf as <- <-|].
  set (s := Z.rem (starts + 1) n) in *. inv_ret. destruct v0 as [rf|]; [|by eapply IH].
  destruct (pass_start p s) as [index1 [|]] eqn:Hs; [|by eapply IH].
  injection Hk0 as <- <-. split; [done|]. destruct v; [|done]. split; [done|by exists rf].
Qed.

Lemma await_true (looks : list (config V W A RT)) index cmd n :
  await looks index cmd n = Ret true →
  ∃ cfg nd, cfg ∈ looks ∧ nCommitted cfg index = Ret (nd, Some cmd) ∧ nd > 0 ∧ nd >= n.
Proof.
  induction looks as [|cfg looks IH]; simpl; [done|]. intros Hr. inv_ret. destruct v as [nd cmd1].
  destruct (_ && _) eqn:Hb.
  - apply andb_true_iff in Hb as [Hnd%bool_decide_eq_true Hc%bool_decide_eq_true].
    subst cmd1. exists cfg, nd. split; [left|done].
  - destruct (IH Hk) as (cfg' & nd' & Hin & ?). exists cfg', nd'. split; [by right|done].
Qed.
End waiting.

(** C24: as long as no applier reports an error, the peers' logs agree on every
    index, each is committed in order, and none goes past [maxIndex]; and an
    error is reported exactly when a message contradicts some log or skips an
    index of its own log. *)
Theorem applier_checks {V W A RT : Type} `{EqDecision V} (cfg : config V W A RT) :
  logs_ok cfg →
  (∀ (ms : list (nat * ApplyMsg V)) cfg', applier cfg (prod_map Z.of_nat id <$> ms) = Ret cfg' → logs_ok cfg') ∧
  (∀ (i : nat) (m : ApplyMsg V) l, c_logs cfg !! i = Some l → CommandValid m = true →
    (returns (applier_step cfg (Z.of_nat i) m) ↔
      (∀ j lj old, c_logs cfg !! j = Some lj → lj !! CommandIndex m = Some old → old = Command m) ∧
      (1 < CommandIndex m → is_Some (l !! (CommandIndex m - 1))))).
Proof.
  intros Hok. split; [intros ms cfg' Ha; by eapply applier_ok|].
  intros i m l Hl Hv. unfold returns. setoid_rewrite (applier_step_Ret cfg i m _ l Hv Hl).
  rewrite <-conflicts_false. split; [naive_solver|]. intros [Hc Hp]. by eexists.
Qed.

(** on logs that agree, [nCommitted] never fails: it counts the peers that
    have an entry at the index, and returns the value they share. *)
Theorem nCommitted_counts {V W A RT : Type} `{EqDecision V} (cfg : config V W A RT) (index : Z) :
  length (c_rafts cfg) = length (c_logs cfg) → logs_agree (c_logs cfg) →
  ∃ cmd, nCommitted cfg index = Ret (zlen (holders (c_logs cfg) index), cmd) ∧
    (∀ v, cmd = Some v ↔ ∃ i, holds (c_logs cfg) index i v).
Proof. apply nCommitted_agree. Qed.

(** C25: [checkOneLeader] returns [i] exactly when, in the first of its ten
    rounds in which a connected peer claims to lead, no term is claimed twice
    and [i] claims the last of them. *)
Theorem checkOneLeader_spec {V W A RT : Type} (range : gmap Z (list Z) → list (Z * list Z))
    (cfg : config V W A RT) (look : nat → Z → Z * bool) (n i : Z) :
  (∀ m, range m ≡ₚ map_to_list m) → c_n cfg = n → zlen (c_connected cfg) = n →
  (∀ k j t, 0 ≤ j < n → claims cfg (look k) j t → 0 ≤ t) →
  checkOneLeader range cfg look = Ret i ↔
  ∃ k, (k < 10)%nat ∧ (∀ k', (k' < k)%nat → quiet cfg (look k') n) ∧ elected cfg (look k) n i.
Proof.
  intros Hr Hn Hlen Hpos. unfold checkOneLeader.
  rewrite (checkOneLeader_loop_spec range Hr cfg n) by
    (done || (intros st j t (k & -> & _)%list_elem_of_fmap; apply Hpos)).
  split.
  - intros (l1 & st & l2 & Heq & Hq & He).
    assert (∀ k st', l1 !! k = Some st' → st' = look k) as Hl1.
    { intros k st' Hk. assert ((look <$> seq 0 10) !! k = Some st') as Hk'.
      { rewrite Heq. by apply lookup_app_l_Some. }
      rewrite list_lookup_fmap in Hk'. by apply fmap_Some in Hk' as (k' & [-> _]%lookup_seq & ->). }
    assert ((look <$> seq 0 10) !! length l1 = Some st) as Hst by (rewrite Heq; by apply list_lookup_middle).
    rewrite list_lookup_fmap in Hst. apply fmap_Some in Hst as (k & [-> Hk]%lookup_seq & ->).
    exists (length l1). split; [done|]. split; [|done]. intros k' Hk'.
    destruct (lookup_lt_is_Some_2 l1 k' Hk') as [st' Hst'].
    rewrite <-(Hl1 k' st' Hst'). by eapply Forall_lookup_1 in Hq.
  - intros (k & Hk & Hq & He). exists (look <$> seq 0 k), (look k), (look <$> seq (S k) (9 - k)).
    split_and!; [|apply Forall_fmap, Forall_forall; intros k' Hk'%elem_of_seq; apply Hq; lia|done].
    replace 10%nat with (k + S (9 - k))%nat by lia. by rewrite seq_app, fmap_app.
Qed.

(** [checkTerms] returns the one term that every connected peer is in (-1
    if nobody is connected), and [checkNoLeader] passes exactly when no
    connected peer claims to lead. *)
Theorem checkTerms_spec {V W A RT : Type} (cfg : config V W A RT) (st : Z → Z * bool) (n : Z) :
  c_n cfg = n → zlen (c_connected cfg) = n →
  (∀ i, 0 ≤ i < n → online cfg i → 0 ≤ fst (st i)) →
  (∀ t, checkTerms cfg st = Ret t ↔
    (∀ i, 0 ≤ i < n → online cfg i → fst (st i) = t) ∧
    ((∀ i, 0 ≤ i < n → ¬ online cfg i) → t = -1)) ∧
  (checkNoLeader cfg st = Ret tt ↔ quiet cfg st n).
Proof.
  intros Hn Hlen Hpos.
  assert (∀ i, i ∈ seqZ 0 n ↔ 0 ≤ i < n) as Hseq by (intros i; rewrite elem_of_seqZ; lia).
  split; [intros t; unfold checkTerms|unfold checkNoLeader]; rewrite Hn.
  - rewrite checkTerms_loop_spec by (try done; intros i; rewrite Hseq; try (rewrite Hlen; done); apply Hpos).
    setoid_rewrite Hseq. naive_solver.
  - rewrite checkNoLeader_loop_spec by (intros i; rewrite Hseq, Hlen; done).
    unfold quiet. setoid_rewrite Hseq. naive_solver.
Qed.

(** [wait] answers -1 only if a peer was seen in a later term; and if it
    answers with a command, at the last look at least [n] peers had committed
    one at the index, and it is what each of them committed. *)
Theorem wait_sound {V W A RT : Type} `{EqDecision V} (look : nat → config V W A RT * (Z → Z * bool))
    (index n startTerm : Z) (r : wait_result (V := V)) :
  (∀ k, length (c_rafts (fst (look k))) = length (c_logs (fst (look k)))) →
  wait look index n startTerm = Ret r →
  match r with
  | MovedOn => startTerm > -1 ∧ ∃ k i, (k < 30)%nat ∧ fst (snd (look k) i) > startTerm
  | Cmd cmd =>
      let logs := c_logs (fst (look 30%nat)) in
      n ≤ zlen (holders logs index) ∧ (∀ i v, holds logs index i v → cmd = Some v) ∧
      (0 < n → is_Some cmd)
  end.
Proof.
  intros Hlen Hw. unfold wait in Hw. apply obind_Ret_inv in Hw as ([r'|] & Hloop & Hw).
  - injection Hw as <-. destruct (wait_loop_moved look index n startTerm 30 0 r' Hloop)
      as (-> & Hst & k & Hk & i & Hi). split; [done|]. exists k, i. split; [lia|done].
  - apply obind_Ret_inv in Hw as ([nd cmd] & Hn & Hw). case_bool_decide as Hnd; [done|].
    injection Hw as <-. destruct (nCommitted_Ret _ _ _ _ (Hlen 30%nat) Hn) as (-> & Hall & Hpos).
    split; [lia|]. split; [done|]. intros H0. apply Hpos. lia.
Qed.

(** C26: [one] returns an index only if a connected, running peer accepted the
    command there as leader, and at some look within the same two seconds at
    least [expectedServers] peers (and at least one) had committed an entry
    there, every one of them the command; without retry, it asks one leader
    at most. *)
Theorem one_sound {V W A RT : Type} `{EqDecision V} (n : Z) (cmd : V) (expectedServers : Z) (retry : bool)
    (ps : list (pass (V := V) (W := W) (A := A) (RT := RT))) (starts index : Z) :
  (∀ p cfg, p ∈ ps → cfg ∈ pass_looks p → length (c_rafts cfg) = length (c_logs cfg)) →
  one n cmd expectedServers retry ps starts = Ret index →
  ∃ ps1 p ps2, ps = ps1 ++ p :: ps2 ∧
    (∃ s, pass_start p s = (index, true) ∧ online (pass_cfg p s) s) ∧
    (∃ cfg, cfg ∈ pass_looks p ∧ let logs := c_logs cfg in
      expectedServers ≤ zlen (holders logs index) ∧ 0 < zlen (holders logs index) ∧
      ∀ i v, holds logs index i v → v = cmd) ∧
    (retry = false → Forall (λ p', ∃ s s', find_leader p' n (Z.to_nat n) s = Ret (s', -1)) ps1).
Proof.
  revert starts. induction ps as [|p ps IH]; intros starts Hlen Hone; simpl in Hone; [done|].
  apply obind_Ret_inv in Hone as ([starts' index1] & Hf & Hone).
  assert (∀ p' cfg, p' ∈ ps → cfg ∈ pass_looks p' → length (c_rafts cfg) = length (c_logs cfg)) as Hlen'
    by (intros p' cfg Hp'; apply Hlen; by right).
  assert (∀ s, one n cmd expectedServers retry ps s = Ret index →
    (retry = false → index1 = -1) → _) as Hnext by (intros s Hs Hr; exact (conj Hr (IH s Hlen' Hs))).
  clear IH. case_bool_decide as Hidx; [apply obind_Ret_inv in Hone as ([|] & Haw & Hone)|].
  - injection Hone as <-. destruct (find_leader_spec p n _ _ _ _ Hf Hidx) as (Hs & Hon & _).
    destruct (await_true _ _ _ _ Haw) as (cfg & nd & Hin & Hn & Hpos & Hexp).
    destruct (nCommitted_Ret cfg index1 nd _ (Hlen p cfg ltac:(left) Hin) Hn) as (-> & Hall & _).
    exists [], p, ps. split; [done|]. split; [by exists starts'|]. split; [|by constructor].
    exists cfg. split; [done|]. split_and!; [lia|lia|]. intros i v Hv. specialize (Hall i v Hv). congruence.
  - destruct retry; simpl in Hone; [|done].
    destruct (Hnext starts' Hone ltac:(done)) as (_ & ps1 & p' & ps2 & -> & ? & ? & ?).
    exists (p :: ps1), p', ps2. by split_and!.
  - destruct (Hnext starts' Hone ltac:(done)) as (_ & ps1 & p' & ps2 & -> & ? & ? & Hret).
    exists (p :: ps1), p', ps2. split_and!; [done..|]. intros Hr. constructor; [|by apply Hret].
    exists starts, starts'. by rewrite Hf, Hidx.
Qed.

(** C27: against the peers of the skeleton, which never claim to lead and answer
    -1 to every command although they say they are leaders, [checkOneLeader]
    and [one] report a failure whatever the harness does. *)
Theorem skeleton_never_agrees {V W A RT : Type} `{EqDecision V} (range : gmap Z (list Z) → list (Z * list Z))
    (cfg : config V W A RT) (rf : Z → Raft) (n : nat) :
  (∀ m, range m ≡ₚ map_to_list m) → shape_ok cfg n →
  checkOneLeader range cfg (λ _ i, GetState (rf i)) = Panic ∧
  ∀ (cmd : V) expectedServers retry starts (ps : list (pass (V := V) (W := W) (A := A) (RT := RT))),
    0 ≤ starts →
    Forall (λ p, (∀ s, shape_ok (pass_cfg p s) n) ∧
                 ∀ i, pass_start p i = (let '(index, _, ok) := Raft_Start (rf i) cmd in (index, ok))) ps →
    one (Z.of_nat n) cmd expectedServers retry ps starts = Panic.
Proof.
  intros Hr Hs. split.
  - unfold checkOneLeader. generalize (seq 0 10). intros ks. induction ks as [|k ks IH]; [done|].
    rewrite fmap_cons. destruct (leader_round range Hr cfg (λ i, GetState (rf i)) (Z.of_nat n)
      ((λ _ i, GetState (rf i)) <$> ks)) as [[_ ->]|[(i & Hnq & _)|(Hnq & _)]];
      [apply (so_n _ _ Hs)|by rewrite (so_connected _ _ Hs)|by intros i t _ [_ [=]]|exact IH|..];
      destruct Hnq; by intros i' t _ [_ [=]].
  - intros cmd expectedServers retry starts ps. revert starts.
    induction ps as [|p ps IH]; intros starts Hst Hps; simpl; [done|].
    apply Forall_cons in Hps as [[Hp Hstart] Hps].
    assert (∀ k starts, 0 ≤ starts → (k = 0 ∨ n ≠ 0)%nat →
      ∃ s, find_leader p (Z.of_nat n) k starts = Ret (s, -1) ∧ 0 ≤ s) as Hf.
    { clear -Hp Hstart. induction k as [|k IH]; intros starts Hst Hk; simpl; [by exists starts|].
      set (s := Z.rem (starts + 1) (Z.of_nat n)).
      assert (0 ≤ s < Z.of_nat n) as Hsr.
      { unfold s. rewrite Z.rem_mod_nonneg by lia. apply Z.mod_pos_bound. lia. }
      destruct (slice_get_in_range (c_connected (pass_cfg p s)) s) as (c & -> & _).
      { rewrite (so_connected _ _ (Hp s)). lia. }
      destruct (slice_get_in_range (c_rafts (pass_cfg p s)) s) as (o & Ho & _).
      { rewrite (so_rafts _ _ (Hp s)). lia. }
      simpl. rewrite Ho, Hstart. destruct c, o; simpl; try (apply IH; lia).
      exists s. split; [done|lia]. }
    destruct (Hf (Z.to_nat (Z.of_nat n)) starts Hst ltac:(lia)) as (s & -> & Hs0). simpl. by apply IH.
Qed.

(** Three peers that have committed 7 at index 1, two of them 8 at index 2. *)
Definition demo_log : rlog Z := <[1 := 7]> ∅.
Definition demo_cfg : config Z unit Z unit :=
  MkConfig MakeNetwork ∅ 3 ∅ [Some 0%nat; Some 1%nat; None] [true; true; false] [None; None; None] ∅
    [None; None; None] [demo_log; <[2 := 8]> demo_log; <[2 := 8]> demo_log] 2.

Lemma demo_logs_ok : logs_ok demo_cfg.
Proof.
  assert (∀ i l, c_logs demo_cfg !! i = Some l → l = demo_log ∨ l = <[2 := 8]> demo_log) as Hl.
  { intros [|[|[|i]]] l [= <-]; [by left|by right|by right]. }
  assert (∀ l idx v, l = demo_log ∨ l = <[2 := 8]> demo_log → l !! idx = Some v →
    (idx = 1 ∧ v = 7) ∨ (idx = 2 ∧ v = 8)) as Hd.
  { intros l idx v [->| ->]; unfold demo_log; rewrite !lookup_insert_Some, lookup_empty; naive_solver. }
  split_and!.
  - intros i j l l' idx v v' Hi Hj Hv Hv'. destruct (Hd l idx v), (Hd l' idx v'); eauto; lia.
  - intros i l idx Hi [v Hv] Hlt. specialize (Hd l idx v (Hl _ _ Hi) Hv).
    assert (idx - 1 = 1) as -> by lia. destruct (Hl _ _ Hi) as [->| ->]; by eexists.
  - intros i l idx Hi [v Hv]. simpl. specialize (Hd l idx v (Hl _ _ Hi) Hv). lia.
Qed.

Lemma applier_checks_witness :
  logs_ok demo_cfg ∧ returns (applier_step demo_cfg (Z.of_nat 0) (MkApplyMsg true 8 2)).
Proof.
  destruct (applier_checks demo_cfg demo_logs_ok) as [_ Hstep]. split; [exact demo_logs_ok|].
  apply (Hstep 0%nat (MkApplyMsg true 8 2) demo_log); [done..|]. simpl. split; [|by eexists].
  intros [|[|[|j]]] lj old [= <-]; [done|by intros [= <-]..].
Defined.

Lemma nCommitted_counts_witness :
  ∃ cmd, nCommitted demo_cfg 2 = Ret (2, cmd) ∧ (cmd = Some 8 ↔ ∃ i, holds (c_logs demo_cfg) 2 i 8).
Proof.
  destruct (nCommitted_counts demo_cfg 2) as (cmd & Hn & Hc); [done|exact (proj1 demo_logs_ok)|].
  exists cmd. split; [exact Hn|apply Hc].
Defined.

(** Peers 0 and 1 lead terms 3 and 4, from the second round on. *)
Definition demo_look (k : nat) (i : Z) : Z * bool :=
  if bool_decide (k = 0%nat) then (3, false) else (3 + i, true).

Lemma demo_look_claims k j t : 0 ≤ j < 3 → claims demo_cfg (demo_look k) j t ↔ k ≠ 0%nat ∧ j < 2 ∧ t = 3 + j.
Proof.
  intros Hj. unfold claims, demo_look. assert (j = 0 ∨ j = 1 ∨ j = 2) as [->|[->| ->]] by lia;
    case_bool_decide; simpl; naive_solver lia.
Qed.

Lemma checkOneLeader_spec_witness : checkOneLeader (λ m, map_to_list m) demo_cfg demo_look = Ret 1.
Proof.
  apply (checkOneLeader_spec _ demo_cfg demo_look 3 1); [done..| |].
  - intros k j t Hj (_ & _ & ->)%demo_look_claims; lia.
  - exists 1%nat. split; [lia|]. split.
    + intros k' Hk' i t Hi (Hne & _)%demo_look_claims; lia.
    + split; [lia|]. split.
      * intros i j t Hi Hj (_ & _ & ->)%demo_look_claims (_ & _ & Heq)%demo_look_claims; lia.
      * exists 4. split; [by apply demo_look_claims|].
        intros j t' Hj (_ & Hlt & ->)%demo_look_claims; lia.
Defined.

Lemma checkTerms_spec_witness : checkTerms demo_cfg (demo_look 0) = Ret 3 ∧ checkNoLeader demo_cfg (demo_look 0) = Ret tt.
Proof.
  destruct (checkTerms_spec demo_cfg (demo_look 0) 3) as [Ht Hl]; [done|done|by intros|].
  split.
  - apply Ht. split; [done|]. intros Hno. destruct (Hno 0); done.
  - apply Hl. intros i t Hi (Hne & _)%demo_look_claims; [by destruct Hne|done].
Defined.

Lemma wait_sound_witness :
  wait (λ k, (demo_cfg, demo_look k)) 2 2 (-1) = Ret (Cmd (Some 8)) ∧ 2 ≤ zlen (holders (c_logs demo_cfg) 2).
Proof.
  assert (wait (λ k, (demo_cfg, demo_look k)) 2 2 (-1) = Ret (Cmd (Some 8))) as Hw by done.
  split; [exact Hw|].
  apply (wait_sound (λ k, (demo_cfg, demo_look k)) 2 2 (-1) (Cmd (Some 8)) ltac:(done) Hw).
Defined.

Definition demo_pass : pass (W := unit) (A := Z) (RT := unit) := MkPass (V := Z) (λ _, demo_cfg) (λ i, (2, bool_decide (i = 1))) [demo_cfg].

Lemma one_sound_witness :
  one 3 8 2 true [demo_pass] 0 = Ret 2 ∧
  ∃ cfg : config Z unit Z unit, 2 ≤ zlen (holders (c_logs cfg) 2) ∧ ∀ i v, holds (c_logs cfg) 2 i v → v = 8.
Proof.
  assert (one 3 8 2 true [demo_pass] 0 = Ret 2) as H1 by done. split; [exact H1|].
  destruct (one_sound 3 8 2 true [demo_pass] 0 2) as (ps1 & p & ps2 & _ & _ & (cfg & _ & Hn & _ & Hv) & _);
    [|exact H1|by exists cfg].
  intros p cfg ->%list_elem_of_singleton ->%list_elem_of_singleton. done.
Defined.

Lemma skeleton_never_agrees_witness :
  ∃ cfg, demo_make = Ret cfg ∧
    checkOneLeader (λ m, map_to_list m) cfg (λ _ i, GetState (MkRaft [] 0 i 0)) = Panic ∧
    one (Z.of_nat 2) 8 2 true [MkPass (λ _, cfg) (λ _, (-1, true)) []] 0 = Panic.
Proof.
  destruct (make_config_spec (V := Z) (W := unit) (A := Z) (RT := unit) (λ _, []) 2 false demo_names)
    as (cfg & Hm & Hs & _).
  { intros k. unfold demo_names. by case_bool_decide. }
  { compute_done. }
  destruct (skeleton_never_agrees (λ m, map_to_list m) cfg (λ i, MkRaft [] 0 i 0) 2) as [Hl Ho];
    [done|exact Hs|].
  exists cfg. split; [exact Hm|]. split; [exact Hl|]. apply Ho; [lia|].
  constructor; [|done]. split; [done|]. by intros i.
Defined.
